(* ===== verification/_CoqProject ===== *)
-Q . S2P
Prelude.v
DeepCopy.v
GoStd.v
Corev1.v
Api.v
Samples.v
Util.v
Common.v
Names.v
Status.v
Validate.v
Effects.v
Equiv.v
Repair.v
K8s.v
SentinelGen.v
StandaloneGen.v
Objects.v
RedisClient.v
SentinelCheck.v
SentinelHeal.v
SentinelClient.v
StandaloneService.v
Cache.v
Handler.v
SentinelHandler.v
StandaloneHandler.v
Controller.v
EnsureProps.v
Desired.v
ApiServer.v
RedisProps.v
HealProps.v
HandlerProps.v
FlowProps.v
Convergence.v
Cluster.v
System.v
Clash.v
Main.v
Settings.v
Monitors.v
Healthy.v
Rejoin.v
Steady.v
Recovery.v
Reconciliation.v
Whole.v
Threads.v
Locality.v
Workers.v
Serial.v
Startup.v
Lifecycle.v
Booting.v
UnitTests.v
