(* ===== verification/Prelude.v ===== *)
(** * A verification library for the cndb-redis operator

    The program is a Kubernetes operator in Go. It watches two kinds of custom
    resource, [RedisSentinel] (a replicated redis with sentinels) and
    [RedisStandalone] (one redis server), and for each of them creates and updates
    Services, ConfigMaps, StatefulSets and disruption budgets, then talks to the
    redis servers and sentinels until one server is the master, the others
    follow it, the sentinels watch it and the user's settings are in force.

    ** How the parts interact

    A controller's [Reconcile] fetches the resource and passes it to the
    handler's [Do]. [Do] validates it (writing back defaults), compares it with
    what the metadata cache remembers, announces a change in the status, calls
    [Ensure] (objects in Kubernetes) and [CheckAndHeal] (commands to redis), and
    records the outcome in the status, an event and a gauge. What it returns
    decides when [Reconcile] is called again.

    ** Requests and answers

    What the code does not compute itself is a request answered from outside:
    the API server, the redis servers, the clock, the event recorder, the gauge,
    and the choices of the Go runtime (the order in which a map is visited and in
    which a sort leaves equal elements). A Go function that makes requests is a
    tree of type [Effects.prog]: a return, a panic (nil dereference, index out of
    range, failed type assertion), an exhausted loop, or a request with a
    continuation for each answer. [wp], [spec], [wlp] and [every] speak of all
    answers, so of all failures and all concurrent changes outside; [run] executes
    a program in a given environment. A handler also threads a [Cache.Store]: Go
    pointers to custom resources are addresses in its heap, because the cache, the
    controller and the handler share and mutate these objects.

    ** Files, in order

    - [Prelude]: notations, machine integers, [shuffle] and [sort_Slice], tactics.
    - [DeepCopy]: zz_generated.deepcopy.go over a heap of structs, slices and
      maps; it stands apart, and is why the other files may treat resources as
      values.
    - [GoStd]: what the code uses of strings, strconv, regexp, net and errors.
    - [Corev1]: the Kubernetes objects, in the fields the operator sets or reads;
      fields only copied (tolerations, security contexts, claims' specifications)
      are opaque strings. The order on quantities is the class [QuantityOrder].
    - [Api]: api/v1alpha1 types and constants. [Samples]: concrete resources.
    - [Util], [Common], [Names]: pkg/util, controllers/common, the two util.go
      files under controllers.
    - [Status]: redissentinel_status.go and redisstandalone_status.go.
    - [Validate]: both Validate methods and api/v1alpha1/util.go.
    - [Effects]: programs, requests, environments and their logic; [Equiv]:
      when two programs are the same to every environment; [Repair]: the loops
      that check each server and repair the one that fails.
    - [K8s]: pkg/client/k8s and pkg/metrics as requests.
    - [SentinelGen], [StandaloneGen]: the generators (service/generator.go);
      [Objects]: properties of what they generate.
    - [RedisClient]: pkg/client/redis/client.go.
    - [SentinelCheck], [SentinelHeal], [SentinelClient]: check.go, heal.go and
      client.go of controllers/redissentinel/service; [StandaloneService]: the
      three files of the standalone service.
    - [Cache]: both metadata caches (cache/cahce.go, cache/cache.go).
    - [Handler]: the text the two handlers share, over a record [Operations] of
      services; [SentinelHandler], [StandaloneHandler]: their own parts and the
      instances. [Controller]: the reconcilers, Reconcile and the watch
      predicates.
    - [EnsureProps], [RedisProps], [HealProps], [HandlerProps], [FlowProps],
      [Convergence]: theorems. [Cluster]: an environment that satisfies the laws
      assumed of the outside, and the instances of the theorems on it.
    - [Desired]: the reference definition of [Ensure], a list of wanted objects;
      [ApiServer]: what [Ensure] achieves against a server that keeps objects;
      [Clash]: which objects two resources share.
    - [System]: the two caches as the state of a machine whose steps are
      reconciliations and restarts.
    - [Main]: main.go, the init of controllers/common, the registration of the
      gauge, the constructors of the Kubernetes clients.
    - [Settings], [Monitors], [Rejoin], [Healthy]: the settings of the redis
      servers, the masters the sentinels watch, the wait for a sentinel that was
      reset, and what healing does when all is well. [Steady]: [Do] around
      [Ensure] and [CheckAndHeal] when nothing goes wrong; [Recovery]:
      [CheckAndHeal] from its first request to its last; [Reconciliation]: the
      same for [Reconcile] of both controllers. [Whole]: an environment with redis
      servers, sentinels, objects and a clock that satisfies all these laws at
      once, and the instances of the theorems on it.
    - [Threads]: the handlers as threads of atomic steps; [Locality]: which
      objects and entries a thread touches; [Workers]: the workers of a
      controller taking turns, and when two steps commute; [Serial]: their turns
      as reconciliations one after the other.
    - [Startup]: the first reconciliation of a resource whose objects are not
      there yet. [Lifecycle]: call after call, from a new resource to a healthy
      one. [Booting]: a world that starts with nothing but the resources and
      becomes that of [Whole], and the instances of the theorems on it.
    - [UnitTests]: the cases of the repository's unit tests, run on the model.

    ** What the theorems show

    - Validation: what is accepted, what the defaults are, idempotence
      ([Validate]); memory amounts in 64 bits ([Util]).
    - Status: the set of conditions as a map, the statuses the operator can reach
      ([Status]); what is sent to the API server ([FlowProps]).
    - Generated objects: selectors, mounts, claims, quorum, scripts and
      configuration files ([Objects]).
    - [Ensure]: confined to the resource's namespace, complete on success, total,
      quiet when settled ([EnsureProps]); equivalent to one loop over a list of
      wanted objects ([Desired]); with a server that keeps what it admits (the
      class [ApiServer], whose parameter [Admission] is the server's validation)
      it reaches the wanted state in one go and then rests, or stops at the first
      object that is refused; names that pass the operator's validation and not
      the server's ([ApiServer]); the objects of different resources are
      different but for the cases listed ([Clash]).
    - Cache: never fails, keeps its invariant, keeps passwords, commutes between
      resources, what change it reports ([Cache]); the loss of the password
      protection by a status update ([FlowProps]).
    - Redis: command sequences, parsing of answers ([RedisProps]); checks, the
      choice of a master, connections ([HealProps]); with obedient servers a
      round of healing ends with one master that all follow ([Convergence], over
      the class [Reachable]), the user's settings in force ([Settings], over
      [ConfigServers]), every sentinel watching the master ([Monitors], over
      [Sentinels]) and knowing its slaves before the timer fires ([Rejoin], over
      [Rejoining]); the steps together, none undoing another ([Recovery], over
      [Obedient]); a healthy cluster is left alone ([Healthy]).
    - Reconciliation: with obedient servers and objects that are there, one call
      of [Reconcile], from any state the cache can have the resource in, ends with
      the cluster in order and with the usual time to the next call
      ([Reconciliation], over [Served] and [Obedient] or [ObedientServer]); while
      the objects are missing and the pods not up, it creates the objects and
      asks to be called again ([Startup], over [Hosted]); the calls in a row, for
      however long the pods take to come up and ever after, end with and keep the
      cluster in order ([Lifecycle], over both and [Growing], which says what may
      happen between two calls). The API server of these theorems takes the status
      of a resource only from an object of the version it has, and each write
      gives the resource another version ([Steady.Registered]): that every call
      returns without an error says that the operator writes each status from the
      version of the last answer.
    - Handlers: the gauge tells the truth, every reconciliation ends (over the
      class [ClockLaws]), validation comes first, no live resource is dropped,
      which events reach the queue ([HandlerProps], [FlowProps]).
    - The operator as a whole: its caches stay sound along every sequence of
      reconciliations, resources are kept apart, and a crash needs an answer
      that the code takes apart without looking ([System]); how it starts and
      reads its flags ([Main]).
    - Several workers: the turns that any number of workers take at reconciling
      different resources of one cache amount to reconciling the resources one
      after the other ([Serial]), because each touches only objects it has
      allocated itself or found under its own name ([Locality]).
    - Deep copies: the same value in memory of its own ([DeepCopy]).

    ** Bounds and fuel

    [int32] and [int64] are integers with wrap-around written out. The only loop
    whose length the data does not bound is the wait for a restored sentinel: it
    polls every 5 seconds until a timer of 30 seconds fires. Its turns are bounded
    by [fuel]; [Reconcile_ends] shows that seven turns are enough for any clock
    that sleeps as long as it is told, and [heal_slaves_converges] that they are
    enough to succeed where a sentinel's delay, a poll and two answers fit the
    timer. Changes of case are those of ASCII ([GoStd.ToLower]).

    ** What is not modelled

    Logging; the registration of the types with the scheme; the queue, rate
    limits and leader election, which are controller-runtime's; the RBAC and CRD
    manifests; everything under vendor/, which is the outside. Of a Go client
    only the options of its connection are kept, and closing it is left out.
    [Startup], [Reconciliation] and [Lifecycle] assume that a read of the resource
    is not older than the last write of its status, and that nobody edits the
    resource or deletes an object while they follow it; what happens when somebody
    does is in [System] and [HandlerProps], where every answer is possible.
    Threads take turns between requests, loads and stores of whole objects,
    allocations and operations of the [sync.Map]; what the Go memory model allows
    beyond that needs two workers at one object, which [Serial] excludes, given
    that the queue never hands out a resource that is being worked on. In
    [System] a reconciliation is one step, and the answers it gets are arbitrary,
    so that what others do to the cluster meanwhile is covered. *)

From Stdlib Require Export ZArith Lia Ascii.
From stdpp Require Export gmap strings list fin_maps sorting pretty.

(** ** Notations *)

Declare Scope go_scope.
Delimit Scope go_scope with go.

(** Concatenation of Go strings, [a + b]. *)
Notation "a ^^ b" := (String.append a b) (at level 55, right associativity) : go_scope.
#[global] Open Scope go_scope.
#[global] Open Scope Z_scope.
#[global] Open Scope list_scope.

(** The double quote and the line feed, which string literals here do not spell. *)
Definition dquote : string := String (ascii_of_nat 34) EmptyString.
Definition newline : string := String (ascii_of_nat 10) EmptyString.
Definition tab : string := String (ascii_of_nat 9) EmptyString.

(** Lines joined by a line feed, the shape of Go's raw string literals. *)
Definition lines (l : list string) : string := String.concat newline l.

(** ** Machine integers

    Go's [int32] and [int64] arithmetic wraps around. *)

Definition wrap (w z : Z) : Z := (z + 2 ^ (w - 1)) `mod` 2 ^ w - 2 ^ (w - 1).
Definition int32 (z : Z) : Z := wrap 32 z.
Definition int64 (z : Z) : Z := wrap 64 z.
Definition in_int32 (z : Z) : Prop := - 2 ^ 31 <= z < 2 ^ 31.
Definition in_int64 (z : Z) : Prop := - 2 ^ 63 <= z < 2 ^ 63.

(** ** Choices the Go runtime makes

    The order in which a [range] visits a map and the order in which
    [sort.Slice] leaves equal elements are not specified by the language.  A
    seed (a list of numbers) stands for the runtime's choices: [shuffle] uses
    it to pick the elements one by one, so that every permutation is the
    result for some seed. *)

Fixpoint shuffle {A} (seed : list nat) (l : list A) : list A :=
  match seed, l with
  | [], _ => l
  | _, [] => []
  | n :: seed, x :: l' =>
      let i := (n `mod` length l)%nat in
      match l !! i with
      | Some y => y :: shuffle seed (delete i l)
      | None => l
      end
  end.

(** The insertion step of an in-place insertion sort, on the sorted prefix read
    from its right end: [x] moves left past [y] as long as [less x y]. *)
Fixpoint sift {A} (less : A -> A -> bool) (x : A) (rprefix : list A) : list A :=
  match rprefix with
  | [] => [x]
  | y :: ys => if less x y then y :: sift less x ys else x :: y :: ys
  end.

Definition insertion_sort {A} (less : A -> A -> bool) (l : list A) : list A :=
  rev (fold_left (fun acc x => sift less x acc) l []).

(** [sort.Slice(l, less)]: a sort that is not stable.  Shuffling first and then
    sorting stably gives every outcome such a sort can have. *)
Definition sort_Slice {A} (seed : list nat) (less : A -> A -> bool) (l : list A) : list A :=
  insertion_sort less (shuffle seed l).

(** ** Tactics *)

(** Case analysis on the innermost [match] or [if] of the goal. *)
Ltac case_goal :=
  match goal with
  | |- context [match ?x with _ => _ end] =>
      lazymatch x with
      | context [match _ with _ => _ end] => fail
      | _ => let E := fresh "E" in destruct x eqn:E
      end
  end.

(** The same on a hypothesis. *)
Ltac case_hyp H :=
  match type of H with
  | context [match ?x with _ => _ end] =>
      lazymatch x with
      | context [match _ with _ => _ end] => fail
      | _ => let E := fresh "E" in destruct x eqn:E
      end
  end.

(** Turn boolean tests into propositions. *)
Ltac bool_prop :=
  repeat match goal with
  | H : (_ && _)%bool = true |- _ => apply andb_true_iff in H; destruct H
  | H : (_ && _)%bool = false |- _ => apply andb_false_iff in H
  | H : (_ || _)%bool = true |- _ => apply orb_true_iff in H
  | H : (_ || _)%bool = false |- _ => apply orb_false_iff in H; destruct H
  | H : negb _ = true |- _ => apply negb_true_iff in H
  | H : negb _ = false |- _ => apply negb_false_iff in H
  | H : (_ =? _)%Z = true |- _ => apply Z.eqb_eq in H
  | H : (_ =? _)%Z = false |- _ => apply Z.eqb_neq in H
  | H : (_ <? _)%Z = true |- _ => apply Z.ltb_lt in H
  | H : (_ <? _)%Z = false |- _ => apply Z.ltb_ge in H
  | H : (_ <=? _)%Z = true |- _ => apply Z.leb_le in H
  | H : (_ <=? _)%Z = false |- _ => apply Z.leb_gt in H
  | H : (_ =? _)%string = true |- _ => apply String.eqb_eq in H
  | H : (_ =? _)%string = false |- _ => apply String.eqb_neq in H
  | H : bool_decide _ = true |- _ => apply bool_decide_eq_true in H
  | H : bool_decide _ = false |- _ => apply bool_decide_eq_false in H
  end.

Create HintDb go.

(** ** Integers *)

Lemma wrap_id w z : 0 < w -> - 2 ^ (w - 1) <= z < 2 ^ (w - 1) -> wrap w z = z.
Proof.
  intros Hw Hz. unfold wrap.
  assert (2 ^ w = 2 * 2 ^ (w - 1)) as E.
  { rewrite <- Z.pow_succ_r by lia. f_equal; lia. }
  rewrite Z.mod_small; lia.
Qed.

Lemma wrap_range w z : 0 < w -> - 2 ^ (w - 1) <= wrap w z < 2 ^ (w - 1).
Proof.
  intros Hw. unfold wrap.
  assert (2 ^ w = 2 * 2 ^ (w - 1)) as E.
  { rewrite <- Z.pow_succ_r by lia. f_equal; lia. }
  assert (0 < 2 ^ (w - 1)) by (apply Z.pow_pos_nonneg; lia).
  pose proof (Z.mod_pos_bound (z + 2 ^ (w - 1)) (2 ^ w)). lia.
Qed.

Lemma int32_id z : in_int32 z -> int32 z = z.
Proof. intros H. by apply wrap_id. Qed.

Lemma int64_id z : in_int64 z -> int64 z = z.
Proof. intros H. by apply wrap_id. Qed.

Lemma int32_range z : in_int32 (int32 z).
Proof. by apply (wrap_range 32). Qed.

Lemma int64_range z : in_int64 (int64 z).
Proof. by apply (wrap_range 64). Qed.

#[export] Hint Resolve int32_range int64_range : go.

(** ** Shuffles and sorts *)

Lemma shuffle_perm {A} seed (l : list A) : shuffle seed l ≡ₚ l.
Proof.
  revert l; induction seed as [|n seed IH]; intros [|x l]; try done.
  cbn [shuffle].
  destruct ((x :: l) !! _) as [y|] eqn:E; [|done].
  rewrite (IH (delete _ _)). symmetry. by apply delete_Permutation.
Qed.

Lemma elem_of_shuffle {A} seed (l : list A) x : x ∈ shuffle seed l <-> x ∈ l.
Proof. by rewrite shuffle_perm. Qed.

Lemma sift_perm {A} (less : A -> A -> bool) x l : sift less x l ≡ₚ x :: l.
Proof.
  induction l as [|y l IH]; [done|]. simpl. destruct (less x y); [|done].
  rewrite IH. apply Permutation_swap.
Qed.

Lemma fold_sift_perm {A} (less : A -> A -> bool) l acc :
  fold_left (fun acc x => sift less x acc) l acc ≡ₚ l ++ acc.
Proof.
  revert acc; induction l as [|x l IH]; intros acc; [done|].
  simpl. rewrite IH, sift_perm. symmetry. apply Permutation_middle.
Qed.

Lemma insertion_sort_perm {A} (less : A -> A -> bool) l : insertion_sort less l ≡ₚ l.
Proof.
  unfold insertion_sort. rewrite <- Permutation_rev, fold_sift_perm. by rewrite app_nil_r.
Qed.

Lemma sort_Slice_perm {A} seed (less : A -> A -> bool) l : sort_Slice seed less l ≡ₚ l.
Proof. unfold sort_Slice. by rewrite insertion_sort_perm, shuffle_perm. Qed.

(** A comparison that is a strict weak order, read off a key in [Z]. *)
Class KeyOrder {A} (less : A -> A -> bool) (key : A -> Z) : Prop :=
  key_order x y : less x y = (key x <? key y)%Z.

(** Sorted by ascending key, what a sort by [less] achieves. *)
Definition sorted_by {A} (key : A -> Z) : list A -> Prop :=
  StronglySorted (fun x y => key x <= key y).

Section sorting.
  Context {A : Type} (less : A -> A -> bool) (key : A -> Z) `{!KeyOrder less key}.

Lemma sift_sorted x l :
  StronglySorted (fun a b => key b <= key a) l ->
  StronglySorted (fun a b => key b <= key a) (sift less x l).
Proof.
  induction 1 as [|y l HS IH HF]; simpl; [repeat constructor|].
  rewrite key_order. destruct (Z.ltb_spec (key x) (key y)) as [Hlt|Hge].
  - constructor; [done|]. rewrite sift_perm. constructor; [lia|done].
  - repeat constructor; [done|done|lia|].
    eapply Forall_impl; [done|]. simpl; lia.
Qed.

Lemma fold_sift_sorted l acc :
  StronglySorted (fun a b => key b <= key a) acc ->
  StronglySorted (fun a b => key b <= key a) (fold_left (fun acc x => sift less x acc) l acc).
Proof.
  revert acc; induction l as [|x l IH]; intros acc Hacc; simpl; [done|].
  apply IH, sift_sorted, Hacc.
Qed.

Lemma StronglySorted_snoc (R : A -> A -> Prop) l x :
  StronglySorted R l -> Forall (fun y => R y x) l -> StronglySorted R (l ++ [x]).
Proof.
  induction 1 as [|y l HS IH HF]; intros Hx; simpl; [repeat constructor|].
  inv Hx. constructor; [by apply IH|]. apply Forall_app; split; [done|]. by constructor.
Qed.

Lemma StronglySorted_rev (R : A -> A -> Prop) l :
  StronglySorted R l -> StronglySorted (fun a b => R b a) (rev l).
Proof.
  induction 1 as [|x l HS IH HF]; simpl; [constructor|].
  apply StronglySorted_snoc; [done|]. by rewrite <- Permutation_rev.
Qed.

Lemma insertion_sort_sorted l : sorted_by key (insertion_sort less l).
Proof.
  unfold sorted_by, insertion_sort. apply (StronglySorted_rev (fun a b => key b <= key a)).
  apply fold_sift_sorted. constructor.
Qed.

Lemma sort_Slice_sorted seed l : sorted_by key (sort_Slice seed less l).
Proof. apply insertion_sort_sorted. Qed.

(** The first element of the sorted slice has the least key. *)
Lemma sort_Slice_head seed l x l' :
  sort_Slice seed less l = x :: l' -> x ∈ l /\ forall y, y ∈ l -> key x <= key y.
Proof.
  intros E. pose proof (sort_Slice_perm seed less l) as HP. rewrite E in HP.
  pose proof (sort_Slice_sorted seed l) as HS. unfold sorted_by in HS. rewrite E in HS.
  apply StronglySorted_inv in HS as [_ HF]. rewrite List.Forall_forall in HF.
  split; [rewrite <- HP; left|].
  intros y Hy. rewrite <- HP in Hy. apply elem_of_cons in Hy as [->|Hy]; [lia|].
  by apply HF, list_elem_of_In.
Qed.
End sorting.
