(* ===== verification/DeepCopy.v ===== *)
(** * The generated deep copies ([api/v1alpha1/zz_generated.deepcopy.go])

    The rest of the library works on values. Here the custom resources are what
    they are in the program: structs whose slices, maps and pointers are
    addresses in a heap. [DeepCopyInto] and [DeepCopy] of every type are
    programs on that heap, and they are proved to build a copy that denotes the
    same value and shares no memory with the original. This is what [Validate]
    relies on when it copies the resource, changes the original in place and
    compares the two, and what lets the other files treat resources as values.

    A struct is declared once, over what its references are: addresses for the
    struct in memory ([Ref]), optional values for the value it denotes. The
    structs of the Kubernetes libraries are a type parameter with the library's
    own [DeepCopyInto]. *)

From S2P Require Import Prelude.

(** ** The structs *)

Abbreviation addr := nat.

(** A pointer, map or slice in memory; [None] is nil. *)
Definition Ref (T : Type) : Type := option addr.

Section structs.
  Context (R : Type -> Type) (X : Type).

Record Condition := mkCondition {
  Type_ : string;
  cond_Status : string;
  LastUpdateTime : string;
  LastUpdateAt : X;
  LastTransitionTime : string;
  Reason : string;
  cond_Message : string
}.

Record RedisExporter := mkExporter {
  Enabled : bool;
  ex_Image : string;
  ex_ImagePullPolicy : string
}.

Record RedisStorage := mkStorage {
  KeepAfterDeletion : bool;
  EmptyDir : R X;
  PersistentVolumeClaim : R X
}.

Record SentinelSettings := mkSettings {
  sen_Image : string;
  sen_ImagePullPolicy : string;
  sen_ImagePullSecrets : R (list string);
  Replicas : Z;
  sen_Resources : X;
  CustomConfig : R (list string);
  sen_Command : R (list string);
  sen_Affinity : R X;
  sen_SecurityContext : R X;
  sen_ToleRations : R (list X);
  sen_NodeSelector : R (gmap string string);
  sen_Annotations : R (gmap string string)
}.

(** The fields that the two specifications share, in their order. *)
Record RedisStandaloneSpec := mkStandaloneSpec {
  Size : Z;
  Resources : X;
  Image : string;
  ImagePullPolicy : string;
  ImagePullSecrets : R (list string);
  Command : R (list string);
  ShutdownConfigMap : string;
  Storage : RedisStorage;
  Password : string;
  Exporter : RedisExporter;
  Affinity : R X;
  SecurityContext : R X;
  ToleRations : R (list X);
  NodeSelector : R (gmap string string);
  Config : R (gmap string string);
  Annotations : R (gmap string string);
  DisablePersistence : bool
}.

Record RedisSentinelSpec := mkSentinelSpec {
  shared : RedisStandaloneSpec;
  Sentinel : SentinelSettings
}.

(** [RedisSentinelStatus] and [RedisStandaloneStatus] have the same fields. *)
Record ClusterStatus := mkStatus {
  Conditions : R (list Condition);
  MasterIP : string;
  SentinelIP : string
}.

Record TypeMeta := mkTypeMeta { Kind : string; APIVersion : string }.

Record RedisSentinel := mkSentinel {
  s_TypeMeta : TypeMeta;
  s_ObjectMeta : X;
  s_Spec : RedisSentinelSpec;
  s_Status : ClusterStatus
}.

Record RedisStandalone := mkStandalone {
  a_TypeMeta : TypeMeta;
  a_ObjectMeta : X;
  a_Spec : RedisStandaloneSpec;
  a_Status : ClusterStatus
}.

Record RedisSentinelList := mkSentinelList {
  sl_TypeMeta : TypeMeta;
  sl_ListMeta : X;
  sl_Items : R (list RedisSentinel)
}.

Record RedisStandaloneList := mkStandaloneList {
  al_TypeMeta : TypeMeta;
  al_ListMeta : X;
  al_Items : R (list RedisStandalone)
}.

End structs.

Arguments mkCondition {X}.
Arguments mkStorage {R X}.
Arguments mkSettings {R X}.
Arguments mkStandaloneSpec {R X}.
Arguments mkSentinelSpec {R X}.
Arguments mkStatus {R X}.
Arguments mkSentinel {R X}.
Arguments mkStandalone {R X}.
Arguments mkSentinelList {R X}.
Arguments mkStandaloneList {R X}.

(** ** The heap

    A cell holds what one allocation made: a struct, a map, or the array behind
    a slice (the slices here span their arrays). Addresses are handed out in
    order and never freed. *)

Section cells.
  Context (X : Type).

Inductive cell :=
| CStrings (l : list string)
| CMap (m : gmap string string)
| CLibrary (x : X)
| CLibraries (l : list X)
| CCondition (c : Condition X)
| CConditions (l : list (Condition X))
| CExporter (e : RedisExporter)
| CStorage (s : RedisStorage Ref X)
| CSettings (s : SentinelSettings Ref X)
| CSentinelSpec (s : RedisSentinelSpec Ref X)
| CStandaloneSpec (s : RedisStandaloneSpec Ref X)
| CStatus (s : ClusterStatus Ref X)
| CSentinel (r : RedisSentinel Ref X)
| CSentinels (l : list (RedisSentinel Ref X))
| CSentinelList (l : RedisSentinelList Ref X)
| CStandalone (r : RedisStandalone Ref X)
| CStandalones (l : list (RedisStandalone Ref X))
| CStandaloneList (l : RedisStandaloneList Ref X).

End cells.

Abbreviation heap X := (list (cell X)).

Arguments CStrings {X}.
Arguments CMap {X}.
Arguments CLibrary {X}.
Arguments CLibraries {X}.
Arguments CCondition {X}.
Arguments CConditions {X}.
Arguments CExporter {X}.
Arguments CStorage {X}.
Arguments CSettings {X}.
Arguments CSentinelSpec {X}.
Arguments CStandaloneSpec {X}.
Arguments CStatus {X}.
Arguments CSentinel {X}.
Arguments CSentinels {X}.
Arguments CSentinelList {X}.
Arguments CStandalone {X}.
Arguments CStandalones {X}.
Arguments CStandaloneList {X}.

(** The types whose values a cell can hold, each with Go's zero value. *)
Class Cell (X T : Type) := {
  to_cell : T -> cell X;
  of_cell : cell X -> option T;
  zero : T;
  of_to_cell t : of_cell (to_cell t) = Some t
}.

(** The library's structs: their zero value. *)
Class Library (X : Type) := { x_zero : X }.

Section cell_instances.
  Context {X : Type} `{HX : Library X}.

Definition zero_exporter : RedisExporter := mkExporter false "" "".
Definition zero_storage : RedisStorage Ref X := mkStorage false None None.
Definition zero_settings : SentinelSettings Ref X :=
  mkSettings "" "" None 0 x_zero None None None None None None None.
Definition zero_standalone_spec : RedisStandaloneSpec Ref X :=
  mkStandaloneSpec 0 x_zero "" "" None None "" zero_storage "" zero_exporter None None None None
    None None false.
Definition zero_sentinel_spec : RedisSentinelSpec Ref X :=
  mkSentinelSpec zero_standalone_spec zero_settings.
Definition zero_status : ClusterStatus Ref X := mkStatus None "" "".
Definition zero_type : TypeMeta := mkTypeMeta "" "".

#[export] Instance cell_strings : Cell X (list string) :=
  {| to_cell := CStrings; of_cell c := match c with CStrings l => Some l | _ => None end;
     zero := []; of_to_cell _ := eq_refl |}.
#[export] Instance cell_map : Cell X (gmap string string) :=
  {| to_cell := CMap; of_cell c := match c with CMap l => Some l | _ => None end;
     zero := ∅; of_to_cell _ := eq_refl |}.
#[export] Instance cell_library : Cell X X | 10 :=
  {| to_cell := CLibrary; of_cell c := match c with CLibrary l => Some l | _ => None end;
     zero := x_zero; of_to_cell _ := eq_refl |}.
#[export] Instance cell_libraries : Cell X (list X) | 10 :=
  {| to_cell := CLibraries; of_cell c := match c with CLibraries l => Some l | _ => None end;
     zero := []; of_to_cell _ := eq_refl |}.
#[export] Instance cell_condition : Cell X (Condition X) :=
  {| to_cell := CCondition; of_cell c := match c with CCondition l => Some l | _ => None end;
     zero := mkCondition "" "" "" x_zero "" "" ""; of_to_cell _ := eq_refl |}.
#[export] Instance cell_conditions : Cell X (list (Condition X)) :=
  {| to_cell := CConditions; of_cell c := match c with CConditions l => Some l | _ => None end;
     zero := []; of_to_cell _ := eq_refl |}.
#[export] Instance cell_exporter : Cell X RedisExporter :=
  {| to_cell := CExporter; of_cell c := match c with CExporter l => Some l | _ => None end;
     zero := zero_exporter; of_to_cell _ := eq_refl |}.
#[export] Instance cell_storage : Cell X (RedisStorage Ref X) :=
  {| to_cell := CStorage; of_cell c := match c with CStorage l => Some l | _ => None end;
     zero := zero_storage; of_to_cell _ := eq_refl |}.
#[export] Instance cell_settings : Cell X (SentinelSettings Ref X) :=
  {| to_cell := CSettings; of_cell c := match c with CSettings l => Some l | _ => None end;
     zero := zero_settings; of_to_cell _ := eq_refl |}.
#[export] Instance cell_sentinel_spec : Cell X (RedisSentinelSpec Ref X) :=
  {| to_cell := CSentinelSpec; of_cell c := match c with CSentinelSpec l => Some l | _ => None end;
     zero := zero_sentinel_spec; of_to_cell _ := eq_refl |}.
#[export] Instance cell_standalone_spec : Cell X (RedisStandaloneSpec Ref X) :=
  {| to_cell := CStandaloneSpec; of_cell c := match c with CStandaloneSpec l => Some l | _ => None end;
     zero := zero_standalone_spec; of_to_cell _ := eq_refl |}.
#[export] Instance cell_status : Cell X (ClusterStatus Ref X) :=
  {| to_cell := CStatus; of_cell c := match c with CStatus l => Some l | _ => None end;
     zero := zero_status; of_to_cell _ := eq_refl |}.
#[export] Instance cell_sentinel : Cell X (RedisSentinel Ref X) :=
  {| to_cell := CSentinel; of_cell c := match c with CSentinel l => Some l | _ => None end;
     zero := mkSentinel zero_type x_zero zero_sentinel_spec zero_status; of_to_cell _ := eq_refl |}.
#[export] Instance cell_sentinels : Cell X (list (RedisSentinel Ref X)) :=
  {| to_cell := CSentinels; of_cell c := match c with CSentinels l => Some l | _ => None end;
     zero := []; of_to_cell _ := eq_refl |}.
#[export] Instance cell_sentinel_list : Cell X (RedisSentinelList Ref X) :=
  {| to_cell := CSentinelList; of_cell c := match c with CSentinelList l => Some l | _ => None end;
     zero := mkSentinelList zero_type x_zero None; of_to_cell _ := eq_refl |}.
#[export] Instance cell_standalone : Cell X (RedisStandalone Ref X) :=
  {| to_cell := CStandalone; of_cell c := match c with CStandalone l => Some l | _ => None end;
     zero := mkStandalone zero_type x_zero zero_standalone_spec zero_status; of_to_cell _ := eq_refl |}.
#[export] Instance cell_standalones : Cell X (list (RedisStandalone Ref X)) :=
  {| to_cell := CStandalones; of_cell c := match c with CStandalones l => Some l | _ => None end;
     zero := []; of_to_cell _ := eq_refl |}.
#[export] Instance cell_standalone_list : Cell X (RedisStandaloneList Ref X) :=
  {| to_cell := CStandaloneList; of_cell c := match c with CStandaloneList l => Some l | _ => None end;
     zero := mkStandaloneList zero_type x_zero None; of_to_cell _ := eq_refl |}.
End cell_instances.

(** ** Programs on the heap: [None] is a nil or dangling dereference *)

Definition H (X A : Type) : Type := heap X -> option (A * heap X).

Definition ret {X A} (a : A) : H X A := fun h => Some (a, h).
Definition bindH {X A B} (m : H X A) (f : A -> H X B) : H X B :=
  fun h => '(a, h) ← m h; f a h.

Notation "'let+' x ':=' m 'in' k" := (bindH m (fun x => k))
  (at level 10, x pattern, m at level 100, k at level 200).

(** [new(T)], [make(T, n)]: a fresh cell. *)
Definition new {X T} `{Cell X T} (t : T) : H X addr :=
  fun h => Some (length h, h ++ [to_cell t]).

Definition load {X T} `{Cell X T} (a : addr) : H X T :=
  fun h => c ← h !! a; t ← of_cell c; Some (t, h).

Definition store {X T} `{Cell X T} (a : addr) (t : T) : H X unit :=
  fun h => if bool_decide (a < length h)%nat then Some (tt, <[a := to_cell t]> h) else None.

Section copies.
  Context {X : Type} `{HX : Library X}.
  (** The order in which the runtime visits a map, by the address of the map
      that is being filled, and the library's [DeepCopyInto]. *)
  Context (seed : addr -> list nat) (x_DeepCopyInto : X -> H X X).

(** [DeepCopyInto] overwrites the whole of [*out], so it is a function from the
    struct to the new contents. Then [DeepCopy], and the same lines inside
    another struct: a nil pointer stays nil, another one is answered by a new
    struct. *)
Definition copy_pointer {T} `{Cell X T} (DeepCopyInto : T -> H X T) (in_ : Ref T) : H X (Ref T) :=
  match in_ with
  | None => ret None
  | Some l =>
      let+ out := new (zero (T := T)) in
      let+ x := load l in
      let+ y := DeepCopyInto x in
      let+ _ := store out y in
      ret (Some out)
  end.

(** [make], then the built-in [copy]. *)
Definition copy_strings (in_ : Ref (list string)) : H X (Ref (list string)) :=
  match in_ with
  | None => ret None
  | Some l =>
      let+ xs := load l in
      let+ out := new (replicate (length xs) ""%string) in
      let+ _ := store out (xs : list string) in
      ret (Some out)
  end.

(** [make], then a loop that copies the elements one by one. *)
Fixpoint copy_elements {T} `{Cell X (list T)} (DeepCopyInto : T -> H X T) (out : addr) (i : nat)
    (xs : list T) : H X unit :=
  match xs with
  | [] => ret tt
  | x :: xs =>
      let+ y := DeepCopyInto x in
      let+ ys := load out in
      let+ _ := store out (<[i := y]> (ys : list T)) in
      copy_elements DeepCopyInto out (S i) xs
  end.

Definition copy_slice {T} `{Cell X T} `{Cell X (list T)} (DeepCopyInto : T -> H X T)
    (in_ : Ref (list T)) : H X (Ref (list T)) :=
  match in_ with
  | None => ret None
  | Some l =>
      let+ xs := load l in
      let+ out := new (replicate (length xs) (zero (T := T))) in
      let+ _ := copy_elements DeepCopyInto out 0 xs in
      ret (Some out)
  end.

(** [make], then a loop over the keys in the runtime's order. *)
Fixpoint copy_entries (out : addr) (kvs : list (string * string)) : H X unit :=
  match kvs with
  | [] => ret tt
  | (key, val) :: kvs =>
      let+ m := load out in
      let+ _ := store out (<[key := val]> (m : gmap string string)) in
      copy_entries out kvs
  end.

Definition copy_map (in_ : Ref (gmap string string)) : H X (Ref (gmap string string)) :=
  match in_ with
  | None => ret None
  | Some l =>
      let+ m := load l in
      let+ out := new (∅ : gmap string string) in
      let+ _ := copy_entries out (shuffle (seed out) (map_to_list (m : gmap string string))) in
      ret (Some out)
  end.

(** *** The types, in the order of the file *)

Definition Condition_DeepCopyInto (c : Condition X) : H X (Condition X) :=
  let+ at_ := x_DeepCopyInto (LastUpdateAt _ c) in
  ret (mkCondition (Type_ _ c) (cond_Status _ c) (LastUpdateTime _ c) at_ (LastTransitionTime _ c)
    (Reason _ c) (cond_Message _ c)).
Definition Condition_DeepCopy : Ref (Condition X) -> H X (Ref (Condition X)) :=
  copy_pointer Condition_DeepCopyInto.

Definition RedisExporter_DeepCopyInto (e : RedisExporter) : H X RedisExporter := ret e.
Definition RedisExporter_DeepCopy : Ref RedisExporter -> H X (Ref RedisExporter) :=
  copy_pointer RedisExporter_DeepCopyInto.

Definition RedisStorage_DeepCopyInto (s : RedisStorage Ref X) : H X (RedisStorage Ref X) :=
  let+ e := copy_pointer x_DeepCopyInto (EmptyDir _ _ s) in
  let+ p := copy_pointer x_DeepCopyInto (PersistentVolumeClaim _ _ s) in
  ret (mkStorage (KeepAfterDeletion _ _ s) e p).
Definition RedisStorage_DeepCopy : Ref (RedisStorage Ref X) -> H X (Ref (RedisStorage Ref X)) :=
  copy_pointer RedisStorage_DeepCopyInto.

Definition SentinelSettings_DeepCopyInto (s : SentinelSettings Ref X)
    : H X (SentinelSettings Ref X) :=
  let+ imagePullSecrets := copy_strings (sen_ImagePullSecrets _ _ s) in
  let+ resources := x_DeepCopyInto (sen_Resources _ _ s) in
  let+ customConfig := copy_strings (CustomConfig _ _ s) in
  let+ command := copy_strings (sen_Command _ _ s) in
  let+ affinity := copy_pointer x_DeepCopyInto (sen_Affinity _ _ s) in
  let+ securityContext := copy_pointer x_DeepCopyInto (sen_SecurityContext _ _ s) in
  let+ toleRations := copy_slice x_DeepCopyInto (sen_ToleRations _ _ s) in
  let+ nodeSelector := copy_map (sen_NodeSelector _ _ s) in
  let+ annotations := copy_map (sen_Annotations _ _ s) in
  ret (mkSettings (sen_Image _ _ s) (sen_ImagePullPolicy _ _ s) imagePullSecrets (Replicas _ _ s)
    resources customConfig command affinity securityContext toleRations nodeSelector annotations).
Definition SentinelSettings_DeepCopy
    : Ref (SentinelSettings Ref X) -> H X (Ref (SentinelSettings Ref X)) :=
  copy_pointer SentinelSettings_DeepCopyInto.

Definition RedisStandaloneSpec_DeepCopyInto (s : RedisStandaloneSpec Ref X)
    : H X (RedisStandaloneSpec Ref X) :=
  let+ resources := x_DeepCopyInto (Resources _ _ s) in
  let+ imagePullSecrets := copy_strings (ImagePullSecrets _ _ s) in
  let+ command := copy_strings (Command _ _ s) in
  let+ storage := RedisStorage_DeepCopyInto (Storage _ _ s) in
  let+ affinity := copy_pointer x_DeepCopyInto (Affinity _ _ s) in
  let+ securityContext := copy_pointer x_DeepCopyInto (SecurityContext _ _ s) in
  let+ toleRations := copy_slice x_DeepCopyInto (ToleRations _ _ s) in
  let+ nodeSelector := copy_map (NodeSelector _ _ s) in
  let+ config := copy_map (Config _ _ s) in
  let+ annotations := copy_map (Annotations _ _ s) in
  ret (mkStandaloneSpec (Size _ _ s) resources (Image _ _ s) (ImagePullPolicy _ _ s)
    imagePullSecrets command (ShutdownConfigMap _ _ s) storage (Password _ _ s) (Exporter _ _ s)
    affinity securityContext toleRations nodeSelector config annotations (DisablePersistence _ _ s)).
Definition RedisStandaloneSpec_DeepCopy
    : Ref (RedisStandaloneSpec Ref X) -> H X (Ref (RedisStandaloneSpec Ref X)) :=
  copy_pointer RedisStandaloneSpec_DeepCopyInto.

(** The shared fields are copied by the same lines, then the sentinels'. *)
Definition RedisSentinelSpec_DeepCopyInto (s : RedisSentinelSpec Ref X)
    : H X (RedisSentinelSpec Ref X) :=
  let+ fields := RedisStandaloneSpec_DeepCopyInto (shared _ _ s) in
  let+ sentinel := SentinelSettings_DeepCopyInto (Sentinel _ _ s) in
  ret (mkSentinelSpec fields sentinel).
Definition RedisSentinelSpec_DeepCopy
    : Ref (RedisSentinelSpec Ref X) -> H X (Ref (RedisSentinelSpec Ref X)) :=
  copy_pointer RedisSentinelSpec_DeepCopyInto.

Definition RedisSentinelStatus_DeepCopyInto (s : ClusterStatus Ref X) : H X (ClusterStatus Ref X) :=
  let+ conditions := copy_slice Condition_DeepCopyInto (Conditions _ _ s) in
  ret (mkStatus conditions (MasterIP _ _ s) (SentinelIP _ _ s)).
Definition RedisSentinelStatus_DeepCopy
    : Ref (ClusterStatus Ref X) -> H X (Ref (ClusterStatus Ref X)) :=
  copy_pointer RedisSentinelStatus_DeepCopyInto.

Definition RedisStandaloneStatus_DeepCopyInto (s : ClusterStatus Ref X)
    : H X (ClusterStatus Ref X) :=
  let+ conditions := copy_slice Condition_DeepCopyInto (Conditions _ _ s) in
  ret (mkStatus conditions (MasterIP _ _ s) (SentinelIP _ _ s)).
Definition RedisStandaloneStatus_DeepCopy
    : Ref (ClusterStatus Ref X) -> H X (Ref (ClusterStatus Ref X)) :=
  copy_pointer RedisStandaloneStatus_DeepCopyInto.

Definition RedisSentinel_DeepCopyInto (r : RedisSentinel Ref X) : H X (RedisSentinel Ref X) :=
  let+ objectMeta := x_DeepCopyInto (s_ObjectMeta _ _ r) in
  let+ spec := RedisSentinelSpec_DeepCopyInto (s_Spec _ _ r) in
  let+ status := RedisSentinelStatus_DeepCopyInto (s_Status _ _ r) in
  ret (mkSentinel (s_TypeMeta _ _ r) objectMeta spec status).
Definition RedisSentinel_DeepCopy : Ref (RedisSentinel Ref X) -> H X (Ref (RedisSentinel Ref X)) :=
  copy_pointer RedisSentinel_DeepCopyInto.

Definition RedisStandalone_DeepCopyInto (r : RedisStandalone Ref X)
    : H X (RedisStandalone Ref X) :=
  let+ objectMeta := x_DeepCopyInto (a_ObjectMeta _ _ r) in
  let+ spec := RedisStandaloneSpec_DeepCopyInto (a_Spec _ _ r) in
  let+ status := RedisStandaloneStatus_DeepCopyInto (a_Status _ _ r) in
  ret (mkStandalone (a_TypeMeta _ _ r) objectMeta spec status).
Definition RedisStandalone_DeepCopy
    : Ref (RedisStandalone Ref X) -> H X (Ref (RedisStandalone Ref X)) :=
  copy_pointer RedisStandalone_DeepCopyInto.

Definition RedisSentinelList_DeepCopyInto (l : RedisSentinelList Ref X)
    : H X (RedisSentinelList Ref X) :=
  let+ listMeta := x_DeepCopyInto (sl_ListMeta _ _ l) in
  let+ items := copy_slice RedisSentinel_DeepCopyInto (sl_Items _ _ l) in
  ret (mkSentinelList (sl_TypeMeta _ _ l) listMeta items).
Definition RedisSentinelList_DeepCopy
    : Ref (RedisSentinelList Ref X) -> H X (Ref (RedisSentinelList Ref X)) :=
  copy_pointer RedisSentinelList_DeepCopyInto.

Definition RedisStandaloneList_DeepCopyInto (l : RedisStandaloneList Ref X)
    : H X (RedisStandaloneList Ref X) :=
  let+ listMeta := x_DeepCopyInto (al_ListMeta _ _ l) in
  let+ items := copy_slice RedisStandalone_DeepCopyInto (al_Items _ _ l) in
  ret (mkStandaloneList (al_TypeMeta _ _ l) listMeta items).
Definition RedisStandaloneList_DeepCopy
    : Ref (RedisStandaloneList Ref X) -> H X (Ref (RedisStandaloneList Ref X)) :=
  copy_pointer RedisStandaloneList_DeepCopyInto.

(** [DeepCopyObject] returns a [runtime.Object]: an interface value, nil or a
    pointer with its dynamic type. A nil pointer becomes a nil interface, not an
    interface that holds a nil pointer. *)
Inductive Object :=
| OSentinel (p : Ref (RedisSentinel Ref X))
| OSentinelList (p : Ref (RedisSentinelList Ref X))
| OStandalone (p : Ref (RedisStandalone Ref X))
| OStandaloneList (p : Ref (RedisStandaloneList Ref X)).

Definition as_object {T} (wrap : Ref T -> Object) (copied : H X (Ref T)) : H X (option Object) :=
  let+ c := copied in
  match c with Some _ => ret (Some (wrap c)) | None => ret None end.

Definition RedisSentinel_DeepCopyObject (in_ : Ref (RedisSentinel Ref X)) : H X (option Object) :=
  as_object OSentinel (RedisSentinel_DeepCopy in_).
Definition RedisSentinelList_DeepCopyObject (in_ : Ref (RedisSentinelList Ref X))
    : H X (option Object) :=
  as_object OSentinelList (RedisSentinelList_DeepCopy in_).
Definition RedisStandalone_DeepCopyObject (in_ : Ref (RedisStandalone Ref X))
    : H X (option Object) :=
  as_object OStandalone (RedisStandalone_DeepCopy in_).
Definition RedisStandaloneList_DeepCopyObject (in_ : Ref (RedisStandaloneList Ref X))
    : H X (option Object) :=
  as_object OStandaloneList (RedisStandaloneList_DeepCopy in_).

End copies.

(** ** What a struct in memory denotes

    [denotes P h t v]: in the heap [h] the struct [t] denotes the value [v], and
    every address it uses satisfies [P]. *)

Class Denotes (X T V : Type) := {
  denotes : (addr -> Prop) -> heap X -> T -> V -> Prop;
  (** It depends only on the cells it uses, *)
  denotes_frame (P : addr -> Prop) h h' t v :
    denotes P h t v -> (forall l, P l -> (l < length h)%nat -> h' !! l = h !! l) -> denotes P h' t v;
  denotes_mono (P P' : addr -> Prop) h t v :
    denotes P h t v -> (forall l, P l -> P' l) -> denotes P' h t v;
  (** and is a function. *)
  denotes_fun P P' h t v v' : denotes P h t v -> denotes P' h t v' -> v = v'
}.

Section denotations.
  Context {X : Type} `{HX : Library X}.

(** Structs and cells without references denote themselves. *)
Definition denotes_flat {T} (P : addr -> Prop) (h : heap X) (t v : T) : Prop := t = v.

#[export] Instance strings_denotes : Denotes X (list string) (list string).
Proof. refine {| denotes := denotes_flat |}; unfold denotes_flat; congruence. Defined.
#[export] Instance map_denotes : Denotes X (gmap string string) (gmap string string).
Proof. refine {| denotes := denotes_flat |}; unfold denotes_flat; congruence. Defined.
#[export] Instance exporter_denotes : Denotes X RedisExporter RedisExporter.
Proof. refine {| denotes := denotes_flat |}; unfold denotes_flat; congruence. Defined.

#[export] Instance list_denotes {T V} `{HD : Denotes X T V} : Denotes X (list T) (list V) | 5.
Proof.
  refine {| denotes P h := Forall2 (denotes P h) |}.
  - intros P h h' l vs Hl Hh. eapply Forall2_impl; [exact Hl|]. intros t v Ht. by eapply denotes_frame.
  - intros P P' h l vs Hl HP. eapply Forall2_impl; [exact Hl|]. intros t v Ht. by eapply denotes_mono.
  - intros P P' h l vs vs' Hl. revert vs'. induction Hl as [|t v l vs Ht _ IH]; intros vs' Hl'.
    + by inv Hl'.
    + inv Hl'. f_equal; [by eapply denotes_fun|by apply IH].
Defined.

(** A reference denotes what its cell denotes; nil denotes nil. *)
Definition denotes_ref {T V} `{HC : Cell X T} `{HD : Denotes X T V} (P : addr -> Prop) (h : heap X)
    (p : Ref T) (ov : option V) : Prop :=
  match p, ov with
  | None, None => True
  | Some l, Some v => P l /\ exists t, h !! l ≫= of_cell = Some t /\ denotes P h t v
  | _, _ => False
  end.

#[export] Instance ref_denotes {T V} `{HC : Cell X T} `{HD : Denotes X T V} :
  Denotes X (Ref T) (option V).
Proof.
  refine {| denotes := denotes_ref (T := T) |}; unfold denotes_ref.
  - intros P h h' [l|] [v|]; try done. intros (HP & t & Ht & Hv) Hh. split; [done|]. exists t.
    rewrite Hh; [split; [done|by eapply denotes_frame]|done|].
    destruct (h !! l) eqn:E; [by eapply lookup_lt_Some|done].
  - intros P P' h [l|] [v|]; try done. intros (HP & t & Ht & Hv) HPP. split; [by apply HPP|].
    exists t. split; [done|by eapply denotes_mono].
  - intros P P' h [l|] [v|] [v'|]; try done. intros (_ & t & Ht & Hv) (_ & t' & Ht' & Hv').
    assert (t = t') as <- by congruence. f_equal. by eapply denotes_fun.
Defined.

End denotations.

(** The laws of a struct follow from those of its fields. *)
Ltac conjuncts :=
  repeat match goal with H : _ /\ _ |- _ => destruct H | |- _ /\ _ => split end.
Ltac same_value :=
  repeat match goal with
  | H : denotes _ _ ?t ?v, H' : denotes _ _ ?t ?v' |- _ =>
      assert (v = v') by (eapply denotes_fun; [exact H|exact H']); clear H H'
  end.
Ltac struct_laws :=
  cbv beta; intros; conjuncts;
  first [ eassumption | eapply denotes_frame; eassumption | eapply denotes_mono; eassumption
        | match goal with |- ?v = ?v' =>
            same_value; destruct v, v'; cbn in *; subst; reflexivity end ].

Section structs_denote.
  Context {X Xv : Type} `{HX : Library X} `{HD : !Denotes X X Xv}.

#[export] Instance Condition_denotes : Denotes X (Condition X) (Condition Xv).
Proof.
  refine {| denotes P h t v :=
    Type_ _ t = Type_ _ v /\ cond_Status _ t = cond_Status _ v /\
    LastUpdateTime _ t = LastUpdateTime _ v /\ denotes P h (LastUpdateAt _ t) (LastUpdateAt _ v) /\
    LastTransitionTime _ t = LastTransitionTime _ v /\ Reason _ t = Reason _ v /\
    cond_Message _ t = cond_Message _ v |}; struct_laws.
Defined.

#[export] Instance RedisStorage_denotes : Denotes X (RedisStorage Ref X) (RedisStorage option Xv).
Proof.
  refine {| denotes P h t v :=
    KeepAfterDeletion _ _ t = KeepAfterDeletion _ _ v /\
    denotes (T := Ref X) P h (EmptyDir _ _ t) (EmptyDir _ _ v) /\
    denotes (T := Ref X) P h (PersistentVolumeClaim _ _ t) (PersistentVolumeClaim _ _ v) |};
  struct_laws.
Defined.

#[export] Instance SentinelSettings_denotes :
  Denotes X (SentinelSettings Ref X) (SentinelSettings option Xv).
Proof.
  refine {| denotes P h t v :=
    sen_Image _ _ t = sen_Image _ _ v /\
    sen_ImagePullPolicy _ _ t = sen_ImagePullPolicy _ _ v /\
    denotes (T := Ref (list string)) P h (sen_ImagePullSecrets _ _ t) (sen_ImagePullSecrets _ _ v) /\
    Replicas _ _ t = Replicas _ _ v /\
    denotes P h (sen_Resources _ _ t) (sen_Resources _ _ v) /\
    denotes (T := Ref (list string)) P h (CustomConfig _ _ t) (CustomConfig _ _ v) /\
    denotes (T := Ref (list string)) P h (sen_Command _ _ t) (sen_Command _ _ v) /\
    denotes (T := Ref X) P h (sen_Affinity _ _ t) (sen_Affinity _ _ v) /\
    denotes (T := Ref X) P h (sen_SecurityContext _ _ t) (sen_SecurityContext _ _ v) /\
    denotes (T := Ref (list X)) P h (sen_ToleRations _ _ t) (sen_ToleRations _ _ v) /\
    denotes (T := Ref (gmap string string)) P h (sen_NodeSelector _ _ t) (sen_NodeSelector _ _ v) /\
    denotes (T := Ref (gmap string string)) P h (sen_Annotations _ _ t) (sen_Annotations _ _ v) |};
  struct_laws.
Defined.

#[export] Instance RedisStandaloneSpec_denotes :
  Denotes X (RedisStandaloneSpec Ref X) (RedisStandaloneSpec option Xv).
Proof.
  refine {| denotes P h t v :=
    Size _ _ t = Size _ _ v /\
    denotes P h (Resources _ _ t) (Resources _ _ v) /\
    Image _ _ t = Image _ _ v /\
    ImagePullPolicy _ _ t = ImagePullPolicy _ _ v /\
    denotes (T := Ref (list string)) P h (ImagePullSecrets _ _ t) (ImagePullSecrets _ _ v) /\
    denotes (T := Ref (list string)) P h (Command _ _ t) (Command _ _ v) /\
    ShutdownConfigMap _ _ t = ShutdownConfigMap _ _ v /\
    denotes P h (Storage _ _ t) (Storage _ _ v) /\
    Password _ _ t = Password _ _ v /\
    Exporter _ _ t = Exporter _ _ v /\
    denotes (T := Ref X) P h (Affinity _ _ t) (Affinity _ _ v) /\
    denotes (T := Ref X) P h (SecurityContext _ _ t) (SecurityContext _ _ v) /\
    denotes (T := Ref (list X)) P h (ToleRations _ _ t) (ToleRations _ _ v) /\
    denotes (T := Ref (gmap string string)) P h (NodeSelector _ _ t) (NodeSelector _ _ v) /\
    denotes (T := Ref (gmap string string)) P h (Config _ _ t) (Config _ _ v) /\
    denotes (T := Ref (gmap string string)) P h (Annotations _ _ t) (Annotations _ _ v) /\
    DisablePersistence _ _ t = DisablePersistence _ _ v |};
  struct_laws.
Defined.

#[export] Instance RedisSentinelSpec_denotes :
  Denotes X (RedisSentinelSpec Ref X) (RedisSentinelSpec option Xv).
Proof.
  refine {| denotes P h t v :=
    denotes P h (shared _ _ t) (shared _ _ v) /\ denotes P h (Sentinel _ _ t) (Sentinel _ _ v) |};
  struct_laws.
Defined.

#[export] Instance ClusterStatus_denotes : Denotes X (ClusterStatus Ref X) (ClusterStatus option Xv).
Proof.
  refine {| denotes P h t v :=
    denotes (T := Ref (list (Condition X))) P h (Conditions _ _ t) (Conditions _ _ v) /\
    MasterIP _ _ t = MasterIP _ _ v /\ SentinelIP _ _ t = SentinelIP _ _ v |};
  struct_laws.
Defined.

#[export] Instance RedisSentinel_denotes : Denotes X (RedisSentinel Ref X) (RedisSentinel option Xv).
Proof.
  refine {| denotes P h t v :=
    s_TypeMeta _ _ t = s_TypeMeta _ _ v /\
    denotes P h (s_ObjectMeta _ _ t) (s_ObjectMeta _ _ v) /\
    denotes P h (s_Spec _ _ t) (s_Spec _ _ v) /\
    denotes P h (s_Status _ _ t) (s_Status _ _ v) |};
  struct_laws.
Defined.

#[export] Instance RedisStandalone_denotes :
  Denotes X (RedisStandalone Ref X) (RedisStandalone option Xv).
Proof.
  refine {| denotes P h t v :=
    a_TypeMeta _ _ t = a_TypeMeta _ _ v /\
    denotes P h (a_ObjectMeta _ _ t) (a_ObjectMeta _ _ v) /\
    denotes P h (a_Spec _ _ t) (a_Spec _ _ v) /\
    denotes P h (a_Status _ _ t) (a_Status _ _ v) |};
  struct_laws.
Defined.

#[export] Instance RedisSentinelList_denotes :
  Denotes X (RedisSentinelList Ref X) (RedisSentinelList option Xv).
Proof.
  refine {| denotes P h t v :=
    sl_TypeMeta _ _ t = sl_TypeMeta _ _ v /\
    denotes P h (sl_ListMeta _ _ t) (sl_ListMeta _ _ v) /\
    denotes (T := Ref (list (RedisSentinel Ref X))) P h (sl_Items _ _ t) (sl_Items _ _ v) |};
  struct_laws.
Defined.

#[export] Instance RedisStandaloneList_denotes :
  Denotes X (RedisStandaloneList Ref X) (RedisStandaloneList option Xv).
Proof.
  refine {| denotes P h t v :=
    al_TypeMeta _ _ t = al_TypeMeta _ _ v /\
    denotes P h (al_ListMeta _ _ t) (al_ListMeta _ _ v) /\
    denotes (T := Ref (list (RedisStandalone Ref X))) P h (al_Items _ _ t) (al_Items _ _ v) |};
  struct_laws.
Defined.
End structs_denote.

(** ** Copies are faithful and separate *)

(** The cells that were there are as they were. *)
Definition grows {X} (h h' : heap X) : Prop :=
  (length h <= length h')%nat /\ forall l, (l < length h)%nat -> h' !! l = h !! l.

(** The addresses handed out after [h]. *)
Definition fresh {X} (h : heap X) (l : addr) : Prop := (length h <= l)%nat.

#[export] Instance grows_preorder {X} : PreOrder (grows (X := X)).
Proof.
  split; [by intros h; split|]. intros h1 h2 h3 [H1 G1] [H2 G2]. split; [lia|].
  intros l Hl. rewrite G2, G1; [done|done|lia].
Qed.

Definition runs {X A} (m : H X A) (h : heap X) (Q : A -> heap X -> Prop) : Prop :=
  exists a h', m h = Some (a, h') /\ grows h h' /\ Q a h'.

(** [c] builds a copy that denotes the same value in fresh cells. *)
Definition copying {X T V} `{Denotes X T V} (c : T -> H X T) : Prop :=
  forall P h t v, denotes P h t v -> runs (c t) h (fun t' h' => denotes (fresh h) h' t' v).

Section copy_specs.
  Context {X : Type} `{HX : Library X}.

Lemma runs_ret {A} (a : A) (h : heap X) Q : Q a h -> runs (ret a) h Q.
Proof. intros HQ. by exists a, h. Qed.

Lemma runs_bind {A B} (m : H X A) (f : A -> H X B) h Q :
  runs m h (fun a h1 => grows h h1 -> runs (f a) h1 Q) -> runs (bindH m f) h Q.
Proof.
  intros (a & h1 & E1 & G1 & H1). destruct (H1 G1) as (b & h2 & E2 & G2 & HQ).
  exists b, h2. unfold bindH. rewrite E1. simpl. split; [done|]. split; [by etrans|done].
Qed.

Lemma runs_mono {A} (m : H X A) h (Q Q' : A -> heap X -> Prop) :
  runs m h Q -> (forall a h', grows h h' -> Q a h' -> Q' a h') -> runs m h Q'.
Proof. intros (a & h' & E & G & HQ) HQQ. exists a, h'. auto. Qed.

Lemma denotes_grows {T V} `{HD : Denotes X T V} P h h' t v :
  denotes P h t v -> grows h h' -> denotes P h' t v.
Proof. intros Ht [_ G]. eapply denotes_frame; [done|]. auto. Qed.

Lemma denotes_fresh {T V} `{HD : Denotes X T V} (h0 h h' : heap X) t v :
  denotes (fresh h) h' t v -> grows h0 h -> denotes (fresh h0) h' t v.
Proof. intros Ht [L _]. eapply denotes_mono; [done|]. unfold fresh. lia. Qed.

(** One more field of a struct. *)
Lemma runs_field {T V B} `{HD : Denotes X T V} P (c : T -> H X T) (h0 h : heap X) t v (f : T -> H X B) Q :
  copying c -> denotes P h0 t v -> grows h0 h ->
  (forall t' h', grows h0 h' -> grows h h' -> denotes (fresh h0) h' t' v -> runs (f t') h' Q) ->
  runs (bindH (c t) f) h Q.
Proof.
  intros Hc Ht G Hf. apply runs_bind. eapply runs_mono; [exact (Hc _ _ _ _ (denotes_grows P h0 h t v Ht G))|].
  intros t' h' G' Ht' _. apply Hf; [by etrans|done|]. exact (denotes_fresh h0 h h' t' v Ht' G).
Qed.

(** Writing to a cell made after [h]. *)
Lemma insert_grows (h h' : heap X) a c : grows h h' -> fresh h a -> grows h (<[a := c]> h').
Proof.
  intros [L G] Ha. unfold fresh in Ha. split; [by rewrite length_insert|].
  intros l Hl. rewrite list_lookup_insert_ne by lia. auto.
Qed.

Lemma app_grows (h : heap X) c : grows h (h ++ [c]).
Proof. split; [rewrite length_app; lia|]. intros l Hl. by rewrite lookup_app_l. Qed.

Lemma app_at (h : heap X) c : (h ++ [c]) !! length h = Some c.
Proof. by rewrite lookup_app_r, Nat.sub_diag by done. Qed.

(** The cell behind a reference. *)
Lemma denotes_load {T V} `{HC : Cell X T} `{HD : Denotes X T V} P (h h' : heap X) l v :
  denotes P h (Some l : Ref T) (Some v) -> grows h h' ->
  exists t, load (T := T) l h' = Some (t, h') /\ denotes P h t v.
Proof.
  intros (_ & t & Ht & Hv) [_ G]. exists t. split; [|done]. unfold load.
  destruct (h !! l) as [c|] eqn:E; [|done]. rewrite G, E by (by eapply lookup_lt_Some).
  simpl in *. by rewrite Ht.
Qed.

Lemma load_cell {T} `{HC : Cell X T} (h : heap X) a (t : T) :
  h !! a = Some (to_cell t) -> load a h = Some (t, h).
Proof. intros E. unfold load. rewrite E. simpl. by rewrite of_to_cell. Qed.

Lemma store_at {T} `{HC : Cell X T} (h : heap X) a (t : T) :
  (a < length h)%nat -> store a t h = Some (tt, <[a := to_cell t]> h).
Proof. intros Ha. unfold store. by rewrite bool_decide_true. Qed.

(** A reference to a new cell that was written last. *)
Lemma denotes_new {T V} `{HC : Cell X T} `{HD : Denotes X T V} (h h' : heap X) a t v :
  fresh h a -> (a < length h')%nat -> denotes (fun l => S a <= l)%nat h' t v ->
  denotes (fresh h) (<[a := to_cell t]> h') (Some a : Ref T) (Some v).
Proof.
  intros Ha Hl Ht. split; [done|]. exists t. rewrite list_lookup_insert_eq by done. simpl.
  rewrite of_to_cell. split; [done|]. unfold fresh in *.
  eapply (denotes_mono (fun l => S a <= l)%nat); [|lia]. eapply denotes_frame; [done|].
  intros l Hl1 _. by rewrite list_lookup_insert_ne by lia.
Qed.

Lemma fresh_app (h : heap X) c l : fresh (h ++ [c]) l <-> (S (length h) <= l)%nat.
Proof. unfold fresh. rewrite length_app. simpl. lia. Qed.

Lemma copy_pointer_copying {T V} `{HC : Cell X T} `{HD : Denotes X T V} (c : T -> H X T) :
  copying c -> copying (T := Ref T) (copy_pointer c).
Proof.
  intros Hc P h [l|] [v|] Hp; try done; [|by apply runs_ret].
  set (h1 := h ++ [to_cell (zero (X := X) (T := T))]).
  assert (grows h h1) as G1 by apply app_grows.
  destruct (denotes_load P h h1 l v Hp G1) as (t & El & Ht).
  destruct (Hc P h1 t v ltac:(by eapply denotes_grows)) as (y & h2 & Ec & G2 & Hy).
  assert (length h < length h2)%nat as Hlt.
  { destruct G2 as [L _]. unfold h1 in L. rewrite length_app in L. simpl in L. lia. }
  exists (Some (length h)), (<[length h := to_cell y]> h2). split_and!.
  - unfold copy_pointer, bindH, new. simpl. fold h1. rewrite El. simpl. rewrite Ec. simpl.
    by rewrite store_at.
  - apply insert_grows; [by etrans|]. unfold fresh. lia.
  - apply denotes_new; [unfold fresh; lia|done|]. eapply denotes_mono; [done|]. intros l'. by apply fresh_app.
Qed.

Lemma copy_strings_copying : copying (T := Ref (list string)) (copy_strings (X := X)).
Proof.
  intros P h [l|] [v|] Hp; try done; [|by apply runs_ret].
  destruct (denotes_load P h h l v Hp ltac:(done)) as (t & El & Ht).
  assert (length h < length (h ++ [to_cell (replicate (length t) ""%string)]))%nat as Hlt
    by (rewrite length_app; simpl; lia).
  eexists (Some (length h)), _. split_and!.
  - unfold copy_strings, bindH. rewrite El. simpl. by rewrite store_at.
  - apply insert_grows; [apply app_grows|]. unfold fresh. lia.
  - apply denotes_new; [unfold fresh; lia|done|exact Ht].
Qed.

(** *** Maps *)

Lemma copy_entries_run (h : heap X) out (m : gmap string string) kvs :
  h !! out = Some (CMap m) ->
  copy_entries out kvs h =
  Some (tt, <[out := CMap (fold_left (fun m kv => <[kv.1 := kv.2]> m) kvs m)]> h).
Proof.
  revert h m; induction kvs as [|[k v] kvs IH]; intros h m E; simpl.
  - unfold ret. by rewrite list_insert_id.
  - assert (out < length h)%nat as Hl by (by eapply lookup_lt_Some).
    unfold bindH. rewrite (load_cell h out m) by done. simpl. rewrite store_at by done. simpl.
    rewrite (IH _ (<[k := v]> m)) by (by apply list_lookup_insert_eq).
    by rewrite list_insert_insert_eq.
Qed.

(** The order of the runtime does not matter. *)
Lemma fill_map (s : list nat) (m : gmap string string) :
  fold_left (fun m kv => <[kv.1 := kv.2]> m) (shuffle s (map_to_list m)) ∅ = m.
Proof.
  rewrite <- fold_left_rev_right.
  change (foldr (fun kv (m : gmap string string) => <[kv.1 := kv.2]> m) ∅
    (rev (shuffle s (map_to_list m))) = m).
  transitivity (list_to_map (rev (shuffle s (map_to_list m))) : gmap string string); [done|].
  assert (rev (shuffle s (map_to_list m)) ≡ₚ map_to_list m) as HP
    by (rewrite <- Permutation_rev; apply shuffle_perm).
  rewrite (list_to_map_proper _ (map_to_list m)); [apply list_to_map_to_list| |done].
  rewrite HP. apply NoDup_fst_map_to_list.
Qed.

Lemma copy_map_copying seed : copying (T := Ref (gmap string string)) (copy_map (X := X) seed).
Proof.
  intros P h [l|] [v|] Hp; try done; [|by apply runs_ret].
  destruct (denotes_load P h h l v Hp ltac:(done)) as (t & El & Ht).
  assert (length h < length (h ++ [CMap (X := X) ∅]))%nat as Hlt by (rewrite length_app; simpl; lia).
  eexists (Some (length h)), _. split_and!.
  - unfold copy_map, bindH. rewrite El. simpl.
    rewrite (copy_entries_run _ _ ∅) by apply app_at. simpl. by rewrite fill_map.
  - apply insert_grows; [apply app_grows|]. unfold fresh. lia.
  - refine (denotes_new (T := gmap string string) h (h ++ [CMap ∅]) (length h) t v _ Hlt Ht).
    unfold fresh. lia.
Qed.
End copy_specs.

(** *** Slices *)

Section slices.
  Context {X T V : Type} `{HX : Library X} `{HC : Cell X T} `{HCs : Cell X (list T)}.
  Context `{HD : Denotes X T V} (c : T -> H X T) (Hc : copying c).

(** After the loop, the array holds copies from the starting index on; nothing
    else below the end of the heap has changed. *)
Lemma copy_elements_run P (h0 : heap X) out xs vs : Forall2 (denotes P h0) xs vs ->
  forall i ys h, grows h0 h -> fresh h0 out -> h !! out = Some (to_cell ys) ->
  length ys = (i + length xs)%nat ->
  exists ys' h', copy_elements c out i xs h = Some (tt, h') /\
    (length h <= length h')%nat /\
    (forall l, (l < length h)%nat -> l <> out -> h' !! l = h !! l) /\
    h' !! out = Some (to_cell ys') /\ take i ys' = take i ys /\
    Forall2 (denotes (fun l => S out <= l)%nat h') (drop i ys') vs.
Proof.
  induction 1 as [|x v xs vs Hx _ IH]; intros i ys h G Ho E Hlen.
  { exists ys, h. simpl in *. rewrite drop_ge by lia. by split_and!. }
  destruct (Hc P h x v ltac:(by eapply denotes_grows)) as (y & h1 & Ec & [L1 G1] & Hy).
  assert (out < length h)%nat as Hl by (by eapply lookup_lt_Some).
  set (h2 := <[out := to_cell (<[i := y]> ys)]> h1).
  assert (length h2 = length h1) as L2 by apply length_insert.
  destruct (IH (S i) (<[i := y]> ys) h2) as (ys' & h' & Er & L' & G' & E' & Ht & Hd).
  - apply insert_grows; [|done]. etrans; [done|]. by split.
  - done.
  - apply list_lookup_insert_eq. lia.
  - rewrite length_insert. simpl in Hlen. lia.
  - assert (ys' !! i = Some y) as Hi.
    { rewrite <- (lookup_take_lt _ (S i)), Ht, lookup_take_lt by lia.
      apply list_lookup_insert_eq. simpl in Hlen. lia. }
    exists ys', h'. split_and!.
    + cbn [copy_elements]. unfold bindH. rewrite Ec. simpl.
      rewrite (load_cell h1 out ys) by (rewrite G1 by done; done). simpl.
      rewrite store_at by lia. simpl. exact Er.
    + lia.
    + intros l Hl' Hne. rewrite G' by (done || lia). unfold h2.
      rewrite list_lookup_insert_ne by done. auto.
    + done.
    + transitivity (take i (take (S i) ys')); [by rewrite take_take, Nat.min_l by lia|].
      rewrite Ht, take_take, Nat.min_l by lia. by apply take_insert_ge.
    + rewrite (drop_S _ _ _ Hi). constructor; [|done].
      eapply (denotes_mono (fresh h)); [|unfold fresh; lia]. eapply denotes_frame; [done|].
      intros l Hf Hl'. unfold fresh in Hf. rewrite G' by lia. unfold h2.
      by rewrite list_lookup_insert_ne by lia.
Qed.

Lemma copy_slice_copying : copying (T := Ref (list T)) (copy_slice c).
Proof.
  intros P h [l|] [vs|] Hp; try done; [|by apply runs_ret].
  destruct (denotes_load P h h l vs Hp ltac:(done)) as (xs & El & Ht).
  set (h1 := h ++ [to_cell (replicate (length xs) (zero (X := X) (T := T)))]).
  destruct (copy_elements_run P h (length h) xs vs Ht 0 (replicate (length xs) (zero (X := X) (T := T))) h1)
    as (ys & h' & Er & L & G & E & _ & Hd).
  - apply app_grows.
  - unfold fresh. lia.
  - apply app_at.
  - by rewrite length_replicate.
  - assert (grows h h') as G'.
    { unfold h1 in L. rewrite length_app in L. simpl in L. split; [lia|]. intros l' Hl'.
      rewrite G; [unfold h1; by rewrite lookup_app_l| |lia]. unfold h1. rewrite length_app. simpl. lia. }
    exists (Some (length h)), h'. split_and!; [|done|].
    + unfold copy_slice, bindH. rewrite El. simpl. fold h1. by rewrite Er.
    + split; [unfold fresh; lia|]. exists ys. rewrite E. simpl. rewrite of_to_cell. split; [done|].
      rewrite drop_0 in Hd. eapply Forall2_impl; [exact Hd|]. intros a b Hab.
      eapply denotes_mono; [exact Hab|]. unfold fresh. lia.
Qed.
End slices.

(** *** The structs *)

Create HintDb copies.
#[export] Hint Resolve copy_pointer_copying copy_strings_copying copy_map_copying
  copy_slice_copying : copies.

(** The library keeps what its documentation says of [DeepCopyInto]. *)
Section types.
  Context {X Xv : Type} `{HX : Library X} `{HD : !Denotes X X Xv}.
  Context (seed : addr -> list nat) (x_DeepCopyInto : X -> H X X).
  Context (Hx : copying x_DeepCopyInto).

Ltac copy_field :=
  match goal with
  | |- runs (bindH (?c ?f) _) _ _ =>
      eapply (runs_field _ c); [|eassumption|eassumption|intros ? ? ? ? ?]
  | |- runs (ret _) _ _ => apply runs_ret
  end.
Ltac grown := first [eassumption | etrans; [eassumption|grown]].
(** Copy the fields one after the other, then collect what they denote. *)
Ltac copy_struct :=
  intros P h t v Ht; hnf in Ht; repeat match type of Ht with _ /\ _ => destruct Ht as [? Ht] end;
  assert (grows h h) by reflexivity;
  repeat copy_field;
  try (hnf; split_and!; first [eassumption | eapply denotes_grows; [eassumption|grown]]);
  auto with copies.

Lemma Condition_copying : copying (Condition_DeepCopyInto x_DeepCopyInto).
Proof. unfold Condition_DeepCopyInto. copy_struct. Qed.
#[local] Hint Resolve Condition_copying : copies.
Lemma RedisExporter_copying : copying (RedisExporter_DeepCopyInto (X := X)).
Proof. unfold RedisExporter_DeepCopyInto. copy_struct. Qed.
Lemma RedisStorage_copying : copying (RedisStorage_DeepCopyInto x_DeepCopyInto).
Proof. unfold RedisStorage_DeepCopyInto. copy_struct. Qed.
#[local] Hint Resolve RedisStorage_copying : copies.
Lemma SentinelSettings_copying : copying (SentinelSettings_DeepCopyInto seed x_DeepCopyInto).
Proof. unfold SentinelSettings_DeepCopyInto. copy_struct. Qed.
#[local] Hint Resolve SentinelSettings_copying : copies.
Lemma RedisStandaloneSpec_copying : copying (RedisStandaloneSpec_DeepCopyInto seed x_DeepCopyInto).
Proof. unfold RedisStandaloneSpec_DeepCopyInto. copy_struct. Qed.
#[local] Hint Resolve RedisStandaloneSpec_copying : copies.
Lemma RedisSentinelSpec_copying : copying (RedisSentinelSpec_DeepCopyInto seed x_DeepCopyInto).
Proof. unfold RedisSentinelSpec_DeepCopyInto. copy_struct. Qed.
#[local] Hint Resolve RedisSentinelSpec_copying : copies.
Lemma RedisSentinelStatus_copying : copying (RedisSentinelStatus_DeepCopyInto x_DeepCopyInto).
Proof. unfold RedisSentinelStatus_DeepCopyInto. copy_struct. Qed.
#[local] Hint Resolve RedisSentinelStatus_copying : copies.
Lemma RedisStandaloneStatus_copying : copying (RedisStandaloneStatus_DeepCopyInto x_DeepCopyInto).
Proof. unfold RedisStandaloneStatus_DeepCopyInto. copy_struct. Qed.
#[local] Hint Resolve RedisStandaloneStatus_copying : copies.
Lemma RedisSentinel_copying : copying (RedisSentinel_DeepCopyInto seed x_DeepCopyInto).
Proof. unfold RedisSentinel_DeepCopyInto. copy_struct. Qed.
#[local] Hint Resolve RedisSentinel_copying : copies.
Lemma RedisStandalone_copying : copying (RedisStandalone_DeepCopyInto seed x_DeepCopyInto).
Proof. unfold RedisStandalone_DeepCopyInto. copy_struct. Qed.
#[local] Hint Resolve RedisStandalone_copying : copies.
Lemma RedisSentinelList_copying : copying (RedisSentinelList_DeepCopyInto seed x_DeepCopyInto).
Proof. unfold RedisSentinelList_DeepCopyInto. copy_struct. Qed.
#[local] Hint Resolve RedisSentinelList_copying : copies.
Lemma RedisStandaloneList_copying : copying (RedisStandaloneList_DeepCopyInto seed x_DeepCopyInto).
Proof. unfold RedisStandaloneList_DeepCopyInto. copy_struct. Qed.
#[local] Hint Resolve RedisStandaloneList_copying : copies.
End types.

(** ** The promise of a deep copy *)

(** [DeepCopy] returns, nil for nil. The copy denotes what the original denotes,
    and it goes on doing so whatever is written to the cells that were there
    before the copy or that are made later; and the original goes on denoting
    the same whatever is written to the copy. *)
Definition separate_copy {X T V} `{Denotes X T V} `{Cell X T} (DeepCopy : Ref T -> H X (Ref T)) : Prop :=
  forall P h (p : Ref T) ov, denotes (T := Ref T) P h p ov ->
  exists q h', DeepCopy p h = Some (q, h') /\ (q = None <-> p = None) /\
    denotes (T := Ref T) (fresh h) h' q ov /\ denotes (T := Ref T) P h' p ov /\
    (forall h2, (forall l, length h <= l < length h' -> h2 !! l = h' !! l)%nat ->
       denotes (T := Ref T) (fresh h) h2 q ov) /\
    (forall h2, (forall l, l < length h -> h2 !! l = h !! l)%nat -> denotes (T := Ref T) P h2 p ov).

Section promise.
  Context {X Xv : Type} `{HX : Library X} `{HD : !Denotes X X Xv}.

Lemma copying_separate {T V} `{HC : Cell X T} `{HDT : Denotes X T V} (c : T -> H X T) :
  copying c -> separate_copy (copy_pointer c).
Proof.
  intros Hc P h p ov Hp.
  destruct (copy_pointer_copying c Hc P h p ov Hp) as (q & h' & E & G & Hq).
  exists q, h'. split_and!; [done| | |by eapply denotes_grows| |].
  - destruct p, ov, q; try done.
  - done.
  - intros h2 H2. eapply (denotes_frame (T := Ref T)); [exact Hq|]. intros l Hf Hl. by apply H2.
  - intros h2 H2. eapply (denotes_frame (T := Ref T)); [exact Hp|]. intros l _ Hl. by apply H2.
Qed.

(** C19: The generated deep copies are deep, for all twelve types of the file. If the
    library's [DeepCopyInto] copies its own structs, then [DeepCopy] neither fails nor
    changes what was there, returns nil for nil and otherwise a copy that denotes
    the same value in whatever order the maps are visited, and from then on no
    write to the original, or to anything made later, is seen through the copy,
    and no write to the copy is seen through the original. *)
Theorem DeepCopy_separate (seed : addr -> list nat) (x_DeepCopyInto : X -> H X X) :
  copying x_DeepCopyInto ->
  separate_copy (Condition_DeepCopy x_DeepCopyInto) /\
  separate_copy (X := X) RedisExporter_DeepCopy /\
  separate_copy (RedisStorage_DeepCopy x_DeepCopyInto) /\
  separate_copy (SentinelSettings_DeepCopy seed x_DeepCopyInto) /\
  separate_copy (RedisStandaloneSpec_DeepCopy seed x_DeepCopyInto) /\
  separate_copy (RedisSentinelSpec_DeepCopy seed x_DeepCopyInto) /\
  separate_copy (RedisSentinelStatus_DeepCopy x_DeepCopyInto) /\
  separate_copy (RedisStandaloneStatus_DeepCopy x_DeepCopyInto) /\
  separate_copy (RedisSentinel_DeepCopy seed x_DeepCopyInto) /\
  separate_copy (RedisStandalone_DeepCopy seed x_DeepCopyInto) /\
  separate_copy (RedisSentinelList_DeepCopy seed x_DeepCopyInto) /\
  separate_copy (RedisStandaloneList_DeepCopy seed x_DeepCopyInto).
Proof.
  intros Hx. split_and!; apply copying_separate;
    auto using Condition_copying, RedisExporter_copying, RedisStorage_copying, SentinelSettings_copying,
      RedisStandaloneSpec_copying, RedisSentinelSpec_copying, RedisSentinelStatus_copying,
      RedisStandaloneStatus_copying, RedisSentinel_copying, RedisStandalone_copying,
      RedisSentinelList_copying, RedisStandaloneList_copying.
Qed.

(** A nil pointer becomes a nil interface, any other a pointer of its type. *)
Lemma DeepCopyObject_nil (seed : addr -> list nat) (x_DeepCopyInto : X -> H X X) P h p ov :
  copying x_DeepCopyInto -> denotes (T := Ref (RedisSentinel Ref X)) P h p ov ->
  exists o h', RedisSentinel_DeepCopyObject seed x_DeepCopyInto p h = Some (o, h') /\
    match p with None => o = None | Some _ => exists q, o = Some (OSentinel (Some q)) end.
Proof.
  intros Hx Hp.
  destruct (copying_separate _ (RedisSentinel_copying seed _ Hx) P h p ov Hp)
    as (q & h' & E & Hnil & _).
  unfold RedisSentinel_DeepCopyObject, as_object, bindH. unfold RedisSentinel_DeepCopy. rewrite E. simpl.
  destruct q as [q|], p as [l|]; eexists _, _; (split; [done|]); [by exists q|..]; by destruct Hnil; intuition.
Qed.
End promise.

(** ** A resource in memory *)

(** The library's structs as strings, which hold no references. *)
#[local] Instance string_library : Library string := {| x_zero := "" |}.
#[local] Instance string_denotes : Denotes string string string.
Proof. refine {| denotes := denotes_flat |}; unfold denotes_flat; congruence. Defined.
#[local] Instance string_cell : Cell string string := cell_library.

Lemma string_copying : copying (X := string) (fun x => ret x).
Proof. intros P h t v Ht. by apply runs_ret. Qed.

(** A specification with one map, shared by two of its fields. *)
Definition memory_spec (m : Ref (gmap string string)) : RedisStandaloneSpec Ref string :=
  mkStandaloneSpec 1 "" "redis" "" None None "" zero_storage "pw" zero_exporter None None None None
    m m false.

Definition memory : heap string :=
  [CMap {[ "maxmemory" := "1gb" ]};
   CStandalone (mkStandalone zero_type "demo" (memory_spec (Some 0%nat)) zero_status)].

Definition value_spec (m : gmap string string) : RedisStandaloneSpec option string :=
  mkStandaloneSpec 1 "" "redis" "" None None "" (mkStorage false None None) "pw" zero_exporter
    None None None None (Some m) (Some m) false.

Definition memory_value : RedisStandalone option string :=
  mkStandalone zero_type "demo" (value_spec {[ "maxmemory" := "1gb" ]}) (mkStatus None "" "").

Lemma memory_denotes :
  denotes (T := Ref (RedisStandalone Ref string)) (fun _ => True) memory (Some 1%nat) (Some memory_value).
Proof.
  split; [done|]. eexists. split; [reflexivity|]. hnf. split_and!; try done. hnf.
  split_and!; try done; (split; [done|]); eexists; done.
Qed.

Lemma DeepCopy_separate_witness :
  exists q h', RedisStandalone_DeepCopy (fun _ => []) (fun x => ret x) (Some 1%nat) memory
      = Some (Some q, h') /\
    denotes (T := Ref (RedisStandalone Ref string)) (fresh memory) (<[0%nat := CMap ∅]> h') (Some q)
      (Some memory_value).
Proof.
  destruct (DeepCopy_separate (fun _ => []) (fun x => ret x) string_copying) as (_ & _ & _ & _ & _ & _ & _ & _ & _ & Hsep & _).
  destruct (Hsep _ _ _ _ memory_denotes) as (q & h' & E & Hnil & _ & _ & Hframe & _).
  destruct q as [q|]; [|destruct Hnil as [Hnil _]; discriminate (Hnil eq_refl)].
  exists q, h'. split; [exact E|]. apply Hframe. intros l Hl. apply list_lookup_insert_ne.
  simpl in Hl. lia.
Defined.

(** The copy does not share the map the original shares between two fields. *)
Example copied_memory :
  snd <$> RedisStandalone_DeepCopy (fun _ => []) (fun x => ret x) (Some 1%nat) memory =
  Some (memory ++
    [CStandalone (mkStandalone zero_type "demo"
       (mkStandaloneSpec 1 "" "redis" "" None None "" zero_storage "pw" zero_exporter None None None None
          (Some 3%nat) (Some 4%nat) false) zero_status);
     CMap {[ "maxmemory" := "1gb" ]}; CMap {[ "maxmemory" := "1gb" ]}]).
Proof. vm_compute. reflexivity. Qed.
