(* ===== verification/GoStd.v ===== *)
(** * The part of Go's standard library the operator uses

    [strings], [strconv], [regexp] (one shape of pattern), [net.JoinHostPort]
    and [fmt.Sprintf] with [%s], [%d] and [%c], on byte strings.  Case folding
    is that of ASCII, the alphabet of Kubernetes names and of Redis settings.
    Nothing here models code of the repository; the components do. *)

From S2P Require Import Prelude.

(** ** strings *)

Fixpoint map_string (f : ascii -> ascii) (s : string) : string :=
  match s with
  | EmptyString => EmptyString
  | String c s => String (f c) (map_string f s)
  end.

Definition in_range (lo hi c : ascii) : bool :=
  (N_of_ascii lo <=? N_of_ascii c)%N && (N_of_ascii c <=? N_of_ascii hi)%N.

Definition lower_char (c : ascii) : ascii :=
  if in_range "A" "Z" c then ascii_of_N (N_of_ascii c + 32) else c.
Definition upper_char (c : ascii) : ascii :=
  if in_range "a" "z" c then ascii_of_N (N_of_ascii c - 32) else c.

(** [strings.ToLower] and [strings.ToUpper] of ASCII text, a byte at a time. Go maps
    all of Unicode. The names that are put in upper case are names of Kubernetes
    objects, which are ASCII; of the amounts of memory that are put in lower case
    the code looks at ASCII letters and digits only, and of the letters that are
    not ASCII just the Kelvin sign (U+212A) and the dotted capital i (U+0130) have
    such a letter as their lower case. An amount spelled with one of these is the
    only input whose treatment differs. *)
Definition ToLower : string -> string := map_string lower_char.
Definition ToUpper : string -> string := map_string upper_char.

(** [strings.HasSuffix] and the slice [u[:len(u)-n]]. *)
Definition HasSuffix (s suffix : string) : bool :=
  (String.length suffix <=? String.length s)%nat &&
  (String.substring (String.length s - String.length suffix) (String.length suffix) s
     =? suffix)%string.
Definition drop_last (n : nat) (s : string) : string :=
  String.substring 0 (String.length s - n) s.

(** [strings.Contains]. *)
Fixpoint Contains (s sub : string) : bool :=
  String.prefix sub s ||
  match s with
  | EmptyString => false
  | String _ s' => Contains s' sub
  end.

(** [strings.Split] by a separator of one byte, never the empty list. *)
Fixpoint Split (s : string) (sep : ascii) : list string :=
  match s with
  | EmptyString => [EmptyString]
  | String c s' =>
      if (c =? sep)%char then EmptyString :: Split s' sep
      else match Split s' sep with
           | [] => [String c EmptyString]
           | w :: ws => String c w :: ws
           end
  end.

(** [strings.Join]. *)
Definition Join (ws : list string) (sep : string) : string := String.concat sep ws.

(** [strings.ReplaceAll] of one byte by another. *)
Definition ReplaceAll (s : string) (old new : ascii) : string :=
  map_string (fun c => if (c =? old)%char then new else c) s.

(** ** strconv *)

Inductive NumError := ErrSyntax | ErrRange.

Definition digit_val (c : ascii) : option N :=
  if in_range "0" "9" c then Some (N_of_ascii c - 48)%N else None.

Definition maxUint64 : N := (2 ^ 64 - 1)%N.

(** The digit loop of [strconv.ParseUint] in base 10 and 64 bits: the first
    byte that is not a digit, or the first digit that overflows, ends it. *)
Fixpoint parse_digits (n : N) (s : string) : NumError + N :=
  match s with
  | EmptyString => inr n
  | String c s' =>
      match digit_val c with
      | None => inl ErrSyntax
      | Some d =>
          if (maxUint64 / 10 + 1 <=? n)%N then inl ErrRange
          else if (maxUint64 <? n * 10 + d)%N then inl ErrRange
          else parse_digits (n * 10 + d) s'
      end
  end.

Definition ParseUint (s : string) : NumError + N :=
  match s with
  | EmptyString => inl ErrSyntax
  | _ => parse_digits 0 s
  end.

(** [strconv.ParseInt(s, 10, 64)]; [strconv.Atoi] returns the same on a 64-bit
    platform. *)
Definition ParseInt (s : string) : NumError + Z :=
  let signed (neg : bool) (digits : string) : NumError + Z :=
    match ParseUint digits with
    | inl e => inl e
    | inr un =>
        if negb neg && (2 ^ 63 <=? un)%N then inl ErrRange
        else if neg && (2 ^ 63 <? un)%N then inl ErrRange
        else inr (if neg then - Z.of_N un else Z.of_N un)
    end in
  match s with
  | EmptyString => inl ErrSyntax
  | String c s' =>
      if (c =? "+")%char then signed false s'
      else if (c =? "-")%char then signed true s'
      else signed false s
  end.

Definition Atoi : string -> NumError + Z := ParseInt.

(** [strconv.FormatInt(z, 10)], [strconv.Itoa] and the verb [%d]. *)
Definition FormatInt (z : Z) : string := pretty z.

(** ** regexp

    [FindStringSubmatch] for a pattern [lit([class]+)]: the leftmost place
    where the literal is followed by a byte of the class, and the longest run
    of such bytes there. *)

Fixpoint take_class (cls : ascii -> bool) (s : string) : string :=
  match s with
  | EmptyString => EmptyString
  | String c s' => if cls c then String c (take_class cls s') else EmptyString
  end.

Fixpoint strip_prefix (p s : string) : option string :=
  match p, s with
  | EmptyString, _ => Some s
  | String a p', String b s' => if (a =? b)%char then strip_prefix p' s' else None
  | _, EmptyString => None
  end.

Definition match_here (lit : string) (cls : ascii -> bool) (s : string) : option string :=
  match strip_prefix lit s with
  | Some rest => match take_class cls rest with EmptyString => None | m => Some m end
  | None => None
  end.

Fixpoint find_submatch (lit : string) (cls : ascii -> bool) (s : string) : option string :=
  match match_here lit cls s with
  | Some m => Some m
  | None => match s with
            | EmptyString => None
            | String _ s' => find_submatch lit cls s'
            end
  end.

(** The classes [[0-9]], [[a-z]] and [[0-9a-zA-Z:.]]. *)
Definition class_digit (c : ascii) : bool := in_range "0" "9" c.
Definition class_lower (c : ascii) : bool := in_range "a" "z" c.
Definition class_host (c : ascii) : bool :=
  in_range "0" "9" c || in_range "a" "z" c || in_range "A" "Z" c ||
  (c =? ":")%char || (c =? ".")%char.

(** ** net *)

Fixpoint has_char (p : ascii -> bool) (s : string) : bool :=
  match s with
  | EmptyString => false
  | String c s' => p c || has_char p s'
  end.

Definition JoinHostPort (host port : string) : string :=
  if has_char (fun c => (c =? ":")%char || (c =? "%")%char) host
  then "[" ^^ host ^^ "]:" ^^ port
  else host ^^ ":" ^^ port.


(** ** errors

    An error is the text [Error()] returns, and whether the Kubernetes
    libraries classify it as "not found" ([apierrors.IsNotFound]). *)

Record error := mkError { Error : string; IsNotFound : bool }.

Definition errors_New (msg : string) : error := mkError msg false.

#[export] Instance error_eq : EqDecision error.
Proof. solve_decision. Defined.

(** ** Lemmas: concatenation and length *)

Lemma app_cons_str c (a b : string) : String c a ^^ b = String c (a ^^ b).
Proof. done. Qed.

Lemma app_empty_l (a : string) : "" ^^ a = a.
Proof. done. Qed.

Lemma app_assoc_str (a b c : string) : (a ^^ b) ^^ c = a ^^ b ^^ c.
Proof. induction a as [|x a IH]; [done|]. by rewrite !app_cons_str, IH. Qed.

Lemma app_empty_r (a : string) : a ^^ "" = a.
Proof. induction a as [|x a IH]; [done|]. by rewrite !app_cons_str, IH. Qed.

Lemma length_app_str (a b : string) :
  String.length (a ^^ b) = (String.length a + String.length b)%nat.
Proof. induction a as [|x a IH]; [done|]. rewrite app_cons_str. simpl. by rewrite IH. Qed.

Lemma app_inj_l (a b c : string) : a ^^ b = a ^^ c -> b = c.
Proof. apply String.app_inj. Qed.

Lemma app_inj_r (a b c : string) : a ^^ c = b ^^ c -> a = b.
Proof.
  revert b; induction a as [|x a IH]; intros [|y b]; rewrite ?app_empty_l, ?app_cons_str; intros H.
  - done.
  - apply (f_equal String.length) in H. simpl in H. rewrite length_app_str in H. lia.
  - apply (f_equal String.length) in H. simpl in H. rewrite length_app_str in H. lia.
  - injection H as -> H. f_equal. by apply IH.
Qed.

(** A string up to a byte that the prefixes do not hold is read off uniquely. *)
Lemma app_char_inj (p : ascii -> bool) c a a' b b' :
  p c = true -> has_char p a = false -> has_char p a' = false ->
  a ^^ String c b = a' ^^ String c b' -> a = a' /\ b = b'.
Proof.
  intros Hc. revert a'; induction a as [|x a IH]; intros [|y a']; simpl;
    rewrite ?app_empty_l, ?app_cons_str; intros Ha Ha' H.
  - by injection H.
  - injection H as -> _. by rewrite Hc in Ha'.
  - injection H as <- _. by rewrite Hc in Ha.
  - injection H as -> H. apply orb_false_iff in Ha as [_ Ha], Ha' as [_ Ha'].
    destruct (IH a' Ha Ha' H) as [-> ->]. done.
Qed.

Lemma has_char_app p a b : has_char p (a ^^ b) = has_char p a || has_char p b.
Proof.
  induction a as [|x a IH]; [done|]. rewrite app_cons_str. simpl. by rewrite IH, orb_assoc.
Qed.

(** ** Lemmas: substrings *)

Lemma substring_0_app a b : String.substring 0 (String.length a) (a ^^ b) = a.
Proof.
  induction a as [|x a IH]; [rewrite app_empty_l; by destruct b|].
  rewrite app_cons_str. simpl. by rewrite IH.
Qed.

Lemma substring_app_tail a b : String.substring (String.length a) (String.length b) (a ^^ b) = b.
Proof.
  induction a as [|x a IH]; [|done].
  rewrite app_empty_l. rewrite <- (app_empty_r b) at 2. by rewrite substring_0_app.
Qed.

Lemma substring_split n s :
  (n <= String.length s)%nat ->
  String.substring 0 n s ^^ String.substring n (String.length s - n) s = s.
Proof.
  revert s; induction n as [|n IH]; intros s Hn.
  - rewrite Nat.sub_0_r. pose proof (substring_0_app s "") as E. rewrite app_empty_r in E.
    by destruct s.
  - destruct s as [|c s]; simpl in *; [lia|]. rewrite app_cons_str. f_equal. apply IH. lia.
Qed.

Lemma HasSuffix_spec s suffix :
  HasSuffix s suffix = true <-> exists p, s = p ^^ suffix.
Proof.
  unfold HasSuffix. split.
  - intros H. apply andb_true_iff in H as [Hl He]. apply Nat.leb_le in Hl.
    apply String.eqb_eq in He.
    exists (String.substring 0 (String.length s - String.length suffix) s).
    rewrite <- He at 2. replace (String.length suffix) with
      (String.length s - (String.length s - String.length suffix))%nat at 3 by lia.
    by rewrite substring_split by lia.
  - intros [p ->]. rewrite length_app_str. apply andb_true_iff. split; [apply Nat.leb_le; lia|].
    replace (String.length p + String.length suffix - String.length suffix)%nat
      with (String.length p) by lia.
    rewrite substring_app_tail. apply String.eqb_refl.
Qed.

Lemma drop_last_app p suffix : drop_last (String.length suffix) (p ^^ suffix) = p.
Proof.
  unfold drop_last. rewrite length_app_str, Nat.add_sub. apply substring_0_app.
Qed.

Lemma prefix_spec p s : String.prefix p s = true <-> exists r, s = p ^^ r.
Proof.
  revert s; induction p as [|c p IH]; intros s; simpl.
  - split; [intros _; by exists s|by destruct s].
  - destruct s as [|d s]; [split; [done|intros [r H]; discriminate H]|]. simpl.
    destruct (ascii_dec c d) as [->|Hne].
    + rewrite IH. split; intros [r H]; exists r; rewrite app_cons_str in *; congruence.
    + split; [done|]. intros [r H]. rewrite app_cons_str in H. congruence.
Qed.

Lemma Contains_spec s sub : Contains s sub = true <-> exists a b, s = a ^^ sub ^^ b.
Proof.
  induction s as [|c s IH]; cbn [Contains]; rewrite orb_true_iff, prefix_spec.
  - split.
    + intros [[r H]|H]; [|done]. by exists "", r.
    + intros (a & b & H). left. destruct a; [by exists b|discriminate H].
  - rewrite IH. split.
    + intros [[r H]|(a & b & H)]; [by exists "", r|].
      exists (String c a), b. by rewrite app_cons_str, H.
    + intros (a & b & H). destruct a as [|x a]; [left; by exists b|right].
      rewrite app_cons_str in H. injection H as -> H. by exists a, b.
Qed.

(** ** Lemmas: [Split] and [Join] *)

Lemma Split_cons s sep : exists w ws, Split s sep = w :: ws.
Proof.
  destruct s as [|c s]; simpl; [eauto|]. destruct (c =? sep)%char; [eauto|].
  destruct (Split s sep); eauto.
Qed.

Lemma Join_Split s sep : Join (Split s sep) (String sep EmptyString) = s.
Proof.
  unfold Join. induction s as [|c s IH]; [done|]. simpl.
  destruct (Split_cons s sep) as (w & ws & E). rewrite E in *.
  destruct (Ascii.eqb_spec c sep) as [->|Hne].
  - cbn. rewrite app_empty_l, app_cons_str, app_empty_l. f_equal. exact IH.
  - destruct ws as [|w' ws]; simpl in *; [by f_equal|]. rewrite app_cons_str. by f_equal.
Qed.

(** The first word holds no separator, and with a second word the separator
    stands between the two. *)
Lemma Split_first s sep w ws :
  Split s sep = w :: ws ->
  has_char (fun c => (c =? sep)%char) w = false /\
  (ws = [] /\ w = s \/
   ws <> [] /\ s = w ^^ String sep (Join ws (String sep EmptyString))).
Proof.
  revert w ws; induction s as [|c s IH]; intros w ws; simpl.
  - intros [= <- <-]. split; [done|]. by left.
  - destruct (Split_cons s sep) as (v & vs & E).
    destruct (Ascii.eqb_spec c sep) as [->|Hne].
    + rewrite E. intros [= <- <-]. split; [done|]. right. split; [done|].
      by rewrite app_empty_l, <- E, Join_Split.
    + rewrite E. intros [= <- <-]. destruct (IH v vs E) as [Hv Hs]. simpl.
      rewrite Hv. replace (c =? sep)%char with false by (symmetry; by apply Ascii.eqb_neq).
      split; [done|]. destruct Hs as [[-> ->]|[Hvs ->]]; [by left|right; split; [done|]].
      by rewrite app_cons_str.
Qed.

(** ** Lemmas: numbers *)

Lemma digit_val_range c d : digit_val c = Some d -> (d < 10)%N.
Proof.
  unfold digit_val, in_range. case_match; [|done]. intros [= <-]. bool_prop.
  rewrite N.leb_le in *. change (N_of_ascii "0") with 48%N in *.
  change (N_of_ascii "9") with 57%N in *. lia.
Qed.

Lemma digit_val_char x : (x < 10)%N -> digit_val (pretty_N_char x) = Some x.
Proof.
  intros H.
  assert (x = 0 \/ x = 1 \/ x = 2 \/ x = 3 \/ x = 4 \/ x = 5 \/ x = 6 \/ x = 7 \/ x = 8 \/ x = 9)%N
    as Hx by lia.
  by repeat destruct Hx as [->|Hx]; subst.
Qed.

(** The digits of [x], then those of [s]: the value is accumulated. *)
Fixpoint digits_value (n : N) (s : string) : option N :=
  match s with
  | EmptyString => Some n
  | String c s' => match digit_val c with Some d => digits_value (n * 10 + d) s' | None => None end
  end.

Lemma digits_value_ge n s v : digits_value n s = Some v -> (n <= v)%N.
Proof.
  revert n; induction s as [|c s IH]; intros n; simpl; [intros [= ->]; lia|].
  destruct (digit_val c); [|done]. intros H%IH. lia.
Qed.

Lemma parse_digits_ok n s v : digits_value n s = Some v -> (v <= maxUint64)%N -> parse_digits n s = inr v.
Proof.
  revert n; induction s as [|c s IH]; intros n; simpl; [by intros [= ->]|].
  destruct (digit_val c) as [d|]; [|done]. intros H Hv.
  pose proof (digits_value_ge _ _ _ H) as Hge.
  replace (maxUint64 / 10 + 1 <=? n)%N with false; [|symmetry; apply N.leb_gt].
  2:{ unfold maxUint64 in *. change ((2 ^ 64 - 1) / 10 + 1)%N with 1844674407370955162%N.
      change (2 ^ 64 - 1)%N with 18446744073709551615%N in *. lia. }
  replace (maxUint64 <? n * 10 + d)%N with false by (symmetry; apply N.ltb_ge; lia).
  by apply IH.
Qed.

Lemma parse_digits_inv n s v : parse_digits n s = inr v -> digits_value n s = Some v /\ (n <= maxUint64 -> v <= maxUint64)%N.
Proof.
  revert n; induction s as [|c s IH]; intros n; simpl; [by intros [= ->]|].
  destruct (digit_val c) as [d|]; [|done].
  destruct (_ <=? n)%N; [done|]. destruct (N.ltb_spec maxUint64 (n * 10 + d)); [done|].
  intros [Hd Hm]%IH. split; [done|]. intros _. by apply Hm.
Qed.

Lemma digits_value_go x s n :
  digits_value n (pretty_N_go x s) =
  digits_value (n * 10 ^ N.of_nat (String.length (pretty_N_go x s) - String.length s) + x) s.
Proof.
  revert s n. induction (N.lt_wf_0 x) as [x _ IH]; intros s n.
  destruct (decide (x = 0)%N) as [->|Hx].
  - rewrite pretty_N_go_0, Nat.sub_diag, N.add_0_r. by rewrite N.mul_1_r.
  - rewrite pretty_N_go_step by lia. rewrite IH by (apply N.div_lt; lia).
    assert (forall y t, String.length t <= String.length (pretty_N_go y t))%nat as Hlen.
    { clear. intros y. induction (N.lt_wf_0 y) as [y _ IH]; intros t.
      destruct (decide (y = 0)%N) as [->|Hy]; [by rewrite pretty_N_go_0|].
      rewrite pretty_N_go_step by lia.
      etrans; [|apply IH, N.div_lt; lia]. simpl. lia. }
    pose proof (Hlen (x `div` 10)%N (String (pretty_N_char (x `mod` 10)) s)) as Hl.
    set (L := String.length (pretty_N_go _ _)) in *. simpl in Hl |- *.
    rewrite digit_val_char by (apply N.mod_lt; lia). f_equal.
    replace (L - String.length s)%nat with (S (L - S (String.length s)))%nat by lia.
    rewrite Nat2N.inj_succ, N.pow_succ_r'.
    pose proof (N.div_mod x 10 ltac:(lia)). nia.
Qed.

Lemma digits_value_pretty (x : N) : digits_value 0 (pretty x) = Some x.
Proof.
  unfold pretty, pretty_N. case_decide as Hx; [by subst|].
  rewrite digits_value_go. by rewrite N.mul_0_l.
Qed.

Lemma pretty_N_cons (x : N) : exists c s, pretty x = String c s /\ digit_val c <> None.
Proof.
  pose proof (digits_value_pretty x) as H. destruct (pretty x) as [|c s] eqn:E.
  - simpl in H. injection H as <-. done.
  - exists c, s. split; [done|]. simpl in H. by destruct (digit_val c).
Qed.

Lemma ParseUint_pretty (x : N) : (x <= maxUint64)%N -> ParseUint (pretty x) = inr x.
Proof.
  intros Hx. destruct (pretty_N_cons x) as (c & s & E & _).
  pose proof (parse_digits_ok 0 _ x (digits_value_pretty x) Hx) as H.
  unfold ParseUint. by rewrite E in *.
Qed.

(** Printing and parsing a number of 64 bits are inverse. *)
Lemma ParseInt_FormatInt z : in_int64 z -> ParseInt (FormatInt z) = inr z.
Proof.
  intros [Hlo Hhi]. unfold FormatInt.
  assert (maxUint64 = 18446744073709551615)%N as Hm by done.
  destruct z as [|p|p]; [done|..].
  - change (pretty (Z.pos p)) with (pretty (N.pos p)).
    destruct (pretty_N_cons (N.pos p)) as (c & s & E & Hc).
    pose proof (ParseUint_pretty (N.pos p) ltac:(lia)) as H. rewrite E in *.
    unfold ParseInt. destruct (Ascii.eqb_spec c "+") as [->|_]; [done|].
    destruct (Ascii.eqb_spec c "-") as [->|_]; [done|]. rewrite H. simpl.
    by replace (2 ^ 63 <=? N.pos p)%N with false by (symmetry; apply N.leb_gt; lia).
  - change (pretty (Z.neg p)) with (String "-" (pretty (N.pos p))).
    unfold ParseInt. simpl. rewrite ParseUint_pretty by lia.
    by replace (2 ^ 63 <? N.pos p)%N with false by (symmetry; apply N.ltb_ge; lia).
Qed.

Lemma ParseInt_range s z : ParseInt s = inr z -> in_int64 z.
Proof.
  intros H.
  assert (forall neg t, match ParseUint t with
      | inl e => inl e
      | inr un => if negb neg && (2 ^ 63 <=? un)%N then inl ErrRange
        else if neg && (2 ^ 63 <? un)%N then inl ErrRange
        else inr (if neg then - Z.of_N un else Z.of_N un) end = inr z -> in_int64 z) as Hs.
  { clear. intros neg t. destruct (ParseUint t) as [|un]; [done|].
    unfold in_int64. destruct neg; simpl.
    - destruct (N.ltb_spec (2 ^ 63) un); [done|]. intros [= <-]. lia.
    - destruct (N.leb_spec (2 ^ 63) un); [done|]. intros [= <-]. lia. }
  destruct s as [|c s]; [done|]. unfold ParseInt in H.
  destruct (c =? "+")%char; [by eapply (Hs false)|].
  destruct (c =? "-")%char; [by eapply (Hs true)|]. by eapply (Hs false).
Qed.

(** ** Lemmas: the regular expressions *)

Fixpoint all_chars (p : ascii -> bool) (s : string) : bool :=
  match s with
  | EmptyString => true
  | String c s' => p c && all_chars p s'
  end.

(** [rest] does not start with a byte of the class. *)
Definition stops (cls : ascii -> bool) (rest : string) : Prop :=
  match rest with EmptyString => True | String c _ => cls c = false end.

Lemma take_class_spec cls s :
  exists rest, s = take_class cls s ^^ rest /\ all_chars cls (take_class cls s) = true /\ stops cls rest.
Proof.
  induction s as [|c s (rest & E & Ha & Hs)]; [by exists ""|]. simpl.
  destruct (cls c) eqn:Hc.
  - exists rest. rewrite app_cons_str, <- E. simpl. by rewrite Hc.
  - exists (String c s). by rewrite app_empty_l.
Qed.

Lemma take_class_app cls m rest :
  all_chars cls m = true -> stops cls rest -> take_class cls (m ^^ rest) = m.
Proof.
  induction m as [|c m IH]; cbn [all_chars]; intros Hm Hr.
  - rewrite app_empty_l. destruct rest as [|d r]; [done|]. simpl in *. by rewrite Hr.
  - apply andb_true_iff in Hm as [Hc Hm]. rewrite app_cons_str. simpl. rewrite Hc. f_equal. by apply IH.
Qed.

Lemma strip_prefix_spec p s r : strip_prefix p s = Some r <-> s = p ^^ r.
Proof.
  revert s; induction p as [|c p IH]; intros s; simpl.
  - rewrite app_empty_l. split; congruence.
  - destruct s as [|d s]; [split; [done|intros H; discriminate H]|].
    rewrite app_cons_str. destruct (Ascii.eqb_spec c d) as [->|Hne].
    + rewrite IH. split; [by intros ->|congruence].
    + split; congruence.
Qed.

Lemma match_here_spec lit cls s m :
  match_here lit cls s = Some m <->
  m <> EmptyString /\ all_chars cls m = true /\ exists rest, s = lit ^^ m ^^ rest /\ stops cls rest.
Proof.
  unfold match_here. split.
  - destruct (strip_prefix lit s) as [r|] eqn:E; [|done].
    apply strip_prefix_spec in E as ->. destruct (take_class_spec cls r) as (rest & E & Ha & Hs).
    destruct (take_class cls r) as [|c t]; [done|]. intros [= <-].
    repeat split; [done|done|]. exists rest. by rewrite E.
  - intros (Hm & Ha & rest & -> & Hs).
    replace (strip_prefix lit (lit ^^ m ^^ rest)) with (Some (m ^^ rest))
      by (symmetry; by apply strip_prefix_spec).
    rewrite take_class_app by done. by destruct m.
Qed.

(** The match is the leftmost one: no earlier place of the text matches. *)
Lemma find_submatch_spec lit cls s m :
  find_submatch lit cls s = Some m <->
  exists pre post, s = pre ^^ post /\ match_here lit cls post = Some m /\
    forall p q, s = p ^^ q -> (String.length p < String.length pre)%nat -> match_here lit cls q = None.
Proof.
  induction s as [|c s IH]; cbn [find_submatch].
  - destruct (match_here lit cls "") as [m'|] eqn:E.
    + split.
      * intros [= <-]. exists "", "". split; [done|]. split; [done|]. simpl. lia.
      * intros (pre & post & H & Hp & _). destruct pre; [|discriminate H].
        rewrite app_empty_l in H. subst. by rewrite E in Hp.
    + split; [done|]. intros (pre & post & H & Hp & _). destruct pre; [|discriminate H].
      rewrite app_empty_l in H. subst. by rewrite E in Hp.
  - destruct (match_here lit cls (String c s)) as [m'|] eqn:E.
    + split.
      * intros [= <-]. exists "", (String c s). split; [done|]. split; [done|]. simpl. lia.
      * intros (pre & post & H & Hp & Hmin). destruct pre as [|d pre].
        { rewrite app_empty_l in H. subst. by rewrite E in Hp. }
        specialize (Hmin "" (String c s) eq_refl ltac:(simpl; lia)). by rewrite E in Hmin.
    + rewrite IH. split.
      * intros (pre & post & -> & Hp & Hmin). exists (String c pre), post.
        split; [done|]. split; [done|]. intros [|d p] q Hq Hl.
        { rewrite app_empty_l in Hq. by subst. }
        rewrite app_cons_str in Hq. injection Hq as -> Hq. apply (Hmin p); [done|simpl in Hl; lia].
      * intros ([|d pre] & post & H & Hp & Hmin).
        { rewrite app_empty_l in H. subst. by rewrite E in Hp. }
        rewrite app_cons_str in H. injection H as -> ->. exists pre, post.
        split; [done|]. split; [done|]. intros p q Hq Hl. apply (Hmin (String d p)); [|simpl; lia].
        by rewrite app_cons_str, Hq.
Qed.
