(* ===== verification/Corev1.v ===== *)
(** * The Kubernetes types the operator reads and writes

    The structs of [k8s.io/api] and [k8s.io/apimachinery], cut down to the
    fields the operator sets or inspects.  A field it only copies through is
    kept in its serialised form, a string.  Integers are [Z], a pointer to a
    scalar is an [option], a map is a [gmap]. *)

From S2P Require Import Prelude GoStd.

(** ** Quantities and resources

    A [resource.Quantity] is its canonical string, the form objects carry on
    the wire.  The order on quantities is that library's: it is a parameter. *)

Definition Quantity := string.

Class QuantityOrder := { quantity_Cmp : Quantity -> Quantity -> Z }.

(** What [Quantity.Cmp] documents: zero exactly on equal amounts, so that it is
    an equivalence there. *)
Class QuantityLaws (QO : QuantityOrder) : Prop := {
  quantity_Cmp_refl q : quantity_Cmp q q = 0;
  quantity_Cmp_sym p q : quantity_Cmp p q = 0 -> quantity_Cmp q p = 0;
  quantity_Cmp_trans p q r : quantity_Cmp p q = 0 -> quantity_Cmp q r = 0 -> quantity_Cmp p r = 0
}.

Abbreviation ResourceList := (gmap string Quantity).

(** A resource that is not listed reads as the zero quantity. *)
Definition Cpu (rl : ResourceList) : Quantity := default "0" (rl !! "cpu").
Definition Memory (rl : ResourceList) : Quantity := default "0" (rl !! "memory").

Record ResourceRequirements := mkResourceRequirements {
  Limits : ResourceList;
  Requests : ResourceList
}.

(** The protobuf sizes: [Size] of a quantity is that of its canonical string
    with a tag and a length prefix, whatever the amount. *)
Definition sovGenerated (x : Z) : Z := (Z.log2 (Z.lor x 1) + 1 + 6) / 7.
Definition Quantity_Size (q : Quantity) : Z :=
  let l := Z.of_nat (String.length q) in 1 + l + sovGenerated l.
Definition entry_Size (kv : string * Quantity) : Z :=
  let k := Z.of_nat (String.length kv.1) in
  let l := Quantity_Size kv.2 in
  let e := 1 + k + sovGenerated k + 1 + l + sovGenerated l in
  e + 1 + sovGenerated e.
Definition ResourceList_Size (rl : ResourceList) : Z :=
  foldr (fun kv n => entry_Size kv + n) 0 (map_to_list rl).
Definition ResourceRequirements_Size (r : ResourceRequirements) : Z :=
  ResourceList_Size (Limits r) + ResourceList_Size (Requests r).

(** ** Metadata *)

Record OwnerReference := mkOwnerReference {
  or_APIVersion : string;
  or_Kind : string;
  or_Name : string;
  or_UID : string;
  or_Controller : option bool;
  or_BlockOwnerDeletion : option bool
}.

Abbreviation StringMap := (gmap string string).

Record ObjectMeta := mkObjectMeta {
  Name : string;
  Namespace : string;
  UID : string;
  ResourceVersion : string;
  Generation : Z;
  CreationTimestamp : Z;
  Labels : StringMap;
  Annotations : StringMap;
  OwnerReferences : list OwnerReference
}.

(** An object literal that sets these four fields. *)
Definition newMeta (name namespace : string) (labels : StringMap)
    (ownerRefs : list OwnerReference) : ObjectMeta :=
  mkObjectMeta name namespace "" "" 0 0 labels ∅ ownerRefs.

Definition set_ResourceVersion (rv : string) (m : ObjectMeta) : ObjectMeta :=
  mkObjectMeta (Name m) (Namespace m) (UID m) rv (Generation m) (CreationTimestamp m)
    (Labels m) (Annotations m) (OwnerReferences m).
Definition set_OwnerReferences (o : list OwnerReference) (m : ObjectMeta) : ObjectMeta :=
  mkObjectMeta (Name m) (Namespace m) (UID m) (ResourceVersion m) (Generation m)
    (CreationTimestamp m) (Labels m) (Annotations m) o.

(** ** Services and ConfigMaps *)

Record ServicePort := mkServicePort {
  sp_Name : string;
  sp_Port : Z;
  sp_TargetPort : option Z;
  sp_Protocol : string
}.

Record Service := mkService {
  svc_meta : ObjectMeta;
  svc_Type : string;
  svc_ClusterIP : string;
  svc_Ports : list ServicePort;
  svc_Selector : StringMap
}.

Record ConfigMap := mkConfigMap {
  cm_meta : ObjectMeta;
  cm_Data : StringMap
}.

(** ** Pods and their templates *)

Record EmptyDirVolumeSource := mkEmptyDir {
  ed_Medium : string;
  ed_SizeLimit : option Quantity
}.

Inductive VolumeSource :=
| VolConfigMap (name : string) (defaultMode : option Z)
| VolEmptyDir (source : EmptyDirVolumeSource).

Record Volume := mkVolume { vol_Name : string; vol_Source : VolumeSource }.
Record VolumeMount := mkVolumeMount { vm_Name : string; vm_MountPath : string }.

Record PersistentVolumeClaim := mkPVC { pvc_meta : ObjectMeta; pvc_Spec : string }.

Record EnvVar := mkEnvVar {
  ev_Name : string;
  ev_Value : string;
  ev_FieldPath : option string
}.

Record ContainerPort := mkContainerPort {
  cp_Name : string;
  cp_ContainerPort : Z;
  cp_Protocol : string
}.

Record Probe := mkProbe {
  InitialDelaySeconds : Z;
  TimeoutSeconds : Z;
  PeriodSeconds : Z;
  FailureThreshold : Z;
  probe_Command : list string
}.

Record Container := mkContainer {
  ct_Name : string;
  ct_Image : string;
  ct_ImagePullPolicy : string;
  ct_Command : list string;
  ct_Env : list EnvVar;
  ct_Ports : list ContainerPort;
  ct_VolumeMounts : list VolumeMount;
  ct_ReadinessProbe : option Probe;
  ct_LivenessProbe : option Probe;
  ct_Resources : ResourceRequirements;
  ct_PreStop : option (list string)
}.

Record WeightedPodAffinityTerm := mkWeightedTerm {
  wt_Weight : Z;
  wt_TopologyKey : string;
  wt_MatchLabels : StringMap
}.

(** The other parts of a user's affinity are only copied. *)
Record Affinity := mkAffinity {
  aff_rest : string;
  aff_PreferredPodAntiAffinity : list WeightedPodAffinityTerm
}.

Definition Toleration := string.
Definition PodSecurityContext := string.
Definition LocalObjectReference := string.

Record PodSpec := mkPodSpec {
  ps_Affinity : option Affinity;
  ps_Tolerations : list Toleration;
  ps_NodeSelector : StringMap;
  ps_SecurityContext : option PodSecurityContext;
  ps_ImagePullSecrets : list LocalObjectReference;
  ps_InitContainers : list Container;
  ps_Containers : list Container;
  ps_Volumes : list Volume
}.

Record PodTemplateSpec := mkPodTemplate {
  pt_Labels : StringMap;
  pt_Annotations : StringMap;
  pt_Spec : PodSpec
}.

Record Pod := mkPod {
  pod_meta : ObjectMeta;
  pod_Phase : string;
  pod_PodIP : string;
  pod_StartTime : option Z
}.

(** ** Workloads *)

Record StatefulSet := mkStatefulSet {
  ss_meta : ObjectMeta;
  ss_ServiceName : string;
  ss_Replicas : option Z;
  ss_UpdateStrategy : string;
  ss_Selector : option StringMap;
  ss_Template : PodTemplateSpec;
  ss_VolumeClaimTemplates : list PersistentVolumeClaim;
  ss_ReadyReplicas : Z
}.

Record Deployment := mkDeployment {
  dp_meta : ObjectMeta;
  dp_Selector : option StringMap
}.

Record PodDisruptionBudget := mkPDB {
  pdb_meta : ObjectMeta;
  pdb_MinAvailable : option Z;
  pdb_Selector : StringMap
}.

Record NamespaceObj := mkNamespace { ns_meta : ObjectMeta }.

(** Whether labels satisfy a selector, and whether a pod template mounts only
    volumes that exist. *)
Definition selects (selector labels : StringMap) : Prop := selector ⊆ labels.

Definition mounts_resolve (ss : StatefulSet) (c : Container) : Prop :=
  forall m, m ∈ ct_VolumeMounts c ->
    vm_Name m ∈ (vol_Name <$> ps_Volumes (pt_Spec (ss_Template ss))) \/
    vm_Name m ∈ ((fun p => Name (pvc_meta p)) <$> ss_VolumeClaimTemplates ss).

(** ** Decidable equality *)

#[export] Instance ResourceRequirements_eq : EqDecision ResourceRequirements.
Proof. solve_decision. Defined.
#[export] Instance OwnerReference_eq : EqDecision OwnerReference.
Proof. solve_decision. Defined.
#[export] Instance ObjectMeta_eq : EqDecision ObjectMeta.
Proof. solve_decision. Defined.
#[export] Instance EmptyDir_eq : EqDecision EmptyDirVolumeSource.
Proof. solve_decision. Defined.
#[export] Instance PVC_eq : EqDecision PersistentVolumeClaim.
Proof. solve_decision. Defined.
#[export] Instance WeightedTerm_eq : EqDecision WeightedPodAffinityTerm.
Proof. solve_decision. Defined.
#[export] Instance Affinity_eq : EqDecision Affinity.
Proof. solve_decision. Defined.

(** ** Sizes *)

Lemma sovGenerated_pos x : 0 <= x -> 1 <= sovGenerated x.
Proof.
  intros Hx. unfold sovGenerated.
  assert (0 <= Z.log2 (Z.lor x 1)) by apply Z.log2_nonneg.
  apply Z.div_le_lower_bound; lia.
Qed.

Lemma Quantity_Size_pos q : 2 <= Quantity_Size q.
Proof.
  unfold Quantity_Size. cbn zeta.
  pose proof (sovGenerated_pos (Z.of_nat (String.length q)) ltac:(lia)). lia.
Qed.

Lemma entry_Size_pos kv : 0 < entry_Size kv.
Proof.
  unfold entry_Size. cbn zeta. pose proof (Quantity_Size_pos kv.2).
  set (k := Z.of_nat (String.length kv.1)). assert (0 <= k) by lia.
  pose proof (sovGenerated_pos k ltac:(lia)).
  pose proof (sovGenerated_pos (Quantity_Size kv.2) ltac:(lia)).
  match goal with |- context [sovGenerated ?e] =>
    lazymatch e with context [sovGenerated] => pose proof (sovGenerated_pos e ltac:(lia)) end
  end. lia.
Qed.

Lemma entries_Size_nonneg l : 0 <= foldr (fun kv n => entry_Size kv + n) 0 l.
Proof. induction l as [|kv l IH]; simpl; [lia|]. pose proof (entry_Size_pos kv). lia. Qed.

(** A resource list has size zero exactly when it lists nothing. *)
Lemma ResourceList_Size_0 rl : ResourceList_Size rl = 0 <-> rl = ∅.
Proof.
  unfold ResourceList_Size. split; [|by intros ->].
  destruct (map_to_list rl) as [|kv l] eqn:E; [by intros _; apply map_to_list_empty_iff|].
  simpl. pose proof (entry_Size_pos kv). pose proof (entries_Size_nonneg l). lia.
Qed.

Lemma ResourceRequirements_Size_0 r :
  ResourceRequirements_Size r = 0 <-> r = mkResourceRequirements ∅ ∅.
Proof.
  unfold ResourceRequirements_Size.
  pose proof (entries_Size_nonneg (map_to_list (Limits r))) as H1.
  pose proof (entries_Size_nonneg (map_to_list (Requests r))) as H2.
  fold (ResourceList_Size (Limits r)) in H1. fold (ResourceList_Size (Requests r)) in H2.
  split.
  - intros H. destruct r as [l q]. simpl in *.
    assert (ResourceList_Size l = 0) as ->%ResourceList_Size_0 by lia.
    by assert (ResourceList_Size q = 0) as ->%ResourceList_Size_0 by lia.
  - by intros ->.
Qed.
