(* ===== verification/Api.v ===== *)
(** * The custom resources ([api/v1alpha1])

    The two kinds, [RedisSentinel] and [RedisStandalone].  Their specifications
    share seventeen fields, [RedisSpec] here; that of a sentinel adds the
    settings of the sentinels.  Their statuses have the same three fields.
    [Config] is the one map whose nil value the code tells apart, so it is an
    [option]; any other nil map or slice is the empty one. *)

From S2P Require Import Prelude GoStd Corev1.

(** ** Constants ([constants.go], [labels.go], [groupversion_info.go]) *)

Definition maxNameLength : Z := 48.
Definition defaultRedisNumber : Z := 3.
Definition defaultSentinelNumber : Z := 3.
Definition defaultStandaloneRedisNumber : Z := 1.
Definition defaultRedisImage : string := "harbor.enmotech.com/cndb-redis/redis:5.0.4-alpine".
Definition defaultRedisExporterImage : string :=
  "harbor.enmotech.com/cndb-redis/redis-exporter:1.31.4".
Definition defaultImagePullPolicy : string := "IfNotPresent".
Definition defaultSlavePriority : string := "1".

Definition OperatorName : string := "redis-operator".
Definition LabelManagedByKey : string := "app.kubernetes.io/managed-by".
Definition LabelNameKey : string := "lovelycat.io/v1alpha1".

Definition RedisSentinelKind : string := "RedisSentinel".
Definition RedisStandaloneKind : string := "RedisStandalone".
Definition GroupVersion : string := "redis.lovelycat.io/v1alpha1".

(** [VersionKind kind]: the group version and the kind. *)
Definition VersionKind (kind : string) : string * string := (GroupVersion, kind).

(** ** Conditions ([redissentinel_status.go]) *)

Definition ConditionType := string.

Definition ClusterConditionAvailable : ConditionType := "Available".
Definition ClusterConditionHealthy : ConditionType := "Healthy".
Definition ClusterConditionRunning : ConditionType := "Running".
Definition ClusterConditionCreating : ConditionType := "Creating".
Definition ClusterConditionRecovering : ConditionType := "Recovering".
Definition ClusterConditionScaling : ConditionType := "Scaling".
Definition ClusterConditionScalingDown : ConditionType := "ScalingDown".
Definition ClusterConditionUpgrading : ConditionType := "Upgrading".
Definition ClusterConditionUpdating : ConditionType := "Updating".
Definition ClusterConditionFailed : ConditionType := "Failed".

Definition ConditionTrue : string := "True".

(** Instants are nanoseconds; the zero time is 0. *)
Record Condition := mkCondition {
  Type_ : ConditionType;
  cond_Status : string;
  LastUpdateTime : string;
  LastUpdateAt : Z;
  LastTransitionTime : string;
  Reason : string;
  cond_Message : string
}.

(** [RedisSentinelStatus] and [RedisStandaloneStatus]. *)
Record ClusterStatus := mkStatus {
  Conditions : list Condition;
  MasterIP : string;
  SentinelIP : string
}.

Definition emptyStatus : ClusterStatus := mkStatus [] "" "".

(** ** Specifications ([redissentinel_types.go], [redisstandalone_types.go]) *)

Record RedisExporter := mkExporter {
  Enabled : bool;
  ex_Image : string;
  ex_ImagePullPolicy : string
}.

Record RedisStorage := mkStorage {
  KeepAfterDeletion : bool;
  EmptyDir : option EmptyDirVolumeSource;
  PVC : option PersistentVolumeClaim
}.

Record RedisSpec := mkSpec {
  Size : Z;
  Resources : ResourceRequirements;
  Image : string;
  ImagePullPolicy : string;
  ImagePullSecrets : list LocalObjectReference;
  Command : list string;
  ShutdownConfigMap : string;
  Storage : RedisStorage;
  Password : string;
  Exporter : RedisExporter;
  Affinity_ : option Affinity;
  SecurityContext : option PodSecurityContext;
  ToleRations : list Toleration;
  NodeSelector : StringMap;
  Config : option StringMap;
  spec_Annotations : StringMap;
  DisablePersistence : bool
}.

Record SentinelSettings := mkSentinel {
  sen_Image : string;
  sen_ImagePullPolicy : string;
  sen_ImagePullSecrets : list LocalObjectReference;
  Replicas : Z;
  sen_Resources : ResourceRequirements;
  CustomConfig : list string;
  sen_Command : list string;
  sen_Affinity : option Affinity;
  sen_SecurityContext : option PodSecurityContext;
  sen_ToleRations : list Toleration;
  sen_NodeSelector : StringMap;
  sen_Annotations : StringMap
}.

Record RedisSentinelSpec := mkSentinelSpec {
  redis : RedisSpec;
  Sentinel : SentinelSettings
}.

Definition RedisStandaloneSpec := RedisSpec.

(** ** The resources *)

Record CustomResource (S : Type) := mkResource {
  meta : ObjectMeta;
  Spec : S;
  Status : ClusterStatus
}.
Arguments mkResource {S}.
Arguments meta {S}.
Arguments Spec {S}.
Arguments Status {S}.

Definition RedisSentinel := CustomResource RedisSentinelSpec.
Definition RedisStandalone := CustomResource RedisStandaloneSpec.

(** What the code shared by the two controllers needs of a specification: the
    shared fields, and how to replace them. *)
Class HasRedisSpec (S : Type) := {
  redisSpec : S -> RedisSpec;
  set_redisSpec : RedisSpec -> S -> S;
  redisSpec_set s spec : redisSpec (set_redisSpec s spec) = s;
  set_redisSpec_get spec : set_redisSpec (redisSpec spec) spec = spec
}.

#[export] Instance sentinel_spec : HasRedisSpec RedisSentinelSpec.
Proof.
  refine {| redisSpec := redis; set_redisSpec s spec := mkSentinelSpec s (Sentinel spec) |}.
  - done.
  - by intros [].
Defined.

#[export] Instance standalone_spec : HasRedisSpec RedisStandaloneSpec.
Proof.
  refine {| redisSpec := fun s => s; set_redisSpec s _ := s |}; done.
Defined.

(** ** Field updates *)

Definition set_Status {S} (st : ClusterStatus) (rc : CustomResource S) : CustomResource S :=
  mkResource (meta rc) (Spec rc) st.
Definition set_Spec {S} (sp : S) (rc : CustomResource S) : CustomResource S :=
  mkResource (meta rc) sp (Status rc).
Definition set_Conditions (cs : list Condition) (st : ClusterStatus) : ClusterStatus :=
  mkStatus cs (MasterIP st) (SentinelIP st).

Definition set_Size (n : Z) (s : RedisSpec) : RedisSpec :=
  mkSpec n (Resources s) (Image s) (ImagePullPolicy s) (ImagePullSecrets s) (Command s)
    (ShutdownConfigMap s) (Storage s) (Password s) (Exporter s) (Affinity_ s)
    (SecurityContext s) (ToleRations s) (NodeSelector s) (Config s) (spec_Annotations s)
    (DisablePersistence s).
Definition set_Image (i : string) (s : RedisSpec) : RedisSpec :=
  mkSpec (Size s) (Resources s) i (ImagePullPolicy s) (ImagePullSecrets s) (Command s)
    (ShutdownConfigMap s) (Storage s) (Password s) (Exporter s) (Affinity_ s)
    (SecurityContext s) (ToleRations s) (NodeSelector s) (Config s) (spec_Annotations s)
    (DisablePersistence s).
Definition set_Storage (st : RedisStorage) (s : RedisSpec) : RedisSpec :=
  mkSpec (Size s) (Resources s) (Image s) (ImagePullPolicy s) (ImagePullSecrets s) (Command s)
    (ShutdownConfigMap s) st (Password s) (Exporter s) (Affinity_ s)
    (SecurityContext s) (ToleRations s) (NodeSelector s) (Config s) (spec_Annotations s)
    (DisablePersistence s).
Definition set_Password (p : string) (s : RedisSpec) : RedisSpec :=
  mkSpec (Size s) (Resources s) (Image s) (ImagePullPolicy s) (ImagePullSecrets s) (Command s)
    (ShutdownConfigMap s) (Storage s) p (Exporter s) (Affinity_ s)
    (SecurityContext s) (ToleRations s) (NodeSelector s) (Config s) (spec_Annotations s)
    (DisablePersistence s).
Definition set_Exporter (e : RedisExporter) (s : RedisSpec) : RedisSpec :=
  mkSpec (Size s) (Resources s) (Image s) (ImagePullPolicy s) (ImagePullSecrets s) (Command s)
    (ShutdownConfigMap s) (Storage s) (Password s) e (Affinity_ s)
    (SecurityContext s) (ToleRations s) (NodeSelector s) (Config s) (spec_Annotations s)
    (DisablePersistence s).
Definition set_Config (c : option StringMap) (s : RedisSpec) : RedisSpec :=
  mkSpec (Size s) (Resources s) (Image s) (ImagePullPolicy s) (ImagePullSecrets s) (Command s)
    (ShutdownConfigMap s) (Storage s) (Password s) (Exporter s) (Affinity_ s)
    (SecurityContext s) (ToleRations s) (NodeSelector s) c (spec_Annotations s)
    (DisablePersistence s).

Definition set_Replicas (n : Z) (s : SentinelSettings) : SentinelSettings :=
  mkSentinel (sen_Image s) (sen_ImagePullPolicy s) (sen_ImagePullSecrets s) n
    (sen_Resources s) (CustomConfig s) (sen_Command s) (sen_Affinity s)
    (sen_SecurityContext s) (sen_ToleRations s) (sen_NodeSelector s) (sen_Annotations s).
Definition set_sen_Image (i : string) (s : SentinelSettings) : SentinelSettings :=
  mkSentinel i (sen_ImagePullPolicy s) (sen_ImagePullSecrets s) (Replicas s)
    (sen_Resources s) (CustomConfig s) (sen_Command s) (sen_Affinity s)
    (sen_SecurityContext s) (sen_ToleRations s) (sen_NodeSelector s) (sen_Annotations s).
Definition set_sen_Resources (r : ResourceRequirements) (s : SentinelSettings) : SentinelSettings :=
  mkSentinel (sen_Image s) (sen_ImagePullPolicy s) (sen_ImagePullSecrets s) (Replicas s)
    r (CustomConfig s) (sen_Command s) (sen_Affinity s)
    (sen_SecurityContext s) (sen_ToleRations s) (sen_NodeSelector s) (sen_Annotations s).

(** The settings the redis servers run with: a nil map has no keys. *)
Definition config_of (s : RedisSpec) : StringMap := default ∅ (Config s).

(** ** Decidable equality, Go's [reflect.DeepEqual] *)

#[export] Instance Condition_eq : EqDecision Condition.
Proof. solve_decision. Defined.
#[export] Instance ClusterStatus_eq : EqDecision ClusterStatus.
Proof. solve_decision. Defined.
#[export] Instance RedisExporter_eq : EqDecision RedisExporter.
Proof. solve_decision. Defined.
#[export] Instance RedisStorage_eq : EqDecision RedisStorage.
Proof. solve_decision. Defined.
#[export] Instance RedisSpec_eq : EqDecision RedisSpec.
Proof. solve_decision. Defined.
#[export] Instance SentinelSettings_eq : EqDecision SentinelSettings.
Proof. solve_decision. Defined.
#[export] Instance RedisSentinelSpec_eq : EqDecision RedisSentinelSpec.
Proof. solve_decision. Defined.
#[export] Instance RedisStandaloneSpec_eq : EqDecision RedisStandaloneSpec := RedisSpec_eq.
#[export] Instance CustomResource_eq S `{EqDecision S} : EqDecision (CustomResource S).
Proof. solve_decision. Defined.
#[export] Instance RedisSentinel_eq : EqDecision RedisSentinel := CustomResource_eq _.
#[export] Instance RedisStandalone_eq : EqDecision RedisStandalone := CustomResource_eq _.
