(* ===== verification/Samples.v ===== *)
(** * Concrete resources on which the theorems are instantiated *)

From S2P Require Import Prelude GoStd Corev1 Api.

Definition noResources : ResourceRequirements := mkResourceRequirements ∅ ∅.

Definition sampleMeta : ObjectMeta :=
  mkObjectMeta "demo" "prod" "uid-1" "7" 1 1000 ∅
    {[ "lovelycat.io/scope" := "cluster-scoped" ]} [].

(** What a user who fills in nothing writes. *)
Definition emptySpec : RedisSpec :=
  mkSpec 0 noResources "" "" [] [] "" (mkStorage false None None) "" (mkExporter false "" "")
    None None [] ∅ None ∅ false.

Definition emptySettings : SentinelSettings :=
  mkSentinel "" "" [] 0 noResources [] [] None None [] ∅ ∅.

Definition sampleSpec : RedisSpec :=
  mkSpec 3 noResources "redis:5" "IfNotPresent" [] [] "" (mkStorage false None None) "s3cret"
    (mkExporter true "exporter:1" "Always") None None [] ∅
    (Some (<["maxmemory" := "1gb"]> {[ "save" := "60 1" ]})) ∅ false.

Definition sampleSettings : SentinelSettings :=
  mkSentinel "redis:5" "" [] 3 noResources [] [] None None [] ∅ ∅.

Definition emptySentinel : RedisSentinel :=
  mkResource sampleMeta (mkSentinelSpec emptySpec emptySettings) emptyStatus.
Definition sampleSentinel : RedisSentinel :=
  mkResource sampleMeta (mkSentinelSpec sampleSpec sampleSettings) emptyStatus.
Definition emptyStandalone : RedisStandalone := mkResource sampleMeta emptySpec emptyStatus.
Definition sampleStandalone : RedisStandalone :=
  mkResource sampleMeta (set_Size 1 sampleSpec) emptyStatus.

(** A resource that claims a volume of its own. *)
Definition sampleClaim : PersistentVolumeClaim := mkPVC (newMeta "data" "" ∅ []) "1Gi".
Definition claimSentinel : RedisSentinel :=
  mkResource sampleMeta
    (mkSentinelSpec (set_Storage (mkStorage false None (Some sampleClaim)) sampleSpec) sampleSettings)
    emptyStatus.

Definition sampleOwner : list OwnerReference :=
  [mkOwnerReference GroupVersion RedisSentinelKind "demo" "uid-1" (Some true) (Some true)].

(** An order on quantities that satisfies the laws. *)
#[export] Instance sampleOrder : QuantityOrder :=
  {| quantity_Cmp p q := if (p =? q)%string then 0 else 1 |}.

#[export] Instance sampleOrder_laws : QuantityLaws sampleOrder.
Proof.
  split; unfold quantity_Cmp, sampleOrder; intros.
  - by rewrite String.eqb_refl.
  - destruct (String.eqb_spec p q) as [->|]; [by rewrite String.eqb_refl|done].
  - destruct (String.eqb_spec p q) as [->|]; [done|done].
Qed.
