(* ===== verification/Util.v ===== *)
(** * Utilities ([pkg/util])

    Label merging, resource names, the parser of memory settings, environment
    defaults and the test whether an object is this operator's to manage. *)

From S2P Require Import Prelude GoStd Corev1.

(** ** [name.go] *)

Definition BaseName : string := "redis".
Definition SentinelName : string := "-sentinel".
Definition SentinelRoleName : string := "sentinel".
Definition SentinelConfigFileName : string := "sentinel.conf".
Definition RedisConfigFileName : string := "redis.conf".
Definition RedisName : string := "-cluster".
Definition RedisRoleName : string := "redis".
Definition AppLabel : string := "redis-cluster".
Definition HostnameTopologyKey : string := "kubernetes.io/hostname".

Definition GenerateName (typeName metaName : string) : string :=
  BaseName ^^ typeName ^^ "-" ^^ metaName.

(** ** [label.go] *)

(** One assignment of the loop body, [res[k] = v]. *)
Definition set_label (res : StringMap) (kv : string * string) : StringMap :=
  <[kv.1 := kv.2]> res.

(** The loop as written: [range] visits each map in an order of the runtime's
    choice, a seed per map. *)
Fixpoint MergeLabels_range (seeds : list (list nat)) (res : StringMap)
    (allLabels : list StringMap) : StringMap :=
  match allLabels with
  | [] => res
  | labels :: rest =>
      MergeLabels_range (tail seeds)
        (fold_left set_label (shuffle (default [] (head seeds)) (map_to_list labels)) res) rest
  end.

(** The result does not depend on that order ([MergeLabels_any_order]); the
    components use this form. *)
Definition MergeLabels (allLabels : list StringMap) : StringMap :=
  fold_left (fun res labels => labels ∪ res) allLabels ∅.

(** ** [auth_config.go] *)

Record AuthConfig := mkAuth { auth_Password : string }.

(** ** [utils.go] *)

Definition AnnotationScope : string := "lovelycat.io/scope".
Definition AnnotationClusterScoped : string := "cluster-scoped".

Definition IsClusterScoped : bool := true.

(** The multiplier of a memory setting and its digits, from the lower-cased
    text: the chain of suffix tests, in the order they are made. *)
Definition mem_unit (u : string) : string * Z :=
  if HasSuffix u "k" then (drop_last 1 u, 1000)
  else if HasSuffix u "kb" then (drop_last 2 u, 1024)
  else if HasSuffix u "m" then (drop_last 1 u, 1000 * 1000)
  else if HasSuffix u "mb" then (drop_last 2 u, 1024 * 1024)
  else if HasSuffix u "g" then (drop_last 1 u, 1000 * 1000 * 1000)
  else if HasSuffix u "gb" then (drop_last 2 u, 1024 * 1024 * 1024)
  else if HasSuffix u "b" then (drop_last 1 u, 1)
  else (u, 1).

(** The product is of type [int64]. *)
Definition ParseRedisMemConf (p : string) : NumError + string :=
  let '(digits, mul) := mem_unit (ToLower p) in
  match ParseInt digits with
  | inl err => inl err
  | inr val => inr (FormatInt (int64 (val * mul)))
  end.

(** [getenv] is the process environment, the empty string when unset. *)
Definition GetEnvOrDefault (getenv : string -> string) (name defaultVal : string) : string :=
  let val := getenv name in if (val =? "")%string then defaultVal else val.

Definition ReplaceSymbol (s : string) : string := ReplaceAll s "-" "_".

Definition ShouldManage (m : ObjectMeta) : bool :=
  match Annotations m !! AnnotationScope with
  | Some v => if IsClusterScoped then (v =? AnnotationClusterScoped)%string else false
  | None => negb IsClusterScoped
  end.

(** ** Merging labels *)

Lemma fold_set_label l (m res : StringMap) :
  l ≡ₚ map_to_list m -> fold_left set_label l res = m ∪ res.
Proof.
  revert m res; induction l as [|[k v] l IH]; intros m res HP; simpl.
  - symmetry in HP. apply Permutation_nil_r, map_to_list_empty_iff in HP as ->. by rewrite (left_id_L ∅ (∪)).
  - assert (m !! k = Some v) as Hk.
    { apply elem_of_map_to_list. rewrite <- HP. left. }
    rewrite (IH (delete k m)).
    + unfold set_label; simpl. apply map_eq; intros i.
      destruct (decide (i = k)) as [->|Hne].
      * rewrite lookup_union_r by apply lookup_delete_eq.
        rewrite lookup_insert_eq. symmetry. by apply lookup_union_Some_l.
      * rewrite !lookup_union, lookup_delete_ne, lookup_insert_ne by done. done.
    + rewrite <- (map_to_list_delete m k v Hk) in HP. by apply Permutation_cons_inv in HP.
Qed.

(** Whatever order the loops visit the maps in, the merged map is the same. *)
Lemma MergeLabels_any_order seeds allLabels :
  MergeLabels_range seeds ∅ allLabels = MergeLabels allLabels.
Proof.
  unfold MergeLabels. generalize (∅ : StringMap) as res.
  revert seeds; induction allLabels as [|m ls IH]; intros seeds res; [done|]. simpl.
  rewrite IH. by rewrite (fold_set_label _ m) by apply shuffle_perm.
Qed.

(** A later map wins: the last map holding the key gives the value. *)
Lemma MergeLabels_snoc ls (m : StringMap) : MergeLabels (ls ++ [m]) = m ∪ MergeLabels ls.
Proof. unfold MergeLabels. by rewrite fold_left_app. Qed.

Lemma MergeLabels_2 (a b : StringMap) : MergeLabels [a; b] = b ∪ a.
Proof. unfold MergeLabels. simpl. by rewrite (right_id_L ∅ (∪) a). Qed.

Lemma MergeLabels_last_subseteq ls (m : StringMap) : m ⊆ MergeLabels (ls ++ [m]).
Proof. rewrite MergeLabels_snoc. apply map_union_subseteq_l. Qed.

(** ** Names *)

Lemma GenerateName_inj t n n' : GenerateName t n = GenerateName t n' -> n = n'.
Proof. unfold GenerateName. intros H. by repeat apply app_inj_l in H. Qed.

(** ** Memory settings *)

Lemma map_string_app f a b : map_string f (a ^^ b) = map_string f a ^^ map_string f b.
Proof. induction a as [|c a IH]; [done|]. rewrite !app_cons_str. simpl. by rewrite IH. Qed.

Lemma map_string_id f (p : ascii -> bool) s :
  (forall c, p c = true -> f c = c) -> all_chars p s = true -> map_string f s = s.
Proof.
  intros Hf. induction s as [|c s IH]; [done|]. simpl.
  intros [Hc Hs]%andb_true_iff. by rewrite Hf, IH.
Qed.

(** The bytes of a printed number. *)
Definition numeral (c : ascii) : bool := in_range "0" "9" c || (c =? "-")%char.

Lemma numeral_cases (P : ascii -> Prop) :
  P "0"%char -> P "1"%char -> P "2"%char -> P "3"%char -> P "4"%char -> P "5"%char ->
  P "6"%char -> P "7"%char -> P "8"%char -> P "9"%char -> P "-"%char ->
  forall c, numeral c = true -> P c.
Proof.
  intros ??????????? [[] [] [] [] [] [] [] []] H;
    first [assumption | exfalso; vm_compute in H; discriminate H].
Qed.

Lemma lower_numeral c : numeral c = true -> lower_char c = c.
Proof. revert c. by apply (numeral_cases (fun c => lower_char c = c)); vm_compute. Qed.

Lemma digits_value_numeral n s v : digits_value n s = Some v -> all_chars numeral s = true.
Proof.
  revert n; induction s as [|c s IH]; intros n; [done|]. simpl.
  unfold digit_val at 1. unfold numeral at 1. destruct (in_range "0" "9" c); [|done].
  intros H. simpl. by eapply IH.
Qed.

Lemma FormatInt_numeral z : all_chars numeral (FormatInt z) = true.
Proof.
  unfold FormatInt. destruct z as [|p|p]; [done|..].
  - apply (digits_value_numeral 0 _ (N.pos p)), digits_value_pretty.
  - change (pretty (Z.neg p)) with (String "-" (pretty (N.pos p))). simpl.
    apply (digits_value_numeral 0 _ (N.pos p)), digits_value_pretty.
Qed.

(** Two ways to cut a string in two: one cut is to the left of the other. *)
Lemma app_split (a b c d : string) :
  a ^^ b = c ^^ d -> (exists t, d = t ^^ b /\ a = c ^^ t) \/ (exists t, b = t ^^ d /\ c = a ^^ t).
Proof.
  revert c; induction a as [|x a IH]; intros c H.
  - right. exists c. by rewrite app_empty_l in *.
  - destruct c as [|y c].
    + left. exists (String x a). by rewrite app_empty_l in *.
    + rewrite !app_cons_str in H. injection H as -> H.
      destruct (IH c H) as [(t & -> & ->)|(t & -> & ->)]; [left|right]; exists t; done.
Qed.

(** A suffix that starts with a letter is not cut into the digits. *)
Lemma HasSuffix_after_numeral a u c suf :
  all_chars numeral a = true -> numeral c = false ->
  HasSuffix (a ^^ u) (String c suf) = HasSuffix u (String c suf).
Proof.
  intros Ha Hc. apply eq_iff_eq_true. rewrite !HasSuffix_spec. split.
  - intros [p H]. destruct (app_split _ _ _ _ H) as [(t & Ht & Ea)|(t & Ht & _)]; [|by exists t].
    destruct t as [|x t]; [by exists ""|]. rewrite app_cons_str in Ht. injection Ht as <- _.
    exfalso. subst a. clear H. induction p as [|y p IH].
    + rewrite app_empty_l in Ha. simpl in Ha. by rewrite Hc in Ha.
    + rewrite app_cons_str in Ha. simpl in Ha. by apply andb_true_iff in Ha as [_ Ha%IH].
  - intros [p ->]. exists (a ^^ p). by rewrite app_assoc_str.
Qed.

(** The units a setting may end in, lower-cased, and what they stand for. *)
Definition unit_value (u : string) : option Z :=
  if (u =? "")%string then Some 1
  else if (u =? "b")%string then Some 1
  else if (u =? "k")%string then Some 1000
  else if (u =? "kb")%string then Some 1024
  else if (u =? "m")%string then Some 1000000
  else if (u =? "mb")%string then Some 1048576
  else if (u =? "g")%string then Some 1000000000
  else if (u =? "gb")%string then Some 1073741824
  else None.

Lemma mem_unit_of a u m :
  all_chars numeral a = true -> unit_value u = Some m -> mem_unit (a ^^ u) = (a, m).
Proof.
  intros Ha Hu. unfold mem_unit.
  rewrite !(HasSuffix_after_numeral a u) by done.
  assert (forall s, drop_last (String.length s) (a ^^ s) = a) as Hd by (intros; apply drop_last_app).
  unfold unit_value in Hu.
  repeat match type of Hu with
  | (if ?b then _ else _) = _ =>
      let Hb := fresh in destruct b eqn:Hb; [apply String.eqb_eq in Hb as ->; injection Hu as <-|]
  end; [..|done];
  repeat match goal with
  | |- context [HasSuffix ?x ?y] =>
      let v := eval vm_compute in (HasSuffix x y) in change (HasSuffix x y) with v
  end; cbv iota.
  - by rewrite app_empty_r.
  - f_equal. apply (Hd "b").
  - f_equal. apply (Hd "k").
  - f_equal. apply (Hd "kb").
  - f_equal. apply (Hd "m").
  - f_equal. apply (Hd "mb").
  - f_equal. apply (Hd "g").
  - f_equal. apply (Hd "gb").
Qed.

(** The digits and the unit put together again, whatever the text was. *)
Lemma mem_unit_inv u digits mul :
  mem_unit u = (digits, mul) -> exists t, u = digits ^^ t /\ unit_value t = Some mul.
Proof.
  unfold mem_unit. intros H.
  repeat match type of H with
  | (if HasSuffix u ?s then _ else _) = _ =>
      let E := fresh in destruct (HasSuffix u s) eqn:E;
      [apply HasSuffix_spec in E as [p ->]; injection H as <- <-; exists s; split;
       [exact (f_equal (fun x => x ^^ s) (eq_sym (drop_last_app p s)))|done]|]
  end.
  injection H as <- <-. exists "". by rewrite app_empty_r.
Qed.

(** A well-formed setting: a number followed by a unit in any case.  The result
    is the product, wrapped to 64 bits. *)
Lemma ParseRedisMemConf_spec z u mul :
  in_int64 z -> unit_value (ToLower u) = Some mul ->
  ParseRedisMemConf (FormatInt z ^^ u) = inr (FormatInt (int64 (z * mul))).
Proof.
  intros Hz Hu. unfold ParseRedisMemConf, ToLower. rewrite map_string_app.
  rewrite (map_string_id _ numeral _ lower_numeral (FormatInt_numeral z)).
  fold (ToLower u). by rewrite (mem_unit_of _ _ mul (FormatInt_numeral z) Hu), ParseInt_FormatInt.
Qed.

(** Conversely, every accepted text has that form. *)
Lemma ParseRedisMemConf_inv p s :
  ParseRedisMemConf p = inr s ->
  exists digits u mul z, ToLower p = digits ^^ u /\ unit_value u = Some mul /\
    ParseInt digits = inr z /\ s = FormatInt (int64 (z * mul)).
Proof.
  unfold ParseRedisMemConf. destruct (mem_unit (ToLower p)) as [digits mul] eqn:E.
  destruct (ParseInt digits) as [|z] eqn:Ez; [done|]. intros [= <-].
  destruct (mem_unit_inv _ _ _ E) as (u & Eu & Hu). by exists digits, u, mul, z.
Qed.

(** C32: [ParseRedisMemConf] reads amounts of memory as redis does. A number
    followed by a unit in upper or lower case yields, printed in decimal, the
    number times 1000, 1024, 1000^2, 1024^2, 1000^3 or 1024^3, computed in 64 bits
    and so exact whenever the product fits; a product that does not fit wraps
    around silently. Conversely every text it accepts is a number and a unit. *)
Theorem ParseRedisMemConf_correct z u mul p s :
  in_int64 z -> unit_value (ToLower u) = Some mul -> ParseRedisMemConf p = inr s ->
  ParseRedisMemConf (FormatInt z ^^ u) = inr (FormatInt (int64 (z * mul))) /\
  (in_int64 (z * mul) -> ParseRedisMemConf (FormatInt z ^^ u) = inr (FormatInt (z * mul))) /\
  exists digits u' mul' z', ToLower p = digits ^^ u' /\ unit_value u' = Some mul' /\
    ParseInt digits = inr z' /\ s = FormatInt (int64 (z' * mul')).
Proof.
  intros Hz Hu Hp. pose proof (ParseRedisMemConf_spec z u mul Hz Hu) as H.
  split; [done|]. split; [|by apply ParseRedisMemConf_inv].
  intros Hm. by rewrite <- (int64_id (z * mul)).
Qed.

Lemma ParseRedisMemConf_correct_witness :
  ParseRedisMemConf "2GB" = inr "2147483648" /\
  ParseRedisMemConf "8589934592Gb" = inr (FormatInt (int64 (8589934592 * 1073741824))).
Proof.
  split.
  - apply (ParseRedisMemConf_correct 2 "GB" 1073741824 "2GB" "2147483648");
      vm_compute; (reflexivity || (split; [intros H; discriminate H|reflexivity])).
  - apply (ParseRedisMemConf_correct 8589934592 "Gb" 1073741824 "2GB" "2147483648");
      vm_compute; (reflexivity || (split; [intros H; discriminate H|reflexivity])).
Defined.
