(* ===== verification/Common.v ===== *)
(** * What the two controllers share ([controllers/common])

    Constants, the two sentinel errors that ask for a requeue, the settings
    compared as amounts of memory, and the defaults of pod fields. *)

From S2P Require Import Prelude GoStd Corev1 Util Api.

(** ** [common.go] *)

Definition NeedRequeueMsg : string := "need requeue".
Definition NeedRequeueImmediatelyMsg : string := "need requeue immediately".

Definition RedisBasicConfig : string := lines [
  "bind 0.0.0.0";
  "protected-mode yes";
  "tcp-backlog 511";
  "timeout 0";
  "tcp-keepalive 300";
  "daemonize no";
  "supervised no";
  "pidfile /var/run/redis.pid"].

Definition ExporterPort : Z := 9121.
Definition ExporterPortName : string := "http-metrics".
Definition ExporterContainerName : string := "redis-exporter".
Definition ExporterDefaultRequestCPU : Quantity := "50m".
Definition ExporterDefaultLimitCPU : Quantity := "100m".
Definition ExporterDefaultRequestMemory : Quantity := "50Mi".
Definition ExporterDefaultLimitMemory : Quantity := "200Mi".
Definition RedisPasswordEnv : string := "REDIS_PASSWORD".
Definition RedisConfigurationVolumeName : string := "redis-conf".
Definition RedisShutdownConfigurationVolumeName : string := "redis-shutdown-config".
Definition RedisStorageVolumeName : string := "redis-data".
Definition GraceTime : Z := 30.
Definition UseLabelKey : string := "used-for".
Definition MonitorLabelValue : string := "monitor".

Definition ErrNeedRequeue : error := errors_New NeedRequeueMsg.
Definition ErrNeedRequeueImmediately : error := errors_New NeedRequeueImmediatelyMsg.

(** The flags' default values. *)
Definition MaxConcurrentReconciles : Z := 4.
Definition ReconcileTime : Z := 10.

Definition DefaultLabels : StringMap := {[ LabelManagedByKey := OperatorName ]}.

(** The keys of [ParseConfigMap]. *)
Definition ParseConfigMap : list string := [
  "maxmemory"; "proto-max-bulk-len"; "client-query-buffer-limit"; "repl-backlog-size";
  "auto-aof-rewrite-min-size"; "active-defrag-ignore-bytes"; "hash-max-ziplist-entries";
  "hash-max-ziplist-value"; "stream-node-max-bytes"; "set-max-intset-entries";
  "zset-max-ziplist-entries"; "zset-max-ziplist-value"; "hll-sparse-max-bytes"].

Definition is_memory_key (key : string) : bool := bool_decide (key ∈ ParseConfigMap).

(** ** [k8s_field_default.go] *)

(** Without an affinity of the user's own, a soft anti-affinity between the
    pods that carry the labels. *)
Definition GetAffinity (affinity : option Affinity) (labels : StringMap) : option Affinity :=
  match affinity with
  | Some a => Some a
  | None => Some (mkAffinity "" [mkWeightedTerm 100 HostnameTopologyKey labels])
  end.

Definition GetSecurityContext (secctx : option PodSecurityContext) : option PodSecurityContext :=
  match secctx with
  | Some s => Some s
  | None => None
  end.

Definition PullAlways : string := "Always".

Definition PullPolicy (specPolicy : string) : string :=
  if (specPolicy =? "")%string then PullAlways else specPolicy.
