(* ===== verification/Names.v ===== *)
(** * The names of the resources ([controllers/redissentinel/util.go],
      [controllers/redisstandalone/util.go])

    Each name is a fixed prefix followed by the name of the custom resource.
    Two types make different names; which names two resources share is the
    subject of [Clash.v]. *)

From S2P Require Import Prelude GoStd Corev1 Util Api.

Module Sentinel.

Definition RedisName : string := "-worker".
Definition RedisShutdownName : string := "r-s".

Definition GetRedisShutdownName (rc : RedisSentinel) : string :=
  GenerateName RedisShutdownName (Name (meta rc)).

Definition GetRedisShutdownConfigMapName (rc : RedisSentinel) : string :=
  if negb (ShutdownConfigMap (redis (Spec rc)) =? "")%string
  then ShutdownConfigMap (redis (Spec rc))
  else GetRedisShutdownName rc.

Definition GetRedisName (rc : RedisSentinel) : string :=
  GenerateName RedisName (Name (meta rc)).

Definition GetSentinelName (rc : RedisSentinel) : string :=
  GenerateName SentinelName (Name (meta rc)).

Definition GetSentinelReadinessCm (rc : RedisSentinel) : string :=
  GenerateName "-sentinel-readiness" (Name (meta rc)).

Definition GetSentinelHeadlessSvc (rc : RedisSentinel) : string :=
  GenerateName "-sentinel-headless" (Name (meta rc)).

End Sentinel.

Module Standalone.

Definition RedisName : string := "-standalone".
Definition RedisShutdownName : string := "r-s".

Definition GetRedisName (rc : RedisStandalone) : string :=
  GenerateName RedisName (Name (meta rc)).

Definition GetRedisShutdownName (rc : RedisStandalone) : string :=
  GenerateName RedisShutdownName (Name (meta rc)).

Definition GetRedisShutdownConfigMapName (rc : RedisStandalone) : string :=
  if negb (ShutdownConfigMap (Spec rc) =? "")%string
  then ShutdownConfigMap (Spec rc)
  else GetRedisShutdownName rc.

End Standalone.

(** ** Names within one custom resource *)

Lemma generate_type_inj t t' n : GenerateName t n = GenerateName t' n -> t = t'.
Proof.
  unfold GenerateName. intros H%app_inj_l. rewrite <- !app_assoc_str in H.
  by apply app_inj_r, app_inj_r in H.
Qed.
