(* ===== verification/Status.v ===== *)
(** * Status conditions ([redissentinel_status.go], [redisstandalone_status.go])

    The two files hold the same code for two status types of the same shape;
    the definitions are those of the sentinel file and the module [Standalone]
    restates them under the standalone file's names.

    Setting a condition reads the clock twice to build the new condition and
    twice more when it only refreshes the stored one; a [Clock] gives the four
    readings. *)

From S2P Require Import Prelude GoStd Corev1 Api.

Record Clock := mkClock { now1 : Z; at1 : Z; now2 : Z; at2 : Z }.

(** [Time.Format(time.RFC3339)] in the process's time zone. *)
Class TimeFormat := { rfc3339 : Z -> string }.

Section status.
  Context {TF : TimeFormat}.

(** [After] on the instants of the last update. *)
Definition updated_after (a b : Condition) : bool := LastUpdateAt b <? LastUpdateAt a.

Definition DescConditionsByTime (seed : list nat) (cs : ClusterStatus) : ClusterStatus :=
  set_Conditions (sort_Slice seed updated_after (Conditions cs)) cs.

Definition newClusterCondition (clk : Clock) (condType : ConditionType)
    (status reason message : string) : Condition :=
  let nowString := rfc3339 (now1 clk) in
  mkCondition condType status nowString (at1 clk) nowString reason message.

(** The position of the first condition of the type, and a copy of it. *)
Fixpoint find_condition (i : nat) (cs : list Condition) (t : ConditionType)
    : option (nat * Condition) :=
  match cs with
  | [] => None
  | c :: cs' => if (t =? Type_ c)%string then Some (i, c) else find_condition (S i) cs' t
  end.

Definition getClusterCondition (status : ClusterStatus) (t : ConditionType)
    : option (nat * Condition) := find_condition 0 (Conditions status) t.

Definition refresh (clk : Clock) (c : Condition) : Condition :=
  mkCondition (Type_ c) (cond_Status c) (rfc3339 (now2 clk)) (at2 clk)
    (LastTransitionTime c) (Reason c) (cond_Message c).

Definition setClusterCondition (clk : Clock) (c : Condition) (cs : ClusterStatus)
    : ClusterStatus :=
  match getClusterCondition cs (Type_ c) with
  | Some (pos, cp) =>
      if ((cond_Status cp =? cond_Status c)%string && (Reason cp =? Reason c)%string
          && (cond_Message cp =? cond_Message c)%string)%bool
      then set_Conditions (alter (refresh clk) pos (Conditions cs)) cs
      else set_Conditions (<[pos := c]> (Conditions cs)) cs
  | None => set_Conditions (Conditions cs ++ [c]) cs
  end.

(** [append(l[:pos], l[pos+1:]...)]. *)
Definition ClearCondition (t : ConditionType) (cs : ClusterStatus) : ClusterStatus :=
  match getClusterCondition cs t with
  | None => cs
  | Some (pos, _) =>
      set_Conditions (take pos (Conditions cs) ++ drop (S pos) (Conditions cs)) cs
  end.

Definition SetScalingUpCondition (clk : Clock) (message : string) (cs : ClusterStatus) :=
  setClusterCondition clk
    (newClusterCondition clk ClusterConditionScaling ConditionTrue "Scaling up" message) cs.
Definition SetCreateCondition (clk : Clock) (message : string) (cs : ClusterStatus) :=
  setClusterCondition clk
    (newClusterCondition clk ClusterConditionCreating ConditionTrue "Creating" message) cs.
Definition SetScalingDownCondition (clk : Clock) (message : string) (cs : ClusterStatus) :=
  setClusterCondition clk
    (newClusterCondition clk ClusterConditionScaling ConditionTrue "Scaling down" message) cs.
Definition SetUpgradingCondition (clk : Clock) (message : string) (cs : ClusterStatus) :=
  setClusterCondition clk
    (newClusterCondition clk ClusterConditionUpgrading ConditionTrue "Cluster upgrading" message) cs.
Definition SetUpdatingCondition (clk : Clock) (message : string) (cs : ClusterStatus) :=
  setClusterCondition clk
    (newClusterCondition clk ClusterConditionUpdating ConditionTrue "Cluster updating" message) cs.
Definition SetReadyCondition (clk : Clock) (message : string) (cs : ClusterStatus) :=
  setClusterCondition clk
    (newClusterCondition clk ClusterConditionHealthy ConditionTrue "Cluster available" message) cs.
Definition SetFailedCondition (clk : Clock) (message : string) (cs : ClusterStatus) :=
  setClusterCondition clk
    (newClusterCondition clk ClusterConditionFailed ConditionTrue "Cluster failed" message) cs.

End status.

(** The standalone file's copies. *)
Module Standalone.
Section standalone_status.
  Context {TF : TimeFormat}.

Definition DescConditionsByTime := DescConditionsByTime.
Definition getStandaloneCondition := getClusterCondition.
Definition newStandaloneCondition := newClusterCondition.
Definition setClusterCondition := setClusterCondition.
Definition ClearCondition := ClearCondition.
Definition SetScalingUpCondition := SetScalingUpCondition.
Definition SetCreateCondition := SetCreateCondition.
Definition SetScalingDownCondition := SetScalingDownCondition.
Definition SetUpgradingCondition := SetUpgradingCondition.
Definition SetUpdatingCondition := SetUpdatingCondition.
Definition SetReadyCondition := SetReadyCondition.
Definition SetFailedCondition := SetFailedCondition.

End standalone_status.
End Standalone.

(** ** The invariant: one condition per type *)

Definition types_of (cs : ClusterStatus) : list ConditionType := Type_ <$> Conditions cs.

Definition one_per_type (cs : ClusterStatus) : Prop := NoDup (types_of cs).

(** The types the operator's setters use. *)
Definition operator_types : list ConditionType := [
  ClusterConditionScaling; ClusterConditionCreating; ClusterConditionUpgrading;
  ClusterConditionUpdating; ClusterConditionHealthy; ClusterConditionFailed].

Definition operator_status (cs : ClusterStatus) : Prop :=
  one_per_type cs /\ Forall (fun t => t ∈ operator_types) (types_of cs).

(** The condition of a type, the abstract view of a status: a partial map. *)
Definition lookup_condition (cs : ClusterStatus) (t : ConditionType) : option Condition :=
  snd <$> getClusterCondition cs t.

Section lemmas.
  Context {TF : TimeFormat}.

Lemma find_condition_Some i cs t p c :
  find_condition i cs t = Some (p, c) ->
  exists k, p = (i + k)%nat /\ cs !! k = Some c /\ Type_ c = t /\ t ∉ (Type_ <$> take k cs).
Proof.
  revert i; induction cs as [|d cs IH]; intros i; [done|]. simpl.
  destruct (String.eqb_spec t (Type_ d)) as [->|Hne].
  - intros [= <- <-]. exists 0%nat. rewrite Nat.add_0_r. repeat split; [done..|]. by intros ?%elem_of_nil.
  - intros (k & -> & Hk & Ht & Hmin)%IH. exists (S k).
    repeat split; [lia|done|done|]. simpl. by rewrite not_elem_of_cons.
Qed.

Lemma find_condition_None i cs t : find_condition i cs t = None <-> t ∉ (Type_ <$> cs).
Proof.
  revert i; induction cs as [|d cs IH]; intros i; simpl.
  - split; [|done]. by intros _ ?%elem_of_nil.
  - rewrite not_elem_of_cons. destruct (String.eqb_spec t (Type_ d)) as [->|Hne].
    + split; [done|]. by intros [].
    + rewrite IH. split; [by intros H; split|by intros [_ H]].
Qed.

(** The condition stored when one of the same type is there already. *)
Definition same_condition (cp c : Condition) : bool :=
  ((cond_Status cp =? cond_Status c)%string && (Reason cp =? Reason c)%string
   && (cond_Message cp =? cond_Message c)%string)%bool.

Definition updated (clk : Clock) (cp c : Condition) : Condition :=
  if same_condition cp c then refresh clk cp else c.

Lemma Type_updated clk cp c : Type_ cp = Type_ c -> Type_ (updated clk cp c) = Type_ c.
Proof. unfold updated. by destruct (same_condition cp c). Qed.

(** Setting a condition, on the list: replace in place, or append. *)
Lemma set_list clk c cs :
  Conditions (setClusterCondition clk c cs) =
  match getClusterCondition cs (Type_ c) with
  | Some (pos, cp) => <[pos := updated clk cp c]> (Conditions cs)
  | None => Conditions cs ++ [c]
  end.
Proof.
  unfold setClusterCondition, getClusterCondition.
  destruct (find_condition 0 _ _) as [[p cp]|] eqn:E; [|done].
  apply find_condition_Some in E as (k & -> & Hk & _). simpl.
  unfold updated, same_condition. destruct (_ && _)%bool; [|done]. simpl.
  apply list_eq. intros i. destruct (decide (i = k)) as [->|Hne].
  - rewrite list_lookup_alter_eq, Hk, list_lookup_insert_eq; [done|]. by eapply lookup_lt_Some.
  - by rewrite list_lookup_alter_ne, list_lookup_insert_ne.
Qed.

Lemma find_condition_insert i k cs c t :
  (exists d, cs !! k = Some d /\ Type_ d = Type_ c) -> Type_ c ∉ (Type_ <$> take k cs) ->
  find_condition i (<[k := c]> cs) t =
  if (t =? Type_ c)%string then Some ((i + k)%nat, c) else find_condition i cs t.
Proof.
  revert i k; induction cs as [|e cs IH]; intros i k [d [Hk Ht]] Hmin; [done|].
  destruct k as [|k]; simpl in *.
  - injection Hk as ->. rewrite Ht, Nat.add_0_r. by destruct (t =? Type_ c)%string.
  - rewrite not_elem_of_cons in Hmin. destruct Hmin as [Hne Hmin].
    rewrite (IH (S i) k) by eauto. rewrite <- Nat.add_succ_comm.
    destruct (String.eqb_spec t (Type_ e)) as [->|]; [|done].
    by replace (Type_ e =? Type_ c)%string with false by (symmetry; apply String.eqb_neq; congruence).
Qed.

Lemma find_condition_snoc i cs c t :
  Type_ c ∉ (Type_ <$> cs) ->
  snd <$> find_condition i (cs ++ [c]) t =
  if (t =? Type_ c)%string then Some c else snd <$> find_condition i cs t.
Proof.
  revert i; induction cs as [|e cs IH]; intros i Hc; simpl; [by destruct (_ =? _)%string|].
  simpl in Hc. rewrite not_elem_of_cons in Hc. destruct Hc as [Hne Hc].
  destruct (String.eqb_spec t (Type_ e)) as [->|]; [|by apply IH].
  by replace (Type_ e =? Type_ c)%string with false by (symmetry; apply String.eqb_neq; congruence).
Qed.

(** The abstract view: setting a condition is an insertion in the map from
    types to conditions. *)
Lemma lookup_set clk c cs t :
  lookup_condition (setClusterCondition clk c cs) t =
  if (t =? Type_ c)%string
  then Some (match lookup_condition cs (Type_ c) with Some cp => updated clk cp c | None => c end)
  else lookup_condition cs t.
Proof.
  unfold lookup_condition at 1. unfold getClusterCondition. rewrite set_list.
  unfold lookup_condition, getClusterCondition.
  destruct (find_condition 0 (Conditions cs) (Type_ c)) as [[p cp]|] eqn:E; simpl.
  - apply find_condition_Some in E as (k & -> & Hk & Ht & Hmin). simpl.
    pose proof (Type_updated clk cp c Ht) as Hu.
    rewrite find_condition_insert by (rewrite ?Hu; eauto). rewrite Hu.
    by destruct (t =? Type_ c)%string.
  - apply find_condition_None in E. by rewrite find_condition_snoc.
Qed.

(** The types listed after a setting: none is lost, at most one is added. *)
Lemma types_set clk c cs :
  types_of (setClusterCondition clk c cs) =
  if bool_decide (Type_ c ∈ types_of cs) then types_of cs else types_of cs ++ [Type_ c].
Proof.
  unfold types_of. rewrite set_list. unfold getClusterCondition.
  destruct (find_condition 0 (Conditions cs) (Type_ c)) as [[p cp]|] eqn:E.
  - apply find_condition_Some in E as (k & -> & Hk & Ht & _). simpl.
    rewrite bool_decide_true.
    2:{ rewrite <- Ht. apply list_elem_of_fmap. exists cp. split; [done|].
        by eapply list_elem_of_lookup_2. }
    rewrite list_fmap_insert, Type_updated by done. apply list_insert_id.
    by rewrite list_lookup_fmap, Hk, <- Ht.
  - apply find_condition_None in E. rewrite bool_decide_false by done. by rewrite fmap_app.
Qed.

Lemma set_one_per_type clk c cs : one_per_type cs -> one_per_type (setClusterCondition clk c cs).
Proof.
  unfold one_per_type. rewrite types_set. case_bool_decide as H; [done|]. intros HN.
  apply NoDup_app. split; [done|]. split; [|apply NoDup_singleton].
  intros t Ht ->%list_elem_of_singleton. done.
Qed.

Lemma set_operator_status clk c cs :
  Type_ c ∈ operator_types -> operator_status cs -> operator_status (setClusterCondition clk c cs).
Proof.
  intros Hc [HN HF]. split; [by apply set_one_per_type|]. rewrite types_set.
  case_bool_decide; [done|]. apply Forall_app. split; [done|]. by constructor.
Qed.

(** A status the operator made lists at most six conditions. *)
Lemma operator_status_length cs : operator_status cs -> (length (Conditions cs) <= 6)%nat.
Proof.
  intros [HN HF]. rewrite <- (length_fmap Type_). change 6%nat with (length operator_types).
  apply submseteq_length, NoDup_submseteq; [done|]. by apply Forall_forall.
Qed.

(** ** Removal *)

Lemma find_condition_snd i j l t : snd <$> find_condition i l t = snd <$> find_condition j l t.
Proof. revert i j; induction l as [|d l IH]; intros i j; [done|]. simpl. case_match; [done|]. apply IH. Qed.

Lemma find_condition_remove i k l c t :
  l !! k = Some c -> NoDup (Type_ <$> l) ->
  snd <$> find_condition i (take k l ++ drop (S k) l) t =
  if (t =? Type_ c)%string then None else snd <$> find_condition i l t.
Proof.
  revert i k; induction l as [|d l IH]; intros i k Hk HN; [done|].
  rewrite fmap_cons, NoDup_cons in HN. destruct HN as [Hd HN]. destruct k as [|k]; simpl in *.
  - injection Hk as ->. rewrite drop_0. destruct (String.eqb_spec t (Type_ c)) as [E|Hne].
    + by rewrite (proj2 (find_condition_None i l t)) by (by rewrite E).
    + apply find_condition_snd.
  - destruct (String.eqb_spec t (Type_ d)) as [Et|Hne]; [|by apply IH].
    assert (Type_ c ∈ Type_ <$> l) as Hc
      by (apply list_elem_of_fmap; exists c; split; [done|by eapply list_elem_of_lookup_2]).
    rewrite Et. by destruct (String.eqb_spec (Type_ d) (Type_ c)) as [E|]; [rewrite E in Hd|].
Qed.

Lemma lookup_ClearCondition t t' cs :
  one_per_type cs ->
  lookup_condition (ClearCondition t cs) t' =
  if (t' =? t)%string then None else lookup_condition cs t'.
Proof.
  unfold one_per_type, types_of, ClearCondition, lookup_condition, getClusterCondition.
  intros HN. destruct (find_condition 0 (Conditions cs) t) as [[p cp]|] eqn:E; simpl.
  - apply find_condition_Some in E as (k & -> & Hk & Ht & _). simpl.
    rewrite (find_condition_remove 0 k _ cp) by done. by rewrite Ht.
  - destruct (String.eqb_spec t' t) as [->|]; [|done]. by rewrite E.
Qed.

(** ** Order *)

#[export] Instance updated_after_order : KeyOrder updated_after (fun c => - LastUpdateAt c).
Proof.
  intros x y. unfold updated_after. apply eq_iff_eq_true. rewrite !Z.ltb_lt. lia.
Qed.

Lemma Desc_perm seed cs : Conditions (DescConditionsByTime seed cs) ≡ₚ Conditions cs.
Proof. apply sort_Slice_perm. Qed.

(** After sorting, the first condition is one of those updated last. *)
Lemma Desc_head seed cs c l :
  Conditions (DescConditionsByTime seed cs) = c :: l ->
  c ∈ Conditions cs /\ forall d, d ∈ Conditions cs -> LastUpdateAt d <= LastUpdateAt c.
Proof.
  intros H. destruct (sort_Slice_head _ _ _ _ _ _ H) as [Hc Hmin].
  split; [done|]. intros d Hd. specialize (Hmin d Hd). simpl in Hmin. lia.
Qed.

Lemma Desc_operator_status seed cs :
  operator_status cs -> operator_status (DescConditionsByTime seed cs).
Proof.
  unfold operator_status, one_per_type, types_of. by rewrite Desc_perm.
Qed.
End lemmas.

(** ** What the operator does to a status

    The handlers change a status by the seven setters and by the sort before it
    is sent; [ClearCondition] is never called. *)

Section steps.
  Context {TF : TimeFormat}.

Inductive status_step (cs : ClusterStatus) : ClusterStatus -> Prop :=
| step_scaling_up clk msg : status_step cs (SetScalingUpCondition clk msg cs)
| step_create clk msg : status_step cs (SetCreateCondition clk msg cs)
| step_scaling_down clk msg : status_step cs (SetScalingDownCondition clk msg cs)
| step_upgrading clk msg : status_step cs (SetUpgradingCondition clk msg cs)
| step_updating clk msg : status_step cs (SetUpdatingCondition clk msg cs)
| step_ready clk msg : status_step cs (SetReadyCondition clk msg cs)
| step_failed clk msg : status_step cs (SetFailedCondition clk msg cs)
| step_sort seed : status_step cs (DescConditionsByTime seed cs).

Ltac in_operator_types := unfold operator_types; repeat first [left | right].

Lemma step_operator_status cs cs' :
  status_step cs cs' -> operator_status cs -> operator_status cs'.
Proof.
  intros Hs H; destruct Hs; try (apply set_operator_status; [simpl; in_operator_types|done]).
  by apply Desc_operator_status.
Qed.

Lemma types_set_incl clk c cs t :
  t ∈ types_of cs -> t ∈ types_of (setClusterCondition clk c cs).
Proof. rewrite types_set. case_bool_decide as Hb; [done|]. intros H. apply elem_of_app. by left. Qed.

Lemma step_types cs cs' t : status_step cs cs' -> t ∈ types_of cs -> t ∈ types_of cs'.
Proof.
  intros Hs H; destruct Hs; try by apply types_set_incl. unfold types_of. by rewrite Desc_perm.
Qed.

(** Whatever is stored says "True". *)
Definition all_true (cs : ClusterStatus) : Prop :=
  Forall (fun c => cond_Status c = ConditionTrue) (Conditions cs).

Lemma set_all_true clk c cs :
  cond_Status c = ConditionTrue -> all_true cs -> all_true (setClusterCondition clk c cs).
Proof.
  intros Hc HF. unfold all_true. rewrite set_list.
  destruct (getClusterCondition cs (Type_ c)) as [[p cp]|] eqn:E.
  - apply find_condition_Some in E as (k & -> & Hk & _). apply Forall_insert; [done|].
    unfold updated. destruct (same_condition cp c); [|done].
    by apply (Forall_lookup_1 _ _ _ _ HF) in Hk.
  - apply Forall_app. split; [done|]. by constructor.
Qed.

Lemma step_all_true cs cs' : status_step cs cs' -> all_true cs -> all_true cs'.
Proof.
  intros Hs H; destruct Hs; try by apply set_all_true. unfold all_true. by rewrite Desc_perm.
Qed.

(** C31: Setting a condition, seen as a map from types to conditions, is an
    insertion. The type's entry then says what was asked for; the transition
    time is kept exactly when status, reason and message are the old ones, and
    only the update time is refreshed; all other types keep their conditions.
    Clearing a type removes it and nothing else, when no type occurs twice. *)
Theorem condition_view clk c cs t :
  lookup_condition (setClusterCondition clk c cs) t =
    (if (t =? Type_ c)%string
     then Some (match lookup_condition cs (Type_ c) with Some cp => updated clk cp c | None => c end)
     else lookup_condition cs t) /\
  (forall cp, Type_ cp = Type_ c -> let u := updated clk cp c in
     Type_ u = Type_ c /\ cond_Status u = cond_Status c /\ Reason u = Reason c /\
     cond_Message u = cond_Message c /\
     (same_condition cp c = true -> LastTransitionTime u = LastTransitionTime cp /\
        LastUpdateAt u = at2 clk)) /\
  (one_per_type cs -> forall t', lookup_condition (ClearCondition t cs) t' =
     if (t' =? t)%string then None else lookup_condition cs t').
Proof.
  split; [apply lookup_set|]. split; [|intros; by apply lookup_ClearCondition].
  intros cp Ht. cbn zeta. unfold updated, same_condition.
  destruct (String.eqb_spec (cond_Status cp) (cond_Status c)) as [E1|]; [|done].
  destruct (String.eqb_spec (Reason cp) (Reason c)) as [E2|]; [|done].
  destruct (String.eqb_spec (cond_Message cp) (cond_Message c)) as [E3|]; [|done]. simpl. by split_and!.
Qed.

(** C30: Every status the operator can build up, from the empty one by any
    sequence of its changes, lists each type at most once, only the six types
    of the setters, all with status "True", so at most six conditions; sorting
    it before it is sent puts one updated last at the front. *)
Theorem reachable_status cs :
  rtc status_step emptyStatus cs ->
  operator_status cs /\ all_true cs /\ (length (Conditions cs) <= 6)%nat /\
  (forall seed c l, Conditions (DescConditionsByTime seed cs) = c :: l ->
     forall d, d ∈ Conditions cs -> LastUpdateAt d <= LastUpdateAt c).
Proof.
  intros H. assert (operator_status cs /\ all_true cs) as [Ho Ht].
  { cut (forall cs0, operator_status cs0 -> all_true cs0 -> rtc status_step cs0 cs ->
      operator_status cs /\ all_true cs).
    { intros Hc. apply (Hc emptyStatus); [|constructor|done]. split; constructor. }
    clear H. intros cs0 H1 H2 H. induction H as [cs|cs cs1 cs2 Hs _ IH]; [done|].
    apply IH; [by eapply step_operator_status|by eapply step_all_true]. }
  split_and!; [done|done|by apply operator_status_length|].
  intros seed c l E. by apply (Desc_head seed cs c l).
Qed.

(** Conditions are never taken back. Whatever the operator goes on to do, a
    type once set stays listed with status "True": a cluster that failed once
    says "Failed" for ever, also while it says "Healthy". *)
Theorem conditions_accumulate cs cs' t :
  rtc status_step cs cs' -> t ∈ types_of cs -> all_true cs ->
  exists c, c ∈ Conditions cs' /\ Type_ c = t /\ cond_Status c = ConditionTrue.
Proof.
  intros H. revert t. induction H as [cs|cs cs1 cs2 Hs _ IH]; intros t Ht Ha.
  - apply list_elem_of_fmap in Ht as (c & -> & Hc). exists c. split_and!; [done..|].
    unfold all_true in Ha. rewrite Forall_forall in Ha. by apply Ha.
  - apply IH; [by eapply step_types|by eapply step_all_true].
Qed.
End steps.

(** ** Witnesses *)

#[local] Instance sampleFormat : TimeFormat := {| rfc3339 := pretty |}.

Definition sampleClock : Clock := mkClock 5 5 5 5.
Definition failedStatus : ClusterStatus := SetFailedCondition sampleClock "no quorum" emptyStatus.
Definition recoveredStatus : ClusterStatus := SetReadyCondition sampleClock "Cluster ok" failedStatus.

Lemma failedStatus_steps : rtc status_step failedStatus recoveredStatus.
Proof. apply rtc_once, step_ready. Qed.

Lemma recoveredStatus_steps : rtc status_step emptyStatus recoveredStatus.
Proof. eapply rtc_l; [apply step_failed|apply failedStatus_steps]. Qed.

Lemma reachable_status_witness : operator_status recoveredStatus.
Proof. exact (proj1 (reachable_status recoveredStatus recoveredStatus_steps)). Defined.

Lemma conditions_accumulate_witness :
  exists c, c ∈ Conditions recoveredStatus /\ Type_ c = "Failed" /\ cond_Status c = "True".
Proof.
  apply (conditions_accumulate failedStatus recoveredStatus "Failed" failedStatus_steps);
    [left|repeat constructor].
Defined.
