(* ===== verification/Validate.v ===== *)
(** * Defaults and validation ([redissentinel_validate.go],
      [redisstandalone_validate.go], [api/v1alpha1/util.go])

    [Validate] fills in defaults in place and reports whether it changed the
    object.  The methods return here the object as they leave it, also when
    they stop with an error: the fields set before the failing test stay set. *)

From S2P Require Import Prelude GoStd Corev1 Api Samples.

Definition setConfigMapIfNotExist (key value : string) (config : StringMap) : StringMap :=
  match config !! key with
  | Some _ => config
  | None => <[key := value]> config
  end.

Definition enablePersistence (config : StringMap) : StringMap :=
  let config := setConfigMapIfNotExist "appendonly" "yes" config in
  let config := setConfigMapIfNotExist "auto-aof-rewrite-min-size" "536870912" config in
  let config := setConfigMapIfNotExist "auto-aof-rewrite-percentage" "100" config in
  let config := setConfigMapIfNotExist "repl-backlog-size" "62914560" config in
  let config := setConfigMapIfNotExist "repl-diskless-sync" "yes" config in
  let config := setConfigMapIfNotExist "aof-load-truncated" "yes" config in
  let config := setConfigMapIfNotExist "stop-writes-on-bgsave-error" "no" config in
  setConfigMapIfNotExist "save" "900 1 300 10" config.

Definition disablePersistence (config : StringMap) : StringMap :=
  let config := <["appendonly" := "no"]> config in
  <["save" := ""]> config.

Definition defaultSentinelResource : ResourceRequirements :=
  mkResourceRequirements
    (<["cpu" := "100m"]> {[ "memory" := "60Mi" ]})
    (<["cpu" := "20m"]> {[ "memory" := "16Mi" ]}).

(** The pieces of the two methods' bodies, in the order they run. *)
Definition default_Image (s : RedisSpec) : RedisSpec :=
  if (Image s =? "")%string then set_Image defaultRedisImage s else s.

Definition default_Exporter (s : RedisSpec) : RedisSpec :=
  let e := Exporter s in
  if Enabled e then
    let e := if (ex_Image e =? "")%string
             then mkExporter (Enabled e) defaultRedisExporterImage (ex_ImagePullPolicy e) else e in
    let e := if (ex_ImagePullPolicy e =? "")%string
             then mkExporter (Enabled e) (ex_Image e) defaultImagePullPolicy else e in
    set_Exporter e s
  else s.

Definition persistence (s : RedisSpec) (config : StringMap) : StringMap :=
  if negb (DisablePersistence s) then enablePersistence config else disablePersistence config.

Definition set_redis (s : RedisSpec) (sp : RedisSentinelSpec) : RedisSentinelSpec :=
  mkSentinelSpec s (Sentinel sp).
Definition set_Sentinel (s : SentinelSettings) (sp : RedisSentinelSpec) : RedisSentinelSpec :=
  mkSentinelSpec (redis sp) s.

Definition name_error : error :=
  errors_New ("name length can't be higher than " ^^ FormatInt maxNameLength).

(** [(r *RedisSentinel) Validate()]: the tests on the numbers, then the
    defaults. *)
Definition SentinelSettings_defaults (s : SentinelSettings) : SentinelSettings :=
  let s := if (sen_Image s =? "")%string then set_sen_Image defaultRedisImage s else s in
  if ResourceRequirements_Size (sen_Resources s) =? 0
  then set_sen_Resources defaultSentinelResource s else s.

Definition RedisSentinel_defaults (sp : RedisSentinelSpec) : RedisSentinelSpec :=
  let sp := set_redis (default_Image (redis sp)) sp in
  let sp := set_Sentinel (SentinelSettings_defaults (Sentinel sp)) sp in
  let config := config_of (redis sp) in
  let config := <["slave-priority" := defaultSlavePriority]> config in
  let config := persistence (redis sp) config in
  let sp := set_redis (set_Config (Some config) (redis sp)) sp in
  set_redis (default_Exporter (redis sp)) sp.

Definition RedisSentinel_Validate (r : RedisSentinel)
    : RedisSentinel * (bool * option error) :=
  let rCopy := r in
  if maxNameLength <? Z.of_nat (String.length (Name (meta r)))
  then (r, (false, Some name_error))
  else
    let size := Size (redis (Spec r)) in
    if negb (size =? 0) && (size <? defaultRedisNumber) then
      (r, (false, Some (errors_New "number of redis in spec is less than the minimum")))
    else
      let r := if size =? 0
               then set_Spec (set_redis (set_Size defaultRedisNumber (redis (Spec r))) (Spec r)) r
               else r in
      let replicas := Replicas (Sentinel (Spec r)) in
      if negb (replicas =? 0) && (replicas <? defaultSentinelNumber) then
        (r, (false, Some (errors_New "number of sentinels in spec is less than the minimum")))
      else
        let r := if replicas =? 0
                 then set_Spec (set_Sentinel (set_Replicas defaultSentinelNumber
                        (Sentinel (Spec r))) (Spec r)) r
                 else r in
        let r := set_Spec (RedisSentinel_defaults (Spec r)) r in
        (r, (negb (bool_decide (r = rCopy)), None)).

(** [(r *RedisStandalone) Validate()]. *)
Definition RedisStandalone_defaults (s : RedisSpec) : RedisSpec :=
  let s := default_Image s in
  let config := config_of s in
  let s := default_Exporter s in
  set_Config (Some (persistence s config)) s.

Definition RedisStandalone_Validate (r : RedisStandalone)
    : RedisStandalone * (bool * option error) :=
  let rCopy := r in
  if maxNameLength <? Z.of_nat (String.length (Name (meta r)))
  then (r, (false, Some name_error))
  else
    let size := Size (Spec r) in
    if negb (size =? 0) && negb (size =? defaultStandaloneRedisNumber) then
      (r, (false, Some (errors_New "standalone mode, number of redis in spec must be set 1")))
    else
      let r := if size =? 0
               then set_Spec (set_Size defaultStandaloneRedisNumber (Spec r)) r else r in
      let r := set_Spec (RedisStandalone_defaults (Spec r)) r in
      (r, (negb (bool_decide (r = rCopy)), None)).

(** ** Settings *)

(** The keys [enablePersistence] may add, with their values. *)
Definition persistence_defaults : StringMap := list_to_map [
  ("appendonly", "yes"); ("auto-aof-rewrite-min-size", "536870912");
  ("auto-aof-rewrite-percentage", "100"); ("repl-backlog-size", "62914560");
  ("repl-diskless-sync", "yes"); ("aof-load-truncated", "yes");
  ("stop-writes-on-bgsave-error", "no"); ("save", "900 1 300 10")].

Lemma setIfNotExist_union key value (config : StringMap) :
  setConfigMapIfNotExist key value config = config ∪ {[ key := value ]}.
Proof.
  unfold setConfigMapIfNotExist. apply map_eq. intros i.
  destruct (config !! key) eqn:E; (destruct (decide (i = key)) as [->|Hne];
    [rewrite lookup_union, lookup_singleton_eq, E|rewrite lookup_union_l by (by apply lookup_singleton_ne)]);
    rewrite ?lookup_insert_eq, ?lookup_insert_ne by done; done.
Qed.

Lemma enablePersistence_union config :
  enablePersistence config = config ∪ persistence_defaults.
Proof.
  unfold enablePersistence. cbn zeta. rewrite !setIfNotExist_union, <- !(assoc_L (∪)). f_equal.
Qed.

Lemma persistence_idemp s s' config :
  DisablePersistence s = DisablePersistence s' ->
  persistence s (persistence s' config) = persistence s' config.
Proof.
  unfold persistence. intros ->. destruct (DisablePersistence s'); simpl.
  - unfold disablePersistence. apply map_eq. intros i.
    destruct (decide (i = "save")) as [->|]; [by rewrite !lookup_insert_eq|].
    rewrite lookup_insert_ne by done.
    destruct (decide (i = "appendonly")) as [->|];
      [by rewrite lookup_insert_eq, lookup_insert_ne, lookup_insert_eq|].
    by rewrite lookup_insert_ne.
  - rewrite !enablePersistence_union. by rewrite <- (assoc_L (∪)), (idemp_L (∪)).
Qed.

(** A setting under a key no persistence setting uses passes through. *)
Lemma persistence_lookup s config k :
  persistence_defaults !! k = None -> persistence s config !! k = config !! k.
Proof.
  intros Hk. unfold persistence. destruct (DisablePersistence s); simpl.
  - unfold disablePersistence.
    rewrite !lookup_insert_ne; [done|intros <-; vm_compute in Hk; discriminate Hk..].
  - rewrite enablePersistence_union, lookup_union, Hk. by destruct (config !! k).
Qed.

(** ** Defaults, field by field *)

Lemma default_Exporter_fields s :
  Size (default_Exporter s) = Size s /\ Image (default_Exporter s) = Image s /\
  Config (default_Exporter s) = Config s /\ Password (default_Exporter s) = Password s /\
  DisablePersistence (default_Exporter s) = DisablePersistence s /\
  Storage (default_Exporter s) = Storage s.
Proof. unfold default_Exporter. by destruct (Enabled (Exporter s)). Qed.

Lemma default_Exporter_idemp s : default_Exporter (default_Exporter s) = default_Exporter s.
Proof.
  unfold default_Exporter. destruct s as [????????? e ???????]. destruct e as [en im po]; simpl.
  destruct en; simpl; [|done].
  destruct (String.eqb_spec im ""), (String.eqb_spec po ""); subst; simpl; try done;
    repeat (match goal with H : _ <> "" |- _ => rewrite (proj2 (String.eqb_neq _ _) H) end; simpl);
    done.
Qed.

Lemma default_Exporter_id s c :
  default_Exporter s = s -> default_Exporter (set_Config c s) = set_Config c s.
Proof.
  unfold default_Exporter. destruct s as [????????? e ???????]. simpl.
  destruct (Enabled e); [|done]. intros H. injection H as H. by rewrite H.
Qed.

Lemma default_Image_idemp s : default_Image (default_Image s) = default_Image s.
Proof.
  unfold default_Image. destruct (String.eqb_spec (Image s) "") as [E|E]; [done|].
  by rewrite (proj2 (String.eqb_neq _ _) E).
Qed.

Lemma default_Image_nonempty s : Image (default_Image s) <> "".
Proof. unfold default_Image. by destruct (String.eqb_spec (Image s) ""). Qed.

Lemma default_Image_id s : Image s <> "" -> default_Image s = s.
Proof. unfold default_Image. intros H. by rewrite (proj2 (String.eqb_neq _ _) H). Qed.

Lemma default_Image_fields s :
  Size (default_Image s) = Size s /\ Config (default_Image s) = Config s /\
  Password (default_Image s) = Password s /\
  DisablePersistence (default_Image s) = DisablePersistence s.
Proof. unfold default_Image. by destruct (_ =? _)%string. Qed.

Lemma SentinelSettings_defaults_spec s :
  Replicas (SentinelSettings_defaults s) = Replicas s /\
  sen_Image (SentinelSettings_defaults s) <> "" /\
  sen_Resources (SentinelSettings_defaults s) <> mkResourceRequirements ∅ ∅ /\
  SentinelSettings_defaults (SentinelSettings_defaults s) = SentinelSettings_defaults s.
Proof.
  assert ((ResourceRequirements_Size defaultSentinelResource =? 0) = false) as Hd by (by vm_compute).
  assert (forall x, (ResourceRequirements_Size x =? 0) = false -> x <> mkResourceRequirements ∅ ∅) as Hs.
  { intros x Hx%Z.eqb_neq E. by apply Hx, ResourceRequirements_Size_0. }
  unfold SentinelSettings_defaults. destruct s as [im ??? res ???????]; simpl.
  destruct (String.eqb_spec im "") as [->|Him]; simpl;
    destruct (ResourceRequirements_Size res =? 0) eqn:E; simpl; rewrite ?E, ?Hd;
    rewrite ?(proj2 (String.eqb_neq _ _) Him); simpl; rewrite ?E, ?Hd; eauto 10.
Qed.

(** Once its defaults are set, a specification is a fixed point of them. *)
Lemma RedisSentinel_defaults_idemp sp :
  RedisSentinel_defaults (RedisSentinel_defaults sp) = RedisSentinel_defaults sp.
Proof.
  unfold RedisSentinel_defaults. cbn zeta. unfold set_redis, set_Sentinel. simpl.
  destruct (SentinelSettings_defaults_spec (Sentinel sp)) as (_ & _ & _ & ->). f_equal.
  set (s1 := set_Config _ (default_Image (redis sp))).
  destruct (default_Exporter_fields s1) as (_ & Him & Hc & _ & Hp & _).
  assert (DisablePersistence s1 = DisablePersistence (default_Image (redis sp))) as Hp1 by done.
  rewrite default_Image_id by (rewrite Him; apply default_Image_nonempty).
  unfold config_of at 1. rewrite Hc. simpl.
  assert (forall c, Config (default_Exporter s1) = Some c ->
    set_Config (Some c) (default_Exporter s1) = default_Exporter s1) as Hid.
  { intros c. by destruct (default_Exporter s1); simpl; intros ->. }
  rewrite insert_id.
  - rewrite (persistence_idemp (default_Exporter s1) (default_Image (redis sp))) by congruence.
    rewrite Hid by (by rewrite Hc). apply default_Exporter_idemp.
  - rewrite persistence_lookup by done. by rewrite lookup_insert_eq.
Qed.

Lemma RedisStandalone_defaults_idemp s :
  RedisStandalone_defaults (RedisStandalone_defaults s) = RedisStandalone_defaults s.
Proof.
  unfold RedisStandalone_defaults. cbn zeta.
  set (s1 := default_Exporter (default_Image s)).
  destruct (default_Exporter_fields (default_Image s)) as (_ & Him & _ & _ & _ & _).
  set (c := persistence s1 _). set (s2 := set_Config (Some c) s1).
  rewrite (default_Image_id s2) by (simpl; unfold s1; rewrite Him; apply default_Image_nonempty).
  unfold s2 at 1 3. rewrite default_Exporter_id by apply default_Exporter_idemp. fold s2.
  unfold config_of. simpl. unfold c. by rewrite persistence_idemp.
Qed.

(** The shape of a default-complete sentinel specification. *)
Record complete_sentinel (sp : RedisSentinelSpec) : Prop := {
  complete_Image : Image (redis sp) <> "";
  complete_sen_Image : sen_Image (Sentinel sp) <> "";
  complete_sen_Resources : sen_Resources (Sentinel sp) <> mkResourceRequirements ∅ ∅;
  complete_priority : config_of (redis sp) !! "slave-priority" = Some "1";
  complete_Exporter : Enabled (Exporter (redis sp)) = true ->
    ex_Image (Exporter (redis sp)) <> "" /\ ex_ImagePullPolicy (Exporter (redis sp)) <> ""
}.

Lemma default_Exporter_complete s :
  Enabled (Exporter (default_Exporter s)) = true ->
  ex_Image (Exporter (default_Exporter s)) <> "" /\
  ex_ImagePullPolicy (Exporter (default_Exporter s)) <> "".
Proof.
  unfold default_Exporter. destruct (Enabled (Exporter s)) eqn:E; [|simpl; congruence].
  simpl. intros _.
  destruct (String.eqb_spec (ex_Image (Exporter s)) ""); simpl;
    destruct (String.eqb_spec (ex_ImagePullPolicy (Exporter s)) ""); done.
Qed.

Lemma RedisSentinel_defaults_complete sp : complete_sentinel (RedisSentinel_defaults sp).
Proof.
  unfold RedisSentinel_defaults. cbn zeta. unfold set_redis, set_Sentinel.
  set (s1 := set_Config _ _).
  destruct (default_Exporter_fields s1) as (_ & Him & Hc & _).
  destruct (SentinelSettings_defaults_spec (Sentinel sp)) as (_ & Hsi & Hsr & _).
  split; simpl; try done.
  - rewrite Him. apply default_Image_nonempty.
  - unfold config_of. rewrite Hc. simpl. rewrite persistence_lookup by done.
    by rewrite lookup_insert_eq.
  - apply default_Exporter_complete.
Qed.

Lemma RedisSentinel_defaults_numbers sp :
  Size (redis (RedisSentinel_defaults sp)) = Size (redis sp) /\
  Replicas (Sentinel (RedisSentinel_defaults sp)) = Replicas (Sentinel sp) /\
  Password (redis (RedisSentinel_defaults sp)) = Password (redis sp).
Proof.
  unfold RedisSentinel_defaults. cbn zeta. unfold set_redis, set_Sentinel. simpl.
  match goal with |- context [default_Exporter ?s] =>
    destruct (default_Exporter_fields s) as (-> & _ & _ & -> & _) end. simpl.
  destruct (default_Image_fields (redis sp)) as (-> & _ & -> & _).
  by destruct (SentinelSettings_defaults_spec (Sentinel sp)) as (-> & _).
Qed.

Lemma RedisSentinel_defaults_config sp :
  config_of (redis (RedisSentinel_defaults sp)) =
  persistence (redis sp) (<["slave-priority" := "1"]> (config_of (redis sp))).
Proof.
  unfold RedisSentinel_defaults, config_of. cbn zeta. unfold set_redis, set_Sentinel. simpl.
  match goal with |- context [default_Exporter ?s] =>
    destruct (default_Exporter_fields s) as (_ & _ & -> & _) end. simpl.
  unfold persistence. by destruct (default_Image_fields (redis sp)) as (_ & -> & _ & ->).
Qed.

Lemma RedisStandalone_defaults_config s :
  config_of (RedisStandalone_defaults s) = persistence s (config_of s).
Proof.
  unfold RedisStandalone_defaults, config_of, persistence. simpl.
  destruct (default_Exporter_fields (default_Image s)) as (_ & _ & _ & _ & -> & _).
  by destruct (default_Image_fields s) as (_ & -> & _ & ->).
Qed.

Lemma RedisStandalone_defaults_Size s : Size (RedisStandalone_defaults s) = Size s.
Proof.
  unfold RedisStandalone_defaults. cbn zeta. simpl.
  destruct (default_Exporter_fields (default_Image s)) as (-> & _).
  by destruct (default_Image_fields s) as (-> & _).
Qed.

(** ** The two methods *)

#[local] Arguments RedisSentinel_defaults : simpl never.
#[local] Arguments RedisStandalone_defaults : simpl never.

(** What a sentinel resource must satisfy to be accepted. *)
Definition acceptable_sentinel (r : RedisSentinel) : Prop :=
  Z.of_nat (String.length (Name (meta r))) <= maxNameLength /\
  (Size (redis (Spec r)) = 0 \/ defaultRedisNumber <= Size (redis (Spec r))) /\
  (Replicas (Sentinel (Spec r)) = 0 \/ defaultSentinelNumber <= Replicas (Sentinel (Spec r))).

(** The default for a number that is zero. *)
Definition or_default (d n : Z) : Z := if n =? 0 then d else n.

Definition sized_sentinel (r : RedisSentinel) : RedisSentinelSpec :=
  mkSentinelSpec
    (set_Size (or_default defaultRedisNumber (Size (redis (Spec r)))) (redis (Spec r)))
    (set_Replicas (or_default defaultSentinelNumber (Replicas (Sentinel (Spec r))))
       (Sentinel (Spec r))).

#[local] Arguments sized_sentinel : simpl never.

Lemma set_Size_id s : set_Size (Size s) s = s.
Proof. by destruct s. Qed.
Lemma set_Replicas_id s : set_Replicas (Replicas s) s = s.
Proof. by destruct s. Qed.

Lemma Sentinel_Validate_accepted r :
  acceptable_sentinel r ->
  RedisSentinel_Validate r =
  (let r' := set_Spec (RedisSentinel_defaults (sized_sentinel r)) r in
   (r', (negb (bool_decide (r' = r)), None))).
Proof.
  intros (Hn & Hs & Hr). unfold RedisSentinel_Validate, sized_sentinel, or_default.
  rewrite (proj2 (Z.ltb_ge _ _) Hn).
  destruct r as [m [s [? ? ? rep ? ? ? ? ? ? ? ?]] st]; simpl in *. unfold set_Spec, set_redis, set_Sentinel. simpl.
  unfold defaultRedisNumber, defaultSentinelNumber in *.
  destruct (Z.eqb_spec (Size s) 0) as [E1|E1]; simpl;
    [|rewrite (proj2 (Z.ltb_ge _ _)) by lia];
    (destruct (Z.eqb_spec rep 0) as [E2|E2]; simpl; [|rewrite (proj2 (Z.ltb_ge _ _)) by lia]);
    rewrite ?set_Size_id; done.
Qed.

Lemma Sentinel_Validate_ok r : (RedisSentinel_Validate r).2.2 = None <-> acceptable_sentinel r.
Proof.
  split; [|intros H; by rewrite Sentinel_Validate_accepted].
  unfold RedisSentinel_Validate, acceptable_sentinel.
  destruct (Z.ltb_spec maxNameLength (Z.of_nat (String.length (Name (meta r))))); [done|].
  cbv zeta. set (size := Size (redis (Spec r))). set (reps := Replicas (Sentinel (Spec r))).
  destruct (Z.eqb_spec size 0); simpl; [|destruct (Z.ltb_spec size defaultRedisNumber); [done|]];
    fold reps; destruct (Z.eqb_spec reps 0); simpl; auto;
    destruct (Z.ltb_spec reps defaultSentinelNumber); simpl; auto; done.
Qed.

Lemma Sentinel_Validate_inv r r' m :
  RedisSentinel_Validate r = (r', (m, None)) ->
  acceptable_sentinel r /\ r' = set_Spec (RedisSentinel_defaults (sized_sentinel r)) r.
Proof.
  intros H. assert (acceptable_sentinel r) as Ha by (apply Sentinel_Validate_ok; by rewrite H).
  rewrite Sentinel_Validate_accepted in H by done. split; [done|]. congruence.
Qed.

Lemma sized_numbers r :
  acceptable_sentinel r ->
  defaultRedisNumber <= Size (redis (sized_sentinel r)) /\
  defaultSentinelNumber <= Replicas (Sentinel (sized_sentinel r)).
Proof.
  intros (_ & Hs & Hr). unfold sized_sentinel, or_default. simpl.
  unfold defaultRedisNumber, defaultSentinelNumber in *.
  destruct (Z.eqb_spec (Size (redis (Spec r))) 0), (Z.eqb_spec (Replicas (Sentinel (Spec r))) 0); lia.
Qed.

(** C28: [RedisSentinel.Validate] accepts a resource exactly when its name has
    at most 48 bytes and each of its two numbers is zero or at least three. An
    accepted resource keeps its metadata, its status and its password, has at
    least three servers and three sentinels, and every defaulted field is set. *)
Theorem Sentinel_Validate_spec r r' m err :
  RedisSentinel_Validate r = (r', (m, err)) ->
  (err = None <-> acceptable_sentinel r) /\
  (err = None ->
     meta r' = meta r /\ Status r' = Status r /\
     Password (redis (Spec r')) = Password (redis (Spec r)) /\
     defaultRedisNumber <= Size (redis (Spec r')) /\
     defaultSentinelNumber <= Replicas (Sentinel (Spec r')) /\
     complete_sentinel (Spec r') /\ (m = true <-> r' <> r)).
Proof.
  intros H. pose proof (Sentinel_Validate_ok r) as Hok. rewrite H in Hok. split; [done|].
  simpl in Hok. intros ->. pose proof (proj1 Hok eq_refl) as Ha.
  rewrite Sentinel_Validate_accepted in H by done. injection H as <- <-. cbn [Spec set_Spec meta Status].
  destruct (RedisSentinel_defaults_numbers (sized_sentinel r)) as (-> & -> & ->).
  destruct (sized_numbers r Ha). rewrite negb_true_iff, bool_decide_eq_false.
  split_and!; try done. apply RedisSentinel_defaults_complete.
Qed.

(** [RedisSentinel.Validate] is idempotent: run again on what it accepted,
    it accepts it unchanged and reports no modification, so a reconcile that
    writes the defaulted object back does not do so twice. *)
Theorem Sentinel_Validate_idempotent r r' m :
  RedisSentinel_Validate r = (r', (m, None)) ->
  RedisSentinel_Validate r' = (r', (false, None)).
Proof.
  intros (Ha & ->)%Sentinel_Validate_inv. pose proof (sized_numbers r Ha) as [Hs Hr].
  set (sp := RedisSentinel_defaults (sized_sentinel r)).
  destruct (RedisSentinel_defaults_numbers (sized_sentinel r)) as (E1 & E2 & _). fold sp in E1, E2.
  rewrite Sentinel_Validate_accepted.
  - assert (sized_sentinel (set_Spec sp r) = sp) as ->.
    { unfold sized_sentinel, or_default. cbn [Spec set_Spec]. rewrite E1, E2.
      unfold defaultRedisNumber, defaultSentinelNumber in *.
      rewrite !(proj2 (Z.eqb_neq _ _)) by lia. rewrite <- E1, <- E2.
      rewrite set_Size_id, set_Replicas_id. by destruct sp. }
    unfold sp. cbn zeta. cbn [set_Spec meta Status].
    rewrite RedisSentinel_defaults_idemp. by rewrite bool_decide_true.
  - destruct Ha as [Hn _]. split; [done|]. cbn [Spec set_Spec]. rewrite E1, E2. auto.
Qed.

(** What the settings of an accepted resource are: the replication priority is
    always "1"; without persistence the two persistence settings are forced;
    with it, every setting of the user's stays and the missing ones get their
    default. *)
Definition validated_config (priority disable : bool) (config : StringMap) (k : string)
    : option string :=
  if disable && (k =? "save")%string then Some ""
  else if disable && (k =? "appendonly")%string then Some "no"
  else if priority && (k =? "slave-priority")%string then Some "1"
  else if disable then config !! k
  else match config !! k with Some v => Some v | None => persistence_defaults !! k end.

Lemma persistence_config s config k :
  persistence s config !! k = validated_config false (DisablePersistence s) config k.
Proof.
  unfold persistence, validated_config. destruct (DisablePersistence s); simpl.
  - unfold disablePersistence.
    destruct (String.eqb_spec k "save") as [->|]; [by rewrite lookup_insert_eq|].
    rewrite lookup_insert_ne by done.
    destruct (String.eqb_spec k "appendonly") as [->|]; [by rewrite lookup_insert_eq|].
    by rewrite lookup_insert_ne.
  - rewrite enablePersistence_union, lookup_union. by destruct (config !! k), (persistence_defaults !! k).
Qed.

Lemma persistence_priority s config k :
  persistence s (<["slave-priority" := "1"]> config) !! k =
  validated_config true (DisablePersistence s) config k.
Proof.
  rewrite persistence_config. unfold validated_config. simpl.
  destruct (String.eqb_spec k "slave-priority") as [->|].
  - rewrite lookup_insert_eq. simpl. by destruct (DisablePersistence s).
  - by rewrite lookup_insert_ne.
Qed.

(** C29: the redis settings after [Validate]. The replication priority of a
    sentinel cluster is always forced to "1"; with persistence disabled [save] and
    [appendonly] are forced off; otherwise a setting the user wrote is never
    changed and only missing persistence settings are added. *)
Theorem Validate_config r r' m s s' n k :
  RedisSentinel_Validate r = (r', (m, None)) -> RedisStandalone_Validate s = (s', (n, None)) ->
  config_of (redis (Spec r')) !! k =
    validated_config true (DisablePersistence (redis (Spec r))) (config_of (redis (Spec r))) k /\
  config_of (Spec s') !! k =
    validated_config false (DisablePersistence (Spec s)) (config_of (Spec s)) k.
Proof.
  intros (_ & ->)%Sentinel_Validate_inv Hs. split.
  - cbn [Spec set_Spec]. rewrite RedisSentinel_defaults_config, persistence_priority. done.
  - assert (exists sp, Config sp = Config (Spec s) /\ DisablePersistence sp = DisablePersistence (Spec s) /\
      Spec s' = RedisStandalone_defaults sp) as (sp & Hc & Hd & ->).
    { unfold RedisStandalone_Validate in Hs. cbv zeta in Hs.
      destruct (_ <? _); [done|]. destruct (_ && _); [done|]. injection Hs as <- _.
      destruct (_ =? _); cbn [Spec set_Spec]; by eexists; split_and!; [..|reflexivity]. }
    rewrite RedisStandalone_defaults_config, persistence_config. unfold config_of. by rewrite Hc, Hd.
Qed.

(** [RedisStandalone.Validate] accepts a resource exactly when its name has
    at most 48 bytes and its size is zero or one; what it accepts has size one,
    and validating that again changes nothing. *)
Theorem Standalone_Validate_spec r r' m err :
  RedisStandalone_Validate r = (r', (m, err)) ->
  (err = None <-> Z.of_nat (String.length (Name (meta r))) <= maxNameLength /\
     (Size (Spec r) = 0 \/ Size (Spec r) = 1)) /\
  (err = None -> Size (Spec r') = 1 /\ meta r' = meta r /\ Status r' = Status r /\
     RedisStandalone_Validate r' = (r', (false, None))).
Proof.
  unfold RedisStandalone_Validate at 1. unfold defaultStandaloneRedisNumber.
  destruct (Z.ltb_spec maxNameLength (Z.of_nat (String.length (Name (meta r))))) as [Hn|Hn].
  { intros [= <- <- <-]. split; [|done]. split; [done|lia]. }
  destruct (Z.eqb_spec (Size (Spec r)) 0) as [E|E]; simpl;
    [|destruct (Z.eqb_spec (Size (Spec r)) 1) as [E1|E1]; simpl];
    intros [= <- <- <-]; (split; [split; [auto|try done; lia]|]); intros H; try done; clear H.
  all: assert (forall sp, Size sp = 1 ->
    let s := set_Spec (RedisStandalone_defaults sp) r in
    Size (Spec s) = 1 /\ meta s = meta r /\ Status s = Status r /\
    RedisStandalone_Validate s = (s, (false, None))) as Hfix;
    [|apply Hfix; done].
  all: intros sp Hsp; cbn zeta; unfold RedisStandalone_Validate; cbn [Spec set_Spec meta Status];
    rewrite RedisStandalone_defaults_Size, Hsp;
    match goal with |- context [maxNameLength <? ?x] =>
      replace (maxNameLength <? x) with false by (symmetry; by apply Z.ltb_ge) end;
    change (1 =? 0) with false; change (1 =? defaultStandaloneRedisNumber) with true;
    cbn [negb andb]; unfold set_Spec; cbn [Spec meta Status];
    rewrite RedisStandalone_defaults_idemp; by rewrite bool_decide_true.
Qed.

(** ** Witnesses *)

Lemma Sentinel_Validate_spec_witness :
  acceptable_sentinel emptySentinel.
Proof.
  apply (Sentinel_Validate_spec emptySentinel (RedisSentinel_Validate emptySentinel).1 true None);
    vm_compute; reflexivity.
Defined.

Lemma Sentinel_Validate_idempotent_witness :
  let r' := (RedisSentinel_Validate emptySentinel).1 in
  RedisSentinel_Validate r' = (r', (false, None)).
Proof.
  apply (Sentinel_Validate_idempotent emptySentinel _ true). vm_compute. reflexivity.
Defined.

Lemma Validate_config_witness :
  config_of (redis (Spec (RedisSentinel_Validate sampleSentinel).1)) !! "save" = Some "60 1".
Proof.
  refine (eq_trans (proj1 (Validate_config sampleSentinel
    (RedisSentinel_Validate sampleSentinel).1 true sampleStandalone
    (RedisStandalone_Validate sampleStandalone).1 true "save" _ _)) _); vm_compute; reflexivity.
Defined.

Lemma Standalone_Validate_spec_witness :
  Size (Spec (RedisStandalone_Validate emptyStandalone).1) = 1.
Proof.
  apply (Standalone_Validate_spec emptyStandalone _ true None); vm_compute; reflexivity.
Defined.

(** ** Validation looks neither at the status nor at the version *)

Lemma Sentinel_valid_status v st (rc : RedisSentinel) :
  RedisSentinel_Validate rc = (rc, (false, None)) ->
  let rc' := mkResource (set_ResourceVersion v (meta rc)) (Spec rc) st in
  RedisSentinel_Validate rc' = (rc', (false, None)).
Proof.
  intros (Ha & Hs)%Sentinel_Validate_inv rc'. rewrite Sentinel_Validate_accepted by exact Ha.
  apply (f_equal Spec) in Hs. cbn [set_Spec Spec] in Hs.
  assert (set_Spec (RedisSentinel_defaults (sized_sentinel rc')) rc' = rc') as ->.
  { change (sized_sentinel rc') with (sized_sentinel rc). by rewrite <- Hs. }
  cbv zeta. by rewrite bool_decide_true.
Qed.
Lemma Standalone_valid_status v st (rs : RedisStandalone) :
  RedisStandalone_Validate rs = (rs, (false, None)) ->
  let rs' := mkResource (set_ResourceVersion v (meta rs)) (Spec rs) st in
  RedisStandalone_Validate rs' = (rs', (false, None)).
Proof.
  intros Hv rs'. revert Hv. unfold RedisStandalone_Validate. change (Name (meta rs')) with (Name (meta rs)).
  change (Spec rs') with (Spec rs). destruct (_ <? _); [done|]. cbv zeta. destruct (_ && _); [done|].
  intros H. apply (f_equal (fun x => Spec x.1)) in H. cbn [Spec fst set_Spec] in H.
  assert (forall r, Spec r = Spec (if Size (Spec rs) =? 0 then set_Spec (set_Size defaultStandaloneRedisNumber (Spec rs)) rs else rs) ->
    meta r = meta rs' -> Status r = st -> set_Spec (RedisStandalone_defaults (Spec r)) r = rs') as Hr.
  { intros r E1 E2 E3. unfold set_Spec. rewrite E1, H, E2, E3. done. }
  rewrite Hr; [|by destruct (_ =? _)..]. by rewrite bool_decide_true.
Qed.
