(* ===== verification/Effects.v ===== *)
(** * Effects: programs that talk to the outside

    What the operator does not compute itself it asks of the outside: the
    Kubernetes API server (through [client.Client]), the redis servers and
    sentinels (through [go-redis]), the clock, the Go runtime (the order in
    which maps are visited and equal elements sorted), the event recorder and
    the metrics registry. A handler is a tree of such requests; the answers are
    chosen by an environment about which nothing is assumed, so that a theorem
    on all runs covers every failure, every delay and every concurrent change
    of the cluster.

    A Go function that returns an error is a [prog (result A)]; a nil
    dereference, an index out of range or a failed type assertion is [Panic];
    a loop that is cut off is [OutOfFuel]. *)

From S2P Require Import Prelude GoStd Corev1 Api.

(** ** Requests and answers *)

Inductive kind :=
| KService | KConfigMap | KStatefulSet | KPod | KDeployment | KPodDisruptionBudget
| KNamespace | KRedisSentinel | KRedisStandalone.

#[export] Instance kind_eq : EqDecision kind.
Proof. solve_decision. Defined.

Definition object (k : kind) : Type :=
  match k with
  | KService => Service
  | KConfigMap => ConfigMap
  | KStatefulSet => StatefulSet
  | KPod => Pod
  | KDeployment => Deployment
  | KPodDisruptionBudget => PodDisruptionBudget
  | KNamespace => NamespaceObj
  | KRedisSentinel => RedisSentinel
  | KRedisStandalone => RedisStandalone
  end.

Definition object_meta (k : kind) : object k -> ObjectMeta :=
  match k with
  | KService => svc_meta
  | KConfigMap => cm_meta
  | KStatefulSet => ss_meta
  | KPod => pod_meta
  | KDeployment => dp_meta
  | KPodDisruptionBudget => pdb_meta
  | KNamespace => ns_meta
  | KRedisSentinel => meta
  | KRedisStandalone => meta
  end.

Definition result (A : Type) : Type := (error + A)%type.

(** [rediscli.Options], as far as the operator sets it. *)
Record Options := mkOptions { Addr : string; opt_Password : string; DB : Z }.

(** An [interface{}] in a redis reply. *)
Inductive value :=
| VString (s : string)
| VInt (z : Z)
| VNil
| VArray (l : list value).

Inductive Eff :=
| Get (k : kind) (namespace name : string)
| Create (k : kind) (o : object k)
| Update (k : kind) (o : object k)
| StatusUpdate (k : kind) (o : object k)
| Delete (k : kind) (o : object k)
| List (k : kind) (namespace : string) (selector : StringMap)
| StringCmd (opt : Options) (args : list string)
| SliceCmd (opt : Options) (args : list string)
| IntCmd (opt : Options) (args : list string)
| BoolCmd (opt : Options) (args : list string)
| StatusCmd (opt : Options) (args : list string)
| Now
| Sleep (d : Z)
| Seed
| RecordEvent (k : kind) (namespace name eventtype reason message : string)
| SetGauge (namespace name : string) (v : Z)
| DeleteGauge (namespace name : string).

(** The answer to each request. An update answers with the object as the server
    stored it, which the client library writes back into the caller's. *)
Definition resp (e : Eff) : Type :=
  match e with
  | Get k _ _ => result (object k)
  | Create _ _ => result unit
  | Update k _ => result (object k)
  | StatusUpdate k _ => result (object k)
  | Delete _ _ => result unit
  | List k _ _ => result (list (object k))
  | StringCmd _ _ => result string
  | SliceCmd _ _ => result (list value)
  | IntCmd _ _ => result Z
  | BoolCmd _ _ => result bool
  | StatusCmd _ _ => result string
  | Now => Z
  | Sleep _ => unit
  | Seed => list nat
  | RecordEvent _ _ _ _ _ _ => unit
  | SetGauge _ _ _ => unit
  | DeleteGauge _ _ => unit
  end.

(** ** Programs *)

Inductive prog (A : Type) : Type :=
| Ret (a : A)
| Panic
| OutOfFuel
| Act (e : Eff) (k : resp e -> prog A).
Arguments Ret {A}.
Arguments Panic {A}.
Arguments OutOfFuel {A}.
Arguments Act {A}.

Fixpoint bind {A B} (m : prog A) (f : A -> prog B) : prog B :=
  match m with
  | Ret a => f a
  | Panic => Panic
  | OutOfFuel => OutOfFuel
  | Act e k => Act e (fun r => bind (k r) f)
  end.

Definition act (e : Eff) : prog (resp e) := Act e Ret.

(** The two ends of a Go function: a value with a nil error, or an error. *)
Definition ok {A} (a : A) : prog (result A) := Ret (inr a).
Definition fail {A} (err : error) : prog (result A) := Ret (inl err).

(** [if err != nil { return err }]. *)
Definition try {A B} (m : prog (result A)) (f : A -> prog (result B)) : prog (result B) :=
  bind m (fun r => match r with inl err => fail err | inr a => f a end).

Notation "'let*' x ':=' m 'in' k" := (bind m (fun x => k))
  (at level 10, x pattern, m at level 100, k at level 200).
Notation "'let?' x ':=' m 'in' k" := (try m (fun x => k))
  (at level 10, x pattern, m at level 100, k at level 200).

(** A partial operation: nil dereference, index out of range, failed type
    assertion. *)
Definition or_panic {A} (o : option A) : prog A :=
  match o with Some a => Ret a | None => Panic end.

(** [for _, x := range xs { if err := f(x); err != nil { return err } }]. *)
Fixpoint for_each {A} (xs : list A) (f : A -> prog (result unit)) : prog (result unit) :=
  match xs with
  | [] => ok tt
  | x :: xs' => let? _ := f x in for_each xs' f
  end.

(** A loop that accumulates. *)
Fixpoint fold_each {A B} (xs : list A) (b : B) (f : B -> A -> prog (result B)) : prog (result B) :=
  match xs with
  | [] => ok b
  | x :: xs' => let? b' := f b x in fold_each xs' b' f
  end.

(** [range] over a map. *)
Definition range_map {V} (m : gmap string V) : prog (list (string * V)) :=
  let* seed := act Seed in Ret (shuffle seed (map_to_list m)).

(** ** Runs *)

Inductive outcome (A : Type) :=
| Returns (a : A)
| Panics
| Stuck.
Arguments Returns {A}.
Arguments Panics {A}.
Arguments Stuck {A}.

(** A request with the answer it got. *)
Definition event : Type := {e : Eff & resp e}.
Definition ev (e : Eff) (r : resp e) : event := existT e r.

(** An environment answers a request and may change its own state. *)
Definition Env (W : Type) : Type := forall e : Eff, W -> resp e * W.

Fixpoint run {W A} (env : Env W) (p : prog A) (w : W) : outcome A * list event * W :=
  match p with
  | Ret a => (Returns a, [], w)
  | Panic => (Panics, [], w)
  | OutOfFuel => (Stuck, [], w)
  | Act e k =>
      let '(r, w) := env e w in
      let '(o, t, w) := run env (k r) w in
      (o, ev e r :: t, w)
  end.

(** [wp p Q]: whatever the answers, the trace and the outcome satisfy [Q]. *)
Fixpoint wp {A} (p : prog A) (Q : list event -> outcome A -> Prop) : Prop :=
  match p with
  | Ret a => Q [] (Returns a)
  | Panic => Q [] Panics
  | OutOfFuel => Q [] Stuck
  | Act e k => forall r, wp (k r) (fun t o => Q (ev e r :: t) o)
  end.

(** The form for what a program returns: it neither panics nor is cut off, and
    its trace and value satisfy [Q]. *)
Definition spec {A} (p : prog A) (Q : list event -> A -> Prop) : Prop :=
  wp p (fun t o => match o with Returns a => Q t a | _ => False end).

(** The form for partial operations: if it returns, then [Q]. *)
Definition wlp {A} (p : prog A) (Q : list event -> A -> Prop) : Prop :=
  wp p (fun t o => match o with Returns a => Q t a | _ => True end).

(** Every request the program can make satisfies [P]. *)
Fixpoint every {A} (P : Eff -> Prop) (p : prog A) : Prop :=
  match p with
  | Act e k => P e /\ forall r, every P (k r)
  | _ => True
  end.

(** [p] neither panics nor is cut off. *)
Definition returns {A} (p : prog A) : Prop := spec p (fun _ _ => True).

(** ** Rules *)

Lemma wp_mono {A} (p : prog A) (Q Q' : list event -> outcome A -> Prop) :
  (forall t o, Q t o -> Q' t o) -> wp p Q -> wp p Q'.
Proof.
  revert Q Q'; induction p as [a| | |e k IH]; intros Q Q' HQ; simpl; auto.
  intros H r. eapply IH; [|apply H]. simpl. auto.
Qed.

Lemma wp_true {A} (p : prog A) : wp p (fun _ _ => True).
Proof. induction p as [a| | |e k IH]; simpl; auto. Qed.

(** A premise that does not depend on the run moves in and out. *)
Lemma wp_impl {A} (P : Prop) (p : prog A) (Q : list event -> outcome A -> Prop) :
  (P -> wp p Q) -> wp p (fun t o => P -> Q t o).
Proof.
  revert Q; induction p as [a| | |e k IH]; intros Q H; simpl in *; auto.
Qed.

Lemma wp_bind {A B} (m : prog A) (f : A -> prog B) Q :
  wp (bind m f) Q <->
  wp m (fun t o => match o with
    | Returns a => wp (f a) (fun t' o' => Q (t ++ t') o')
    | Panics => Q t Panics
    | Stuck => Q t Stuck
    end).
Proof.
  revert Q; induction m as [a| | |e k IH]; intros Q; simpl; [done..|].
  split; intros H r; specialize (H r); by apply (IH r (fun t o => Q (ev e r :: t) o)).
Qed.

Lemma spec_mono {A} (p : prog A) (Q Q' : list event -> A -> Prop) :
  (forall t a, Q t a -> Q' t a) -> spec p Q -> spec p Q'.
Proof. intros H. apply wp_mono. intros t [a| |]; auto. Qed.

Lemma spec_bind {A B} (m : prog A) (f : A -> prog B) (Q : list event -> B -> Prop) :
  spec m (fun t a => spec (f a) (fun t' b => Q (t ++ t') b)) -> spec (bind m f) Q.
Proof. intros H. apply wp_bind. eapply wp_mono, H. by intros t [a| |]. Qed.

Lemma spec_ret {A} (a : A) (Q : list event -> A -> Prop) : Q [] a -> spec (Ret a) Q.
Proof. done. Qed.

Lemma spec_act e (Q : list event -> resp e -> Prop) :
  (forall r, Q [ev e r] r) -> spec (act e) Q.
Proof. intros H r. apply H. Qed.

Lemma spec_try {A B} (m : prog (result A)) (f : A -> prog (result B)) Q :
  spec m (fun t r => match r with
    | inl err => Q t (inl err)
    | inr a => spec (f a) (fun t' b => Q (t ++ t') b)
    end) -> spec (try m f) Q.
Proof.
  intros H. apply spec_bind. eapply spec_mono, H. intros t [err|a]; simpl; [|done].
  intros HQ. apply spec_ret. by rewrite app_nil_r.
Qed.

Lemma wlp_mono {A} (p : prog A) (Q Q' : list event -> A -> Prop) :
  (forall t a, Q t a -> Q' t a) -> wlp p Q -> wlp p Q'.
Proof. intros H. apply wp_mono. intros t [a| |]; auto. Qed.

Lemma wlp_bind {A B} (m : prog A) (f : A -> prog B) (Q : list event -> B -> Prop) :
  wlp m (fun t a => wlp (f a) (fun t' b => Q (t ++ t') b)) -> wlp (bind m f) Q.
Proof. intros H. apply wp_bind. eapply wp_mono, H. by intros t [a| |]. Qed.

Lemma wlp_try {A B} (m : prog (result A)) (f : A -> prog (result B)) Q :
  wlp m (fun t r => match r with
    | inl err => Q t (inl err)
    | inr a => wlp (f a) (fun t' b => Q (t ++ t') b)
    end) -> wlp (try m f) Q.
Proof.
  intros H. apply wlp_bind. eapply wlp_mono, H. intros t [err|a]; simpl; [|done].
  intros HQ. unfold wlp. simpl. by rewrite app_nil_r.
Qed.

Lemma spec_wlp {A} (p : prog A) Q : spec p Q -> wlp p Q.
Proof. apply wp_mono. by intros t [a| |]. Qed.

Lemma every_mono {A} (P P' : Eff -> Prop) (p : prog A) :
  (forall e, P e -> P' e) -> every P p -> every P' p.
Proof. intros HP. induction p as [a| | |e k IH]; simpl; auto. intros [He Hk]. split; auto. Qed.

Lemma every_bind {A B} P (m : prog A) (f : A -> prog B) :
  every P m -> (forall a, every P (f a)) -> every P (bind m f).
Proof. induction m as [a| | |e k IH]; simpl; auto. intros [He Hk] Hf. split; auto. Qed.

Lemma every_try {A B} P (m : prog (result A)) (f : A -> prog (result B)) :
  every P m -> (forall a, every P (f a)) -> every P (try m f).
Proof. intros Hm Hf. apply every_bind; [done|]. intros [err|a]; [done|apply Hf]. Qed.

(** The same, with what is known of the first program's value. *)
Lemma every_bind_wlp {A B} P (R : A -> Prop) (m : prog A) (f : A -> prog B) :
  every P m -> wlp m (fun _ a => R a) -> (forall a, R a -> every P (f a)) -> every P (bind m f).
Proof.
  unfold wlp. induction m as [a| | |e k IH]; simpl; auto. intros [He Hk] HR Hf. split; auto.
Qed.

Lemma every_ret {A} P (a : A) : every P (Ret a).
Proof. done. Qed.

Lemma every_act P e : P e -> every P (act e).
Proof. done. Qed.

Lemma every_or_panic {A} P (o : option A) : every P (or_panic o).
Proof. by destruct o. Qed.

Lemma every_for_each {A} P (xs : list A) f :
  (forall x, x ∈ xs -> every P (f x)) -> every P (for_each xs f).
Proof.
  induction xs as [|x xs IH]; intros Hf; simpl; [done|]. apply every_try; [apply Hf; left|].
  intros _. apply IH. intros y Hy. apply Hf. by right.
Qed.

Lemma every_fold_each {A B} P (xs : list A) (b : B) f :
  (forall b x, x ∈ xs -> every P (f b x)) -> every P (fold_each xs b f).
Proof.
  revert b; induction xs as [|x xs IH]; intros b Hf; simpl; [done|].
  apply every_try; [apply Hf; left|]. intros b'. apply IH. intros b2 y Hy. apply Hf. by right.
Qed.

#[export] Hint Resolve every_ret every_act every_or_panic : go.

(** [every], on the traces. *)
Lemma every_trace {A} P (p : prog A) : every P p -> wp p (fun t _ => Forall (fun e => P (projT1 e)) t).
Proof.
  induction p as [a| | |e k IH]; simpl; try constructor. intros [He Hk] r.
  eapply wp_mono; [|by apply IH]. simpl. intros t _ Ht. by constructor.
Qed.

Lemma wp_conj {A} (p : prog A) Q1 Q2 : wp p Q1 -> wp p Q2 -> wp p (fun t o => Q1 t o /\ Q2 t o).
Proof.
  revert Q1 Q2; induction p as [a| | |e k IH]; intros Q1 Q2; simpl; auto.
Qed.

Lemma wlp_conj {A} (p : prog A) Q1 Q2 : wlp p Q1 -> wlp p Q2 -> wlp p (fun t a => Q1 t a /\ Q2 t a).
Proof. intros H1 H2. eapply wp_mono, wp_conj, H2; [|apply H1]. by intros t [a| |]. Qed.

(** Walk through a program: binds, early returns, loops, requests. *)
Ltac every_step :=
  match goal with
  | |- every _ (bind _ _) => apply every_bind; [|intros ?]
  | |- every _ (try _ _) => apply every_try; [|intros ?]
  | |- every _ (for_each _ _) => apply every_for_each; intros ? ?
  | |- every _ (fold_each _ _ _) => apply every_fold_each; intros ? ? ?
  | |- every _ (act _) => apply every_act
  | |- every _ (Ret _) => exact I
  | |- every _ (ok _) => exact I
  | |- every _ (fail _) => exact I
  | |- every _ Panic => exact I
  | |- every _ OutOfFuel => exact I
  | |- every _ (or_panic _) => apply every_or_panic
  | |- every _ (match ?x with _ => _ end) => destruct x
  | |- every _ (let _ := _ in _) => cbv zeta
  end.
Ltac every_walk := repeat (first [every_step | progress (cbv beta)]).

(** ** Runs in an environment *)

Lemma run_wp {W A} (env : Env W) (p : prog A) w Q o t w' :
  wp p Q -> run env p w = (o, t, w') -> Q t o.
Proof.
  revert Q w o t w'; induction p as [a| | |e k IH]; intros Q w o t w' H; simpl in *.
  1-3: by intros [= <- <- <-].
  destruct (env e w) as [r w1]. destruct (run env (k r) w1) as [[o2 t2] w2] eqn:E.
  intros [= <- <- <-]. by apply (IH r _ _ _ _ _ (H r)) in E.
Qed.

Lemma run_bind {W A B} (env : Env W) (m : prog A) (f : A -> prog B) w :
  run env (bind m f) w =
  let '(o, t, w1) := run env m w in
  match o with
  | Returns a => let '(o2, t2, w2) := run env (f a) w1 in (o2, t ++ t2, w2)
  | Panics => (Panics, t, w1)
  | Stuck => (Stuck, t, w1)
  end.
Proof.
  revert w; induction m as [a| | |e k IH]; intros w; simpl; [|done|done|].
  - by destruct (run env (f a) w) as [[? ?] ?].
  - destruct (env e w) as [r w1]. rewrite IH.
    destruct (run env (k r) w1) as [[[a| |] t] w2]; try done.
    by destruct (run env (f a) w2) as [[? ?] ?].
Qed.

(** A triple in an environment: from a state in [P] the program returns, and
    value and state satisfy [Q]. *)
Definition triple {W A} (env : Env W) (P : W -> Prop) (p : prog A) (Q : A -> W -> Prop) : Prop :=
  forall w, P w -> exists a t w', run env p w = (Returns a, t, w') /\ Q a w'.

Lemma triple_bind {W A B} (env : Env W) P (m : prog A) (f : A -> prog B) R Q :
  triple env P m R -> (forall a, triple env (R a) (f a) Q) -> triple env P (bind m f) Q.
Proof.
  intros Hm Hf w Hw. destruct (Hm w Hw) as (a & t & w1 & E1 & HR).
  destruct (Hf a w1 HR) as (b & t' & w2 & E2 & HQ). exists b, (t ++ t'), w2. split; [|done].
  by rewrite run_bind, E1, E2.
Qed.

Lemma triple_try {W A B} (env : Env W) P (m : prog (result A)) (f : A -> prog (result B)) R Q :
  triple env P m (fun r w => match r with inl err => Q (inl err) w | inr a => R a w end) ->
  (forall a, triple env (R a) (f a) Q) -> triple env P (try m f) Q.
Proof.
  intros Hm Hf. eapply triple_bind; [apply Hm|]. intros [err|a]; [|apply Hf].
  intros w HQ. by exists (inl err), [], w.
Qed.

Lemma triple_ret {W A} (env : Env W) (P : W -> Prop) (a : A) (Q : A -> W -> Prop) :
  (forall w, P w -> Q a w) -> triple env P (Ret a) Q.
Proof. intros H w Hw. exists a, [], w. auto. Qed.

Lemma triple_act {W} (env : Env W) (P : W -> Prop) e (Q : resp e -> W -> Prop) :
  (forall w, P w -> Q (env e w).1 (env e w).2) -> triple env P (act e) Q.
Proof.
  intros H w Hw. specialize (H w Hw). simpl. destruct (env e w) as [r w1] eqn:E.
  exists r, [ev e r], w1. done.
Qed.

Lemma triple_conseq {W A} (env : Env W) (P P' : W -> Prop) (p : prog A) (Q Q' : A -> W -> Prop) :
  (forall w, P' w -> P w) -> (forall a w, Q a w -> Q' a w) ->
  triple env P p Q -> triple env P' p Q'.
Proof. intros HP HQ H w Hw. destruct (H w (HP w Hw)) as (a & t & w' & E & Ha). exists a, t, w'. auto. Qed.
