(* ===== verification/Equiv.v ===== *)
(** * Equivalence of programs

    Two programs are equivalent when they make the same requests, whatever the
    answers, and end the same way. It is coarser than equality, because the
    continuations need only agree answer by answer; binds, loops, runs and the
    predicates of [Effects] respect it. *)

From S2P Require Import Prelude Effects.

Fixpoint equiv {A} (p q : prog A) : Prop :=
  match p, q with
  | Ret a, Ret b => a = b
  | Panic, Panic => True
  | OutOfFuel, OutOfFuel => True
  | Act e k, Act e' k' => exists H : e = e', forall r, equiv (k r) (k' (eq_rect e resp r e' H))
  | _, _ => False
  end.

Infix "≃" := equiv (at level 70).

Lemma equiv_act {A} e (k k' : resp e -> prog A) : (forall r, k r ≃ k' r) -> Act e k ≃ Act e k'.
Proof. intros H. by exists eq_refl. Qed.

(** Induction along two equivalent programs. *)
Lemma equiv_ind {A} (P : prog A -> prog A -> Prop) :
  (forall a, P (Ret a) (Ret a)) -> P Panic Panic -> P OutOfFuel OutOfFuel ->
  (forall e k k', (forall r, k r ≃ k' r) -> (forall r, P (k r) (k' r)) -> P (Act e k) (Act e k')) ->
  forall p q, p ≃ q -> P p q.
Proof.
  intros H1 H2 H3 H4 p. induction p as [a| | |e k IH]; intros [b| | |e' k'] H; try done.
  - simpl in H. by subst b.
  - destruct H as [Heq H]. destruct Heq. simpl in H. apply H4; auto.
Qed.

#[export] Instance equiv_equivalence {A} : Equivalence (equiv (A := A)).
Proof.
  split.
  - intros p. induction p; try done. by apply equiv_act.
  - intros p q H. pattern p, q. apply equiv_ind with (5 := H); try done. intros. by apply equiv_act.
  - intros p q r H. revert r. pattern p, q. apply equiv_ind with (5 := H); try done.
    intros e k k' _ IH [b| | |e' k''] Hr; try done.
    destruct Hr as [Heq Hr]. destruct Heq. simpl in Hr. apply equiv_act. auto.
Qed.

Arguments equiv : simpl never.

#[export] Instance bind_proper {A B} :
  Proper (equiv ==> pointwise_relation A equiv ==> equiv) (bind (A := A) (B := B)).
Proof.
  intros p q H f g Hfg. pattern p, q. apply equiv_ind with (5 := H); simpl; [apply Hfg|done..|].
  intros e k k' _ IH. by apply equiv_act.
Qed.

#[export] Instance try_proper {A B} :
  Proper (equiv ==> pointwise_relation A equiv ==> equiv) (try (A := A) (B := B)).
Proof. intros p q H f g Hfg. unfold try. rewrite H. apply bind_proper; [done|]. by intros [err|a]. Qed.

#[export] Instance for_each_proper {A} (xs : list A) :
  Proper (pointwise_relation A equiv ==> equiv) (for_each xs).
Proof.
  intros f g Hfg. induction xs as [|x xs IH]; simpl; [done|]. apply try_proper; [apply Hfg|]. by intros [].
Qed.

(** ** The laws of the monad *)

Lemma bind_ret_r {A} (p : prog A) : bind p Ret ≃ p.
Proof. induction p; simpl; try done. by apply equiv_act. Qed.

Lemma bind_assoc {A B C} (p : prog A) (f : A -> prog B) (g : B -> prog C) :
  bind (bind p f) g ≃ bind p (fun a => bind (f a) g).
Proof. induction p; simpl; try done. by apply equiv_act. Qed.

Lemma try_assoc {A B C} (p : prog (result A)) (f : A -> prog (result B)) (g : B -> prog (result C)) :
  try (try p f) g ≃ try p (fun a => try (f a) g).
Proof. unfold try. rewrite bind_assoc. apply bind_proper; [done|]. by intros [err|a]. Qed.

Lemma try_ok (p : prog (result unit)) : try p (fun _ => ok tt) ≃ p.
Proof.
  transitivity (bind p Ret); [|apply bind_ret_r].
  unfold try. apply bind_proper; [done|]. by intros [err|[]].
Qed.

Lemma for_each_app {A} (xs ys : list A) f :
  for_each (xs ++ ys) f ≃ try (for_each xs f) (fun _ => for_each ys f).
Proof.
  induction xs as [|x xs IH]; simpl; [done|]. rewrite try_assoc. apply try_proper; [done|].
  intros []. apply IH.
Qed.

(** ** What respects the equivalence *)

#[export] Instance run_proper {W A} (env : Env W) :
  Proper (equiv (A := A) ==> eq ==> eq) (run env).
Proof.
  intros p q H w _ <-. revert w. pattern p, q. apply equiv_ind with (5 := H); simpl; try done.
  intros e k k' _ IH w. destruct (env e w) as [r w1]. by rewrite IH.
Qed.

#[export] Instance wp_proper {A} :
  Proper (equiv (A := A) ==> pointwise_relation _ (pointwise_relation _ iff) ==> iff) wp.
Proof.
  intros p q H. pattern p, q. apply equiv_ind with (5 := H); simpl;
    [intros a Q Q' HQ; apply HQ|intros Q Q' HQ; apply HQ|intros Q Q' HQ; apply HQ|].
  intros e k k' _ IH Q Q' HQ. split; intros Hk r; (eapply IH; [|apply Hk]); intros t o;
    first [exact (HQ (ev e r :: t) o)|exact (iff_sym (HQ (ev e r :: t) o))].
Qed.

#[export] Instance every_proper {A} (P : Eff -> Prop) : Proper (equiv (A := A) ==> iff) (every P).
Proof.
  intros p q H. pattern p, q. apply equiv_ind with (5 := H); simpl; try done.
  intros e k k' _ IH. split; (intros [He Hk]; split; [done|]; intros r; by apply IH).
Qed.
