(* ===== verification/Repair.v ===== *)
(** * Check, and repair what fails

    The loops of the handlers have one shape: for each server a check, and where
    it fails a repair. If a server that passes the check is good, a good one
    passes, the repair makes it good and neither spoils another, then one round
    makes all good, and the next only checks. The second part says that what no
    request of a program spoils, the program does not spoil. *)

From S2P Require Import Prelude GoStd Effects.

Section repair.
  Context {W X : Type} (env : Env W) (check repair : X -> prog (result unit)).
  (** The servers that can be reached, when one is good, and the requests that
      are harmless. *)
  Context (up : X -> Prop) (good : W -> X -> Prop) (harmless : Eff -> Prop).

Definition repair_loop (xs : list X) : prog (result unit) :=
  for_each xs (fun x =>
    let* checked := check x in
    match checked with
    | inl _ => repair x
    | inr _ => ok tt
    end).

(** Whoever was good still is. *)
Definition spares (w w' : W) : Prop := forall y, up y -> good w y -> good w' y.

(** A check that tells at its beginning tells at its end, if it spares. *)
Lemma tells_at_once x w :
  up x ->
  (exists r t w', run env (check x) w = (Returns r, t, w') /\ (r = inr tt <-> good w x) /\ spares w w') ->
  exists r t w', run env (check x) w = (Returns r, t, w') /\ (r = inr tt -> good w' x) /\
    (good w x -> r = inr tt) /\ spares w w'.
Proof.
  intros Hx (r & t & w' & E & Hr & Hs). exists r, t, w'. split_and!; [done| |apply Hr|done].
  intros H. by apply Hs, Hr.
Qed.

Context (check_tells : forall x w, up x -> exists r t w',
  run env (check x) w = (Returns r, t, w') /\ (r = inr tt -> good w' x) /\
    (good w x -> r = inr tt) /\ spares w w').
Context (check_harmless : forall x, every harmless (check x)).
Context (repair_works : forall x w, up x -> exists t w',
  run env (repair x) w = (Returns (inr tt), t, w') /\ good w' x /\ spares w w').

Lemma repair_loop_run xs w :
  (forall x, x ∈ xs -> up x) ->
  exists t w', run env (repair_loop xs) w = (Returns (inr tt), t, w') /\
    (forall x, x ∈ xs -> good w' x) /\ spares w w'.
Proof.
  intros Hup. revert w; induction xs as [|x xs IH]; intros w.
  { eexists _, w. split; [reflexivity|]. split; [by intros x ?%elem_of_nil|by intros y]. }
  pose proof (Hup x ltac:(left)) as Hx.
  assert (exists t w1, run env (let* checked := check x in
      match checked with inl _ => repair x | inr _ => ok tt end) w = (Returns (inr tt), t, w1) /\
      good w1 x /\ spares w w1) as (t1 & w1 & E1 & Hg1 & Hs1).
  { destruct (check_tells x w Hx) as (r & t & w1 & E & Hr & _ & Hs). rewrite run_bind, E.
    destruct r as [err|[]].
    - destruct (repair_works x w1 Hx) as (t2 & w2 & -> & Hg2 & Hs2).
      eexists _, w2. split; [reflexivity|]. split; [done|]. intros y Hy Hg. by apply Hs2, Hs.
    - eexists _, w1. split; [reflexivity|]. split; [by apply Hr|done]. }
  destruct (IH ltac:(intros y H; apply Hup; by right) w1) as (t2 & w2 & E2 & Hg2 & Hs2).
  unfold repair_loop in *. cbn [for_each]. unfold try at 1. rewrite run_bind, E1, E2.
  eexists _, w2. split; [reflexivity|]. split; [|intros y Hy Hg; by apply Hs2, Hs1].
  intros y [->|H]%elem_of_cons; [by apply Hs2|by apply Hg2].
Qed.

Lemma repair_loop_quiet xs w :
  (forall x, x ∈ xs -> up x /\ good w x) ->
  exists t w', run env (repair_loop xs) w = (Returns (inr tt), t, w') /\
    Forall (fun e => harmless (projT1 e)) t.
Proof.
  revert w; induction xs as [|x xs IH]; intros w Hxs.
  { by eexists _, w. }
  destruct (Hxs x ltac:(left)) as [Hx Hg].
  destruct (check_tells x w Hx) as (r & t & w1 & E & _ & Hr & Hs). apply Hr in Hg as ->.
  pose proof (run_wp _ _ _ _ _ _ _ (every_trace _ _ (check_harmless x)) E) as Ht.
  destruct (IH w1) as (t2 & w2 & E2 & Ht2).
  { intros y Hy. destruct (Hxs y ltac:(by right)). split; [done|by apply Hs]. }
  unfold repair_loop in *. cbn [for_each]. unfold try at 1. rewrite !run_bind, E. cbn [ok run].
  rewrite E2. eexists _, w2. split; [reflexivity|]. by rewrite app_nil_r, Forall_app.
Qed.

(** A handler's step: the servers it finds are all good afterwards, and to look
    after them again is harmless. *)
Definition repairs (find : prog (result (list X))) (p : prog (result unit)) : Prop :=
  forall w xs t w1,
    run env find w = (Returns (inr xs), t, w1) -> (forall x, x ∈ xs -> up x) ->
    exists t2 w2, run env p w = (Returns (inr tt), t2, w2) /\
      (forall x, x ∈ xs -> good w2 x) /\
      exists t3 w3, run env (repair_loop xs) w2 = (Returns (inr tt), t3, w3) /\
        Forall (fun e => harmless (projT1 e)) t3.

Lemma repairs_found find : repairs find (try find repair_loop).
Proof.
  intros w xs t w1 E Hup. destruct (repair_loop_run xs w1 Hup) as (t2 & w2 & E2 & Hg & _).
  exists (t ++ t2), w2. unfold try. rewrite run_bind, E, E2. split; [done|]. split; [done|].
  apply repair_loop_quiet. intros x Hx. split; [by apply Hup|by apply Hg].
Qed.
End repair.

(** ** What a program leaves alone *)

Section keeps.
  Context {W : Type} (env : Env W) (I : W -> Prop) (R : Eff -> Prop).
  Context (Hkeep : forall e w, R e -> I w -> I (env e w).2).

Lemma run_keeps {A} (p : prog A) w : every R p -> I w -> I (run env p w).2.
Proof.
  revert w; induction p as [a| | |e k IH]; intros w; simpl; try done. intros [He Hk] Hw.
  specialize (Hkeep e w He Hw). destruct (env e w) as [r w1]. specialize (IH r w1 (Hk r) Hkeep).
  by destruct (run env (k r) w1) as [[o t] w2].
Qed.

Lemma triple_keeps {A} P (p : prog A) Q :
  every R p -> triple env P p Q ->
  triple env (fun w => P w /\ I w) p (fun a w => Q a w /\ I w).
Proof.
  intros Hp H w [Hw Hi]. destruct (H w Hw) as (a & t & w' & E & HQ). exists a, t, w'.
  split; [done|]. split; [done|]. pose proof (run_keeps p w Hp Hi) as Hk. by rewrite E in Hk.
Qed.

Lemma trace_keeps {A} (p : prog A) w o t w' :
  run env p w = (o, t, w') -> Forall (fun e => R (projT1 e)) t -> I w -> I w'.
Proof.
  revert w o t w'; induction p as [a| | |e k IH]; intros w o t w'; simpl; try by intros [= <- <- <-].
  destruct (env e w) as [r w1] eqn:E. destruct (run env (k r) w1) as [[o2 t2] w2] eqn:E2.
  intros [= <- <- <-] [He Ht]%Forall_cons Hw. apply (IH _ _ _ _ _ E2 Ht).
  pose proof (Hkeep e w He Hw) as H. by rewrite E in H.
Qed.

(** A request whose answer is known. *)
Lemma triple_answered {A} e r (k : resp e -> prog A) Q :
  R e -> (forall w, (env e w).1 = r) -> triple env I (k r) Q -> triple env I (Act e k) Q.
Proof.
  intros He Hr Hk w Hw. pose proof (Hr w) as Hr'. pose proof (Hkeep e w He Hw) as Hw'. simpl.
  destruct (env e w) as [r' w1]. simpl in *. subst r'.
  destruct (Hk w1 Hw') as (a & t & w2 & E & HQ). rewrite E. by eexists _, _, _.
Qed.

(** A step that always succeeds and keeps the invariant, and what follows. *)
Lemma triple_step {A} (p : prog (result unit)) (f : prog (result A)) Q :
  every R p -> triple env (fun _ => True) p (fun r _ => r = inr tt) ->
  triple env I f Q -> triple env I (try p (fun _ => f)) Q.
Proof.
  intros Hp H Hf. eapply (triple_try _ _ _ _ (fun _ => I)); [|done].
  eapply triple_conseq, (triple_keeps _ _ _ Hp H); [by intros w Hw|]. by intros r w [-> Hw].
Qed.
End keeps.

(** A loop all of whose turns succeed. *)
Lemma for_each_succeeds {W X} (env : Env W) (xs : list X) f :
  (forall x, x ∈ xs -> triple env (fun _ => True) (f x) (fun r _ => r = inr tt)) ->
  triple env (fun _ => True) (for_each xs f) (fun r _ => r = inr tt).
Proof.
  induction xs as [|x xs IH]; intros Hf; [by apply triple_ret|]. cbn [for_each].
  eapply (triple_try _ _ _ _ (fun _ _ => True)).
  - eapply triple_conseq, (Hf x ltac:(left)); [done|]. by intros r w ->.
  - intros _. apply IH. intros y Hy. apply Hf. by right.
Qed.
