(* ===== verification/K8s.v ===== *)
(** * The Kubernetes clients ([pkg/client/k8s])

    Each file of the package wraps [client.Client] for one kind of object with
    the same code; the operations are written once, for any kind, and named
    per kind below as the interfaces name them. The two operations on the
    custom resources of each kind, and the event recorder, follow. *)

From S2P Require Import Prelude GoStd Corev1 Api Status Effects.

(** ** The operations, for any kind *)

Section operations.
  Context (k : kind) (set_rv : string -> object k -> object k).

Definition get (namespace name : string) : prog (result (object k)) :=
  act (Get k namespace name).

Definition create (namespace : string) (o : object k) : prog (result unit) :=
  act (Create k o).

Definition update (namespace : string) (o : object k) : prog (result unit) :=
  let? _ := act (Update k o) in ok tt.

Definition createIfNotExists (namespace : string) (o : object k) : prog (result unit) :=
  let* r := get namespace (Name (object_meta k o)) in
  match r with
  | inl err => if IsNotFound err then create namespace o else fail err
  | inr _ => ok tt
  end.

(** The stored object's version is copied into the new one. *)
Definition createOrUpdate (namespace : string) (o : object k) : prog (result unit) :=
  let* r := get namespace (Name (object_meta k o)) in
  match r with
  | inl err => if IsNotFound err then create namespace o else fail err
  | inr stored => update namespace (set_rv (ResourceVersion (object_meta k stored)) o)
  end.

Definition delete_ (namespace name : string) : prog (result unit) :=
  let? o := act (Get k namespace name) in
  act (Delete k o).

Definition list_ (namespace : string) : prog (result (list (object k))) :=
  act (List k namespace ∅).

End operations.

(** The pods a workload selects: a nil selector is dereferenced. *)
Definition listSelected (namespace : string) (selector : option StringMap)
    : prog (result (list Pod)) :=
  let* labelSet := or_panic selector in
  act (List KPod namespace labelSet).

(** ** Per kind *)

Definition set_cm_rv (rv : string) (c : ConfigMap) : ConfigMap :=
  mkConfigMap (set_ResourceVersion rv (cm_meta c)) (cm_Data c).
Definition set_svc_rv (rv : string) (s : Service) : Service :=
  mkService (set_ResourceVersion rv (svc_meta s)) (svc_Type s) (svc_ClusterIP s) (svc_Ports s)
    (svc_Selector s).
Definition set_ss_rv (rv : string) (s : StatefulSet) : StatefulSet :=
  mkStatefulSet (set_ResourceVersion rv (ss_meta s)) (ss_ServiceName s) (ss_Replicas s)
    (ss_UpdateStrategy s) (ss_Selector s) (ss_Template s) (ss_VolumeClaimTemplates s)
    (ss_ReadyReplicas s).
Definition set_pdb_rv (rv : string) (p : PodDisruptionBudget) : PodDisruptionBudget :=
  mkPDB (set_ResourceVersion rv (pdb_meta p)) (pdb_MinAvailable p) (pdb_Selector p).
Definition set_pod_rv (rv : string) (p : Pod) : Pod :=
  mkPod (set_ResourceVersion rv (pod_meta p)) (pod_Phase p) (pod_PodIP p) (pod_StartTime p).
Definition set_dp_rv (rv : string) (d : Deployment) : Deployment :=
  mkDeployment (set_ResourceVersion rv (dp_meta d)) (dp_Selector d).

Definition GetConfigMap := get KConfigMap.
Definition CreateConfigMap := create KConfigMap.
Definition UpdateConfigMap := update KConfigMap.
Definition CreateIfNotExistsConfigMap := createIfNotExists KConfigMap.
Definition CreateOrUpdateConfigMap := createOrUpdate KConfigMap set_cm_rv.
Definition DeleteConfigMap := delete_ KConfigMap.
Definition ListConfigMaps := list_ KConfigMap.

Definition GetService := get KService.
Definition CreateService := create KService.
Definition UpdateService := update KService.
Definition CreateIfNotExistsService := createIfNotExists KService.
Definition CreateOrUpdateService := createOrUpdate KService set_svc_rv.
Definition DeleteService := delete_ KService.
Definition ListServices := list_ KService.

Definition GetStatefulSet := get KStatefulSet.
Definition CreateStatefulSet := create KStatefulSet.
Definition UpdateStatefulSet := update KStatefulSet.
Definition CreateIfNotExistsStatefulSet := createIfNotExists KStatefulSet.
Definition CreateOrUpdateStatefulSet := createOrUpdate KStatefulSet set_ss_rv.
Definition DeleteStatefulSet := delete_ KStatefulSet.
Definition ListStatefulSets := list_ KStatefulSet.
Definition GetStatefulSetPods (namespace name : string) : prog (result (list Pod)) :=
  let? statefulSet := GetStatefulSet namespace name in
  listSelected namespace (ss_Selector statefulSet).

Definition GetPodDisruptionBudget := get KPodDisruptionBudget.
Definition CreatePodDisruptionBudget := create KPodDisruptionBudget.
Definition UpdatePodDisruptionBudget := update KPodDisruptionBudget.
Definition CreateIfNotExistsPodDisruptionBudget := createIfNotExists KPodDisruptionBudget.
Definition CreateOrUpdatePodDisruptionBudget := createOrUpdate KPodDisruptionBudget set_pdb_rv.
Definition DeletePodDisruptionBudget := delete_ KPodDisruptionBudget.

Definition GetPod := get KPod.
Definition CreatePod := create KPod.
Definition UpdatePod := update KPod.
Definition CreateOrUpdatePod := createOrUpdate KPod set_pod_rv.
Definition DeletePod := delete_ KPod.
Definition ListPods := list_ KPod.

Definition GetDeployment := get KDeployment.
Definition CreateDeployment := create KDeployment.
Definition UpdateDeployment := update KDeployment.
Definition CreateOrUpdateDeployment := createOrUpdate KDeployment set_dp_rv.
Definition DeleteDeployment := delete_ KDeployment.
Definition ListDeployments := list_ KDeployment.
Definition GetDeploymentPods (namespace name : string) : prog (result (list Pod)) :=
  let? deployment := GetDeployment namespace name in
  listSelected namespace (dp_Selector deployment).

Definition GetNameSpace (namespace : string) : prog (result NamespaceObj) :=
  act (Get KNamespace namespace namespace).

(** ** The custom resources ([redis_cluster.go], [redis_standalone.go])

    Both methods work in place: the object is sorted before it is sent and
    overwritten by the server's answer. They return the object as they leave
    it together with the error. *)

Section custom_resources.
  Context (k : kind) {S : Type} (inj : CustomResource S -> object k)
    (proj : object k -> CustomResource S).

Definition updateStatus_ (namespace : string) (cluster : CustomResource S)
    : prog (CustomResource S * option error) :=
  let* seed := act Seed in
  let cluster := set_Status (DescConditionsByTime seed (Status cluster)) cluster in
  let* r := act (StatusUpdate k (inj cluster)) in
  match r with
  | inl err => Ret (cluster, Some err)
  | inr stored => Ret (proj stored, None)
  end.

Definition updateSpec_ (namespace : string) (cluster : CustomResource S)
    : prog (CustomResource S * option error) :=
  let* r := act (Update k (inj cluster)) in
  match r with
  | inl err => Ret (cluster, Some err)
  | inr stored => Ret (proj stored, None)
  end.

End custom_resources.

Definition UpdateSentinelStatus : string -> RedisSentinel -> prog (RedisSentinel * option error) :=
  updateStatus_ KRedisSentinel (fun o => o) (fun o => o).
Definition UpdateSentinelSpec : string -> RedisSentinel -> prog (RedisSentinel * option error) :=
  updateSpec_ KRedisSentinel (fun o => o) (fun o => o).
Definition UpdateStandaloneStatus
    : string -> RedisStandalone -> prog (RedisStandalone * option error) :=
  updateStatus_ KRedisStandalone (fun o => o) (fun o => o).
Definition UpdateStandaloneSpec
    : string -> RedisStandalone -> prog (RedisStandalone * option error) :=
  updateSpec_ KRedisStandalone (fun o => o) (fun o => o).

(** The client of [redis_standalone.go], which has the same two operations; the
    handler gets those of [redis_cluster.go], which the set of clients embeds. *)
Module StandaloneOption.
Definition UpdateStandaloneStatus
    : string -> RedisStandalone -> prog (RedisStandalone * option error) :=
  updateStatus_ KRedisStandalone (fun o => o) (fun o => o).
Definition UpdateStandaloneSpec
    : string -> RedisStandalone -> prog (RedisStandalone * option error) :=
  updateSpec_ KRedisStandalone (fun o => o) (fun o => o).
End StandaloneOption.

(** ** Events ([event.go]) *)

Module Event.
Section event.
  Context (k : kind) (m : ObjectMeta).

Definition record (eventtype reason message : string) : prog unit :=
  act (RecordEvent k (Namespace m) (Name m) eventtype reason message).

Definition NewSlaveAdd (message : string) := record "Normal" ClusterConditionScaling message.
Definition SlaveRemove (message : string) := record "Normal" ClusterConditionScalingDown message.
Definition CreateCluster := record "Normal" ClusterConditionCreating "Bootstrap redis cluster".
Definition UpdateSentinelStatus (message : string) :=
  record "Normal" ClusterConditionUpdating message.
Definition UpgradedCluster (message : string) := record "Normal" ClusterConditionUpgrading message.
Definition EnsureCluster := record "Normal" "Ensure" "Makes sure of redis cluster ready".
Definition CheckCluster :=
  record "Normal" "CheckAndHeal" "Check and heal the redis cluster problems".
Definition FailedCluster (message : string) := record "Warning" ClusterConditionFailed message.
Definition HealthCluster := record "Normal" ClusterConditionHealthy "Redis cluster is healthy".

End event.
End Event.

(** ** The metrics ([pkg/metrics/metrics.go]): one gauge, labelled by
    namespace and name *)

Module Metrics.

Definition SetClusterOK (namespace name : string) : prog unit := act (SetGauge namespace name 1).
Definition SetClusterError (namespace name : string) : prog unit := act (SetGauge namespace name 0).
Definition DeleteCluster (namespace name : string) : prog unit := act (DeleteGauge namespace name).

End Metrics.
