(* ===== verification/SentinelGen.v ===== *)
(** * The objects of a sentinel cluster ([controllers/redissentinel/service/generator.go])

    Each [generate] function builds one Kubernetes object from the custom
    resource, the labels and the owner references. All are pure but
    [generateRedisStatefulSet], which also writes the owner references into the
    resource's volume claim: it returns the resource as it leaves it. *)

From S2P Require Import Prelude GoStd Corev1 Api Util Common Names.

Definition generateSelectorLabels (component name : string) : StringMap :=
  <["app.kubernetes.io/part-of" := AppLabel]>
  (<["app.kubernetes.io/component" := component]>
  {[ "app.kubernetes.io/name" := name ]}).

Definition ClusterIPNone : string := "None".

(** ** Services *)

Definition generateSentinelService (rc : RedisSentinel) (labels : StringMap)
    (ownerRefs : list OwnerReference) : Service :=
  let name := Sentinel.GetSentinelName rc in
  let labels := MergeLabels [labels; generateSelectorLabels SentinelRoleName (Name (meta rc))] in
  mkService (newMeta name (Namespace (meta rc)) labels ownerRefs) "" ""
    [mkServicePort "sentinel" 26379 (Some 26379) "TCP"] labels.

Definition generateRedisService (rc : RedisSentinel) (labels : StringMap)
    (ownerRefs : list OwnerReference) : Service :=
  let name := Sentinel.GetRedisName rc in
  let labels := MergeLabels [labels; generateSelectorLabels RedisRoleName (Name (meta rc))] in
  mkService (newMeta name (Namespace (meta rc)) labels ownerRefs) "ClusterIP" ClusterIPNone
    [mkServicePort "redis" 6379 (Some 6379) "TCP"] labels.

Definition generateRedisMonitorService (rc : RedisSentinel) (labels : StringMap)
    (ownerRefs : list OwnerReference) : Service :=
  let name := Sentinel.GetRedisName rc ^^ "-monitor" in
  let labels := MergeLabels [labels; generateSelectorLabels RedisRoleName (Name (meta rc))] in
  let monitorLabels := MergeLabels [labels; {[ UseLabelKey := MonitorLabelValue ]}] in
  mkService (newMeta name (Namespace (meta rc)) monitorLabels ownerRefs) "ClusterIP" ""
    [mkServicePort "prometheus" ExporterPort (Some ExporterPort) "TCP"] labels.

Definition newHeadLessSvcForCR (cluster : RedisSentinel) (labels : StringMap)
    (ownerRefs : list OwnerReference) : Service :=
  let labels := MergeLabels [labels; generateSelectorLabels SentinelRoleName (Name (meta cluster))] in
  mkService (newMeta (Sentinel.GetSentinelHeadlessSvc cluster) (Namespace (meta cluster)) labels ownerRefs)
    "" ClusterIPNone [mkServicePort "sentinel" 26379 None ""] labels.

(** ** ConfigMaps *)

Definition generateSentinelConfigMap (rc : RedisSentinel) (labels : StringMap)
    (ownerRefs : list OwnerReference) : ConfigMap :=
  let labels := MergeLabels [labels; generateSelectorLabels SentinelRoleName (Name (meta rc))] in
  let content := lines [
    "sentinel monitor mymaster 127.0.0.1 6379 2";
    "sentinel down-after-milliseconds mymaster 1000";
    "sentinel failover-timeout mymaster 3000";
    "sentinel parallel-syncs mymaster 2"] in
  let password := Password (redis (Spec rc)) in
  let content :=
    if negb (password =? "")%string
    then content ^^ newline ^^ "sentinel auth-pass mymaster " ^^ password ^^ newline
    else content in
  mkConfigMap (newMeta (Sentinel.GetSentinelName rc) (Namespace (meta rc)) labels ownerRefs)
    {[ SentinelConfigFileName := content ]}.

Definition generateRedisConfigMap (rc : RedisSentinel) (labels : StringMap)
    (ownerRefs : list OwnerReference) : ConfigMap :=
  let labels := MergeLabels [labels; generateSelectorLabels RedisRoleName (Name (meta rc))] in
  let content := lines [
    "slaveof 127.0.0.1 6379"; "tcp-keepalive 60"; "save 900 1"; "save 300 10"] in
  let password := Password (redis (Spec rc)) in
  let content :=
    if negb (password =? "")%string
    then content ^^ newline ^^ "requirepass " ^^ password ^^ newline ^^ "masterauth " ^^ password ^^ newline
    else content in
  mkConfigMap (newMeta (Sentinel.GetRedisName rc) (Namespace (meta rc)) labels ownerRefs)
    {[ RedisConfigFileName := content ]}.

(** The environment variables the script reads. *)
Definition envSentinelHost (rc : RedisSentinel) : string :=
  "REDIS_SENTINEL_" ^^ ToUpper (Name (meta rc)) ^^ "_SERVICE_HOST".
Definition envSentinelPort (rc : RedisSentinel) : string :=
  "REDIS_SENTINEL_" ^^ ToUpper (Name (meta rc)) ^^ "_SERVICE_PORT_SENTINEL".

Definition shutdown_script (envSentinelHost envSentinelPort : string) : string := lines [
  "#!/usr/bin/env sh";
  "master=" ^^ dquote ^^ dquote;
  "response_code=" ^^ dquote ^^ dquote;
  "while [ " ^^ dquote ^^ "$master" ^^ dquote ^^ " = " ^^ dquote ^^ dquote ^^ " ]; do";
  tab ^^ "echo " ^^ dquote ^^ "Asking sentinel who is master..." ^^ dquote;
  tab ^^ "master=$(redis-cli -h ${" ^^ envSentinelHost ^^ "} -p ${" ^^ envSentinelPort ^^ "} --csv SENTINEL get-master-addr-by-name mymaster | tr ',' ' ' | tr -d '\" ^^ dquote ^^ "' |cut -d' ' -f1)";
  tab ^^ "sleep 1";
  "done";
  "echo " ^^ dquote ^^ "Master is $master, doing redis save..." ^^ dquote;
  "redis-cli SAVE";
  "if [ $master = $(hostname -i) ]; then";
  tab ^^ "while [ ! " ^^ dquote ^^ "$response_code" ^^ dquote ^^ " = " ^^ dquote ^^ "OK" ^^ dquote ^^ " ]; do";
  "  " ^^ tab ^^ tab ^^ "response_code=$(redis-cli -h ${" ^^ envSentinelHost ^^ "} -p ${" ^^ envSentinelPort ^^ "} SENTINEL failover mymaster)";
  tab ^^ tab ^^ "echo " ^^ dquote ^^ "after failover with code $response_code" ^^ dquote;
  tab ^^ tab ^^ "sleep 1";
  tab ^^ "done";
  "fi"].

Definition generateRedisShutdownConfigMap (rc : RedisSentinel) (labels : StringMap)
    (ownerRefs : list OwnerReference) : ConfigMap :=
  let name := Sentinel.GetRedisShutdownConfigMapName rc in
  let labels := MergeLabels [labels; generateSelectorLabels RedisRoleName (Name (meta rc))] in
  let shutdownContent := shutdown_script (envSentinelHost rc) (envSentinelPort rc) in
  mkConfigMap (newMeta name (Namespace (meta rc)) labels ownerRefs)
    {[ "shutdown.sh" := shutdownContent ]}.

Definition readiness_script : string := lines [
  "#!/usr/bin/env sh";
  "set -eou pipefail";
  "redis-cli -h $(hostname) -p 26379 ping";
  "slaves=$(redis-cli -h $(hostname) -p 26379 info sentinel|grep master0| grep -Eo 'slaves=[0-9]+' | awk -F= '{print $2}')";
  "status=$(redis-cli -h $(hostname) -p 26379 info sentinel|grep master0| grep -Eo 'status=\w+' | awk -F= '{print $2}')";
  "if [ " ^^ dquote ^^ "$status" ^^ dquote ^^ " != " ^^ dquote ^^ "ok" ^^ dquote ^^ " ]; then ";
  "    exit 1";
  "fi";
  "if [ $slaves -le 1 ]; then";
  tab ^^ "exit 1";
  "fi";
  ""].

Definition generateSentinelReadinessProbeConfigMap (rc : RedisSentinel) (labels : StringMap)
    (ownerRefs : list OwnerReference) : ConfigMap :=
  let name := Sentinel.GetSentinelReadinessCm rc in
  let labels := MergeLabels [labels; generateSelectorLabels RedisRoleName (Name (meta rc))] in
  mkConfigMap (newMeta name (Namespace (meta rc)) labels ownerRefs)
    {[ "readiness.sh" := readiness_script ]}.

(** ** Parts of the pods *)

Definition getSecurityContext (secctx : option PodSecurityContext) : option PodSecurityContext :=
  match secctx with
  | Some s => Some s
  | None => None
  end.

(** [int32] division truncates toward zero and the sum wraps around. *)
Definition getQuorum (rc : RedisSentinel) : Z :=
  int32 (Z.quot (Replicas (Sentinel (Spec rc))) 2 + 1).

Definition getRedisDataVolumeName (rc : RedisSentinel) : string :=
  let storage := Storage (redis (Spec rc)) in
  match PVC storage, EmptyDir storage with
  | Some p, _ => Name (pvc_meta p)
  | None, Some _ => RedisStorageVolumeName
  | None, None => RedisStorageVolumeName
  end.

Definition getRedisVolumeMounts (rc : RedisSentinel) : list VolumeMount := [
  mkVolumeMount RedisShutdownConfigurationVolumeName "/redis-shutdown";
  mkVolumeMount (getRedisDataVolumeName rc) "/data"].

Definition getRedisDataVolume (rc : RedisSentinel) : option Volume :=
  let storage := Storage (redis (Spec rc)) in
  match PVC storage, EmptyDir storage with
  | Some _, _ => None
  | None, Some e => Some (mkVolume RedisStorageVolumeName (VolEmptyDir e))
  | None, None => Some (mkVolume RedisStorageVolumeName (VolEmptyDir (mkEmptyDir "" None)))
  end.

(** The mode is octal 0744. *)
Definition getRedisVolumes (rc : RedisSentinel) : list Volume :=
  let volumes := [mkVolume RedisShutdownConfigurationVolumeName
    (VolConfigMap (Sentinel.GetRedisShutdownConfigMapName rc) (Some 484))] in
  match getRedisDataVolume rc with
  | Some dataVolume => volumes ++ [dataVolume]
  | None => volumes
  end.

Definition getRedisCommand (rc : RedisSentinel) : list string :=
  let spec := redis (Spec rc) in
  match Command spec with
  | _ :: _ => Command spec
  | [] =>
      let cmds := ["redis-server"; "--slaveof 127.0.0.1 6379"; "--tcp-keepalive 60";
                   "--save 900 1"; "--save 300 10"] in
      if negb (Password spec =? "")%string
      then cmds ++ ["--requirepass '" ^^ Password spec ^^ "'"; "--masterauth '" ^^ Password spec ^^ "'"]
      else cmds
  end.

Definition getSentinelCommand (rc : RedisSentinel) : list string :=
  match sen_Command (Sentinel (Spec rc)) with
  | _ :: _ => sen_Command (Sentinel (Spec rc))
  | [] => ["redis-server"; "/redis/" ^^ SentinelConfigFileName; "--sentinel"]
  end.

Definition getAffinity (affinity : option Affinity) (labels : StringMap) : option Affinity :=
  match affinity with
  | Some a => Some a
  | None => Some (mkAffinity "" [mkWeightedTerm 100 HostnameTopologyKey labels])
  end.

Definition pullPolicy (specPolicy : string) : string :=
  if (specPolicy =? "")%string then PullAlways else specPolicy.

Definition createRedisExporterContainer (rc : RedisSentinel) : Container :=
  let spec := redis (Spec rc) in
  let env := [mkEnvVar "REDIS_ALIAS" "" (Some "metadata.name")] in
  let env := if negb (Password spec =? "")%string
             then env ++ [mkEnvVar RedisPasswordEnv (Password spec) None] else env in
  mkContainer ExporterContainerName (ex_Image (Exporter spec))
    (pullPolicy (ex_ImagePullPolicy (Exporter spec))) [] env
    [mkContainerPort ExporterPortName ExporterPort "TCP"] [] None None
    (mkResourceRequirements
       (<["cpu" := ExporterDefaultLimitCPU]> {[ "memory" := ExporterDefaultLimitMemory ]})
       (<["cpu" := ExporterDefaultRequestCPU]> {[ "memory" := ExporterDefaultRequestMemory ]}))
    None.

(** ** Workloads *)

Definition redis_probe (password : string) : Probe :=
  let probeArg := "redis-cli -h $(hostname)" in
  let probeArg := if negb (password =? "")%string
                  then probeArg ^^ " -a '" ^^ password ^^ "' ping" else probeArg ^^ " ping" in
  mkProbe GraceTime 5 0 0 ["sh"; "-c"; probeArg].

(** [rc.Spec.Storage.PersistentVolumeClaim.OwnerReferences = ownerRefs], when
    there is a claim and it is not kept. *)
Definition set_claim_owner (ownerRefs : list OwnerReference) (storage : RedisStorage) : RedisStorage :=
  match PVC storage with
  | Some p =>
      if negb (KeepAfterDeletion storage)
      then mkStorage (KeepAfterDeletion storage) (EmptyDir storage)
             (Some (mkPVC (set_OwnerReferences ownerRefs (pvc_meta p)) (pvc_Spec p)))
      else storage
  | None => storage
  end.

Definition generateRedisStatefulSet (rc : RedisSentinel) (labels : StringMap)
    (ownerRefs : list OwnerReference) : StatefulSet * RedisSentinel :=
  let name := Sentinel.GetRedisName rc in
  let spec := redis (Spec rc) in
  let labels := MergeLabels [labels; generateSelectorLabels RedisRoleName (Name (meta rc))] in
  let probe := redis_probe (Password spec) in
  let redis_container :=
    mkContainer "redis" (Image spec) (pullPolicy (ImagePullPolicy spec)) (getRedisCommand rc) []
      [mkContainerPort "redis" 6379 "TCP"] (getRedisVolumeMounts rc) (Some probe) (Some probe)
      (Resources spec) (Some ["/bin/sh"; "/redis-shutdown/shutdown.sh"]) in
  let storage := set_claim_owner ownerRefs (Storage spec) in
  let rc' := set_Spec (mkSentinelSpec (set_Storage storage spec) (Sentinel (Spec rc))) rc in
  let claims := match PVC storage with Some p => [p] | None => [] end in
  let containers := if Enabled (Exporter spec)
                    then [redis_container; createRedisExporterContainer rc] else [redis_container] in
  (mkStatefulSet (newMeta name (Namespace (meta rc)) labels ownerRefs) name (Some (Size spec))
     "RollingUpdate" (Some labels)
     (mkPodTemplate labels (spec_Annotations spec)
        (mkPodSpec (getAffinity (Affinity_ spec) labels) (ToleRations spec) (NodeSelector spec)
           (getSecurityContext (SecurityContext spec)) (ImagePullSecrets spec) [] containers
           (getRedisVolumes rc)))
     claims 0, rc').

Definition copy_resources : ResourceList := <["cpu" := "10m"]> {[ "memory" := "32Mi" ]}.

Definition generateSentinelStatefulSet (rc : RedisSentinel) (labels : StringMap)
    (ownerRefs : list OwnerReference) : StatefulSet :=
  let name := Sentinel.GetSentinelName rc in
  let configMapName := Sentinel.GetSentinelName rc in
  let spec := Sentinel (Spec rc) in
  let labels := MergeLabels [labels; generateSelectorLabels SentinelRoleName (Name (meta rc))] in
  let copy :=
    mkContainer "sentinel-config-copy" (sen_Image spec) (pullPolicy (sen_ImagePullPolicy spec))
      ["cp"; "/redis/" ^^ SentinelConfigFileName; "/redis-writable/" ^^ SentinelConfigFileName] [] []
      [mkVolumeMount "sentinel-config" "/redis";
       mkVolumeMount "sentinel-config-writable" "/redis-writable"] None None
      (mkResourceRequirements copy_resources copy_resources) None in
  let sentinel :=
    mkContainer "sentinel" (sen_Image spec) (pullPolicy (sen_ImagePullPolicy spec))
      (getSentinelCommand rc) [] [mkContainerPort "sentinel" 26379 "TCP"]
      [mkVolumeMount "readiness-probe" "/redis-probe";
       mkVolumeMount "sentinel-config-writable" "/redis"]
      (Some (mkProbe GraceTime 5 15 5 ["sh"; "/redis-probe/readiness.sh"]))
      (Some (mkProbe GraceTime 5 0 0 ["sh"; "-c"; "redis-cli -h $(hostname) -p 26379 ping"]))
      (sen_Resources spec) None in
  mkStatefulSet (newMeta name (Namespace (meta rc)) labels ownerRefs)
    (Sentinel.GetSentinelHeadlessSvc rc) (Some (Replicas spec)) "" (Some labels)
    (mkPodTemplate labels (sen_Annotations spec)
       (mkPodSpec (getAffinity (sen_Affinity spec) labels) (sen_ToleRations spec)
          (sen_NodeSelector spec) (getSecurityContext (sen_SecurityContext spec))
          (sen_ImagePullSecrets spec) [copy] [sentinel]
          [mkVolume "sentinel-config" (VolConfigMap configMapName None);
           mkVolume "readiness-probe" (VolConfigMap (Sentinel.GetSentinelReadinessCm rc) None);
           mkVolume "sentinel-config-writable" (VolEmptyDir (mkEmptyDir "" None))]))
    [] 0.

Definition generatePodDisruptionBudget (name namespace : string) (labels : StringMap)
    (ownerRefs : list OwnerReference) (minAvailable : Z) : PodDisruptionBudget :=
  mkPDB (newMeta name namespace labels ownerRefs) (Some minAvailable) labels.
