(* ===== verification/StandaloneGen.v ===== *)
(** * The objects of a standalone server
      ([controllers/redisstandalone/service/generator.go])

    As for the sentinel cluster; the settings of the resource are written into
    the configuration file here, in the order in which the map is visited. *)

From S2P Require Import Prelude GoStd Corev1 Api Util Common Names Effects.

Definition ClusterIPNone : string := "None".

(** ** Parts of the pod *)

Definition getRedisCommand (rc : RedisStandalone) : list string :=
  match Command (Spec rc) with
  | _ :: _ => Command (Spec rc)
  | [] => ["redis-server"; "/etc/redis/redis.conf"]
  end.

Definition getRedisDataVolume (rc : RedisStandalone) : option Volume :=
  let storage := Storage (Spec rc) in
  match PVC storage, EmptyDir storage with
  | Some _, _ => None
  | None, Some e => Some (mkVolume RedisStorageVolumeName (VolEmptyDir e))
  | None, None => Some (mkVolume RedisStorageVolumeName (VolEmptyDir (mkEmptyDir "" None)))
  end.

Definition getRedisDataVolumeName (rc : RedisStandalone) : string :=
  let storage := Storage (Spec rc) in
  match PVC storage, EmptyDir storage with
  | Some p, _ => Name (pvc_meta p)
  | None, Some _ => RedisStorageVolumeName
  | None, None => RedisStorageVolumeName
  end.

Definition getRedisVolumeMounts (rc : RedisStandalone) : list VolumeMount := [
  mkVolumeMount RedisConfigurationVolumeName "/etc/redis";
  mkVolumeMount RedisShutdownConfigurationVolumeName "/redis-shutdown";
  mkVolumeMount (getRedisDataVolumeName rc) "/data"].

(** The modes are octal 0644 and 0744. *)
Definition getRedisVolumes (rc : RedisStandalone) : list Volume :=
  let shutdownConfigMapName := Standalone.GetRedisShutdownConfigMapName rc in
  let volumes := [
    mkVolume RedisConfigurationVolumeName
      (VolConfigMap (Standalone.GetRedisName rc) (Some 420));
    mkVolume RedisShutdownConfigurationVolumeName
      (VolConfigMap shutdownConfigMapName (Some 484))] in
  match getRedisDataVolume rc with
  | Some dataVolume => volumes ++ [dataVolume]
  | None => volumes
  end.

Definition generateSelectorLabels (component name : string) : StringMap :=
  <["app.kubernetes.io/part-of" := AppLabel]>
  (<["app.kubernetes.io/component" := component]>
  {[ "app.kubernetes.io/name" := name ]}).

(** ** Services *)

Definition generateRedisService (rc : RedisStandalone) (labels : StringMap)
    (ownerRefs : list OwnerReference) : Service :=
  let name := Standalone.GetRedisName rc in
  let labels := MergeLabels [labels; generateSelectorLabels RedisRoleName (Name (meta rc))] in
  mkService (newMeta name (Namespace (meta rc)) labels ownerRefs) "ClusterIP" ""
    [mkServicePort "redis" 6379 (Some 6379) "TCP"] labels.

Definition generateHeadlessRedisService (rc : RedisStandalone) (labels : StringMap)
    (ownerRefs : list OwnerReference) : Service :=
  let name := Standalone.GetRedisName rc in
  let labels := MergeLabels [labels; generateSelectorLabels RedisRoleName (Name (meta rc))] in
  mkService (newMeta (name ^^ "-headless") (Namespace (meta rc)) labels ownerRefs)
    "ClusterIP" ClusterIPNone [mkServicePort "redis" 6379 (Some 6379) "TCP"] labels.

Definition generateRedisMonitorService (rc : RedisStandalone) (labels : StringMap)
    (ownerRefs : list OwnerReference) : Service :=
  let name := Standalone.GetRedisName rc ^^ "-monitor" in
  let labels := MergeLabels [labels; generateSelectorLabels RedisRoleName (Name (meta rc))] in
  let monitorLabels := MergeLabels [labels; {[ UseLabelKey := MonitorLabelValue ]}] in
  mkService (newMeta name (Namespace (meta rc)) monitorLabels ownerRefs) "ClusterIP" ""
    [mkServicePort "prometheus" ExporterPort (Some ExporterPort) "TCP"] labels.

(** ** ConfigMaps *)

(** One turn of the loop that writes the settings. *)
Definition add_setting (content : string) (kv : string * string) : string :=
  content ^^ newline ^^ kv.1 ^^ " " ^^ kv.2.

Definition config_header (password : string) : string :=
  if negb (password =? "")%string
  then RedisBasicConfig ^^ newline ^^ "requirepass " ^^ password ^^ newline ^^ "masterauth "
       ^^ password ^^ newline
  else RedisBasicConfig.

Definition generateRedisConfigMap (rc : RedisStandalone) (labels : StringMap)
    (ownerRefs : list OwnerReference) : prog ConfigMap :=
  let name := Standalone.GetRedisName rc in
  let labels := MergeLabels [labels; generateSelectorLabels RedisRoleName (Name (meta rc))] in
  let* settings := range_map (config_of (Spec rc)) in
  let content := fold_left add_setting settings (config_header (Password (Spec rc))) in
  Ret (mkConfigMap (newMeta name (Namespace (meta rc)) labels ownerRefs)
    {[ RedisConfigFileName := content ]}).

Definition shutdown_script : string := lines [
  "#!/usr/bin/env sh";
  tab ^^ "echo " ^^ dquote ^^ "do nothing" ^^ dquote].

Definition generateRedisShutdownConfigMap (rc : RedisStandalone) (labels : StringMap)
    (ownerRefs : list OwnerReference) : ConfigMap :=
  let name := Standalone.GetRedisShutdownConfigMapName rc in
  let labels := MergeLabels [labels; generateSelectorLabels RedisRoleName (Name (meta rc))] in
  mkConfigMap (newMeta name (Namespace (meta rc)) labels ownerRefs)
    {[ "shutdown.sh" := shutdown_script ]}.

(** ** The StatefulSet *)

Definition createRedisExporterContainer (rc : RedisStandalone) : Container :=
  let spec := Spec rc in
  let env := [mkEnvVar "REDIS_ALIAS" "" (Some "metadata.name")] in
  let env := if negb (Password spec =? "")%string
             then env ++ [mkEnvVar RedisPasswordEnv (Password spec) None] else env in
  mkContainer ExporterContainerName (ex_Image (Exporter spec))
    (PullPolicy (ex_ImagePullPolicy (Exporter spec))) [] env
    [mkContainerPort ExporterPortName ExporterPort "TCP"] [] None None
    (mkResourceRequirements
       (<["cpu" := ExporterDefaultLimitCPU]> {[ "memory" := ExporterDefaultLimitMemory ]})
       (<["cpu" := ExporterDefaultRequestCPU]> {[ "memory" := ExporterDefaultRequestMemory ]}))
    None.

Definition redis_probe (password : string) : Probe :=
  let probeArg := "redis-cli -h $(hostname)" in
  let probeArg := if negb (password =? "")%string
                  then probeArg ^^ " -a '" ^^ password ^^ "' ping" else probeArg ^^ " ping" in
  mkProbe GraceTime 5 0 0 ["sh"; "-c"; probeArg].

Definition set_claim_owner (ownerRefs : list OwnerReference) (storage : RedisStorage) : RedisStorage :=
  match PVC storage with
  | Some p =>
      if negb (KeepAfterDeletion storage)
      then mkStorage (KeepAfterDeletion storage) (EmptyDir storage)
             (Some (mkPVC (set_OwnerReferences ownerRefs (pvc_meta p)) (pvc_Spec p)))
      else storage
  | None => storage
  end.

Definition generateRedisStatefulSet (rc : RedisStandalone) (labels : StringMap)
    (ownerRefs : list OwnerReference) : StatefulSet * RedisStandalone :=
  let name := Standalone.GetRedisName rc in
  let spec := Spec rc in
  let labels := MergeLabels [labels; generateSelectorLabels RedisRoleName (Name (meta rc))] in
  let probe := redis_probe (Password spec) in
  let redis_container :=
    mkContainer "redis" (Image spec) (PullPolicy (ImagePullPolicy spec)) (getRedisCommand rc) []
      [mkContainerPort "redis" 6379 "TCP"] (getRedisVolumeMounts rc) (Some probe) (Some probe)
      (Resources spec) (Some ["/bin/sh"; "/redis-shutdown/shutdown.sh"]) in
  let storage := set_claim_owner ownerRefs (Storage spec) in
  let rc' := set_Spec (set_Storage storage spec) rc in
  let claims := match PVC storage with Some p => [p] | None => [] end in
  let containers := if Enabled (Exporter spec)
                    then [redis_container; createRedisExporterContainer rc] else [redis_container] in
  (mkStatefulSet (newMeta name (Namespace (meta rc)) labels ownerRefs) name (Some (Size spec))
     "RollingUpdate" (Some labels)
     (mkPodTemplate labels (spec_Annotations spec)
        (mkPodSpec (GetAffinity (Affinity_ spec) labels) (ToleRations spec) (NodeSelector spec)
           (GetSecurityContext (SecurityContext spec)) (ImagePullSecrets spec) [] containers
           (getRedisVolumes rc)))
     claims 0, rc').
