(* ===== verification/Objects.v ===== *)
(** * What the generated objects guarantee

    Theorems on the objects of [SentinelGen] and [StandaloneGen]: which pods the
    services and controllers select, that every mounted volume exists, the
    quorum, the shutdown script's environment, the volume claim and the
    configuration file. *)

From S2P Require Import Prelude GoStd Corev1 Api Samples Util Common Names Effects.
From S2P Require Import SentinelGen StandaloneGen.

(** ** Labels *)

Lemma selector_lookup (component name : string) (labels : StringMap) :
  MergeLabels [labels; SentinelGen.generateSelectorLabels component name]
    !! "app.kubernetes.io/component" = Some component /\
  MergeLabels [labels; SentinelGen.generateSelectorLabels component name]
    !! "app.kubernetes.io/name" = Some name.
Proof.
  rewrite MergeLabels_2. unfold SentinelGen.generateSelectorLabels. split.
  - apply lookup_union_Some_l. by rewrite lookup_insert_ne, lookup_insert_eq by done.
  - apply lookup_union_Some_l. by rewrite !lookup_insert_ne, lookup_singleton_eq by done.
Qed.

(** A selector made for one component and name selects no pod labelled for
    another component or name, whatever the other labels. *)
Lemma selector_separates c n l c' n' l' :
  selects (MergeLabels [l; SentinelGen.generateSelectorLabels c n])
    (MergeLabels [l'; SentinelGen.generateSelectorLabels c' n']) -> c = c' /\ n = n'.
Proof.
  intros H. destruct (selector_lookup c n l) as [Hc Hn], (selector_lookup c' n' l') as [Hc' Hn'].
  pose proof (lookup_weaken _ _ _ _ Hc H). pose proof (lookup_weaken _ _ _ _ Hn H). split; congruence.
Qed.

(** The labels of the pods of the two StatefulSets of a sentinel cluster. *)
Definition redis_pod_labels (rc : RedisSentinel) labels refs : StringMap :=
  pt_Labels (ss_Template (SentinelGen.generateRedisStatefulSet rc labels refs).1).
Definition sentinel_pod_labels (rc : RedisSentinel) labels refs : StringMap :=
  pt_Labels (ss_Template (generateSentinelStatefulSet rc labels refs)).

(** C33: The selectors of a sentinel cluster's objects are exact. Each service
    selects the pods of its own component; each StatefulSet selects exactly
    the labels of its own template; and whatever labels users add, a selector
    made for one resource's redis (sentinel) pods never matches a sentinel
    (redis) pod, nor a pod of a resource of another name. *)
Theorem selectors_exact rc rc' l l' refs refs' :
  selects (svc_Selector (SentinelGen.generateRedisService rc l refs)) (redis_pod_labels rc l refs) /\
  selects (svc_Selector (SentinelGen.generateRedisMonitorService rc l refs)) (redis_pod_labels rc l refs) /\
  selects (svc_Selector (generateSentinelService rc l refs)) (sentinel_pod_labels rc l refs) /\
  selects (svc_Selector (newHeadLessSvcForCR rc l refs)) (sentinel_pod_labels rc l refs) /\
  ss_Selector (SentinelGen.generateRedisStatefulSet rc l refs).1 = Some (redis_pod_labels rc l refs) /\
  ss_Selector (generateSentinelStatefulSet rc l refs) = Some (sentinel_pod_labels rc l refs) /\
  ~ selects (redis_pod_labels rc l refs) (sentinel_pod_labels rc' l' refs') /\
  ~ selects (sentinel_pod_labels rc l refs) (redis_pod_labels rc' l' refs') /\
  (Name (meta rc) <> Name (meta rc') ->
     ~ selects (redis_pod_labels rc l refs) (redis_pod_labels rc' l' refs') /\
     ~ selects (sentinel_pod_labels rc l refs) (sentinel_pod_labels rc' l' refs')).
Proof.
  unfold redis_pod_labels, sentinel_pod_labels. cbn -[MergeLabels].
  repeat split; try done; try (intros [? ?]%selector_separates; done).
Qed.

(** C34: A standalone server and a sentinel cluster of the same name, namespace
    and labels are not kept apart: the sentinel cluster's redis service and
    redis StatefulSet select the standalone server's pod too. *)
Theorem standalone_pods_selected (rc : RedisSentinel) (rs : RedisStandalone) l refs :
  Name (meta rc) = Name (meta rs) ->
  let pod := pt_Labels (ss_Template (generateRedisStatefulSet rs l refs).1) in
  selects (svc_Selector (SentinelGen.generateRedisService rc l refs)) pod /\
  ss_Selector (SentinelGen.generateRedisStatefulSet rc l refs).1 = Some pod.
Proof. intros H. cbn -[MergeLabels]. rewrite H. by split. Qed.

(** ** Volumes *)

Definition all_containers (ss : StatefulSet) : list Container :=
  ps_InitContainers (pt_Spec (ss_Template ss)) ++ ps_Containers (pt_Spec (ss_Template ss)).

Ltac mount_cases H :=
  repeat (apply elem_of_cons in H as [->|H]; simpl); try (by apply not_elem_of_nil in H).

(** C35: Every volume that a container of a generated StatefulSet mounts is
    declared by the pod or comes from a volume claim template, for both kinds
    of resource and every storage setting. *)
Theorem mounts_all_resolve (rc : RedisSentinel) (rs : RedisStandalone) l refs ss c :
  ss ∈ [(SentinelGen.generateRedisStatefulSet rc l refs).1; generateSentinelStatefulSet rc l refs;
        (generateRedisStatefulSet rs l refs).1] ->
  c ∈ all_containers ss -> mounts_resolve ss c.
Proof.
  intros Hss Hc m Hm. unfold all_containers in Hc.
  mount_cases Hss.
  - unfold SentinelGen.generateRedisStatefulSet in *. simpl in *.
    assert (m ∈ SentinelGen.getRedisVolumeMounts rc) as Hm'.
    { destruct (Enabled _); mount_cases Hc; try done. by apply not_elem_of_nil in Hm. }
    unfold SentinelGen.getRedisVolumeMounts, SentinelGen.getRedisVolumes,
      SentinelGen.getRedisDataVolume, SentinelGen.getRedisDataVolumeName,
      SentinelGen.set_claim_owner in *.
    destruct (Storage (redis (Spec rc))) as [[] [] []]; simpl in *; mount_cases Hm';
      rewrite ?fmap_cons, ?elem_of_cons; simpl; auto 10.
  - unfold generateSentinelStatefulSet in *. simpl in *. mount_cases Hc; simpl in *; mount_cases Hm;
      rewrite ?fmap_cons, ?elem_of_cons; simpl; auto 10.
  - unfold generateRedisStatefulSet in *. simpl in *.
    assert (m ∈ getRedisVolumeMounts rs) as Hm'.
    { destruct (Enabled _); mount_cases Hc; try done. by apply not_elem_of_nil in Hm. }
    unfold getRedisVolumeMounts, getRedisVolumes, getRedisDataVolume, getRedisDataVolumeName,
      set_claim_owner in *.
    destruct (Storage (Spec rs)) as [[] [] []]; simpl in *; mount_cases Hm';
      rewrite ?fmap_cons, ?elem_of_cons; simpl; auto 10.
Qed.

(** The volume claim of the redis StatefulSet is the resource's own; it is
    given the owner references exactly when it is not to be kept, so that it is
    deleted with the resource. Generating again from the resource as the first
    generation leaves it yields the same StatefulSet and changes nothing more. *)
Theorem claim_ownership rc l refs p :
  PVC (Storage (redis (Spec rc))) = Some p ->
  let '(ss, rc') := SentinelGen.generateRedisStatefulSet rc l refs in
  (exists q, ss_VolumeClaimTemplates ss = [q] /\ Name (pvc_meta q) = Name (pvc_meta p) /\
     pvc_Spec q = pvc_Spec p /\
     OwnerReferences (pvc_meta q) =
       if KeepAfterDeletion (Storage (redis (Spec rc))) then OwnerReferences (pvc_meta p) else refs) /\
  SentinelGen.generateRedisStatefulSet rc' l refs = (ss, rc').
Proof.
  destruct rc as [m [[size res im pol sec cmd scm [keep ed pvc] pw ex aff ctx tol ns conf an dp] sen] st].
  simpl. intros ->. unfold SentinelGen.generateRedisStatefulSet, SentinelGen.set_claim_owner. simpl.
  destruct keep; simpl.
  - split; [by exists p|done].
  - split; [by eexists|done].
Qed.

(** ** The quorum *)

(** C36: The quorum of an accepted resource is a strict majority of its
    sentinels and at most all of them; the computation does not overflow. *)
Theorem quorum_majority rc :
  let n := Replicas (Sentinel (Spec rc)) in
  in_int32 n -> defaultSentinelNumber <= n ->
  n < 2 * getQuorum rc /\ getQuorum rc <= n /\ 2 <= getQuorum rc.
Proof.
  cbn zeta. unfold getQuorum, defaultSentinelNumber, in_int32. intros Hr Hn.
  rewrite Z.quot_div_nonneg by lia.
  pose proof (Z_div_mod_eq_full (Replicas (Sentinel (Spec rc))) 2).
  pose proof (Z.mod_pos_bound (Replicas (Sentinel (Spec rc))) 2 ltac:(lia)).
  rewrite int32_id by (unfold in_int32; lia). lia.
Qed.

(** ** The shutdown script *)

(** The variables Kubernetes sets for a service: its name in capitals, with
    every dash replaced by an underscore. *)
Definition service_variable (service suffix : string) : string :=
  ToUpper (ReplaceAll service "-" "_") ^^ suffix.

Lemma map_string_has_char (f : ascii -> ascii) (p : ascii -> bool) s :
  (forall c, p (f c) = p c) -> has_char p (map_string f s) = has_char p s.
Proof. intros Hf. induction s as [|c s IH]; [done|]. simpl. by rewrite Hf, IH. Qed.

Lemma ReplaceAll_none s old new :
  has_char (fun c => (c =? old)%char) s = false -> ReplaceAll s old new = s.
Proof.
  unfold ReplaceAll. induction s as [|c s IH]; [done|]. simpl.
  intros [Hc Hs]%orb_false_iff. by rewrite Hc, IH.
Qed.

Lemma ReplaceAll_has s old new :
  old <> new -> has_char (fun c => (c =? old)%char) (ReplaceAll s old new) = false.
Proof.
  intros Hne. unfold ReplaceAll. induction s as [|c s IH]; [done|]. simpl. rewrite IH.
  destruct (Ascii.eqb_spec c old) as [->|Hc]; rewrite orb_false_r; apply Ascii.eqb_neq; congruence.
Qed.

Lemma dash_upper c : (upper_char c =? "-")%char = (c =? "-")%char.
Proof. by destruct c as [[] [] [] [] [] [] [] []]. Qed.

Lemma map_string_inj_dash n :
  ToUpper (ReplaceAll n "-" "_") = ToUpper n -> has_char (fun c => (c =? "-")%char) n = false.
Proof.
  intros H. apply (f_equal (has_char (fun c => (c =? "-")%char))) in H. unfold ToUpper in H.
  rewrite !(map_string_has_char upper_char) in H by apply dash_upper.
  by rewrite ReplaceAll_has in H.
Qed.

(** C37: The environment variable the shutdown script asks for the address of
    the sentinels is the one Kubernetes defines for the sentinel service exactly
    when the name of the resource holds no dash. *)
Theorem shutdown_variables rc :
  (envSentinelHost rc = service_variable (Names.Sentinel.GetSentinelName rc) "_SERVICE_HOST" <->
   has_char (fun c => (c =? "-")%char) (Name (meta rc)) = false) /\
  (envSentinelPort rc = service_variable (Names.Sentinel.GetSentinelName rc) "_SERVICE_PORT_SENTINEL" <->
   has_char (fun c => (c =? "-")%char) (Name (meta rc)) = false).
Proof.
  assert (forall n suffix, ("REDIS_SENTINEL_" ^^ ToUpper n ^^ suffix =
    service_variable (GenerateName SentinelName n) suffix <->
    has_char (fun c => (c =? "-")%char) n = false)) as H; [|split; apply H].
  intros n suffix. unfold service_variable.
  assert (ToUpper (ReplaceAll (GenerateName SentinelName n) "-" "_") =
    "REDIS_SENTINEL_" ^^ ToUpper (ReplaceAll n "-" "_")) as -> by done.
  rewrite app_assoc_str. split.
  - intros E%app_inj_l%app_inj_r. by apply map_string_inj_dash.
  - intros E. by rewrite ReplaceAll_none.
Qed.

(** ** The configuration file of a standalone server *)

Lemma fold_add_setting l content :
  fold_left add_setting l content =
  lines (content :: ((fun kv : string * string => kv.1 ^^ " " ^^ kv.2) <$> l)).
Proof.
  revert content; induction l as [|kv l IH]; intros content; [done|].
  rewrite fmap_cons. simpl. rewrite IH. unfold add_setting, lines. simpl.
  destruct (fmap _ l); by rewrite ?app_assoc_str.
Qed.

(** The configuration file of a standalone server starts with the fixed
    header (and the password, when there is one) and then holds one line per
    setting of the resource, each setting once, in some order. *)
Theorem redis_conf_lines rs l refs :
  spec (generateRedisConfigMap rs l refs) (fun _ cm => exists settings,
    settings ≡ₚ map_to_list (config_of (Spec rs)) /\
    cm_Data cm !! "redis.conf" =
      Some (lines (config_header (Password (Spec rs)) ::
        ((fun kv : string * string => kv.1 ^^ " " ^^ kv.2) <$> settings)))).
Proof.
  unfold generateRedisConfigMap, range_map. intros seed. simpl.
  exists (shuffle seed (map_to_list (config_of (Spec rs)))). split; [apply shuffle_perm|].
  rewrite lookup_singleton_eq. by rewrite fold_add_setting.
Qed.

(** ** Witnesses *)

Lemma standalone_pods_selected_witness :
  selects (svc_Selector (SentinelGen.generateRedisService sampleSentinel ∅ []))
    (pt_Labels (ss_Template (generateRedisStatefulSet sampleStandalone ∅ []).1)).
Proof. apply (standalone_pods_selected sampleSentinel sampleStandalone ∅ [] eq_refl). Defined.

Lemma mounts_all_resolve_witness :
  mounts_resolve (generateSentinelStatefulSet sampleSentinel ∅ [])
    (hd (createRedisExporterContainer sampleStandalone)
       (all_containers (generateSentinelStatefulSet sampleSentinel ∅ []))).
Proof.
  apply (mounts_all_resolve sampleSentinel sampleStandalone ∅ []).
  - right. left.
  - left.
Defined.

Lemma claim_ownership_witness :
  exists q, ss_VolumeClaimTemplates (SentinelGen.generateRedisStatefulSet claimSentinel ∅ sampleOwner).1 = [q] /\
    OwnerReferences (pvc_meta q) = sampleOwner.
Proof.
  destruct (claim_ownership claimSentinel ∅ sampleOwner sampleClaim eq_refl)
    as ((q & H1 & _ & _ & H2) & _).
  by exists q.
Defined.

Lemma quorum_majority_witness : 3 < 2 * getQuorum sampleSentinel.
Proof. apply (quorum_majority sampleSentinel); vm_compute; done. Defined.
