(* ===== verification/RedisClient.v ===== *)
(** * The redis client ([pkg/client/redis/client.go])

    Commands to the redis servers and sentinels and the parsing of their
    answers. The connection is the library's; a command carries the options of
    the client it is sent through. A failed type assertion on an answer and an
    index out of range are panics. *)

From S2P Require Import Prelude GoStd Corev1 Api Util Effects.

Definition sentinelsNumberLiteral : string := "sentinels=".
Definition sentinelStatusLiteral : string := "status=".
Definition redisMasterHostLiteral : string := "master_host:".
Definition redisRoleMaster : string := "role:master".
Definition redisPort : string := "6379".
Definition sentinelPort : string := "26379".
Definition masterName : string := "mymaster".
Definition defaultDownAfterMilliseconds : string := "5000".
Definition defaultFailovertimeout : string := "3000".
Definition defaultParallelSyncs : string := "2".

(** The compiled patterns: a literal, then a captured run of one class. *)
Definition sentinelNumberRE : string -> option string :=
  find_submatch sentinelsNumberLiteral class_digit.
Definition sentinelStatusRE : string -> option string :=
  find_submatch sentinelStatusLiteral class_lower.
Definition redisMasterHostRE : string -> option string :=
  find_submatch redisMasterHostLiteral class_host.

(** The error of [strconv.Atoi]. *)
Definition atoi_error (s : string) (e : NumError) : error :=
  errors_New ("strconv.Atoi: parsing " ^^ dquote ^^ s ^^ dquote ^^ ": " ^^
    match e with ErrSyntax => "invalid syntax" | ErrRange => "value out of range" end).

(** A sentinel is spoken to without the password. *)
Definition setOptions (ip port : string) (auth : AuthConfig) : Options :=
  let passwd := auth_Password auth in
  let passwd := if (port =? sentinelPort)%string then "" else passwd in
  mkOptions (JoinHostPort ip port) passwd 0.

Definition isSentinelReady (info : string) : option error :=
  match sentinelStatusRE info with
  | Some s => if (s =? "ok")%string then None else Some (errors_New "sentinel not ready")
  | None => Some (errors_New "sentinel not ready")
  end.

Definition GetNumberSentinelsInMemory (ip : string) (auth : AuthConfig) : prog (result Z) :=
  let options := setOptions ip sentinelPort auth in
  let? info := act (StringCmd options ["info"; "sentinel"]) in
  match isSentinelReady info with
  | Some err2 => fail err2
  | None =>
      match sentinelNumberRE info with
      | None => fail (errors_New "seninel regex not found")
      | Some digits =>
          match Atoi digits with
          | inl e => fail (atoi_error digits e)
          | inr nSentinels => ok (int32 nSentinels)
          end
      end
  end.

(** The loop over the fields of a slave's description, two at a time. *)
Fixpoint slave_field (name : string) (slaveInfo : list value) : option string :=
  match slaveInfo with
  | x :: y :: rest =>
      match x with
      | VString s =>
          if (s =? name)%string
          then match y with VString v => Some v | _ => None end
          else slave_field name rest
      | _ => None
      end
  | _ => Some ""
  end.

Definition slaveInfoFieldByName (name : string) (slaveInfoBlob : value) : prog string :=
  match slaveInfoBlob with
  | VArray slaveInfo => or_panic (slave_field name slaveInfo)
  | _ => Panic
  end.

Fixpoint count_slaves (nSlaves : Z) (slaveInfoBlobs : list value) : prog Z :=
  match slaveInfoBlobs with
  | [] => Ret nSlaves
  | blob :: rest =>
      let* slavePriority := slaveInfoFieldByName "slave-priority" blob in
      count_slaves (if (slavePriority =? "0")%string then nSlaves - 1 else nSlaves) rest
  end.

Definition GetNumberSentinelSlavesInMemory (ip : string) (auth : AuthConfig) : prog (result Z) :=
  let options := setOptions ip sentinelPort auth in
  let? info := act (StringCmd options ["info"; "sentinel"]) in
  match isSentinelReady info with
  | Some err => fail err
  | None =>
      let? slaveInfoBlobs := act (SliceCmd options ["sentinel"; "slaves"; masterName]) in
      let* nSlaves := count_slaves (Z.of_nat (length slaveInfoBlobs)) slaveInfoBlobs in
      ok (int32 nSlaves)
  end.

Definition ResetSentinel (ip : string) (auth : AuthConfig) : prog (result unit) :=
  let options := setOptions ip sentinelPort auth in
  let? _ := act (IntCmd options ["SENTINEL"; "reset"; "*"]) in
  ok tt.

(** The master of the server, or the empty string when it names none. *)
Definition GetSlaveMasterIP (ip : string) (auth : AuthConfig) : prog (result string) :=
  let options := setOptions ip redisPort auth in
  let? info := act (StringCmd options ["info"; "replication"]) in
  match redisMasterHostRE info with
  | None => ok ""
  | Some host => ok host
  end.

Definition IsMaster (ip : string) (auth : AuthConfig) : prog (result bool) :=
  let options := setOptions ip redisPort auth in
  let? info := act (StringCmd options ["info"; "replication"]) in
  ok (Contains info redisRoleMaster).

Definition MonitorRedis (ip monitor quorum : string) (auth : AuthConfig) : prog (result unit) :=
  let options := setOptions ip sentinelPort auth in
  (* the result of the removal is not looked at *)
  let* _ := act (BoolCmd options ["SENTINEL"; "REMOVE"; masterName]) in
  let? _ := act (BoolCmd options ["SENTINEL"; "MONITOR"; masterName; monitor; redisPort; quorum]) in
  let? _ :=
    (if negb (auth_Password auth =? "")%string
     then let? _ := act (StatusCmd options
            ["SENTINEL"; "SET"; masterName; "auth-pass"; auth_Password auth]) in ok tt
     else ok tt) in
  let? _ := act (StatusCmd options
    ["SENTINEL"; "SET"; masterName; "down-after-milliseconds"; defaultDownAfterMilliseconds]) in
  let? _ := act (StatusCmd options
    ["SENTINEL"; "SET"; masterName; "failover-timeout"; defaultFailovertimeout]) in
  let? _ := act (StatusCmd options
    ["SENTINEL"; "SET"; masterName; "parallel-syncs"; defaultParallelSyncs]) in
  ok tt.

Definition MakeMaster (ip : string) (auth : AuthConfig) : prog (result unit) :=
  let options := setOptions ip redisPort auth in
  let? _ := act (StatusCmd options ["slaveof"; "NO"; "ONE"]) in
  ok tt.

Definition MakeSlaveOf (ip masterIP : string) (auth : AuthConfig) : prog (result unit) :=
  let options := setOptions ip redisPort auth in
  let? _ := act (StatusCmd options ["slaveof"; masterIP; redisPort]) in
  ok tt.

Definition GetSentinelMonitor (ip : string) (auth : AuthConfig) : prog (result string) :=
  let options := setOptions ip sentinelPort auth in
  let? res := act (SliceCmd options ["SENTINEL"; "master"; masterName]) in
  match res !! 3%nat with
  | Some (VString masterIP) => ok masterIP
  | _ => Panic
  end.

Definition applySentinelConfig (parameter value : string) (rClient : Options) : prog (result unit) :=
  let? _ := act (StatusCmd rClient ["SENTINEL"; "set"; masterName; parameter; value]) in
  ok tt.

Definition applyRedisConfig (parameter value : string) (rClient : Options) : prog (result unit) :=
  let? _ := act (StatusCmd rClient ["config"; "set"; parameter; value]) in
  ok tt.

Definition getConfigParameters (config : string) : error + string * string :=
  match Split config " " with
  | p :: w :: ws => inr (p, Join (w :: ws) " ")
  | _ => inl (errors_New ("configuration '" ^^ config ^^ "' malformed"))
  end.

Definition SetCustomSentinelConfig (ip : string) (configs : list string) (auth : AuthConfig)
    : prog (result unit) :=
  let options := setOptions ip sentinelPort auth in
  for_each configs (fun config =>
    match getConfigParameters config with
    | inl err => fail err
    | inr (param, value) => applySentinelConfig param value options
    end).

Definition SetCustomRedisConfig (ip : string) (configs : StringMap) (auth : AuthConfig)
    : prog (result unit) :=
  let options := setOptions ip redisPort auth in
  let* settings := range_map configs in
  for_each settings (fun kv => applyRedisConfig kv.1 kv.2 options).

(** The loop over the answer, keys and values alternating. *)
Fixpoint config_pairs (valMap : StringMap) (val : list value) : option StringMap :=
  match val with
  | [] => Some valMap
  | VString k :: VString v :: rest => config_pairs (<[k := v]> valMap) rest
  | _ => None
  end.

Definition GetAllRedisConfig (rClient : Options) : prog (result StringMap) :=
  let? val := act (SliceCmd rClient ["config"; "get"; "*"]) in
  let* valMap := or_panic (config_pairs ∅ val) in
  ok valMap.
