(* ===== verification/SentinelCheck.v ===== *)
(** * Checking a sentinel cluster ([controllers/redissentinel/service/check.go]) *)

From S2P Require Import Prelude GoStd Corev1 Api Util Common Names Effects K8s RedisClient.

Definition PodRunning : string := "Running".

(** The test of one setting against the server's: nil when they agree, or when
    the setting's memory amount does not parse. *)
Definition check_setting (configs : StringMap) (kv : string * string) : option error :=
  let '(key, value) := kv in
  let current := default "" (configs !! key) in
  let compare (value : string) :=
    if negb (value =? current)%string
    then Some (errors_New (key ^^ " configs conflict, expect: " ^^ value ^^ ", current: " ^^ current))
    else None in
  if is_memory_key key then
    match ParseRedisMemConf value with
    | inl _ => None
    | inr value => compare value
    end
  else compare value.

Fixpoint check_settings (configs : StringMap) (settings : list (string * string)) : option error :=
  match settings with
  | [] => None
  | kv :: rest =>
      match check_setting configs kv with
      | Some err => Some err
      | None => check_settings configs rest
      end
  end.

Definition CheckRedisConfig (rc : RedisSentinel) (addr : string) (auth : AuthConfig)
    : prog (result unit) :=
  let client := mkOptions (JoinHostPort addr "6379") (auth_Password auth) 0 in
  let? configs := GetAllRedisConfig client in
  let* settings := range_map (config_of (redis (Spec rc))) in
  match check_settings configs settings with
  | Some err => fail err
  | None => ok tt
  end.

Definition CheckRedisNumber (rc : RedisSentinel) : prog (result unit) :=
  let? ss := GetStatefulSet (Namespace (meta rc)) (Sentinel.GetRedisName rc) in
  let* replicas := or_panic (ss_Replicas ss) in
  if negb (Size (redis (Spec rc)) =? replicas)
  then fail (errors_New "number of redis pods differ from specification")
  else if negb (Size (redis (Spec rc)) =? ss_ReadyReplicas ss)
  then fail (errors_New "waiting all of redis pods become ready")
  else ok tt.

Definition CheckSentinelNumber (rc : RedisSentinel) : prog (result unit) :=
  let? d := GetStatefulSet (Namespace (meta rc)) (Sentinel.GetSentinelName rc) in
  let* replicas := or_panic (ss_Replicas d) in
  if negb (Replicas (Sentinel (Spec rc)) =? replicas)
  then fail (errors_New "number of sentinel pods differ from specification")
  else ok tt.

Definition EnsureSentinelReady (rc : RedisSentinel) : prog (result unit) :=
  let? d := GetStatefulSet (Namespace (meta rc)) (Sentinel.GetSentinelName rc) in
  if negb (Replicas (Sentinel (Spec rc)) =? ss_ReadyReplicas d)
  then fail ErrNeedRequeue
  else ok tt.

Definition CheckSentinelReadyReplicas (rc : RedisSentinel) : prog (result unit) :=
  let? d := GetStatefulSet (Namespace (meta rc)) (Sentinel.GetSentinelName rc) in
  if negb (Replicas (Sentinel (Spec rc)) =? ss_ReadyReplicas d)
  then fail (errors_New "waiting all of sentinel pods become ready")
  else ok tt.

(** The addresses of the running pods, in the order the API lists them. *)
Definition running_ips (items : list Pod) : list string :=
  omap (fun p => if (pod_Phase p =? PodRunning)%string then Some (pod_PodIP p) else None) items.

Definition GetRedisesIPs (rc : RedisSentinel) (auth : AuthConfig) : prog (result (list string)) :=
  let? rps := GetStatefulSetPods (Namespace (meta rc)) (Sentinel.GetRedisName rc) in
  ok (running_ips rps).

Definition GetSentinelsIPs (rc : RedisSentinel) : prog (result (list string)) :=
  let? rps := GetStatefulSetPods (Namespace (meta rc)) (Sentinel.GetSentinelName rc) in
  ok (running_ips rps).

Definition CheckAllSlavesFromMaster (master : string) (rc : RedisSentinel) (auth : AuthConfig)
    : prog (result unit) :=
  let? rips := GetRedisesIPs rc auth in
  for_each rips (fun rip =>
    let? slave := GetSlaveMasterIP rip auth in
    if negb (slave =? "")%string && negb (slave =? master)%string
    then fail (errors_New ("slave " ^^ rip ^^ " don't have the master " ^^ master ^^ ", has " ^^ slave))
    else ok tt).

Definition CheckSentinelNumberInMemory (sentinel : string) (rc : RedisSentinel) (auth : AuthConfig)
    : prog (result unit) :=
  let? nSentinels := GetNumberSentinelsInMemory sentinel auth in
  if negb (nSentinels =? Replicas (Sentinel (Spec rc)))
  then fail (errors_New "sentinels in memory mismatch")
  else ok tt.

Definition CheckSentinelSlavesNumberInMemory (sentinel : string) (rc : RedisSentinel)
    (auth : AuthConfig) : prog (result unit) :=
  let? nSlaves := GetNumberSentinelSlavesInMemory sentinel auth in
  if negb (nSlaves =? int32 (Size (redis (Spec rc)) - 1))
  then fail (errors_New "sentinel's slaves in memory mismatch")
  else ok tt.

Definition CheckSentinelMonitor (sentinel monitor : string) (auth : AuthConfig)
    : prog (result unit) :=
  let? actualMonitorIP := GetSentinelMonitor sentinel auth in
  if negb (actualMonitorIP =? monitor)%string
  then fail (errors_New "the monitor on the sentinel config does not match with the expected one")
  else ok tt.

Definition GetMasterIP (rc : RedisSentinel) (auth : AuthConfig) : prog (result string) :=
  let? rips := GetRedisesIPs rc auth in
  let? masters := fold_each rips [] (fun masters rip =>
    let? master := IsMaster rip auth in
    ok (if (master : bool) then masters ++ [rip] else masters)) in
  match masters with
  | [ip] => ok ip
  | _ => fail (errors_New "number of redis nodes known as master is different than 1")
  end.

Definition GetNumberMasters (rc : RedisSentinel) (auth : AuthConfig) : prog (result Z) :=
  let? rips := GetRedisesIPs rc auth in
  fold_each rips 0 (fun nMasters rip =>
    let? master := IsMaster rip auth in
    ok (if (master : bool) then nMasters + 1 else nMasters)).

(** [Round(time.Second)] on an instant, and [time.Since], which saturates. *)
Definition second : Z := 10 ^ 9.
Definition round_second (t : Z) : Z := (t + second `div` 2) `div` second * second.
Definition since (now start : Z) : Z := Z.max (- 2 ^ 63) (Z.min (2 ^ 63 - 1) (now - start)).

Definition GetMinimumRedisPodTime (rc : RedisSentinel) : prog (result Z) :=
  let minTime := 100000 * 3600 * second in
  let? rps := GetStatefulSetPods (Namespace (meta rc)) (Sentinel.GetRedisName rc) in
  fold_each rps minTime (fun minTime redisNode =>
    match pod_StartTime redisNode with
    | None => ok minTime
    | Some startTime =>
        let start := round_second startTime in
        let* now := act Now in
        let alive := since now start in
        ok (if alive <? minTime then alive else minTime)
    end).
