(* ===== verification/SentinelHeal.v ===== *)
(** * Healing a sentinel cluster ([controllers/redissentinel/service/heal.go]) *)

From S2P Require Import Prelude GoStd Corev1 Api Util Names Effects K8s RedisClient SentinelGen.

Definition MakeMaster (ip : string) (auth : AuthConfig) : prog (result unit) :=
  RedisClient.MakeMaster ip auth.

(** [CreationTimestamp.Before]. *)
Definition created_before (p q : Pod) : bool :=
  CreationTimestamp (pod_meta p) <? CreationTimestamp (pod_meta q).

(** The turn of the loop for one pod, with the address of the new master. *)
Definition oldest_step (auth : AuthConfig) (newMasterIP : string) (pod : Pod)
    : prog (result string) :=
  if (newMasterIP =? "")%string then
    let newMasterIP := pod_PodIP pod in
    let? _ := RedisClient.MakeMaster newMasterIP auth in
    ok newMasterIP
  else
    let? _ := MakeSlaveOf (pod_PodIP pod) newMasterIP auth in
    ok newMasterIP.

Definition SetOldestAsMaster (rc : RedisSentinel) (auth : AuthConfig) : prog (result unit) :=
  let? items := GetStatefulSetPods (Namespace (meta rc)) (Sentinel.GetRedisName rc) in
  if (Z.of_nat (length items) <? 1)
  then fail (errors_New "number of redis pods are 0")
  else
    let* seed := act Seed in
    let items := sort_Slice seed created_before items in
    let? _ := fold_each items "" (oldest_step auth) in
    ok tt.

Definition SetMasterOnAll (masterIP : string) (rc : RedisSentinel) (auth : AuthConfig)
    : prog (result unit) :=
  let? items := GetStatefulSetPods (Namespace (meta rc)) (Sentinel.GetRedisName rc) in
  for_each items (fun pod =>
    if (pod_PodIP pod =? masterIP)%string
    then RedisClient.MakeMaster masterIP auth
    else MakeSlaveOf (pod_PodIP pod) masterIP auth).

Definition NewSentinelMonitor (ip monitor : string) (rc : RedisSentinel) (auth : AuthConfig)
    : prog (result unit) :=
  let quorum := FormatInt (getQuorum rc) in
  MonitorRedis ip monitor quorum auth.

Definition RestoreSentinel (ip : string) (auth : AuthConfig) : prog (result unit) :=
  ResetSentinel ip auth.

Definition SetSentinelCustomConfig (ip : string) (rc : RedisSentinel) (auth : AuthConfig)
    : prog (result unit) :=
  match CustomConfig (Sentinel (Spec rc)) with
  | [] => ok tt
  | configs => SetCustomSentinelConfig ip configs auth
  end.

Definition SetRedisCustomConfig (ip : string) (rc : RedisSentinel) (auth : AuthConfig)
    : prog (result unit) :=
  let config := config_of (redis (Spec rc)) in
  if bool_decide (config = ∅) && (auth_Password auth =? "")%string
  then ok tt
  else SetCustomRedisConfig ip config auth.
