(* ===== verification/SentinelClient.v ===== *)
(** * Making a sentinel cluster's objects exist
      ([controllers/redissentinel/service/client.go]) *)

From S2P Require Import Prelude GoStd Corev1 Api Util Common Names Effects K8s SentinelGen.

Section service.
  Context {QO : QuantityOrder}.

Definition EnsureSentinelService (rc : RedisSentinel) (labels : StringMap)
    (ownerRefs : list OwnerReference) : prog (result unit) :=
  CreateIfNotExistsService (Namespace (meta rc)) (generateSentinelService rc labels ownerRefs).

Definition EnsureSentinelHeadlessService (rc : RedisSentinel) (labels : StringMap)
    (ownerRefs : list OwnerReference) : prog (result unit) :=
  CreateIfNotExistsService (Namespace (meta rc)) (newHeadLessSvcForCR rc labels ownerRefs).

Definition EnsureSentinelConfigMap (rc : RedisSentinel) (labels : StringMap)
    (ownerRefs : list OwnerReference) : prog (result unit) :=
  CreateIfNotExistsConfigMap (Namespace (meta rc)) (generateSentinelConfigMap rc labels ownerRefs).

Definition EnsureSentinelProbeConfigMap (rc : RedisSentinel) (labels : StringMap)
    (ownerRefs : list OwnerReference) : prog (result unit) :=
  CreateIfNotExistsConfigMap (Namespace (meta rc))
    (generateSentinelReadinessProbeConfigMap rc labels ownerRefs).

Definition ensurePodDisruptionBudget (rc : RedisSentinel) (name component : string)
    (labels : StringMap) (ownerRefs : list OwnerReference) : prog (result unit) :=
  let name := GenerateName name (Name (meta rc)) in
  let labels := MergeLabels [labels; generateSelectorLabels component (Name (meta rc))] in
  let pdb := generatePodDisruptionBudget name (Namespace (meta rc)) labels ownerRefs 2 in
  CreateIfNotExistsPodDisruptionBudget (Namespace (meta rc)) pdb.

Definition shouldUpdateRedis (expectResource containterResource : ResourceRequirements)
    (expectSize replicas : Z) : bool :=
  if negb (expectSize =? replicas) then true
  else if negb (quantity_Cmp (Cpu (Requests containterResource)) (Cpu (Requests expectResource)) =? 0)
  then true
  else if negb (quantity_Cmp (Memory (Requests containterResource)) (Memory (Requests expectResource)) =? 0)
  then true
  else if negb (quantity_Cmp (Cpu (Limits containterResource)) (Cpu (Limits expectResource)) =? 0)
  then true
  else if negb (quantity_Cmp (Memory (Limits containterResource)) (Memory (Limits expectResource)) =? 0)
  then true
  else false.

Definition has_exporter (sts : StatefulSet) : bool :=
  existsb (fun container => (ct_Name container =? ExporterContainerName)%string)
    (ps_Containers (pt_Spec (ss_Template sts))).

Definition exporterChanged (rc : RedisSentinel) (sts : StatefulSet) : bool :=
  if Enabled (Exporter (redis (Spec rc))) then negb (has_exporter sts) else has_exporter sts.

Definition EnsureSentinelStatefulset (rc : RedisSentinel) (labels : StringMap)
    (ownerRefs : list OwnerReference) : prog (result unit) :=
  let? _ := ensurePodDisruptionBudget rc SentinelName SentinelRoleName labels ownerRefs in
  let* got := GetStatefulSet (Namespace (meta rc)) (Sentinel.GetSentinelName rc) in
  match got with
  | inl err =>
      if IsNotFound err
      then CreateStatefulSet (Namespace (meta rc)) (generateSentinelStatefulSet rc labels ownerRefs)
      else fail err
  | inr oldSs =>
      let* container := or_panic (head (ps_Containers (pt_Spec (ss_Template oldSs)))) in
      let* replicas := or_panic (ss_Replicas oldSs) in
      if shouldUpdateRedis (sen_Resources (Sentinel (Spec rc))) (ct_Resources container)
           (Replicas (Sentinel (Spec rc))) replicas
      then UpdateStatefulSet (Namespace (meta rc)) (generateSentinelStatefulSet rc labels ownerRefs)
      else ok tt
  end.

(** The resource comes back as the generator leaves it. *)
Definition EnsureRedisStatefulset (rc : RedisSentinel) (labels : StringMap)
    (ownerRefs : list OwnerReference) : prog (RedisSentinel * result unit) :=
  let* budget := ensurePodDisruptionBudget rc RedisName RedisRoleName labels ownerRefs in
  match budget with
  | inl err => Ret (rc, inl err)
  | inr _ =>
      let* got := GetStatefulSet (Namespace (meta rc)) (Sentinel.GetRedisName rc) in
      match got with
      | inl err =>
          if IsNotFound err then
            let '(ss, rc) := generateRedisStatefulSet rc labels ownerRefs in
            let* r := CreateStatefulSet (Namespace (meta rc)) ss in
            Ret (rc, r)
          else Ret (rc, inl err)
      | inr oldSs =>
          let* container := or_panic (head (ps_Containers (pt_Spec (ss_Template oldSs)))) in
          let* replicas := or_panic (ss_Replicas oldSs) in
          if shouldUpdateRedis (Resources (redis (Spec rc))) (ct_Resources container)
               (Size (redis (Spec rc))) replicas
             || exporterChanged rc oldSs
          then
            let '(ss, rc) := generateRedisStatefulSet rc labels ownerRefs in
            let* r := UpdateStatefulSet (Namespace (meta rc)) ss in
            Ret (rc, r)
          else Ret (rc, inr tt)
      end
  end.

Definition EnsureRedisConfigMap (rc : RedisSentinel) (labels : StringMap)
    (ownerRefs : list OwnerReference) : prog (result unit) :=
  CreateIfNotExistsConfigMap (Namespace (meta rc)) (generateRedisConfigMap rc labels ownerRefs).

Definition EnsureRedisShutdownConfigMap (rc : RedisSentinel) (labels : StringMap)
    (ownerRefs : list OwnerReference) : prog (result unit) :=
  if negb (ShutdownConfigMap (redis (Spec rc)) =? "")%string then
    let? _ := GetConfigMap (Namespace (meta rc)) (ShutdownConfigMap (redis (Spec rc))) in
    ok tt
  else
    CreateIfNotExistsConfigMap (Namespace (meta rc)) (generateRedisShutdownConfigMap rc labels ownerRefs).

Definition EnsureRedisService (rc : RedisSentinel) (labels : StringMap)
    (ownerRefs : list OwnerReference) : prog (result unit) :=
  CreateIfNotExistsService (Namespace (meta rc)) (generateRedisService rc labels ownerRefs).

Definition EnsureRedisMonitorService (rc : RedisSentinel) (labels : StringMap)
    (ownerRefs : list OwnerReference) : prog (result unit) :=
  CreateIfNotExistsService (Namespace (meta rc)) (generateRedisMonitorService rc labels ownerRefs).

Definition EnsureNotPresentRedisService (rc : RedisSentinel) : prog (result unit) :=
  let name := Sentinel.GetRedisName rc in
  let* got := GetService (Namespace (meta rc)) name in
  match got with
  | inr _ => DeleteService (Namespace (meta rc)) name
  | inl _ => ok tt
  end.

End service.
