(* ===== verification/StandaloneService.v ===== *)
(** * The services of the standalone controller
      ([controllers/redisstandalone/service/{client,check,heal}.go]) *)

From S2P Require Import Prelude GoStd Corev1 Api Util Common Names Effects K8s RedisClient.
From S2P Require Import SentinelCheck StandaloneGen.

Section service.
  Context {QO : QuantityOrder}.

(** ** [client.go] *)

Definition shouldUpdateRedis (expectResource containterResource : ResourceRequirements)
    (expectSize replicas : Z) : bool :=
  if negb (expectSize =? replicas) then true
  else if negb (quantity_Cmp (Cpu (Requests containterResource)) (Cpu (Requests expectResource)) =? 0)
  then true
  else if negb (quantity_Cmp (Memory (Requests containterResource)) (Memory (Requests expectResource)) =? 0)
  then true
  else if negb (quantity_Cmp (Cpu (Limits containterResource)) (Cpu (Limits expectResource)) =? 0)
  then true
  else if negb (quantity_Cmp (Memory (Limits containterResource)) (Memory (Limits expectResource)) =? 0)
  then true
  else false.

Definition has_exporter (sts : StatefulSet) : bool :=
  existsb (fun container => (ct_Name container =? ExporterContainerName)%string)
    (ps_Containers (pt_Spec (ss_Template sts))).

Definition exporterChanged (rc : RedisStandalone) (sts : StatefulSet) : bool :=
  if Enabled (Exporter (Spec rc)) then negb (has_exporter sts) else has_exporter sts.

(** The resource comes back as the generator leaves it. *)
Definition EnsureRedisStatefulset (rc : RedisStandalone) (labels : StringMap)
    (ownerRefs : list OwnerReference) : prog (RedisStandalone * result unit) :=
  let* got := GetStatefulSet (Namespace (meta rc)) (Standalone.GetRedisName rc) in
  match got with
  | inl err =>
      if IsNotFound err then
        let '(ss, rc) := generateRedisStatefulSet rc labels ownerRefs in
        let* r := CreateStatefulSet (Namespace (meta rc)) ss in
        Ret (rc, r)
      else Ret (rc, inl err)
  | inr oldSs =>
      let* container := or_panic (head (ps_Containers (pt_Spec (ss_Template oldSs)))) in
      let* replicas := or_panic (ss_Replicas oldSs) in
      if shouldUpdateRedis (Resources (Spec rc)) (ct_Resources container) (Size (Spec rc)) replicas
         || exporterChanged rc oldSs
      then
        let '(ss, rc) := generateRedisStatefulSet rc labels ownerRefs in
        let* r := UpdateStatefulSet (Namespace (meta rc)) ss in
        Ret (rc, r)
      else Ret (rc, inr tt)
  end.

Definition EnsureRedisService (rc : RedisStandalone) (labels : StringMap)
    (ownerRefs : list OwnerReference) : prog (result unit) :=
  CreateIfNotExistsService (Namespace (meta rc)) (generateRedisService rc labels ownerRefs).

Definition EnsureRedisHeadlessService (rc : RedisStandalone) (labels : StringMap)
    (ownerRefs : list OwnerReference) : prog (result unit) :=
  CreateIfNotExistsService (Namespace (meta rc)) (generateHeadlessRedisService rc labels ownerRefs).

Definition EnsureRedisMonitorService (rc : RedisStandalone) (labels : StringMap)
    (ownerRefs : list OwnerReference) : prog (result unit) :=
  CreateIfNotExistsService (Namespace (meta rc)) (generateRedisMonitorService rc labels ownerRefs).

Definition EnsureRedisShutdownConfigMap (rc : RedisStandalone) (labels : StringMap)
    (ownerRefs : list OwnerReference) : prog (result unit) :=
  if negb (ShutdownConfigMap (Spec rc) =? "")%string then
    let? _ := GetConfigMap (Namespace (meta rc)) (ShutdownConfigMap (Spec rc)) in
    ok tt
  else
    CreateIfNotExistsConfigMap (Namespace (meta rc)) (generateRedisShutdownConfigMap rc labels ownerRefs).

Definition EnsureRedisConfigMap (rc : RedisStandalone) (labels : StringMap)
    (ownerRefs : list OwnerReference) : prog (result unit) :=
  let* cm := generateRedisConfigMap rc labels ownerRefs in
  CreateIfNotExistsConfigMap (Namespace (meta rc)) cm.

End service.

(** ** [check.go] *)

Definition GetRedisesIPs (rc : RedisStandalone) : prog (result (list string)) :=
  let? rps := GetStatefulSetPods (Namespace (meta rc)) (Standalone.GetRedisName rc) in
  ok (running_ips rps).

Definition CheckRedisConfig (rc : RedisStandalone) (addr : string) (auth : AuthConfig)
    : prog (result unit) :=
  let client := mkOptions (JoinHostPort addr "6379") (auth_Password auth) 0 in
  let? configs := GetAllRedisConfig client in
  let* settings := range_map (config_of (Spec rc)) in
  match check_settings configs settings with
  | Some err => fail err
  | None => ok tt
  end.

Definition CheckRedisNumber (rc : RedisStandalone) : prog (result unit) :=
  let? ss := GetStatefulSet (Namespace (meta rc)) (Standalone.GetRedisName rc) in
  let* replicas := or_panic (ss_Replicas ss) in
  if negb (Size (Spec rc) =? replicas)
  then fail (errors_New "number of redis pods differ from specification")
  else if negb (Size (Spec rc) =? ss_ReadyReplicas ss)
  then fail (errors_New "waiting all of redis pods become ready")
  else ok tt.

(** ** [heal.go] *)

Definition SetRedisCustomConfig (ip : string) (rc : RedisStandalone) (auth : AuthConfig)
    : prog (result unit) :=
  let config := config_of (Spec rc) in
  if bool_decide (config = ∅) && (auth_Password auth =? "")%string
  then ok tt
  else SetCustomRedisConfig ip config auth.
