(* ===== verification/Cache.v ===== *)
(** * The metadata cache ([controllers/redissentinel/cache/cahce.go],
      [controllers/redisstandalone/cache/cache.go])

    The cache keeps, per custom resource, what the last reconciliations saw. A
    [Meta] points to the object it was made from, which the handlers go on
    changing, so objects live in a heap here and [Obj] is an address. The two
    files differ in the type of the objects and in one message; the code is
    given once, for any specification with the shared fields.

    An operation is [None] where the code would dereference a nil pointer. *)

From S2P Require Import Prelude GoStd Corev1 Api Samples Util.

Inductive StateType := StateCreate | StateUpdate | StateCheck.

Definition loc := nat.

Record Meta := mkMeta {
  m_NameSpace : string;
  m_Name : string;
  State : StateType;
  m_Size : Z;
  Auth : AuthConfig;
  Obj : loc;
  m_Status : ConditionType;
  Message : string;
  m_Config : option StringMap
}.

#[export] Instance StateType_eq : EqDecision StateType.
Proof. solve_decision. Defined.

(** The heap of custom resources and the map of the cache. *)
Record Store (S : Type) := mkStore {
  heap : list (CustomResource S);
  metas : gmap string Meta
}.
Arguments mkStore {S}.
Arguments heap {S}.
Arguments metas {S}.

Definition getNamespacedName (nameSpace name : string) : string :=
  nameSpace ^^ String "/" name.

Section cache.
  Context {S : Type} `{HS : HasRedisSpec S} (bootstrap : string).

Definition key_of (obj : CustomResource S) : string :=
  getNamespacedName (Namespace (meta obj)) (Name (meta obj)).

Definition newCluster (rc : loc) (obj : CustomResource S) : Meta :=
  mkMeta (Namespace (meta obj)) (Name (meta obj)) StateCreate (Size (redisSpec (Spec obj)))
    (mkAuth (Password (redisSpec (Spec obj)))) rc ClusterConditionCreating bootstrap
    (Config (redisSpec (Spec obj))).

Definition isImagesChanged (old new : CustomResource S) : bool :=
  (Image (redisSpec (Spec old)) =? Image (redisSpec (Spec new)))%string.

Definition isScalingDown (old new : CustomResource S) : bool :=
  Size (redisSpec (Spec new)) <? Size (redisSpec (Spec old)).

Definition isScalingUp (old new : CustomResource S) : bool :=
  Size (redisSpec (Spec old)) <? Size (redisSpec (Spec new)).

(** [Size()] is the length of the encoding of an amount. *)
Definition isResourcesChange (old new : CustomResource S) : bool :=
  let ol := Limits (Resources (redisSpec (Spec old))) in
  let nl := Limits (Resources (redisSpec (Spec new))) in
  negb (Quantity_Size (Memory ol) =? Quantity_Size (Memory nl)) ||
  negb (Quantity_Size (Cpu ol) =? Quantity_Size (Cpu nl)).

Definition with_password (p : string) (obj : CustomResource S) : CustomResource S :=
  set_Spec (set_redisSpec (set_Password p (redisSpec (Spec obj))) (Spec obj)) obj.

Definition set_State (s : StateType) (m : Meta) : Meta :=
  mkMeta (m_NameSpace m) (m_Name m) s (m_Size m) (Auth m) (Obj m) (m_Status m) (Message m)
    (m_Config m).

Definition set_status_message (st : ConditionType) (msg : string) (m : Meta) : Meta :=
  mkMeta (m_NameSpace m) (m_Name m) (State m) (m_Size m) (Auth m) (Obj m) st msg (m_Config m).

(** The status and message of a change, the tests in the order they are made:
    a later one overwrites an earlier one. *)
Definition describe_change (old new : CustomResource S) (m : Meta) : Meta :=
  let size := FormatInt (m_Size m) in
  let newSize := FormatInt (Size (redisSpec (Spec new))) in
  let m := set_status_message ClusterConditionUpdating "Updating redis config" m in
  let m := if isImagesChanged old new
           then set_status_message ClusterConditionUpgrading
                  ("Upgrading to " ^^ Image (redisSpec (Spec new))) m else m in
  let m := if isScalingDown old new
           then set_status_message ClusterConditionScalingDown
                  ("Scaling down form: " ^^ size ^^ " to: " ^^ newSize) m else m in
  let m := if isScalingUp old new
           then set_status_message ClusterConditionScaling
                  ("Scaling up form: " ^^ size ^^ " to: " ^^ newSize) m else m in
  if isResourcesChange old new
  then set_status_message (m_Status m) "Updating compute resources" m else m.

(** [Update(meta, new)] also writes the old password into [new]. *)
Definition UpdateMeta (m : Meta) (new : loc) (h : list (CustomResource S))
    : option (Meta * list (CustomResource S)) :=
  old ← h !! Obj m;
  n ← h !! new;
  if Generation (meta old) =? Generation (meta n) then
    if bool_decide (Status old = emptyStatus)
    then Some (set_State StateCreate m, h)
    else Some (set_State StateCheck m, h)
  else
    let password := Password (redisSpec (Spec old)) in
    let n := with_password password n in
    let m := mkMeta (m_NameSpace m) (m_Name m) StateUpdate (Size (redisSpec (Spec old)))
               (mkAuth password) new (m_Status m) (Message m) (m_Config m) in
    Some (describe_change old n m, <[new := n]> h).

Definition Add (rc : loc) (st : Store S) : option (Store S) :=
  obj ← heap st !! rc;
  Some (mkStore (heap st) (<[key_of obj := newCluster rc obj]> (metas st))).

Definition GetMeta (rc : loc) (st : Store S) : option Meta :=
  obj ← heap st !! rc;
  metas st !! key_of obj.

Definition Del (rc : loc) (st : Store S) : option (Store S) :=
  obj ← heap st !! rc;
  Some (mkStore (heap st) (delete (key_of obj) (metas st))).

(** The stored [Meta] is changed in place. *)
Definition Cache (rc : loc) (st : Store S) : option (Meta * Store S) :=
  obj ← heap st !! rc;
  st' ← match metas st !! key_of obj with
        | None => Add rc st
        | Some m =>
            '(m', h) ← UpdateMeta m rc (heap st);
            Some (mkStore h (<[key_of obj := m']> (metas st)))
        end;
  m ← GetMeta rc st';
  Some (m, st').

(** [&RedisSentinel{}] filled in by the API server: a fresh object. *)
Definition alloc (obj : CustomResource S) (st : Store S) : loc * Store S :=
  (length (heap st), mkStore (heap st ++ [obj]) (metas st)).

Definition write (l : loc) (obj : CustomResource S) (st : Store S) : Store S :=
  mkStore (<[l := obj]> (heap st)) (metas st).

End cache.

(** The two caches. *)
Module SentinelCache.
Definition bootstrap : string := "Bootstrap redis cluster".
Definition Cache : loc -> Store RedisSentinelSpec -> option (Meta * Store RedisSentinelSpec) :=
  Cache bootstrap.
End SentinelCache.

Module StandaloneCache.
Definition StateType : Type := StateType.
Definition getNamespacedName : string -> string -> string := getNamespacedName.
Definition Meta : Type := Meta.
Definition MetaMap : Type := Store RedisStandaloneSpec.
Definition bootstrap : string := "Bootstrap redis standalone cluster".
Definition newStandalone : loc -> RedisStandalone -> Meta := newCluster bootstrap.
Definition isImagesChanged : RedisStandalone -> RedisStandalone -> bool := isImagesChanged.
Definition isScalingDown : RedisStandalone -> RedisStandalone -> bool := isScalingDown.
Definition isScalingUp : RedisStandalone -> RedisStandalone -> bool := isScalingUp.
Definition isResourcesChange : RedisStandalone -> RedisStandalone -> bool := isResourcesChange.
Definition Update : Meta -> loc -> list RedisStandalone -> option (Meta * list RedisStandalone) :=
  UpdateMeta.
Definition Add : loc -> MetaMap -> option MetaMap := Add bootstrap.
Definition Get : loc -> MetaMap -> option Meta := GetMeta.
Definition Del : loc -> MetaMap -> option MetaMap := Del.
Definition Cache : loc -> MetaMap -> option (Meta * MetaMap) := Cache bootstrap.
End StandaloneCache.

(** ** Keys *)

Definition no_slash (s : string) : Prop := has_char (fun c => (c =? "/")%char) s = false.

Lemma getNamespacedName_inj ns n ns' n' :
  no_slash ns -> no_slash ns' ->
  getNamespacedName ns n = getNamespacedName ns' n' -> ns = ns' /\ n = n'.
Proof. intros H H'. unfold getNamespacedName. by apply (app_char_inj (fun c => (c =? "/")%char)). Qed.

Section lemmas.
  Context {S : Type} `{HS : HasRedisSpec S} (bootstrap : string).
  Implicit Types (st : Store S) (o old new : CustomResource S).

(** ** The invariant: an entry points to an object with the entry's key, and
    its password is that object's *)

Definition entry_ok (h : list (CustomResource S)) (k : string) (m : Meta) : Prop :=
  exists o, h !! Obj m = Some o /\ key_of o = k /\ Auth m = mkAuth (Password (redisSpec (Spec o))).

Definition wf st : Prop := forall k m, metas st !! k = Some m -> entry_ok (heap st) k m.

Lemma with_password_fields p o :
  meta (with_password p o) = meta o /\ Status (with_password p o) = Status o /\
  redisSpec (Spec (with_password p o)) = set_Password p (redisSpec (Spec o)).
Proof. unfold with_password. simpl. by rewrite redisSpec_set. Qed.

Lemma with_password_key p o : key_of (with_password p o) = key_of o.
Proof. unfold key_of. by destruct (with_password_fields p o) as (-> & _). Qed.

Lemma describe_change_fields old new m :
  Obj (describe_change old new m) = Obj m /\ Auth (describe_change old new m) = Auth m /\
  State (describe_change old new m) = State m /\ m_Size (describe_change old new m) = m_Size m /\
  m_NameSpace (describe_change old new m) = m_NameSpace m /\
  m_Name (describe_change old new m) = m_Name m.
Proof. unfold describe_change. cbn zeta. repeat (destruct (_ : bool); simpl); done. Qed.

(** What [Cache] does with an entry that is there. *)
Definition updated_meta (m : Meta) (rc : loc) old o : Meta :=
  if Generation (meta old) =? Generation (meta o)
  then set_State (if bool_decide (Status old = emptyStatus) then StateCreate else StateCheck) m
  else describe_change old (with_password (Password (redisSpec (Spec old))) o)
         (mkMeta (m_NameSpace m) (m_Name m) StateUpdate (Size (redisSpec (Spec old)))
            (mkAuth (Password (redisSpec (Spec old)))) rc (m_Status m) (Message m) (m_Config m)).

Definition updated_heap (h : list (CustomResource S)) (rc : loc) old o : list (CustomResource S) :=
  if Generation (meta old) =? Generation (meta o) then h
  else <[rc := with_password (Password (redisSpec (Spec old))) o]> h.

Lemma UpdateMeta_eq m rc h old o :
  h !! Obj m = Some old -> h !! rc = Some o ->
  UpdateMeta m rc h = Some (updated_meta m rc old o, updated_heap h rc old o).
Proof.
  intros Ho Hn. unfold UpdateMeta, updated_meta, updated_heap. rewrite Ho, Hn. simpl.
  destruct (_ =? _); [by case_bool_decide|done].
Qed.

Lemma updated_heap_rc h rc old o :
  h !! rc = Some o -> exists o', updated_heap h rc old o !! rc = Some o' /\ meta o' = meta o.
Proof.
  intros Hn. unfold updated_heap. destruct (_ =? _); [by exists o|].
  exists (with_password (Password (redisSpec (Spec old))) o).
  rewrite list_lookup_insert_eq by (by eapply lookup_lt_Some). split; [done|].
  by destruct (with_password_fields (Password (redisSpec (Spec old))) o).
Qed.

Lemma updated_heap_ne h rc old o l : l <> rc -> updated_heap h rc old o !! l = h !! l.
Proof.
  intros Hl. unfold updated_heap. destruct (_ =? _); [done|]. by rewrite list_lookup_insert_ne.
Qed.

Lemma Cache_first rc st o :
  heap st !! rc = Some o -> metas st !! key_of o = None ->
  Cache bootstrap rc st =
  Some (newCluster bootstrap rc o,
        mkStore (heap st) (<[key_of o := newCluster bootstrap rc o]> (metas st))).
Proof.
  intros Ho Hm. unfold Cache, Add, GetMeta. rewrite Ho. simpl. rewrite Hm. simpl.
  rewrite ?Ho. simpl. rewrite ?Ho. simpl. by rewrite lookup_insert_eq.
Qed.

Lemma Cache_again rc st o m old :
  heap st !! rc = Some o -> metas st !! key_of o = Some m -> heap st !! Obj m = Some old ->
  Cache bootstrap rc st =
  Some (updated_meta m rc old o,
        mkStore (updated_heap (heap st) rc old o)
          (<[key_of o := updated_meta m rc old o]> (metas st))).
Proof.
  intros Ho Hm Hold. unfold Cache, GetMeta. rewrite Ho. simpl. rewrite Hm. simpl.
  rewrite (UpdateMeta_eq m rc (heap st) old o) by done. simpl.
  destruct (updated_heap_rc (heap st) rc old o Ho) as (o' & -> & Hmeta). simpl.
  assert (key_of o' = key_of o) as -> by (unfold key_of; by rewrite Hmeta).
  by rewrite lookup_insert_eq.
Qed.

Lemma updated_entry h k m rc old o :
  h !! rc = Some o -> key_of o = k -> entry_ok h k m -> h !! Obj m = Some old ->
  entry_ok (updated_heap h rc old o) k (updated_meta m rc old o).
Proof.
  intros Hn Hk (o2 & Ho2 & Hk2 & Ha) Hold. assert (o2 = old) as -> by congruence.
  unfold entry_ok, updated_meta, updated_heap. destruct (_ =? _).
  - exists old. by split_and!.
  - match goal with |- context [describe_change ?a ?b ?c] =>
      destruct (describe_change_fields a b c) as (-> & -> & _) end. simpl.
    eexists. rewrite list_lookup_insert_eq by (by eapply lookup_lt_Some). split; [done|].
    rewrite with_password_key. split; [done|].
    by destruct (with_password_fields (Password (redisSpec (Spec old))) o) as (_ & _ & ->).
Qed.

(** An entry of another key is not disturbed. *)
Lemma other_entry h k m rc old o :
  h !! rc = Some o -> key_of o <> k -> entry_ok h k m -> entry_ok (updated_heap h rc old o) k m.
Proof.
  intros Hn Hk (o2 & Ho2 & Hk2 & Ha).
  assert (Obj m <> rc) as Hne by (intros E; rewrite E in Ho2; congruence).
  exists o2. by rewrite updated_heap_ne.
Qed.

End lemmas.

Section properties.
  Context {S : Type} `{HS : HasRedisSpec S} (bootstrap : string).
  Implicit Types (st : Store S) (o old new : CustomResource S).

(** The footprint of [Cache]. *)
Lemma Cache_footprint rc st o :
  wf st -> heap st !! rc = Some o ->
  exists m st', Cache bootstrap rc st = Some (m, st') /\ wf st' /\
    metas st' !! key_of o = Some m /\
    (forall k, k <> key_of o -> metas st' !! k = metas st !! k) /\
    (forall l, l <> rc -> heap st' !! l = heap st !! l).
Proof.
  intros Hwf Ho. destruct (metas st !! key_of o) as [m|] eqn:Hm.
  - destruct (Hwf _ _ Hm) as (old & Hold & Hk & Ha).
    exists (updated_meta m rc old o), (mkStore (updated_heap (heap st) rc old o)
      (<[key_of o := updated_meta m rc old o]> (metas st))).
    rewrite (Cache_again _ rc st o m old) by done.
    split_and!; simpl; try done.
    + intros k m' Hm'. simpl in *. destruct (decide (k = key_of o)) as [->|Hne].
      * rewrite lookup_insert_eq in Hm'. injection Hm' as <-.
        apply updated_entry; auto.
      * rewrite lookup_insert_ne in Hm' by done. apply other_entry; auto.
    + by rewrite lookup_insert_eq.
    + intros k Hne. by rewrite lookup_insert_ne.
    + intros l Hne. by apply updated_heap_ne.
  - exists (newCluster bootstrap rc o), (mkStore (heap st)
      (<[key_of o := newCluster bootstrap rc o]> (metas st))).
    rewrite (Cache_first _ rc st o) by done. split_and!; simpl; try done.
    + intros k m' Hm'. simpl in *. destruct (decide (k = key_of o)) as [->|Hne].
      * rewrite lookup_insert_eq in Hm'. injection Hm' as <-. by exists o.
      * rewrite lookup_insert_ne in Hm' by done. by apply Hwf.
    + by rewrite lookup_insert_eq.
    + intros k Hne. by rewrite lookup_insert_ne.
Qed.

(** Several reconciliations in a row. *)
Fixpoint Cache_all (rcs : list loc) st : option (Store S) :=
  match rcs with
  | [] => Some st
  | rc :: rest => '(_, st') ← Cache bootstrap rc st; Cache_all rest st'
  end.

Lemma Cache_password rc st m st' k m0 :
  wf st -> Cache bootstrap rc st = Some (m, st') -> metas st !! k = Some m0 ->
  wf st' /\ exists m1, metas st' !! k = Some m1 /\ Auth m1 = Auth m0.
Proof.
  intros Hwf HC Hm0. destruct (heap st !! rc) as [o|] eqn:Ho;
    [|unfold Cache in HC; rewrite Ho in HC; done].
  destruct (Cache_footprint rc st o Hwf Ho) as (m' & st2 & HC2 & Hwf2 & Hm' & Hoth & _).
  rewrite HC in HC2. injection HC2 as <- <-. split; [done|].
  destruct (decide (k = key_of o)) as [->|Hne]; [|exists m0; by rewrite Hoth].
  exists m. split; [done|]. destruct (Hwf _ _ Hm0) as (old & Hold & _ & Ha).
  rewrite (Cache_again _ rc st o m0 old) in HC by done. injection HC as <- _.
  rewrite Ha. unfold updated_meta. destruct (_ =? _); [done|].
  by match goal with |- context [describe_change ?a ?b ?c] =>
      destruct (describe_change_fields a b c) as (_ & -> & _) end.
Qed.

(** C27: [Cache] never dereferences a nil pointer, keeps the invariant, and
    touches nothing but its own key and the object it is given: the entries of
    other resources and all other objects stay as they are. *)
Theorem Cache_total rc st o :
  wf st -> heap st !! rc = Some o ->
  exists m st', Cache bootstrap rc st = Some (m, st') /\ wf st' /\
    metas st' !! key_of o = Some m /\
    (forall k, k <> key_of o -> metas st' !! k = metas st !! k) /\
    (forall l, l <> rc -> heap st' !! l = heap st !! l).
Proof. apply Cache_footprint. Qed.

(** C17: A password cannot be changed through the cache: however many objects of
    whatever generation are cached one after the other, the credentials stored
    for a resource stay those of its first caching, and they are the password
    in the object the entry points to. *)
Theorem password_immutable rcs st st' k m0 :
  wf st -> Cache_all rcs st = Some st' -> metas st !! k = Some m0 ->
  exists m1 o, metas st' !! k = Some m1 /\ Auth m1 = Auth m0 /\
    heap st' !! Obj m1 = Some o /\ Password (redisSpec (Spec o)) = auth_Password (Auth m0).
Proof.
  revert st m0; induction rcs as [|rc rest IH]; intros st m0 Hwf HC Hm0; simpl in HC.
  - injection HC as <-. destruct (Hwf _ _ Hm0) as (o & Ho & _ & Ha).
    exists m0, o. by rewrite Ha.
  - destruct (Cache bootstrap rc st) as [[m st1]|] eqn:E; [|done]. simpl in HC.
    destruct (Cache_password rc st m st1 k m0 Hwf E Hm0) as (Hwf1 & m1 & Hm1 & <-).
    by apply (IH st1 m1).
Qed.

(** What a reconciliation is told to do. A resource without an entry is
    created; with one, an unchanged generation means a check (or a creation,
    when the cached object has no status yet) of the cached object, and a
    changed generation means an update that adopts the new object. *)
Theorem Cache_state rc st o m st' :
  wf st -> heap st !! rc = Some o -> Cache bootstrap rc st = Some (m, st') ->
  match metas st !! key_of o with
  | None => m = newCluster bootstrap rc o /\ heap st' = heap st
  | Some m0 => exists old, heap st !! Obj m0 = Some old /\
      if Generation (meta old) =? Generation (meta o)
      then State m = (if bool_decide (Status old = emptyStatus) then StateCreate else StateCheck) /\
           Obj m = Obj m0 /\ m_Status m = m_Status m0 /\ heap st' = heap st
      else State m = StateUpdate /\ Obj m = rc /\ m_Size m = Size (redisSpec (Spec old)) /\
           heap st' !! rc = Some (with_password (Password (redisSpec (Spec old))) o)
  end.
Proof.
  intros Hwf Ho HC. destruct (metas st !! key_of o) as [m0|] eqn:Hm0.
  - destruct (Hwf _ _ Hm0) as (old & Hold & _ & Ha). exists old. split; [done|].
    rewrite (Cache_again _ rc st o m0 old) in HC by done. injection HC as <- <-. simpl.
    unfold updated_meta, updated_heap. destruct (_ =? _); [done|].
    match goal with |- context [describe_change ?a ?b ?c] =>
      destruct (describe_change_fields a b c) as (-> & _ & -> & -> & _) end.
    split_and!; try done. apply list_lookup_insert_eq. by eapply lookup_lt_Some.
  - rewrite (Cache_first _ rc st o) in HC by done. by injection HC as <- <-.
Qed.

(** The status that describes a change. Scaling takes precedence; without
    it the status is "Upgrading" exactly when the image stays the same and
    "Updating" when it changes. *)
Theorem change_status old new m :
  m_Status (describe_change old new m) =
  if isScalingUp old new then ClusterConditionScaling
  else if isScalingDown old new then ClusterConditionScalingDown
  else if bool_decide (Image (redisSpec (Spec old)) = Image (redisSpec (Spec new)))
  then ClusterConditionUpgrading
  else ClusterConditionUpdating.
Proof.
  unfold describe_change, isImagesChanged. cbn zeta.
  destruct (isScalingUp old new), (isScalingDown old new), (isResourcesChange old new),
    (String.eqb_spec (Image (redisSpec (Spec old))) (Image (redisSpec (Spec new)))); simpl;
    try case_bool_decide; done.
Qed.

(** The heap after caching the object at an address, in terms of the entry. *)
Definition cached_heap st (h : list (CustomResource S)) (rc : loc) o : list (CustomResource S) :=
  match metas st !! key_of o with
  | Some m => match heap st !! Obj m with Some old => updated_heap h rc old o | None => h end
  | None => h
  end.

Lemma Cache_result rc st o m st' :
  wf st -> heap st !! rc = Some o -> Cache bootstrap rc st = Some (m, st') ->
  st' = mkStore (cached_heap st (heap st) rc o) (<[key_of o := m]> (metas st)).
Proof.
  intros Hwf Ho HC. unfold cached_heap. destruct (metas st !! key_of o) as [m0|] eqn:Em.
  - destruct (Hwf _ _ Em) as (old & Hold & _ & _). rewrite Hold.
    rewrite (Cache_again _ rc st o m0 old) in HC by done. by injection HC as <- <-.
  - rewrite (Cache_first _ rc st o) in HC by done. by injection HC as <- <-.
Qed.

(** After another resource was cached, caching does what it would have done. *)
Lemma Cache_after a b st oa ob ma sta mb stb :
  wf st -> heap st !! a = Some oa -> heap st !! b = Some ob -> key_of oa <> key_of ob ->
  Cache bootstrap a st = Some (ma, sta) -> Cache bootstrap b st = Some (mb, stb) ->
  Cache bootstrap b sta =
    Some (mb, mkStore (cached_heap st (heap sta) b ob) (<[key_of ob := mb]> (metas sta))).
Proof.
  intros Hwf Ha Hb Hk HCa HCb. unfold cached_heap.
  destruct (Cache_footprint a st oa Hwf Ha) as (ma' & sta' & E & Hwfa & _ & Hoth & Hheap).
  rewrite HCa in E. injection E as <- <-.
  assert (a <> b) as Hab by congruence.
  assert (heap sta !! b = Some ob) as Hb' by (by rewrite Hheap).
  assert (metas sta !! key_of ob = metas st !! key_of ob) as Hmb by (by apply Hoth).
  destruct (metas st !! key_of ob) as [m|] eqn:Em.
  - destruct (Hwf _ _ Em) as (old & Hold & Hkold & _).
    assert (Obj m <> a) as Hne by congruence.
    rewrite (Cache_again _ b st ob m old) in HCb by done. injection HCb as <- _.
    rewrite Hold. apply Cache_again; [done|done|by rewrite Hheap].
  - rewrite (Cache_first _ b st ob) in HCb by done. injection HCb as <- _.
    by apply Cache_first.
Qed.

Lemma updated_heap_commute h (a b : loc) old o old' o' :
  a <> b ->
  updated_heap (updated_heap h a old o) b old' o' = updated_heap (updated_heap h b old' o') a old o.
Proof.
  intros Hab. unfold updated_heap. repeat destruct (_ =? _); try done.
  by apply list_insert_insert_ne.
Qed.

(** Reconciliations of two different resources commute: whichever of the
    two caches its object first, the cache and the heap end up the same and each
    sees the same metadata. Workers run concurrently only on different
    resources. *)
Theorem Cache_commute a b st oa ob ma sta mb stb :
  wf st -> heap st !! a = Some oa -> heap st !! b = Some ob -> key_of oa <> key_of ob ->
  Cache bootstrap a st = Some (ma, sta) -> Cache bootstrap b st = Some (mb, stb) ->
  exists st2, Cache bootstrap b sta = Some (mb, st2) /\ Cache bootstrap a stb = Some (ma, st2).
Proof.
  intros Hwf Ha Hb Hk HCa HCb. assert (a <> b) as Hab by congruence.
  rewrite (Cache_after a b st oa ob ma sta mb stb), (Cache_after b a st ob oa mb stb ma sta) by done.
  eexists. split; [done|]. f_equal. f_equal.
  rewrite (Cache_result a st oa ma sta), (Cache_result b st ob mb stb) by done. simpl. f_equal.
  - unfold cached_heap. destruct (metas st !! key_of oa) as [m|]; [|done].
    destruct (heap st !! Obj m) as [old|]; [|done].
    destruct (metas st !! key_of ob) as [m'|]; [|done].
    destruct (heap st !! Obj m') as [old'|]; [|done]. by apply updated_heap_commute.
  - by rewrite insert_insert_ne.
Qed.

End properties.

(** ** Witnesses *)

Definition newerSentinel : RedisSentinel :=
  mkResource
    (mkObjectMeta "demo" "prod" "uid-1" "9" 2 1000 ∅ {[ "lovelycat.io/scope" := "cluster-scoped" ]} [])
    (mkSentinelSpec (set_Password "changed" (set_Size 5 sampleSpec)) sampleSettings) emptyStatus.
Definition otherSentinel : RedisSentinel :=
  mkResource (newMeta "other" "prod" ∅ []) (Spec sampleSentinel) emptyStatus.

Definition sampleStore : Store RedisSentinelSpec :=
  mkStore [sampleSentinel; newerSentinel; otherSentinel] ∅.

Lemma wf_empty (h : list RedisSentinel) : wf (mkStore h ∅).
Proof. intros k m H. simpl in H. by rewrite lookup_empty in H. Qed.

(** The store after the first caching of the first object. *)
Definition cachedStore : Store RedisSentinelSpec :=
  mkStore (heap sampleStore)
    {[ "prod/demo" := newCluster SentinelCache.bootstrap 0%nat sampleSentinel ]}.

Lemma wf_cachedStore : wf cachedStore.
Proof.
  intros k m H. simpl in H. apply lookup_singleton_Some in H as [<- <-]. by exists sampleSentinel.
Qed.

Lemma Cache_total_witness : exists m st', SentinelCache.Cache 0%nat sampleStore = Some (m, st') /\ wf st'.
Proof.
  destruct (Cache_total SentinelCache.bootstrap 0%nat sampleStore sampleSentinel (wf_empty _) eq_refl)
    as (m & st' & H & Hwf & _).
  by exists m, st'.
Defined.

Lemma password_immutable_witness :
  exists st' m1, Cache_all SentinelCache.bootstrap [1%nat] cachedStore = Some st' /\
    metas st' !! "prod/demo" = Some m1 /\ auth_Password (Auth m1) = "s3cret".
Proof.
  eexists. 
  destruct (password_immutable SentinelCache.bootstrap [1%nat] cachedStore _ "prod/demo"
    (newCluster SentinelCache.bootstrap 0%nat sampleSentinel) wf_cachedStore eq_refl eq_refl)
    as (m1 & o & H1 & H2 & _).
  exists m1. split; [reflexivity|]. split; [exact H1|]. by rewrite H2.
Defined.

Lemma Cache_state_witness :
  exists m st', SentinelCache.Cache 1%nat cachedStore = Some (m, st') /\ State m = StateUpdate.
Proof.
  eexists _, _. split; [reflexivity|].
  destruct (Cache_state SentinelCache.bootstrap 1%nat cachedStore newerSentinel _ _ wf_cachedStore
    eq_refl eq_refl) as (old & Hold & H).
  injection Hold as <-. apply H.
Defined.

Lemma Cache_commute_witness :
  exists m st1 st2, SentinelCache.Cache 0%nat sampleStore = Some (m, st1) /\
    Cache SentinelCache.bootstrap 0%nat (default sampleStore (snd <$> SentinelCache.Cache 2%nat sampleStore))
      = Some (m, st2).
Proof.
  destruct (Cache_commute SentinelCache.bootstrap 0%nat 2%nat sampleStore sampleSentinel otherSentinel
    _ _ _ _ (wf_empty _) eq_refl eq_refl ltac:(discriminate) eq_refl eq_refl) as (st2 & _ & H).
  eexists _, _, st2. split; [reflexivity|]. exact H.
Defined.
