(* ===== verification/Handler.v ===== *)
(** * The reconciliation of one resource, for both controllers

    [Do] and [updateStatus] of [redissentinel_handler.go] and
    [redisstandalone_handler.go] are the same text over different services; the
    services are a record of operations here, and the two handler files give
    the instances. A handler's program threads the store of the cache: the
    objects in its heap are changed in place, through addresses. *)

From S2P Require Import Prelude GoStd Corev1 Api Util Common Status Effects K8s Cache.

(** ** Programs that change the store *)

Definition M (S A : Type) : Type := Store S -> prog (A * Store S).

Definition retM {S A} (a : A) : M S A := fun st => Ret (a, st).
Definition bindM {S A B} (m : M S A) (f : A -> M S B) : M S B :=
  fun st => bind (m st) (fun '(a, st) => f a st).
Definition lift {S A} (p : prog A) : M S A := fun st => bind p (fun a => Ret (a, st)).

Notation "'do*' x ':=' m 'in' k" := (bindM m (fun x => k))
  (at level 10, x pattern, m at level 100, k at level 200).

Definition okM {S} : M S (result unit) := retM (inr tt).
Definition failM {S} (err : error) : M S (result unit) := retM (inl err).

(** Dereference and assign through an address. *)
Definition deref {S} (l : loc) : M S (CustomResource S) :=
  fun st => bind (or_panic (heap st !! l)) (fun o => Ret (o, st)).
Definition assign {S} (l : loc) (o : CustomResource S) : M S unit :=
  fun st => Ret (tt, write l o st).

(** The readings a condition setter takes; the last two are unused when the
    stored condition is replaced rather than refreshed. *)
Definition read_clock : prog Clock :=
  let* a := act Now in
  let* b := act Now in
  let* c := act Now in
  let* d := act Now in
  Ret (mkClock a b c d).

(** ** The services a handler calls *)

Record Operations (S : Type) := mkOperations {
  op_kind : kind;
  op_Kind : string;
  op_zero : S;
  op_Validate : CustomResource S -> CustomResource S * (bool * option error);
  op_UpdateSpec : string -> CustomResource S -> prog (CustomResource S * option error);
  op_UpdateStatus : string -> CustomResource S -> prog (CustomResource S * option error);
  op_Cache : loc -> Store S -> option (Meta * Store S);
  op_Ensure : CustomResource S -> StringMap -> list OwnerReference ->
    prog (CustomResource S * result unit);
  op_CheckAndHeal : CustomResource S -> Meta -> prog (result unit)
}.
Arguments mkOperations {S}.
Arguments op_kind {S}.
Arguments op_Kind {S}.
Arguments op_zero {S}.
Arguments op_Validate {S}.
Arguments op_UpdateSpec {S}.
Arguments op_UpdateStatus {S}.
Arguments op_Cache {S}.
Arguments op_Ensure {S}.
Arguments op_CheckAndHeal {S}.

(** [getLabels] and [createOwnerReferences]. *)
Definition getLabels {S} (rc : CustomResource S) : StringMap :=
  let dynLabels : StringMap :=
    {[ LabelNameKey := Namespace (meta rc) ^^ "_" ^^ Name (meta rc) ]} in
  MergeLabels [DefaultLabels; dynLabels; Labels (meta rc)].

Definition NewControllerRef (m : ObjectMeta) (gvk : string * string) : OwnerReference :=
  mkOwnerReference gvk.1 gvk.2 (Name m) (UID m) (Some true) (Some true).

Definition createOwnerReferences {S} (Kind : string) (rc : CustomResource S) : list OwnerReference :=
  [NewControllerRef (meta rc) (VersionKind Kind)].

Section handler.
  Context {TF : TimeFormat} {S : Type} (ops : Operations S).

(** An event about the object at an address. *)
Definition event_on (l : loc) (e : kind -> ObjectMeta -> prog unit) : M S unit :=
  do* o := deref l in lift (e (op_kind ops) (meta o)).

(** [rc.Status.SetXCondition(...)]. *)
Definition set_condition (l : loc) (set : Clock -> ClusterStatus -> ClusterStatus) : M S unit :=
  do* clk := lift read_clock in
  do* o := deref l in
  assign l (set_Status (set clk (Status o)) o).

(** The two updates of a custom resource, in place. *)
Definition UpdateStatusAt (l : loc) : M S (option error) :=
  do* o := deref l in
  do* (o, err) := lift (op_UpdateStatus ops (Namespace (meta o)) o) in
  do* _ := assign l o in
  retM err.

Definition UpdateSpecAt (l : loc) : M S (option error) :=
  do* o := deref l in
  do* (o, err) := lift (op_UpdateSpec ops (Namespace (meta o)) o) in
  do* _ := assign l o in
  retM err.

Definition updateStatus (m : Meta) : M S (option error) :=
  let rc := Obj m in
  if negb (bool_decide (State m = StateCheck)) then
    do* _ :=
      (if (m_Status m =? ClusterConditionCreating)%string then
         do* _ := event_on rc Event.CreateCluster in
         set_condition rc (fun clk => SetCreateCondition clk (Message m))
       else if (m_Status m =? ClusterConditionScaling)%string then
         do* _ := event_on rc (fun k o => Event.NewSlaveAdd k o (Message m)) in
         set_condition rc (fun clk => SetScalingUpCondition clk (Message m))
       else if (m_Status m =? ClusterConditionScalingDown)%string then
         do* _ := event_on rc (fun k o => Event.SlaveRemove k o (Message m)) in
         set_condition rc (fun clk => SetScalingDownCondition clk (Message m))
       else if (m_Status m =? ClusterConditionUpgrading)%string then
         do* _ := event_on rc (fun k o => Event.UpdateSentinelStatus k o (Message m)) in
         set_condition rc (fun clk => SetUpgradingCondition clk (Message m))
       else
         do* _ := event_on rc (fun k o => Event.UpdateSentinelStatus k o (Message m)) in
         set_condition rc (fun clk => SetUpdatingCondition clk (Message m))) in
    UpdateStatusAt rc
  else retM None.

(** The end of [Do] after a failure: event, condition, status, gauge. *)
Definition report_failure (rc : loc) (err : error) : M S (option error) :=
  do* _ := event_on rc (fun k o => Event.FailedCluster k o (Error err)) in
  do* _ := set_condition rc (fun clk => SetFailedCondition clk (Error err)) in
  UpdateStatusAt rc.

Definition set_error (rc : loc) : M S unit :=
  do* o := deref rc in
  lift (Metrics.SetClusterError (Namespace (meta o)) (Name (meta o))).

Definition set_ok (rc : loc) : M S unit :=
  do* o := deref rc in
  lift (Metrics.SetClusterOK (Namespace (meta o)) (Name (meta o))).

(** The handling of an error of [CheckAndHeal]. *)
Definition heal_failed (rc : loc) (err : error) : M S (result unit) :=
  do* _ := set_error rc in
  if negb (Error err =? NeedRequeueMsg)%string then
    do* updateFailedErr := report_failure rc err in
    match updateFailedErr with
    | Some e => failM e
    | None => failM err
    end
  else
    do* o := deref rc in
    match Conditions (Status o) with
    | c :: _ =>
        if (Type_ c =? ClusterConditionHealthy)%string then
          do* _ := event_on rc Event.CreateCluster in
          do* _ := set_condition rc (fun clk =>
            SetCreateCondition clk "redis server or sentinel server be removed by user, restart") in
          do* updateFailedErr := UpdateStatusAt rc in
          match updateFailedErr with
          | Some e => failM e
          | None => failM err
          end
        else failM err
    | [] => failM err
    end.

(** The successful end of [Do]. *)
Definition set_ready (rc : loc) : M S (result unit) :=
  do* _ := event_on rc Event.HealthCluster in
  do* _ := set_condition rc (fun clk => SetReadyCondition clk "Cluster ok") in
  do* updateFailedErr := UpdateStatusAt rc in
  match updateFailedErr with
  | Some e => failM e
  | None => do* _ := set_ok rc in okM
  end.

(** [Ensure(meta.Obj, labels, oRefs)] on the object in the heap. *)
Definition ensure_at (l : loc) (labels : StringMap) (oRefs : list OwnerReference)
    : M S (result unit) :=
  do* o := deref l in
  do* (o, r) := lift (op_Ensure ops o labels oRefs) in
  do* _ := assign l o in
  retM r.

(** [Do] after the validation: cache, status, ensure, check and heal. *)
Definition reconcile_valid (rc : loc) : M S (result unit) :=
  do* m := (fun st => or_panic (op_Cache ops rc st)) in
  do* statusErr := updateStatus m in
  match statusErr with
  | Some err => failM err
  | None =>
      do* o := deref rc in
      let oRefs := createOwnerReferences (op_Kind ops) o in
      let labels := getLabels o in
      do* _ := event_on rc Event.EnsureCluster in
      do* ensured := ensure_at (Obj m) labels oRefs in
      match ensured with
      | inl err =>
          do* updateFailedErr := report_failure rc err in
          match updateFailedErr with
          | Some e => failM e
          | None => do* _ := set_error rc in failM err
          end
      | inr _ =>
          do* _ := event_on rc Event.CheckCluster in
          do* mobj := deref (Obj m) in
          do* healed := lift (op_CheckAndHeal ops mobj m) in
          match healed with
          | inl err => heal_failed rc err
          | inr _ => set_ready rc
          end
      end
  end.

Definition Do (rc : loc) : M S (result unit) :=
  do* o := deref rc in
  let '(o, (modified, err)) := op_Validate ops o in
  do* _ := assign rc o in
  match err with
  | Some err => do* _ := set_error rc in failM err
  | None =>
      if (modified : bool) then
        do* updateErr := UpdateSpecAt rc in
        match updateErr with
        | Some e => failM e
        | None => failM ErrNeedRequeueImmediately
        end
      else reconcile_valid rc
  end.

End handler.
