(* ===== verification/SentinelHandler.v ===== *)
(** * The sentinel handler ([controllers/redissentinel_handler.go])

    [Ensure], [CheckAndHeal] and the loops they call; [Do] is the instance of
    [Handler.Do]. The wait for a restored sentinel polls until a timer fires:
    the timer is read off the clock and the number of turns is bounded by
    [fuel]. *)

From S2P Require Import Prelude GoStd Corev1 Api Samples Util Common Names Status Validate.
From S2P Require Import Effects K8s RedisClient SentinelGen SentinelCheck SentinelHeal SentinelClient.
From S2P Require Import Cache Handler.

Definition checkInterval : Z := 5 * second.
Definition timeOut : Z := 30 * second.

Section handler.
  Context {TF : TimeFormat} {QO : QuantityOrder} (fuel : nat).

(** ** [Ensure] *)

Definition Ensure (rc : RedisSentinel) (labels : StringMap) (or : list OwnerReference)
    : prog (RedisSentinel * result unit) :=
  let* pre :=
    (let? _ := EnsureRedisService rc labels or in
     let? _ := EnsureSentinelService rc labels or in
     let? _ := EnsureSentinelHeadlessService rc labels or in
     let? _ := (if Enabled (Exporter (redis (Spec rc)))
                then EnsureRedisMonitorService rc labels or else ok tt) in
     let? _ := EnsureSentinelConfigMap rc labels or in
     let? _ := EnsureSentinelProbeConfigMap rc labels or in
     EnsureRedisShutdownConfigMap rc labels or) in
  match pre with
  | inl err => Ret (rc, inl err)
  | inr _ =>
      let* (rc, r) := EnsureRedisStatefulset rc labels or in
      match r with
      | inl err => Ret (rc, inl err)
      | inr _ =>
          let* r := EnsureSentinelStatefulset rc labels or in
          Ret (rc, r)
      end
  end.

(** ** [CheckAndHeal] *)

Definition notify (rc : RedisSentinel) (e : kind -> ObjectMeta -> prog unit) : prog unit :=
  e KRedisSentinel (meta rc).

Definition setRedisConfig (rc : RedisSentinel) (m : Meta) : prog (result unit) :=
  let? redises := GetRedisesIPs rc (Auth m) in
  for_each redises (fun rip =>
    let* checked := CheckRedisConfig rc rip (Auth m) in
    match checked with
    | inl _ =>
        let* _ := notify rc (fun k o =>
          Event.UpdateSentinelStatus k o "set custom config for redis server") in
        SetRedisCustomConfig rip rc (Auth m)
    | inr _ => ok tt
    end).

Definition setSentinelConfig (rc : RedisSentinel) (m : Meta) (sentinels : list string)
    : prog (result unit) :=
  if bool_decide (State m = StateCheck) then ok tt
  else for_each sentinels (fun sip => SetSentinelCustomConfig sip rc (Auth m)).

Definition timeout_error : error := errors_New "wait for resetore sentinel slave timeout".

Fixpoint wait_loop (turns : nat) (start : Z) (sentinel : string) (rc : RedisSentinel)
    (auth : AuthConfig) : prog (result unit) :=
  match turns with
  | O => OutOfFuel
  | S turns =>
      let* now := act Now in
      if timeOut <=? now - start then fail timeout_error
      else
        let* checked := CheckSentinelSlavesNumberInMemory sentinel rc auth in
        match checked with
        | inl _ =>
            let* _ := act (Sleep checkInterval) in
            wait_loop turns start sentinel rc auth
        | inr _ => ok tt
        end
  end.

Definition waitRestoreSentinelSlavesOK (sentinel : string) (rc : RedisSentinel) (auth : AuthConfig)
    : prog (result unit) :=
  let* start := act Now in
  wait_loop fuel start sentinel rc auth.

(** The switch on the number of masters. *)
Definition heal_masters (rc : RedisSentinel) (m : Meta) (nMasters : Z) : prog (result unit) :=
  if nMasters =? 0 then
    let* _ := notify rc (fun k o => Event.UpdateSentinelStatus k o "set master") in
    let? redisesIP := GetRedisesIPs rc (Auth m) in
    match redisesIP with
    | [ip] => SentinelHeal.MakeMaster ip (Auth m)
    | _ =>
        let? minTime := GetMinimumRedisPodTime rc in
        SetOldestAsMaster rc (Auth m)
    end
  else if nMasters =? 1 then ok tt
  else fail (errors_New "more than one master, fix manually").

(** The three loops over the sentinels. *)
Definition heal_monitors (rc : RedisSentinel) (m : Meta) (master : string)
    (sentinels : list string) : prog (result unit) :=
  for_each sentinels (fun sip =>
    let* checked := CheckSentinelMonitor sip master (Auth m) in
    match checked with
    | inl _ => NewSentinelMonitor sip master rc (Auth m)
    | inr _ => ok tt
    end).

Definition heal_slaves (rc : RedisSentinel) (m : Meta) (sentinels : list string)
    : prog (result unit) :=
  for_each sentinels (fun sip =>
    let* checked := CheckSentinelSlavesNumberInMemory sip rc (Auth m) in
    match checked with
    | inl _ =>
        let? _ := RestoreSentinel sip (Auth m) in
        waitRestoreSentinelSlavesOK sip rc (Auth m)
    | inr _ => ok tt
    end).

Definition heal_sentinels (rc : RedisSentinel) (m : Meta) (sentinels : list string)
    : prog (result unit) :=
  for_each sentinels (fun sip =>
    let* checked := CheckSentinelNumberInMemory sip rc (Auth m) in
    match checked with
    | inl _ => RestoreSentinel sip (Auth m)
    | inr _ => ok tt
    end).

(** The one master, and the others told to follow it unless they do. *)
Definition agree_on_master (rc : RedisSentinel) (m : Meta) : prog (result string) :=
  let? master := GetMasterIP rc (Auth m) in
  let* checked := CheckAllSlavesFromMaster master rc (Auth m) in
  let? _ :=
    (match checked with
     | inl _ => SetMasterOnAll master rc (Auth m)
     | inr _ => ok tt
     end) in
  ok master.

(** From the agreement on one master to the readiness of the sentinels. *)
Definition heal_replication (rc : RedisSentinel) (m : Meta) : prog (result unit) :=
  let? master := agree_on_master rc m in
  let? _ := setRedisConfig rc m in
  let? sentinels := GetSentinelsIPs rc in
  let? _ := heal_monitors rc m master sentinels in
  let? _ := heal_slaves rc m sentinels in
  let? _ := heal_sentinels rc m sentinels in
  let? _ := setSentinelConfig rc m sentinels in
  EnsureSentinelReady rc.

Definition CheckAndHeal (rc : RedisSentinel) (m : Meta) : prog (result unit) :=
  let* numbers := CheckRedisNumber rc in
  match numbers with
  | inl _ =>
      let* _ := notify rc (fun k o =>
        Event.UpdateSentinelStatus k o "wait for all redis server start") in
      fail ErrNeedRequeue
  | inr _ =>
      let* sentinels := CheckSentinelNumber rc in
      match sentinels with
      | inl err =>
          let* _ := notify rc (fun k o => Event.FailedCluster k o (Error err)) in
          ok tt
      | inr _ =>
          let? nMasters := GetNumberMasters rc (Auth m) in
          let? _ := heal_masters rc m nMasters in
          heal_replication rc m
      end
  end.

(** ** [Do] *)

Definition operations : Operations RedisSentinelSpec :=
  mkOperations KRedisSentinel RedisSentinelKind (mkSentinelSpec emptySpec emptySettings)
    RedisSentinel_Validate UpdateSentinelSpec UpdateSentinelStatus SentinelCache.Cache
    Ensure CheckAndHeal.

Definition updateStatus : Meta -> M RedisSentinelSpec (option error) := updateStatus operations.

Definition Do : loc -> M RedisSentinelSpec (result unit) := Do operations.

End handler.
