(* ===== verification/StandaloneHandler.v ===== *)
(** * The standalone handler ([controllers/redisstandalone_handler.go]) *)

From S2P Require Import Prelude GoStd Corev1 Api Samples Util Common Names Status Validate.
From S2P Require Import Effects K8s RedisClient StandaloneGen StandaloneService Cache Handler.

Section handler.
  Context {TF : TimeFormat} {QO : QuantityOrder}.

Definition notify (rc : RedisStandalone) (e : kind -> ObjectMeta -> prog unit) : prog unit :=
  e KRedisStandalone (meta rc).

(** The same as the sentinel handler's. *)
Definition getLabels : RedisStandalone -> StringMap := Handler.getLabels.
Definition createOwnerReferences : RedisStandalone -> list OwnerReference :=
  Handler.createOwnerReferences RedisStandaloneKind.

Definition setRedisConfig (rc : RedisStandalone) (m : Meta) : prog (result unit) :=
  let? redises := GetRedisesIPs rc in
  for_each redises (fun rip =>
    let* checked := CheckRedisConfig rc rip (Auth m) in
    match checked with
    | inl _ =>
        let* _ := notify rc (fun k o =>
          Event.UpdateSentinelStatus k o "set custom config for redis server") in
        SetRedisCustomConfig rip rc (Auth m)
    | inr _ => ok tt
    end).

Definition CheckAndHeal (rc : RedisStandalone) (m : Meta) : prog (result unit) :=
  let* numbers := CheckRedisNumber rc in
  match numbers with
  | inl _ =>
      let* _ := notify rc (fun k o =>
        Event.UpdateSentinelStatus k o "wait for all redis server start") in
      fail ErrNeedRequeue
  | inr _ =>
      let? _ := setRedisConfig rc m in
      ok tt
  end.

Definition Ensure (rc : RedisStandalone) (labels : StringMap) (or : list OwnerReference)
    : prog (RedisStandalone * result unit) :=
  let* pre :=
    (let? _ := EnsureRedisService rc labels or in
     let? _ := EnsureRedisHeadlessService rc labels or in
     let? _ := EnsureRedisConfigMap rc labels or in
     let? _ := EnsureRedisShutdownConfigMap rc labels or in
     if Enabled (Exporter (Spec rc)) then EnsureRedisMonitorService rc labels or else ok tt) in
  match pre with
  | inl err => Ret (rc, inl err)
  | inr _ => EnsureRedisStatefulset rc labels or
  end.

Definition operations : Operations RedisStandaloneSpec :=
  mkOperations KRedisStandalone RedisStandaloneKind emptySpec
    RedisStandalone_Validate UpdateStandaloneSpec UpdateStandaloneStatus StandaloneCache.Cache
    Ensure CheckAndHeal.

Definition updateStatus : Meta -> M RedisStandaloneSpec (option error) := updateStatus operations.

Definition Do : loc -> M RedisStandaloneSpec (result unit) := Do operations.

End handler.
