(* ===== verification/Controller.v ===== *)
(** * The controllers ([controllers/redissentinel_controller.go],
      [controllers/redisstandalone_controller.go])

    [Reconcile], which turns what the handler returns into a request to be
    called again, and the event predicates of [SetupWithManager]. *)

From S2P Require Import Prelude GoStd Corev1 Api Util Common Effects K8s SentinelCheck.
From S2P Require Import Status Cache Handler SentinelHandler StandaloneHandler.

Record Result := mkResult { Requeue : bool; RequeueAfter : Z }.

Definition noRequeue : Result := mkResult false 0.

(** A result and a possibly nil error. *)
Definition reconciled : Type := Result * option error.

Section reconcile.
  Context {TF : TimeFormat} {S : Type} (ops : Operations S).

(** The deleted resource: only its key is known. *)
Definition forget (namespace name : string) : M S reconciled :=
  fun st =>
    let '(instance, st) :=
      alloc (mkResource (newMeta name namespace ∅ []) (op_zero ops) emptyStatus) st in
    let* st := or_panic (Del instance st) in
    Ret ((noRequeue, None), st).

(** The switch on the handler's error: the message decides. *)
Definition requeue_of (needRequeueAfter : Z) (err : error) : reconciled :=
  if (Error err =? NeedRequeueImmediatelyMsg)%string then (mkResult true 0, None)
  else if (Error err =? NeedRequeueMsg)%string then (mkResult false needRequeueAfter, None)
  else (noRequeue, Some err).

End reconcile.

(** ** The predicates of the watch: what is known of an event's object *)

(** What the watch reports, and [predicate.Funcs]; where a function is nil the
    library lets the event pass. *)
Inductive WatchEvent :=
| CreateEvent (obj : ObjectMeta)
| DeleteEvent (obj : ObjectMeta) (DeleteStateUnknown : bool)
| UpdateEvent (objOld objNew : ObjectMeta)
| GenericEvent (obj : ObjectMeta).

Record Funcs := mkFuncs {
  CreateFunc : ObjectMeta -> bool;
  DeleteFunc : ObjectMeta -> bool -> prog bool;
  UpdateFunc : ObjectMeta -> ObjectMeta -> bool;
  GenericFunc : option (ObjectMeta -> bool)
}.

Definition passes (pred : Funcs) (e : WatchEvent) : prog bool :=
  match e with
  | CreateEvent obj => Ret (CreateFunc pred obj)
  | DeleteEvent obj unknown => DeleteFunc pred obj unknown
  | UpdateEvent objOld objNew => Ret (UpdateFunc pred objOld objNew)
  | GenericEvent obj => Ret (match GenericFunc pred with Some f => f obj | None => true end)
  end.

Definition CreateFunc_sentinel (obj : ObjectMeta) : bool :=
  if negb (ShouldManage obj) then false else true.

(** The sentinel controller also drops the resource's gauge. *)
Definition DeleteFunc_sentinel (obj : ObjectMeta) (DeleteStateUnknown : bool) : prog bool :=
  if negb (ShouldManage obj) then Ret false
  else
    let* _ := Metrics.DeleteCluster (Namespace obj) (Name obj) in
    Ret (negb DeleteStateUnknown).

Definition UpdateFunc_sentinel (objOld objNew : ObjectMeta) : bool :=
  if negb (ShouldManage objNew) then false
  else if negb (Generation objOld =? Generation objNew) then true
  else false.

Definition pred_sentinel : Funcs :=
  mkFuncs CreateFunc_sentinel DeleteFunc_sentinel UpdateFunc_sentinel None.

Definition CreateFunc_standalone (obj : ObjectMeta) : bool :=
  if negb (ShouldManage obj) then false else true.

Definition DeleteFunc_standalone (obj : ObjectMeta) (DeleteStateUnknown : bool) : prog bool :=
  if negb (ShouldManage obj) then Ret false else Ret (negb DeleteStateUnknown).

Definition UpdateFunc_standalone (objOld objNew : ObjectMeta) : bool :=
  if negb (ShouldManage objNew) then false
  else if negb (Generation objOld =? Generation objNew) then true
  else false.

Definition pred_standalone : Funcs :=
  mkFuncs CreateFunc_standalone DeleteFunc_standalone UpdateFunc_standalone None.

Section controllers.
  Context {TF : TimeFormat} {QO : QuantityOrder} (fuel : nat).

(** [(r *RedisSentinelReconciler) Reconcile]. *)
Definition Reconcile_sentinel (namespace name : string) : M RedisSentinelSpec reconciled :=
  do* got := lift (act (Get KRedisSentinel namespace name)) in
  match got with
  | inl err =>
      if IsNotFound err then forget (SentinelHandler.operations fuel) namespace name
      else retM (noRequeue, Some err)
  | inr instance =>
      do* rc := (fun st => Ret (alloc instance st)) in
      do* done := SentinelHandler.Do fuel rc in
      match done with
      | inl err => retM (requeue_of (20 * second) err)
      | inr _ =>
          do* o := deref rc in
          do* ready := lift (CheckSentinelReadyReplicas o) in
          match ready with
          | inl _ => retM (mkResult false (20 * second), None)
          | inr _ => retM (mkResult false (ReconcileTime * second), None)
          end
      end
  end.

(** [(r *RedisStandaloneReconciler) Reconcile]. *)
Definition Reconcile_standalone (namespace name : string) : M RedisStandaloneSpec reconciled :=
  do* got := lift (act (Get KRedisStandalone namespace name)) in
  match got with
  | inl err =>
      if IsNotFound err then forget StandaloneHandler.operations namespace name
      else retM (noRequeue, Some err)
  | inr instance =>
      do* rc := (fun st => Ret (alloc instance st)) in
      do* done := StandaloneHandler.Do rc in
      match done with
      | inl err => retM (requeue_of (ReconcileTime * second) err)
      | inr _ => retM (mkResult false (ReconcileTime * second), None)
      end
  end.

(** A reconciler when it is made: the services of its handler, and the empty
    cache. *)
Record Reconciler (S : Type) := mkReconciler { handler : Operations S; metaCache : Store S }.

Definition NewRedisSentinelReconciler : Reconciler RedisSentinelSpec :=
  mkReconciler RedisSentinelSpec (SentinelHandler.operations fuel) (mkStore [] ∅).

Definition NewRedisStandaloneReconciler : Reconciler RedisStandaloneSpec :=
  mkReconciler RedisStandaloneSpec StandaloneHandler.operations (mkStore [] ∅).

End controllers.
Arguments handler {S}.
Arguments metaCache {S}.
