(* ===== verification/EnsureProps.v ===== *)
(** * What [Ensure] guarantees

    Which requests it can make, that success means every object was seen or
    made, and that it leaves a settled cluster alone. *)

From S2P Require Import Prelude GoStd Corev1 Api Samples Util Common Names Effects K8s.
From S2P Require Import SentinelGen SentinelClient StandaloneGen StandaloneService Objects.
From S2P Require Import Cache Handler SentinelHandler StandaloneHandler.

(** ** Requests *)

(** What a request reads or writes lies in one namespace; writes carry the
    owner references, and the only objects updated are StatefulSets. *)
Definition confined (ns : string) (refs : list OwnerReference) (e : Eff) : Prop :=
  match e with
  | Get _ namespace _ => namespace = ns
  | Create k o => Namespace (object_meta k o) = ns /\ OwnerReferences (object_meta k o) = refs
  | Update k o =>
      k = KStatefulSet /\ Namespace (object_meta k o) = ns /\ OwnerReferences (object_meta k o) = refs
  | Seed => True
  | _ => False
  end.

Lemma createIfNotExists_confined ns refs k (o : object k) :
  Namespace (object_meta k o) = ns -> OwnerReferences (object_meta k o) = refs ->
  every (confined ns refs) (createIfNotExists k ns o).
Proof. intros H1 H2. unfold createIfNotExists, get, create. every_walk; by simpl. Qed.

#[export] Hint Resolve createIfNotExists_confined : go.

Ltac confined_step := every_walk; try (apply createIfNotExists_confined; reflexivity); by simpl.

Section confined.
  Context {QO : QuantityOrder}.

Lemma sentinel_redis_statefulset_confined rc l refs :
  every (confined (Namespace (meta rc)) refs) (SentinelClient.EnsureRedisStatefulset rc l refs).
Proof.
  unfold SentinelClient.EnsureRedisStatefulset, ensurePodDisruptionBudget,
    CreateIfNotExistsPodDisruptionBudget, GetStatefulSet, CreateStatefulSet, UpdateStatefulSet,
    get, create, update, SentinelGen.generateRedisStatefulSet. confined_step.
Qed.

Lemma sentinel_statefulset_confined rc l refs :
  every (confined (Namespace (meta rc)) refs) (EnsureSentinelStatefulset rc l refs).
Proof.
  unfold EnsureSentinelStatefulset, ensurePodDisruptionBudget,
    CreateIfNotExistsPodDisruptionBudget, GetStatefulSet, CreateStatefulSet, UpdateStatefulSet,
    get, create, update. confined_step.
Qed.

Lemma standalone_statefulset_confined rc l refs :
  every (confined (Namespace (meta rc)) refs) (StandaloneService.EnsureRedisStatefulset rc l refs).
Proof.
  unfold StandaloneService.EnsureRedisStatefulset, GetStatefulSet, CreateStatefulSet,
    UpdateStatefulSet, get, create, update, StandaloneGen.generateRedisStatefulSet. confined_step.
Qed.

(** The resource the redis StatefulSet is generated from keeps its metadata. *)
Lemma EnsureRedisStatefulset_meta rc l refs :
  wlp (SentinelClient.EnsureRedisStatefulset rc l refs) (fun _ '(rc', _) => meta rc' = meta rc).
Proof.
  unfold SentinelClient.EnsureRedisStatefulset, SentinelGen.generateRedisStatefulSet.
  apply wlp_bind. apply (wp_mono _ (fun _ _ => True)).
  2:{ generalize (ensurePodDisruptionBudget rc RedisName RedisRoleName l refs). clear.
      intros p. induction p; simpl; auto. }
  intros t [[err|[]]| |] _; [done| |done..].
  apply wlp_bind. intros [err|old]; simpl.
  - destruct (IsNotFound err); simpl; [|done]. intros [e|[]]; done.
  - destruct (head _); simpl; [|done]. destruct (ss_Replicas old); simpl; [|done].
    destruct (_ || _); simpl; [|done]. intros [e|o]; done.
Qed.
End confined.

Section ensure_confined.
  Context {QO : QuantityOrder}.

Lemma EnsureRedisConfigMap_confined rs l refs :
  every (confined (Namespace (meta rs)) refs) (StandaloneService.EnsureRedisConfigMap rs l refs).
Proof.
  unfold StandaloneService.EnsureRedisConfigMap, generateRedisConfigMap, range_map.
  split; [done|]. intros seed. simpl. split; [done|]. intros [err|cm]; [|done].
  unfold create. destruct (IsNotFound err); [|done]. by split.
Qed.

Lemma sentinel_Ensure_confined rc l refs :
  every (confined (Namespace (meta rc)) refs) (SentinelHandler.Ensure rc l refs).
Proof.
  unfold SentinelHandler.Ensure. apply every_bind.
  { unfold SentinelClient.EnsureRedisService, EnsureSentinelService, EnsureSentinelHeadlessService,
      SentinelClient.EnsureRedisMonitorService, EnsureSentinelConfigMap,
      EnsureSentinelProbeConfigMap, SentinelClient.EnsureRedisShutdownConfigMap,
      CreateIfNotExistsService, CreateIfNotExistsConfigMap, GetConfigMap, get. confined_step. }
  intros [err|_]; [done|].
  apply (every_bind_wlp _ (fun a : RedisSentinel * result unit => meta a.1 = meta rc));
    [apply sentinel_redis_statefulset_confined| |].
  { eapply wlp_mono; [|apply EnsureRedisStatefulset_meta]. by intros _ [rc' r]. }
  intros [rc' [err|u]] Hm; [done|]. simpl in Hm.
  apply every_bind; [|done]. rewrite <- Hm. apply sentinel_statefulset_confined.
Qed.

Lemma standalone_Ensure_confined rs l refs :
  every (confined (Namespace (meta rs)) refs) (StandaloneHandler.Ensure rs l refs).
Proof.
  unfold StandaloneHandler.Ensure. apply every_bind.
  { unfold StandaloneService.EnsureRedisService, EnsureRedisHeadlessService,
      StandaloneService.EnsureRedisMonitorService, StandaloneService.EnsureRedisShutdownConfigMap,
      CreateIfNotExistsService, CreateIfNotExistsConfigMap, GetConfigMap, get. every_walk;
      first [by simpl | apply createIfNotExists_confined; reflexivity
            | apply EnsureRedisConfigMap_confined]. }
  intros [err|_]; [done|]. apply standalone_statefulset_confined.
Qed.

(** C24: [Ensure] stays inside the resource's namespace. For every answer of
    the API server, each request of [SentinelHandler.Ensure] and of
    [StandaloneHandler.Ensure] is a read in the resource's namespace, a creation
    there of an object that carries the given owner references, or an update
    of a StatefulSet there; nothing is ever deleted, and no other kind of object
    is ever modified. *)
Theorem Ensure_confined rc rs l refs :
  every (confined (Namespace (meta rc)) refs) (SentinelHandler.Ensure rc l refs) /\
  every (confined (Namespace (meta rs)) refs) (StandaloneHandler.Ensure rs l refs).
Proof. split; [apply sentinel_Ensure_confined|apply standalone_Ensure_confined]. Qed.
End ensure_confined.

(** ** Success: every object was found or made *)

Definition seen (ns : string) (t : list event) (req : kind * string) : Prop :=
  let '(k, name) := req in
  (exists o, ev (Get k ns name) (inr o) ∈ t) \/
  (exists o, ev (Create k o) (inr tt) ∈ t /\ Namespace (object_meta k o) = ns /\
     Name (object_meta k o) = name).

Lemma seen_app_l ns t t' req : seen ns t req -> seen ns (t ++ t') req.
Proof.
  destruct req as [k n]. unfold seen.
  intros [[o H]|(o & H & Ho)]; [left|right]; exists o; [|split; [|done]]; apply elem_of_app; by left.
Qed.
Lemma seen_app_r ns t t' req : seen ns t' req -> seen ns (t ++ t') req.
Proof.
  destruct req as [k n]. unfold seen.
  intros [[o H]|(o & H & Ho)]; [left|right]; exists o; [|split; [|done]]; apply elem_of_app; by right.
Qed.

(** If [p] succeeds, the required objects were found or made. *)
Definition ensures (ns : string) (p : prog (result unit)) (reqs : list (kind * string)) : Prop :=
  wlp p (fun t r => r = inr tt -> Forall (seen ns t) reqs).

Lemma ensures_try ns m (f : unit -> prog (result unit)) reqs reqs' :
  ensures ns m reqs -> (forall a, ensures ns (f a) reqs') -> ensures ns (try m f) (reqs ++ reqs').
Proof.
  intros Hm Hf. apply wlp_try. eapply wlp_mono, Hm. intros t [err|a] Ht; [done|].
  eapply wlp_mono, Hf. intros t' r Ht' Hr. destruct a. apply Forall_app. split.
  - eapply Forall_impl; [by apply Ht|]. intros req. apply seen_app_l.
  - eapply Forall_impl; [by apply Ht'|]. intros req. apply seen_app_r.
Qed.

Lemma ensures_create k ns (o : object k) :
  Namespace (object_meta k o) = ns ->
  ensures ns (createIfNotExists k ns o) [(k, Name (object_meta k o))].
Proof.
  intros Hns. unfold ensures, createIfNotExists, get, create.
  intros [err|stored]; simpl.
  - destruct (IsNotFound err); simpl; [|done]. intros [e|[]]; [done|]. intros _.
    constructor; [|done]. right. exists o. split; [|done]. right. left.
  - intros _. constructor; [|done]. left. exists stored. left.
Qed.

Section ensure_success.
  Context {QO : QuantityOrder}.

Definition sentinel_objects (rc : RedisSentinel) : list (kind * string) :=
  ([(KService, Names.Sentinel.GetRedisName rc)] ++ [(KService, Names.Sentinel.GetSentinelName rc)] ++
   [(KService, Names.Sentinel.GetSentinelHeadlessSvc rc)] ++
   (if Enabled (Exporter (redis (Spec rc)))
    then [(KService, Names.Sentinel.GetRedisName rc ^^ "-monitor")] else []) ++
   [(KConfigMap, Names.Sentinel.GetSentinelName rc)] ++
   [(KConfigMap, Names.Sentinel.GetSentinelReadinessCm rc)] ++
   [(KConfigMap, Names.Sentinel.GetRedisShutdownConfigMapName rc)]) ++
  [(KPodDisruptionBudget, GenerateName RedisName (Name (meta rc)));
   (KStatefulSet, Names.Sentinel.GetRedisName rc)] ++
  [(KPodDisruptionBudget, GenerateName SentinelName (Name (meta rc)));
   (KStatefulSet, Names.Sentinel.GetSentinelName rc)].

Lemma shutdown_map_ensures rc l refs :
  ensures (Namespace (meta rc)) (SentinelClient.EnsureRedisShutdownConfigMap rc l refs)
    [(KConfigMap, Names.Sentinel.GetRedisShutdownConfigMapName rc)].
Proof.
  unfold SentinelClient.EnsureRedisShutdownConfigMap.
  destruct (negb _) eqn:E; [|by apply (ensures_create KConfigMap)].
  unfold Names.Sentinel.GetRedisShutdownConfigMapName. rewrite E.
  intros [err|cm]; simpl; [done|]. intros _. constructor; [|done]. left. exists cm. left.
Qed.

(** The StatefulSet's part: found, updated or made. *)
Lemma sentinel_set_ensures rc l refs :
  ensures (Namespace (meta rc)) (EnsureSentinelStatefulset rc l refs)
    [(KPodDisruptionBudget, GenerateName SentinelName (Name (meta rc)));
     (KStatefulSet, Names.Sentinel.GetSentinelName rc)].
Proof.
  unfold EnsureSentinelStatefulset.
  apply (ensures_try _ _ _ [_] [_]); [by apply (ensures_create KPodDisruptionBudget)|]. intros _.
  intros [err|old]; simpl.
  - destruct (IsNotFound err); simpl; [|done]. intros [e|[]]; [done|]. intros _.
    constructor; [|done]. right. eexists. split; [right; left|done].
  - destruct (head _); simpl; [|done]. destruct (ss_Replicas old); simpl; [|done].
    destruct (SentinelClient.shouldUpdateRedis _ _ _ _).
    + intros [e|o]; [done|]. intros _. constructor; [|done]. left. exists old. left.
    + intros _. constructor; [|done]. left. exists old. left.
Qed.

Lemma redis_set_ensures rc l refs :
  wlp (SentinelClient.EnsureRedisStatefulset rc l refs) (fun t '(_, r) => r = inr tt ->
    Forall (seen (Namespace (meta rc)) t)
      [(KPodDisruptionBudget, GenerateName RedisName (Name (meta rc)));
       (KStatefulSet, Names.Sentinel.GetRedisName rc)]).
Proof.
  unfold SentinelClient.EnsureRedisStatefulset. apply wlp_bind.
  eapply wlp_mono; [|by apply (ensures_create KPodDisruptionBudget)].
  intros t [err|[]] Ht; [done|]. specialize (Ht eq_refl).
  assert (forall t', seen (Namespace (meta rc)) t' (KStatefulSet, Names.Sentinel.GetRedisName rc) ->
    Forall (seen (Namespace (meta rc)) (t ++ t'))
      [(KPodDisruptionBudget, GenerateName RedisName (Name (meta rc)));
       (KStatefulSet, Names.Sentinel.GetRedisName rc)]) as Happ.
  { intros t' Ht'. constructor.
    - apply seen_app_l. by inv Ht.
    - constructor; [|done]. by apply seen_app_r. }
  unfold SentinelGen.generateRedisStatefulSet. intros [err|old]; simpl.
  - destruct (IsNotFound err); simpl; [|done]. intros [e|[]]; [done|]. intros _. apply Happ.
    right. eexists. split; [right; left|done].
  - destruct (head _); simpl; [|done]. destruct (ss_Replicas old); simpl; [|done].
    destruct (_ || _).
    + intros [e|o]; [done|]. intros _. apply Happ. left. exists old. left.
    + intros _. apply Happ. left. exists old. left.
Qed.

(** The steps before the StatefulSets. *)
Lemma Ensure_first_objects rc l refs :
  ensures (Namespace (meta rc))
    (let? _ := SentinelClient.EnsureRedisService rc l refs in
     let? _ := EnsureSentinelService rc l refs in
     let? _ := EnsureSentinelHeadlessService rc l refs in
     let? _ := (if Enabled (Exporter (redis (Spec rc)))
                then SentinelClient.EnsureRedisMonitorService rc l refs else ok tt) in
     let? _ := EnsureSentinelConfigMap rc l refs in
     let? _ := EnsureSentinelProbeConfigMap rc l refs in
     SentinelClient.EnsureRedisShutdownConfigMap rc l refs)
    ([(KService, Names.Sentinel.GetRedisName rc)] ++ [(KService, Names.Sentinel.GetSentinelName rc)] ++
     [(KService, Names.Sentinel.GetSentinelHeadlessSvc rc)] ++
     (if Enabled (Exporter (redis (Spec rc)))
      then [(KService, Names.Sentinel.GetRedisName rc ^^ "-monitor")] else []) ++
     [(KConfigMap, Names.Sentinel.GetSentinelName rc)] ++
     [(KConfigMap, Names.Sentinel.GetSentinelReadinessCm rc)] ++
     [(KConfigMap, Names.Sentinel.GetRedisShutdownConfigMapName rc)]).
Proof.
  repeat (apply ensures_try; [|intros _]);
    try (by apply (ensures_create KService)); try (by apply (ensures_create KConfigMap));
    [|apply shutdown_map_ensures].
  destruct (Enabled _); [by apply (ensures_create KService)|]. intros _. constructor.
Qed.

(** If [Ensure] of a sentinel cluster succeeds then each of its objects
    (three services, the monitor service when there is an exporter, three
    ConfigMaps, two disruption budgets and two StatefulSets) was found in the
    cluster during the call or was successfully created by it. *)
Theorem Ensure_complete rc l refs :
  wlp (SentinelHandler.Ensure rc l refs) (fun t '(_, r) => r = inr tt ->
    Forall (seen (Namespace (meta rc)) t) (sentinel_objects rc)).
Proof.
  unfold SentinelHandler.Ensure. apply wlp_bind.
  eapply wlp_mono; [|apply Ensure_first_objects].
  intros t [err|[]] Ht; [done|]. specialize (Ht eq_refl).
  apply wlp_bind.
  eapply wlp_mono; [|apply wlp_conj; [apply redis_set_ensures|apply EnsureRedisStatefulset_meta]].
  intros t1 [rc' [err|[]]] [H1 H2]; [done|]. specialize (H1 eq_refl).
  apply wlp_bind. eapply wlp_mono; [|apply sentinel_set_ensures].
  intros t2 r H3. unfold wlp. simpl. intros ->. specialize (H3 eq_refl).
  unfold Names.Sentinel.GetSentinelName in H3. rewrite H2 in H3.
  unfold sentinel_objects. apply Forall_app. split; [|apply Forall_app; split].
  - eapply Forall_impl; [exact Ht|]. intros req. apply seen_app_l.
  - eapply Forall_impl; [exact H1|]. intros req Hr. by apply seen_app_r, seen_app_l.
  - eapply Forall_impl; [exact H3|]. intros req Hr. by apply seen_app_r, seen_app_r, seen_app_l.
Qed.
End ensure_success.

(** ** Totality *)

(** An answer the code cannot digest: a StatefulSet without containers, or
    without a replica count. *)
Definition malformed (e : event) : Prop :=
  match e with
  | existT e r =>
      match e return resp e -> Prop with
      | Get k ns name =>
          match k return result (object k) -> Prop with
          | KStatefulSet => fun r =>
              match r with
              | inr ss => ps_Containers (pt_Spec (ss_Template ss)) = [] \/ ss_Replicas ss = None
              | inl _ => False
              end
          | _ => fun _ => False
          end
      | _ => fun _ => False
      end r
  end.

(** [p] returns, unless it was given such an answer. *)
Definition total {A} (p : prog A) : Prop :=
  wp p (fun t o => match o with Returns _ => True | Panics => Exists malformed t | Stuck => False end).

Lemma total_bind {A B} (m : prog A) (f : A -> prog B) :
  total m -> (forall a, total (f a)) -> total (bind m f).
Proof.
  intros Hm Hf. apply wp_bind. eapply wp_mono, Hm. intros t [a| |]; [|done..]. intros _.
  eapply wp_mono, Hf. intros t' [b| |]; [done| |done]. intros H. apply Exists_app. by right.
Qed.

Lemma total_try {A B} (m : prog (result A)) (f : A -> prog (result B)) :
  total m -> (forall a, total (f a)) -> total (try m f).
Proof. intros Hm Hf. apply total_bind; [done|]. by intros [err|a]. Qed.

Lemma total_act e : total (act e).
Proof. intros r. exact I. Qed.

Lemma total_create k ns (o : object k) : total (createIfNotExists k ns o).
Proof.
  apply total_bind; [apply total_act|]. intros [err|x]; [|done].
  destruct (IsNotFound err); [apply total_act|done].
Qed.

(** The common shape: read the StatefulSet, then look into it. *)
Lemma total_get_set {B} ns name (f : error -> prog B) (g : StatefulSet -> Container -> Z -> prog B) :
  (forall err, total (f err)) -> (forall ss c n, total (g ss c n)) ->
  total (let* got := GetStatefulSet ns name in
         match got with
         | inl err => f err
         | inr oldSs =>
             let* container := or_panic (head (ps_Containers (pt_Spec (ss_Template oldSs)))) in
             let* replicas := or_panic (ss_Replicas oldSs) in
             g oldSs container replicas
         end).
Proof.
  intros Hf Hg. intros [err|ss]; simpl.
  - eapply wp_mono, Hf. intros t [b| |]; [done| |done]. intros H. by right.
  - destruct (head _) as [c|] eqn:Ec; simpl.
    + destruct (ss_Replicas ss) as [n|] eqn:En; simpl.
      * eapply wp_mono, Hg. intros t [b| |]; [done| |done]. intros H. by right.
      * left. by right.
    + left. left. by destruct (ps_Containers _).
Qed.

Ltac total_step :=
  repeat match goal with
  | |- total (bind (GetStatefulSet _ _) _) => apply total_get_set; [intros ?|intros ? ? ?]
  | |- total (bind _ _) => apply total_bind; [|intros ?]
  | |- total (try _ _) => apply total_try; [|intros ?]
  | |- total (act _) => apply total_act
  | |- total (Ret _) => exact I
  | |- total (ok _) => exact I
  | |- total (fail _) => exact I
  | |- total (createIfNotExists _ _ _) => apply total_create
  | |- total (match ?x with _ => _ end) => destruct x
  end.

Section ensure_total.
  Context {QO : QuantityOrder}.

Lemma sentinel_Ensure_total rc l refs : total (SentinelHandler.Ensure rc l refs).
Proof.
  unfold SentinelHandler.Ensure, SentinelClient.EnsureRedisService, EnsureSentinelService,
    EnsureSentinelHeadlessService, SentinelClient.EnsureRedisMonitorService,
    EnsureSentinelConfigMap, EnsureSentinelProbeConfigMap,
    SentinelClient.EnsureRedisShutdownConfigMap, CreateIfNotExistsService,
    CreateIfNotExistsConfigMap, GetConfigMap, get.
  total_step; unfold SentinelClient.EnsureRedisStatefulset, EnsureSentinelStatefulset,
    ensurePodDisruptionBudget, CreateIfNotExistsPodDisruptionBudget, CreateStatefulSet,
    UpdateStatefulSet, create, update, SentinelGen.generateRedisStatefulSet; total_step.
Qed.

Lemma standalone_Ensure_total rs l refs : total (StandaloneHandler.Ensure rs l refs).
Proof.
  unfold StandaloneHandler.Ensure, StandaloneService.EnsureRedisService,
    EnsureRedisHeadlessService, StandaloneService.EnsureRedisMonitorService,
    StandaloneService.EnsureRedisConfigMap, generateRedisConfigMap, range_map,
    StandaloneService.EnsureRedisShutdownConfigMap, CreateIfNotExistsService,
    CreateIfNotExistsConfigMap, GetConfigMap, get.
  total_step; unfold StandaloneService.EnsureRedisStatefulset, CreateStatefulSet,
    UpdateStatefulSet, create, update, StandaloneGen.generateRedisStatefulSet; total_step.
Qed.

(** C25: [Ensure] always returns, for both kinds of resource: whatever the API
    server answers, it neither hangs nor crashes, except that it dereferences
    the first container and the replica count of an existing StatefulSet and so
    panics when the server holds one without them. *)
Theorem Ensure_total rc rs l refs :
  total (SentinelHandler.Ensure rc l refs) /\ total (StandaloneHandler.Ensure rs l refs).
Proof. split; [apply sentinel_Ensure_total|apply standalone_Ensure_total]. Qed.
End ensure_total.

(** ** A settled cluster *)

(** What the server stores of a StatefulSet it was sent: the replica count,
    the containers by name and their resources, whatever else it fills in. *)
Definition same_set (stored generated : StatefulSet) : Prop :=
  ss_Replicas stored = ss_Replicas generated /\
  (ct_Name <$> ps_Containers (pt_Spec (ss_Template stored))) =
    (ct_Name <$> ps_Containers (pt_Spec (ss_Template generated))) /\
  (ct_Resources <$> ps_Containers (pt_Spec (ss_Template stored))) =
    (ct_Resources <$> ps_Containers (pt_Spec (ss_Template generated))).

Lemma has_exporter_names ss ss' :
  (ct_Name <$> ps_Containers (pt_Spec (ss_Template ss))) =
  (ct_Name <$> ps_Containers (pt_Spec (ss_Template ss'))) ->
  SentinelClient.has_exporter ss = SentinelClient.has_exporter ss'.
Proof.
  unfold SentinelClient.has_exporter. generalize (ps_Containers (pt_Spec (ss_Template ss'))) as l'.
  induction (ps_Containers (pt_Spec (ss_Template ss))) as [|c l IH]; intros [|c' l']; try done.
  rewrite !fmap_cons. intros H. injection H as Hc Hl. simpl. by rewrite Hc, (IH l').
Qed.

(** What the first container has in common. *)
Lemma same_set_head stored ss c :
  same_set stored ss -> head (ps_Containers (pt_Spec (ss_Template ss))) = Some c ->
  exists c', head (ps_Containers (pt_Spec (ss_Template stored))) = Some c' /\ ct_Resources c' = ct_Resources c.
Proof.
  intros (_ & _ & Hr) E. destruct (ps_Containers (pt_Spec (ss_Template ss))) as [|c0 cs]; [done|].
  injection E as <-. destruct (ps_Containers (pt_Spec (ss_Template stored))) as [|c' l]; [done|].
  exists c'. split; [done|]. by injection Hr.
Qed.

(** The object asked for is there; a StatefulSet is as [expected] by name. *)
Definition found_as (expected : string -> StatefulSet -> Prop) (e : event) : Prop :=
  match e with
  | existT e r =>
      match e return resp e -> Prop with
      | Get k ns name =>
          match k return result (object k) -> Prop with
          | KStatefulSet => fun r => match r with inr ss => expected name ss | inl _ => False end
          | _ => fun r => match r with inr _ => True | inl _ => False end
          end
      | _ => fun _ => True
      end r
  end.

Definition read_only (e : event) : Prop :=
  match projT1 e with Get _ _ _ => True | Seed => True | _ => False end.

(** If everything asked for is found as expected, [p] returns [a] and only
    reads. *)
Definition quiet {A} (expected : string -> StatefulSet -> Prop) (p : prog A) (a : A) : Prop :=
  wp p (fun t o => Forall (found_as expected) t -> o = Returns a /\ Forall read_only t).

Lemma quiet_bind {A B} E (m : prog A) (f : A -> prog B) a b :
  quiet E m a -> quiet E (f a) b -> quiet E (bind m f) b.
Proof.
  intros Hm Hf. apply wp_bind. eapply wp_mono, Hm. intros t [a'| |] Ht; simpl.
  - eapply (wp_mono _ (fun t' o' => Forall (found_as E) t -> Forall (found_as E) t' ->
      o' = Returns b /\ Forall read_only (t ++ t'))).
    { intros t' o' H [H1 H2]%Forall_app. auto. }
    apply wp_impl. intros Hft. destruct (Ht Hft) as [[= ->] Hr].
    eapply wp_mono, Hf. intros t' o' H Hft'. destruct (H Hft') as [-> Hr'].
    split; [done|]. by apply Forall_app.
  - intros Hft. by destruct (Ht Hft).
  - intros Hft. by destruct (Ht Hft).
Qed.

Lemma quiet_try {A B} E (m : prog (result A)) (f : A -> prog (result B)) a b :
  quiet E m (inr a) -> quiet E (f a) b -> quiet E (try m f) b.
Proof. intros Hm Hf. by eapply quiet_bind. Qed.

Lemma quiet_ret {A} E (a : A) : quiet E (Ret a) a.
Proof. by intros _. Qed.

Lemma quiet_create k E ns (o : object k) : k <> KStatefulSet -> quiet E (createIfNotExists k ns o) (inr tt).
Proof.
  intros Hk [err|x]; simpl.
  - assert (forall (Q : Prop) t, ~ Forall (found_as E) (ev (Get k ns (Name (object_meta k o))) (inl err) :: t)) as Hno.
    { intros Q t H. inv H. by destruct k. }
    destruct (IsNotFound err); simpl; [intros r|]; intros H; exfalso; by eapply (Hno True).
  - intros _. split; [done|]. by repeat constructor.
Qed.

Lemma quiet_get_set {B} (E : string -> StatefulSet -> Prop) ns name (f : result StatefulSet -> prog B) b :
  (forall ss, E name ss -> quiet E (f (inr ss)) b) -> quiet E (bind (GetStatefulSet ns name) f) b.
Proof.
  intros Hf [err|ss]; simpl.
  - eapply wp_mono, wp_true. intros t o _ HF. by inv HF.
  - eapply (wp_mono _ (fun t o => E name ss -> Forall (found_as E) t -> o = Returns b /\ Forall read_only t)).
    + intros t o H HF. inv HF. destruct (H ltac:(done) ltac:(done)). split; [done|]. by constructor.
    + apply wp_impl, Hf.
Qed.

Section settled.
  Context {QO : QuantityOrder} {QL : QuantityLaws QO}.

Lemma shouldUpdateRedis_same r n : SentinelClient.shouldUpdateRedis r r n n = false.
Proof. unfold SentinelClient.shouldUpdateRedis. by rewrite Z.eqb_refl, !quantity_Cmp_refl. Qed.

Lemma shouldUpdateRedis_same' r n : StandaloneService.shouldUpdateRedis r r n n = false.
Proof. unfold StandaloneService.shouldUpdateRedis. by rewrite Z.eqb_refl, !quantity_Cmp_refl. Qed.

Lemma exporter_unchanged rc l refs ss :
  same_set ss (SentinelGen.generateRedisStatefulSet rc l refs).1 ->
  SentinelClient.exporterChanged rc ss = false.
Proof.
  intros (_ & Hn & _). unfold SentinelClient.exporterChanged. rewrite (has_exporter_names _ _ Hn).
  unfold SentinelClient.has_exporter. simpl. by destruct (Enabled _).
Qed.

Lemma exporter_unchanged' rs l refs ss :
  same_set ss (StandaloneGen.generateRedisStatefulSet rs l refs).1 ->
  StandaloneService.exporterChanged rs ss = false.
Proof.
  intros (_ & Hn & _). unfold StandaloneService.exporterChanged.
  change (StandaloneService.has_exporter ss) with (SentinelClient.has_exporter ss).
  rewrite (has_exporter_names _ _ Hn). unfold SentinelClient.has_exporter. simpl. by destruct (Enabled _).
Qed.

(** The first container is the redis server's. *)
Lemma redis_head rc l refs : exists c,
  head (ps_Containers (pt_Spec (ss_Template (SentinelGen.generateRedisStatefulSet rc l refs).1))) = Some c /\
  ct_Resources c = Resources (redis (Spec rc)).
Proof. simpl. destruct (Enabled _); by eexists. Qed.

Lemma server_head rs l refs : exists c,
  head (ps_Containers (pt_Spec (ss_Template (StandaloneGen.generateRedisStatefulSet rs l refs).1))) = Some c /\
  ct_Resources c = Resources (Spec rs).
Proof. simpl. destruct (Enabled _); by eexists. Qed.

(** The StatefulSets of a resource, by name. *)
Definition sentinel_sets (rc : RedisSentinel) l refs (name : string) (ss : StatefulSet) : Prop :=
  (name = Names.Sentinel.GetRedisName rc ->
     same_set ss (SentinelGen.generateRedisStatefulSet rc l refs).1) /\
  (name = Names.Sentinel.GetSentinelName rc -> same_set ss (generateSentinelStatefulSet rc l refs)).

Definition standalone_set (rs : RedisStandalone) l refs (name : string) (ss : StatefulSet) : Prop :=
  same_set ss (StandaloneGen.generateRedisStatefulSet rs l refs).1.

Lemma quiet_redis_set rc l refs :
  quiet (sentinel_sets rc l refs) (SentinelClient.EnsureRedisStatefulset rc l refs) (rc, inr tt).
Proof.
  unfold SentinelClient.EnsureRedisStatefulset. eapply quiet_bind; [by apply quiet_create|].
  apply quiet_get_set. intros ss [Hss _]. specialize (Hss eq_refl).
  rewrite (exporter_unchanged rc l refs) by done.
  destruct (redis_head rc l refs) as (c & Hc & Hres). destruct (same_set_head _ _ _ Hss Hc) as (c' & -> & Hr).
  destruct Hss as (-> & _). simpl. rewrite Hr, Hres, shouldUpdateRedis_same. apply quiet_ret.
Qed.

Lemma quiet_sentinel_set rc l refs :
  quiet (sentinel_sets rc l refs) (EnsureSentinelStatefulset rc l refs) (inr tt).
Proof.
  unfold EnsureSentinelStatefulset. eapply quiet_try; [by apply quiet_create|].
  apply quiet_get_set. intros ss [_ Hss]. specialize (Hss eq_refl).
  destruct (same_set_head _ _ _ Hss eq_refl) as (c' & -> & Hr). destruct Hss as (-> & _).
  simpl in *. rewrite Hr, shouldUpdateRedis_same. apply quiet_ret.
Qed.

Lemma quiet_standalone_set rs l refs :
  quiet (standalone_set rs l refs) (StandaloneService.EnsureRedisStatefulset rs l refs) (rs, inr tt).
Proof.
  unfold StandaloneService.EnsureRedisStatefulset.
  apply quiet_get_set. intros ss Hss.
  rewrite (exporter_unchanged' rs l refs) by done.
  destruct (server_head rs l refs) as (c & Hc & Hres). destruct (same_set_head _ _ _ Hss Hc) as (c' & -> & Hr).
  destruct Hss as (-> & _). simpl. rewrite Hr, Hres, shouldUpdateRedis_same'. apply quiet_ret.
Qed.

Lemma quiet_get E k ns name (a : unit) :
  k <> KStatefulSet -> quiet E (let? _ := act (Get k ns name) in ok tt) (inr tt).
Proof.
  intros Hk [err|x]; simpl.
  - intros HF. inv HF. by destruct k.
  - intros _. split; [done|]. by repeat constructor.
Qed.

(** [Ensure] leaves a settled cluster alone. When every object it looks up
    is there, and the StatefulSets have the replica count, the containers and the
    resources it would generate, it succeeds, changes neither the resource nor anything in
    the cluster, and makes only read requests; so reconciling again after the
    objects were created does nothing. *)
Theorem Ensure_settled rc rs l refs :
  quiet (sentinel_sets rc l refs) (SentinelHandler.Ensure rc l refs) (rc, inr tt) /\
  quiet (standalone_set rs l refs) (StandaloneHandler.Ensure rs l refs) (rs, inr tt).
Proof.
  split.
  - unfold SentinelHandler.Ensure. eapply (quiet_bind _ _ _ (inr tt)).
    + repeat (eapply quiet_try; [first [by apply quiet_create|destruct (Enabled _);
        [by apply quiet_create|apply quiet_ret]]|]).
      unfold SentinelClient.EnsureRedisShutdownConfigMap.
      destruct (negb _); [by apply quiet_get|by apply quiet_create].
    + eapply quiet_bind; [apply quiet_redis_set|]. cbv beta iota.
      eapply quiet_bind; [apply quiet_sentinel_set|apply quiet_ret].
  - unfold StandaloneHandler.Ensure. eapply (quiet_bind _ _ _ (inr tt)).
    + repeat (eapply quiet_try; [first [by apply quiet_create|idtac]|]);
      [ | |destruct (Enabled _); [by apply quiet_create|apply quiet_ret]].
      * unfold StandaloneService.EnsureRedisConfigMap, generateRedisConfigMap, range_map.
        intros seed. refine (wp_mono _ _ _ _ (quiet_create KConfigMap _ _ _ _)); [|done].
        intros t o H HF. inv HF. destruct H as [-> Hr]; [done|]. split; [done|]. by constructor.
      * unfold StandaloneService.EnsureRedisShutdownConfigMap.
        destruct (negb _); [by apply quiet_get|by apply quiet_create].
    + apply quiet_standalone_set.
Qed.
End settled.

(** ** Witness *)

Lemma Ensure_settled_witness :
  quiet (sentinel_sets sampleSentinel ∅ sampleOwner)
    (SentinelHandler.Ensure sampleSentinel ∅ sampleOwner) (sampleSentinel, inr tt).
Proof. apply (Ensure_settled (QL := sampleOrder_laws) sampleSentinel sampleStandalone ∅ sampleOwner). Defined.
