(* ===== verification/Desired.v ===== *)
(** * The objects a resource wants, as a list

    The reference definition of [Ensure]: a list of wanted objects and one loop
    that looks each of them up, creates a missing one and updates a stale one.
    Both handlers' [Ensure], written out service by service over several files,
    are equivalent to it. What the loop does against an API server that keeps its
    promises is then proved once, by induction on the list. *)

From S2P Require Import Prelude GoStd Corev1 Api Samples Util Common Names Effects Equiv K8s.
From S2P Require Import SentinelGen SentinelClient StandaloneGen StandaloneService Objects.
From S2P Require Import Cache Handler SentinelHandler StandaloneHandler EnsureProps.

(** An object to make, with the test on an existing one that says whether to
    replace it ([None] where the code would dereference nil), or an object of
    the user's that has to be there. *)
Inductive want :=
| Make (k : kind) (name : string) (generate : prog (object k)) (stale : object k -> option bool)
| Need (k : kind) (name : string).

Definition ensure_want (ns : string) (w : want) : prog (result unit) :=
  match w with
  | Make k name generate stale =>
      let* o := generate in
      let* got := act (Get k ns name) in
      match got with
      | inl err => if IsNotFound err then act (Create k o) else fail err
      | inr old =>
          let* replace := or_panic (stale old) in
          if (replace : bool) then let? _ := act (Update k o) in ok tt else ok tt
      end
  | Need k name => let? _ := act (Get k ns name) in ok tt
  end.

Definition ensure_all (ns : string) (ws : list want) : prog (result unit) :=
  for_each ws (ensure_want ns).

(** Found is good enough. *)
Definition keep {k} (old : object k) : option bool := Some false.

Section wants.
  Context {QO : QuantityOrder}.

Definition make (k : kind) (o : object k) (stale : object k -> option bool) : want :=
  Make k (Name (object_meta k o)) (Ret o) stale.

Definition sentinel_stale (rc : RedisSentinel) (old : StatefulSet) : option bool :=
  c ← head (ps_Containers (pt_Spec (ss_Template old)));
  n ← ss_Replicas old;
  Some (SentinelClient.shouldUpdateRedis (sen_Resources (Sentinel (Spec rc))) (ct_Resources c)
          (Replicas (Sentinel (Spec rc))) n).

Definition redis_stale (rc : RedisSentinel) (old : StatefulSet) : option bool :=
  c ← head (ps_Containers (pt_Spec (ss_Template old)));
  n ← ss_Replicas old;
  Some (SentinelClient.shouldUpdateRedis (Resources (redis (Spec rc))) (ct_Resources c)
          (Size (redis (Spec rc))) n || SentinelClient.exporterChanged rc old).

Definition standalone_stale (rs : RedisStandalone) (old : StatefulSet) : option bool :=
  c ← head (ps_Containers (pt_Spec (ss_Template old)));
  n ← ss_Replicas old;
  Some (StandaloneService.shouldUpdateRedis (Resources (Spec rs)) (ct_Resources c) (Size (Spec rs)) n
        || StandaloneService.exporterChanged rs old).

Definition wanted_budget (rc : RedisSentinel) (name component : string) (labels : StringMap)
    (refs : list OwnerReference) : want :=
  make KPodDisruptionBudget
    (generatePodDisruptionBudget (GenerateName name (Name (meta rc))) (Namespace (meta rc))
       (MergeLabels [labels; SentinelGen.generateSelectorLabels component (Name (meta rc))]) refs 2) keep.

Definition wanted_redis_set (rc : RedisSentinel) (labels : StringMap) (refs : list OwnerReference) : want :=
  make KStatefulSet (SentinelGen.generateRedisStatefulSet rc labels refs).1 (redis_stale rc).

Definition wanted_sentinel_set (rc : RedisSentinel) (labels : StringMap) (refs : list OwnerReference)
    : want :=
  make KStatefulSet (generateSentinelStatefulSet rc labels refs) (sentinel_stale rc).

(** What a sentinel cluster wants, in the order it is ensured: services and
    ConfigMaps, then the two StatefulSets with their budgets. *)
Definition sentinel_first (rc : RedisSentinel) (labels : StringMap) (refs : list OwnerReference)
    : list want :=
  [make KService (SentinelGen.generateRedisService rc labels refs) keep;
   make KService (generateSentinelService rc labels refs) keep;
   make KService (newHeadLessSvcForCR rc labels refs) keep] ++
  (if Enabled (Exporter (redis (Spec rc)))
   then [make KService (SentinelGen.generateRedisMonitorService rc labels refs) keep] else []) ++
  [make KConfigMap (generateSentinelConfigMap rc labels refs) keep;
   make KConfigMap (generateSentinelReadinessProbeConfigMap rc labels refs) keep;
   (if (ShutdownConfigMap (redis (Spec rc)) =? "")%string
    then make KConfigMap (SentinelGen.generateRedisShutdownConfigMap rc labels refs) keep
    else Need KConfigMap (ShutdownConfigMap (redis (Spec rc))))].

Definition sentinel_wants (rc : RedisSentinel) (labels : StringMap) (refs : list OwnerReference)
    : list want :=
  sentinel_first rc labels refs ++
  [wanted_budget rc RedisName RedisRoleName labels refs; wanted_redis_set rc labels refs] ++
  [wanted_budget rc SentinelName SentinelRoleName labels refs; wanted_sentinel_set rc labels refs].

Definition standalone_first (rs : RedisStandalone) (labels : StringMap) (refs : list OwnerReference)
    : list want :=
  [make KService (StandaloneGen.generateRedisService rs labels refs) keep;
   make KService (generateHeadlessRedisService rs labels refs) keep;
   Make KConfigMap (Names.Standalone.GetRedisName rs) (generateRedisConfigMap rs labels refs) keep;
   (if (ShutdownConfigMap (Spec rs) =? "")%string
    then make KConfigMap (StandaloneGen.generateRedisShutdownConfigMap rs labels refs) keep
    else Need KConfigMap (ShutdownConfigMap (Spec rs)))] ++
  (if Enabled (Exporter (Spec rs))
   then [make KService (StandaloneGen.generateRedisMonitorService rs labels refs) keep] else []).

Definition wanted_standalone_set (rs : RedisStandalone) (labels : StringMap)
    (refs : list OwnerReference) : want :=
  make KStatefulSet (StandaloneGen.generateRedisStatefulSet rs labels refs).1 (standalone_stale rs).

Definition standalone_wants (rs : RedisStandalone) (labels : StringMap) (refs : list OwnerReference)
    : list want :=
  standalone_first rs labels refs ++ [wanted_standalone_set rs labels refs].

(** ** Equivalence *)

(** The part of [Ensure]'s answer that says whether it succeeded. *)
Definition outcome_of {A} (p : prog (A * result unit)) : prog (result unit) :=
  let* (_, r) := p in Ret r.

Lemma want_create k ns (o : object k) :
  createIfNotExists k ns o ≃ ensure_want ns (make k o keep).
Proof. apply equiv_act. by intros [err|old]. Qed.

Lemma ensure_all_cons ns w ws :
  ensure_all ns (w :: ws) ≃ try (ensure_want ns w) (fun _ => ensure_all ns ws).
Proof. done. Qed.

Lemma ensure_all_app ns ws ws' :
  ensure_all ns (ws ++ ws') ≃ try (ensure_all ns ws) (fun _ => ensure_all ns ws').
Proof. apply for_each_app. Qed.

Lemma ensure_all_one ns w : ensure_all ns [w] ≃ ensure_want ns w.
Proof. unfold ensure_all. cbn [for_each]. apply try_ok. Qed.

(** A StatefulSet. *)
Lemma want_sentinel_set rc l refs :
  EnsureSentinelStatefulset rc l refs ≃
  ensure_all (Namespace (meta rc)) [wanted_budget rc SentinelName SentinelRoleName l refs;
    wanted_sentinel_set rc l refs].
Proof.
  rewrite ensure_all_cons. unfold EnsureSentinelStatefulset. apply try_proper; [apply want_create|].
  intros []. rewrite ensure_all_one. apply equiv_act. intros [err|old]; [done|].
  unfold wanted_sentinel_set, make, sentinel_stale. cbn [ensure_want bind].
  destruct (head _) as [c|]; [|done]. simpl. destruct (ss_Replicas old) as [n|]; [|done]. simpl.
  by destruct (SentinelClient.shouldUpdateRedis _ _ _ _).
Qed.

(** The sentinels' part reads nothing that setting the owner of the claim
    changes. *)
Lemma EnsureSentinelStatefulset_claim rc l refs :
  EnsureSentinelStatefulset (SentinelGen.generateRedisStatefulSet rc l refs).2 l refs =
  EnsureSentinelStatefulset rc l refs.
Proof.
  assert (forall rc', meta rc' = meta rc -> Sentinel (Spec rc') = Sentinel (Spec rc) ->
    EnsureSentinelStatefulset rc' l refs = EnsureSentinelStatefulset rc l refs) as H.
  { destruct rc as [m [r s] st]. intros [m' [r' s'] st'] Hm Hs. simpl in Hm, Hs. by subst m' s'. }
  by apply H.
Qed.

(** The redis StatefulSet, with what follows; the resource comes back as it was
    or with the owner of its claim set. *)
Lemma want_redis_set rc l refs (K : RedisSentinel -> prog (result unit)) :
  K (SentinelGen.generateRedisStatefulSet rc l refs).2 = K rc ->
  (let* (rc', r) := SentinelClient.EnsureRedisStatefulset rc l refs in
   match r with inl err => fail err | inr _ => K rc' end) ≃
  try (ensure_all (Namespace (meta rc)) [wanted_budget rc RedisName RedisRoleName l refs;
         wanted_redis_set rc l refs]) (fun _ => K rc).
Proof.
  unfold SentinelClient.EnsureRedisStatefulset, wanted_redis_set.
  assert (Names.Sentinel.GetRedisName rc =
    Name (ss_meta (SentinelGen.generateRedisStatefulSet rc l refs).1)) as -> by done.
  destruct (SentinelGen.generateRedisStatefulSet rc l refs) as [ss rc']. cbn [fst snd]. intros HK.
  rewrite ensure_all_cons, bind_assoc, try_assoc.
  unfold try at 1. apply bind_proper; [apply want_create|]. intros [err|[]]; [done|].
  cbv beta iota. rewrite ensure_all_one, bind_assoc. apply equiv_act.
  intros [err|old]; cbn [bind].
  - destruct (IsNotFound err); [|done].
    apply equiv_act. intros [e|[]]; [done|]. simpl. by rewrite HK.
  - unfold redis_stale. destruct (head _) as [c|]; [|done]. simpl.
    destruct (ss_Replicas old) as [n|]; [|done]. simpl. destruct (_ || _); [|done].
    apply equiv_act. intros [e|o]; [done|]. simpl. by rewrite HK.
Qed.

(** The services and ConfigMaps, one by one. *)
Ltac first_wants :=
  repeat match goal with
  | |- try (if Enabled _ then _ else _) _ ≃ _ =>
      rewrite ensure_all_app; apply try_proper;
      [destruct (Enabled _); [rewrite ensure_all_one; apply want_create|done]|intros []]
  | |- try _ _ ≃ _ =>
      cbn [app]; rewrite ensure_all_cons; apply try_proper; [apply want_create|intros []]
  end.

Lemma sentinel_first_wants rc l refs :
  (let? _ := SentinelClient.EnsureRedisService rc l refs in
   let? _ := EnsureSentinelService rc l refs in
   let? _ := EnsureSentinelHeadlessService rc l refs in
   let? _ := (if Enabled (Exporter (redis (Spec rc)))
              then SentinelClient.EnsureRedisMonitorService rc l refs else ok tt) in
   let? _ := EnsureSentinelConfigMap rc l refs in
   let? _ := EnsureSentinelProbeConfigMap rc l refs in
   SentinelClient.EnsureRedisShutdownConfigMap rc l refs) ≃
  ensure_all (Namespace (meta rc)) (sentinel_first rc l refs).
Proof.
  unfold sentinel_first. first_wants. rewrite ensure_all_one.
  unfold SentinelClient.EnsureRedisShutdownConfigMap.
  destruct (_ =? _)%string; [apply want_create|done].
Qed.

Lemma standalone_first_wants rs l refs :
  (let? _ := StandaloneService.EnsureRedisService rs l refs in
   let? _ := EnsureRedisHeadlessService rs l refs in
   let? _ := StandaloneService.EnsureRedisConfigMap rs l refs in
   let? _ := StandaloneService.EnsureRedisShutdownConfigMap rs l refs in
   if Enabled (Exporter (Spec rs)) then StandaloneService.EnsureRedisMonitorService rs l refs else ok tt) ≃
  ensure_all (Namespace (meta rs)) (standalone_first rs l refs).
Proof.
  unfold standalone_first.
  do 2 (cbn [app]; rewrite ensure_all_cons; apply try_proper; [apply want_create|intros []]).
  cbn [app]. rewrite ensure_all_cons. apply try_proper.
  { unfold StandaloneService.EnsureRedisConfigMap, generateRedisConfigMap, range_map.
    apply equiv_act. intros seed. apply equiv_act. by intros [err|old]. }
  intros []. rewrite ensure_all_cons. apply try_proper.
  { unfold StandaloneService.EnsureRedisShutdownConfigMap.
    destruct (_ =? _)%string; [apply want_create|done]. }
  intros []. destruct (Enabled _); [rewrite ensure_all_one; apply want_create|done].
Qed.

Lemma standalone_set_wants rs l refs :
  outcome_of (StandaloneService.EnsureRedisStatefulset rs l refs) ≃
  ensure_all (Namespace (meta rs)) [wanted_standalone_set rs l refs].
Proof.
  unfold outcome_of, StandaloneService.EnsureRedisStatefulset, wanted_standalone_set.
  assert (Names.Standalone.GetRedisName rs =
    Name (ss_meta (StandaloneGen.generateRedisStatefulSet rs l refs).1)) as -> by done.
  destruct (StandaloneGen.generateRedisStatefulSet rs l refs) as [ss rs']. cbn [fst snd].
  rewrite ensure_all_one, bind_assoc. apply equiv_act. intros [err|old]; cbn [bind].
  - destruct (IsNotFound err); [|done]. by apply equiv_act.
  - unfold standalone_stale. destruct (head _) as [c|]; [|done]. simpl.
    destruct (ss_Replicas old) as [n|]; [|done]. simpl. destruct (_ || _); [|done].
    apply equiv_act. by intros [e|o].
Qed.

Lemma sentinel_Ensure_wants rc l refs :
  outcome_of (SentinelHandler.Ensure rc l refs) ≃
    ensure_all (Namespace (meta rc)) (sentinel_wants rc l refs).
Proof.
  unfold outcome_of, SentinelHandler.Ensure, sentinel_wants. rewrite bind_assoc, ensure_all_app.
  apply bind_proper; [apply sentinel_first_wants|]. intros [err|[]]; [done|]. cbv beta iota.
  rewrite ensure_all_app, bind_assoc.
  transitivity (try (ensure_all (Namespace (meta rc)) [wanted_budget rc RedisName RedisRoleName l refs;
    wanted_redis_set rc l refs]) (fun _ => EnsureSentinelStatefulset rc l refs));
    [|apply try_proper; [done|intros []; apply want_sentinel_set]].
  etrans; [|apply (want_redis_set rc l refs (fun rc => EnsureSentinelStatefulset rc l refs));
    apply EnsureSentinelStatefulset_claim].
  apply bind_proper; [done|]. intros [rc' [err|[]]]; [done|]. cbv beta iota.
  rewrite bind_assoc. apply bind_ret_r.
Qed.

Lemma standalone_Ensure_wants rs l refs :
  outcome_of (StandaloneHandler.Ensure rs l refs) ≃
    ensure_all (Namespace (meta rs)) (standalone_wants rs l refs).
Proof.
  unfold outcome_of, StandaloneHandler.Ensure, standalone_wants. rewrite bind_assoc, ensure_all_app.
  apply bind_proper; [apply standalone_first_wants|]. intros [err|[]]; [done|].
  apply standalone_set_wants.
Qed.

(** C13: [Ensure], written out service by service, is the loop over the list of
    wanted objects: for both kinds of resource it makes the same requests in
    the same order and gives the same answer, whatever the API server says. *)
Theorem Ensure_is_reference rc rs l refs :
  outcome_of (SentinelHandler.Ensure rc l refs) ≃
    ensure_all (Namespace (meta rc)) (sentinel_wants rc l refs) /\
  outcome_of (StandaloneHandler.Ensure rs l refs) ≃
    ensure_all (Namespace (meta rs)) (standalone_wants rs l refs).
Proof. split; [apply sentinel_Ensure_wants|apply standalone_Ensure_wants]. Qed.
End wants.
