(* ===== verification/ApiServer.v ===== *)
(** * [Ensure] against an API server that keeps its promises

    An API server here is an environment with a store of objects, by kind,
    namespace and name, that answers reads from the store, creates what is not
    there and replaces what is, if its admission lets it: a write that is not
    admitted is refused and changes nothing. On such a server [Ensure] makes, in
    its order, exactly the objects that were missing or stale, touches nothing
    else, and finds nothing left to do when it is run again; at the first object
    that is not admitted it stops with the server's error. *)

From S2P Require Import Prelude GoStd Corev1 Api Samples Util Common Names Validate Effects Equiv K8s.
From S2P Require Import SentinelGen SentinelClient StandaloneGen StandaloneService Objects.
From S2P Require Import Cache Handler SentinelHandler StandaloneHandler EnsureProps Desired.

(** ** The promises *)

Definition key_in {k} (o : object k) : string * string :=
  (Namespace (object_meta k o), Name (object_meta k o)).

(** What the server keeps of an object it was sent; it fills in other fields. Of
    a StatefulSet's containers only the names and resources are looked at
    here. *)
Definition kept (k : kind) : object k -> object k -> Prop :=
  match k with
  | KService => fun sent stored =>
      svc_Selector stored = svc_Selector sent /\ svc_Ports stored = svc_Ports sent
  | KConfigMap => fun sent stored => cm_Data stored = cm_Data sent
  | KPodDisruptionBudget => fun sent stored =>
      pdb_MinAvailable stored = pdb_MinAvailable sent /\ pdb_Selector stored = pdb_Selector sent
  | KStatefulSet => fun sent stored =>
      ss_Replicas stored = ss_Replicas sent /\ ss_Selector stored = ss_Selector sent /\
      (ct_Name <$> ps_Containers (pt_Spec (ss_Template stored))) =
        (ct_Name <$> ps_Containers (pt_Spec (ss_Template sent))) /\
      (ct_Resources <$> ps_Containers (pt_Spec (ss_Template stored))) =
        (ct_Resources <$> ps_Containers (pt_Spec (ss_Template sent)))
  | _ => fun _ _ => True
  end.

Definition Objects : Type := forall k : kind, gmap (string * string) (object k).

(** The store [m'] is [m] with [o] at its key. *)
Definition put {k} (o : object k) (m m' : Objects) : Prop :=
  m' k !! key_in o = Some o /\
  forall k' key, (k', key) <> (k, key_in o) -> m' k' !! key = m k' !! key.

Definition unchanged (m m' : Objects) : Prop := forall k key, m' k !! key = m k !! key.

(** What the server's validation says of an object to be created, or of one to
    replace another: names and their lengths, fields that must not change. *)
Definition Admission : Type := forall k : kind, option (object k) -> object k -> bool.

(** A write that was refused. *)
Definition declined {A} (r : result A) (m m' : Objects) : Prop := unchanged m m' /\ exists err, r = inl err.

Class ApiServer {W} (env : Env W) (objs : W -> Objects) (admits : Admission) : Prop := {
  server_get k ns name w :
    unchanged (objs w) (objs (env (Get k ns name) w).2) /\
    match objs w k !! (ns, name) with
    | Some o => (env (Get k ns name) w).1 = inr o
    | None => exists err, (env (Get k ns name) w).1 = inl err /\ IsNotFound err = true
    end;
  server_create k o w :
    objs w k !! key_in o = None ->
    if admits k None o
    then (env (Create k o) w).1 = inr tt /\
      exists stored, kept k o stored /\ key_in stored = key_in o /\
        put stored (objs w) (objs (env (Create k o) w).2)
    else declined (env (Create k o) w).1 (objs w) (objs (env (Create k o) w).2);
  server_update k old o w :
    objs w k !! key_in o = Some old ->
    if admits k (Some old) o
    then exists stored, (env (Update k o) w).1 = inr stored /\ kept k o stored /\
      key_in stored = key_in o /\ put stored (objs w) (objs (env (Update k o) w).2)
    else declined (env (Update k o) w).1 (objs w) (objs (env (Update k o) w).2);
  server_seed w : unchanged (objs w) (objs (env Seed w).2)
}.

#[export] Instance unchanged_preorder : PreOrder unchanged.
Proof. split; [by intros m k key|]. intros a b c H1 H2 k key. by rewrite H2, H1. Qed.

(** ** Wants that can be met *)

(** The values a program can return. *)
Fixpoint may_return {A} (p : prog A) (a : A) : Prop :=
  match p with
  | Ret b => a = b
  | Act e k => exists r, may_return (k r) a
  | _ => False
  end.

(** A generator only asks the runtime for the order of a map and names the
    object as announced. *)
Definition generates (ns : string) (w : want) : Prop :=
  match w with
  | Make k name generate stale =>
      every (fun e => e = Seed) generate /\ returns generate /\
      forall o, may_return generate o -> key_in o = (ns, name) /\
        forall stored, kept k o stored -> stale stored = Some false
  | Need _ _ => True
  end.

(** The keys of the objects to make. *)
Definition made (ws : list want) : list (kind * string) :=
  omap (fun w => match w with Make k name _ _ => Some (k, name) | Need _ _ => None end) ws.

(** What is there can be worked with: nothing the code would trip over, the
    user's objects, and the server admits what is to be created or replaced. *)
Definition workable (admits : Admission) (ns : string) (m : Objects) (w : want) : Prop :=
  match w with
  | Make k name generate stale =>
      match m k !! (ns, name) with
      | Some old => exists replace, (stale old : option bool) = Some replace /\
          (replace = true -> forall o, may_return generate o -> admits k (Some old) o = true)
      | None => forall o, may_return generate o -> admits k None o = true
      end
  | Need k name => m k !! (ns, name) <> None
  end.

(** It cannot: the server does not admit what is to be created or replaced, or
    the user's object is missing. *)
Definition hopeless (admits : Admission) (ns : string) (m : Objects) (w : want) : Prop :=
  match w with
  | Make k name generate stale =>
      match m k !! (ns, name) with
      | Some old => (stale old : option bool) = Some true /\
          forall o, may_return generate o -> admits k (Some old) o = false
      | None => forall o, may_return generate o -> admits k None o = false
      end
  | Need k name => m k !! (ns, name) = None
  end.

(** The request that the server answers with an error. *)
Definition refuses (ns : string) (m : Objects) (w : want) (err : error) (e : event) : Prop :=
  match w with
  | Make k name generate _ => exists o, may_return generate o /\
      e = if m k !! (ns, name) then ev (Update k o) (inl err) else ev (Create k o) (inl err)
  | Need k name => e = ev (Get k ns name) (inl err)
  end.

(** What became of it: what was there and not stale stays; anything else is
    what the server keeps of a generated object. *)
Definition met (ns : string) (m m' : Objects) (w : want) : Prop :=
  match w with
  | Make k name generate stale => exists o', m' k !! (ns, name) = Some o' /\
      match m k !! (ns, name) with
      | Some old =>
          if (stale old : option bool) is Some true
          then exists o, may_return generate o /\ kept k o o'
          else o' = old
      | None => exists o, may_return generate o /\ kept k o o'
      end
  | Need k name => m' k !! (ns, name) <> None
  end.

(** Nothing to do. *)
Definition settled (ns : string) (m : Objects) (w : want) : Prop :=
  match w with
  | Make k name _ stale => exists o, m k !! (ns, name) = Some o /\ stale o = Some false
  | Need k name => m k !! (ns, name) <> None
  end.

Lemma met_settled admits ns m m' w :
  generates ns w -> workable admits ns m w -> met ns m m' w -> settled ns m' w.
Proof.
  destruct w as [k name gen stale|k name]; simpl; [|by intros _ _].
  intros (_ & _ & Hgen) Hw (o' & Ho' & H). exists o'. split; [done|].
  destruct (m k !! (ns, name)) as [old|].
  - destruct Hw as (replace & E & _). rewrite E in H. destruct replace; [|by subst o'].
    destruct H as (o & Ho & Hk). by apply (Hgen o).
  - destruct H as (o & Ho & Hk). by apply (Hgen o).
Qed.

(** ** One want *)

Section server.
  Context {W : Type} (env : Env W) (objs : W -> Objects) (admits : Admission) `{!ApiServer env objs admits}.

(** A generator runs without touching the store. *)
Lemma run_generator {A} (p : prog A) w :
  every (fun e => e = Seed) p -> returns p ->
  exists a t w', run env p w = (Returns a, t, w') /\ may_return p a /\
    unchanged (objs w) (objs w') /\ Forall read_only t.
Proof.
  unfold returns, spec. revert w; induction p as [a| | |e k IH]; intros w; simpl; try done.
  - intros _ _. by exists a, [], w.
  - intros [-> Hk] Hr. pose proof (server_seed (objs := objs) w) as Hs.
    destruct (env Seed w) as [r w1]. simpl in Hs.
    destruct (IH r w1 (Hk r) (Hr r)) as (a & t & w2 & -> & Ha & Hu & Ht).
    exists a, (ev Seed r :: t), w2. split_and!; [done|by exists r|by etrans|by constructor].
Qed.

(** The objects at other keys, and whether there is one, under [put]. *)
Lemma put_other {k} (o : object k) m m' k' key :
  put o m m' -> (k', key) <> (k, key_in o) -> m' k' !! key = m k' !! key.
Proof. intros [_ H]. apply H. Qed.

Lemma put_present {k} (o : object k) m m' k' key :
  put o m m' -> m k' !! key <> None -> m' k' !! key <> None.
Proof.
  intros [Ho H] Hk. destruct (decide (k' = k)) as [->|Hne].
  - destruct (decide (key = key_in o)) as [->|Hne]; [by rewrite Ho|].
    rewrite H; [done|]. congruence.
  - rewrite H; [done|]. congruence.
Qed.

(** From one store to the next, everything met and nothing else touched. *)
Definition progress (ns : string) (ws : list want) (m m' : Objects) : Prop :=
  Forall (met ns m m') ws /\
  (forall k name, (k, name) ∉ made ws -> m' k !! (ns, name) = m k !! (ns, name)) /\
  (forall k n name, n <> ns -> m' k !! (n, name) = m k !! (n, name)) /\
  (forall k key, m k !! key <> None -> m' k !! key <> None).

Lemma progress_put {k} ns name gen stale (o : object k) m m' :
  put o m m' -> key_in o = (ns, name) -> met ns m m' (Make k name gen stale) ->
  progress ns [Make k name gen stale] m m'.
Proof.
  intros Hp Hk Hm. split_and!.
  - by constructor.
  - intros k' name' Hn. apply (put_other o); [done|]. rewrite Hk. simpl in Hn.
    intros [= -> ->]. apply Hn. left.
  - intros k' n name' Hn. apply (put_other o); [done|]. rewrite Hk. congruence.
  - intros k' key. by apply (put_present o).
Qed.

Lemma progress_unchanged ns w m m' :
  unchanged m m' -> met ns m m' w -> progress ns [w] m m'.
Proof.
  intros Hu Hm. split_and!; [by constructor|intros; apply Hu|intros; apply Hu|].
  intros k key. by rewrite Hu.
Qed.

(** The write of a missing or a stale object. *)
Lemma create_run k ns name gen stale o w m :
  unchanged m (objs w) -> m k !! (ns, name) = None -> key_in o = (ns, name) -> may_return gen o ->
  if admits k None o
  then exists e w', run (A := result unit) env (act (Create k o)) w = (Returns (inr tt), e, w') /\
    progress ns [Make k name gen stale] m (objs w')
  else exists err w', run (A := result unit) env (act (Create k o)) w =
      (Returns (inl err), [ev (Create k o) (inl err)], w') /\
    unchanged m (objs w').
Proof.
  intros Hu E Hkey Ho. pose proof (server_create k o w) as H. rewrite Hkey, Hu in H. specialize (H E).
  destruct (admits k None o).
  - destruct H as (Hr & stored & Hk & Hks & Hp1 & Hp2). cbn [act run].
    destruct (env (Create k o) w) as [r w3]. cbn [fst snd] in *. subst r.
    eexists _, w3. split; [reflexivity|].
    assert (put stored m (objs w3)) as Hput by (split; [done|]; intros k' key Hne; by rewrite Hp2, Hu).
    apply (progress_put _ _ _ _ stored); [done|done|]. exists stored. rewrite E.
    destruct Hput as [<- _]. rewrite Hks. split; [done|]. by exists o.
  - destruct H as (Hd & err & Hr). cbn [act run].
    destruct (env (Create k o) w) as [r w3]. cbn [fst snd] in *. subst r.
    exists err, w3. split; [reflexivity|]. by etrans.
Qed.

Lemma update_run k ns name gen stale old o w m :
  unchanged m (objs w) -> m k !! (ns, name) = Some old -> stale old = Some true ->
  key_in o = (ns, name) -> may_return gen o ->
  if admits k (Some old) o
  then exists e w', run env (let? _ := act (Update k o) in ok tt) w = (Returns (inr tt), e, w') /\
    progress ns [Make k name gen stale] m (objs w')
  else exists err w', run env (let? _ := act (Update k o) in ok tt) w
      = (Returns (inl err), [ev (Update k o) (inl err)], w') /\
    unchanged m (objs w').
Proof.
  intros Hu E Es Hkey Ho. pose proof (server_update k old o w) as H. rewrite Hkey, Hu in H. specialize (H E).
  destruct (admits k (Some old) o).
  - destruct H as (stored & Hr & Hk & Hks & Hp1 & Hp2). unfold try, act. cbn [bind run].
    destruct (env (Update k o) w) as [r w3]. cbn [fst snd] in *. subst r.
    eexists _, w3. split; [reflexivity|].
    assert (put stored m (objs w3)) as Hput by (split; [done|]; intros k' key Hne; by rewrite Hp2, Hu).
    apply (progress_put _ _ _ _ stored); [done|done|]. exists stored. rewrite E, Es.
    destruct Hput as [<- _]. rewrite Hks. split; [done|]. by exists o.
  - destruct H as (Hd & err & Hr). unfold try, act. cbn [bind run].
    destruct (env (Update k o) w) as [r w3]. cbn [fst snd] in *. subst r.
    exists err, w3. split; [reflexivity|]. by etrans.
Qed.

(** The requests before it: the generator's, and the look at what is there. *)
Lemma want_looked_up ns k name gen stale w :
  generates ns (Make k name gen stale) ->
  exists o t w', may_return gen o /\ key_in o = (ns, name) /\ unchanged (objs w) (objs w') /\
    Forall read_only t /\
    run env (ensure_want ns (Make k name gen stale)) w =
      let '(r, t', w2) := run env (match objs w k !! (ns, name) with
        | Some old => let* replace := or_panic (stale old) in
            if (replace : bool) then let? _ := act (Update k o) in ok tt else ok tt
        | None => act (Create k o)
        end) w' in (r, t ++ t', w2).
Proof.
  intros (Hs & Hr & Hgen). destruct (run_generator gen w Hs Hr) as (o & t & w1 & E1 & Ho & Hu1 & Ht).
  destruct (Hgen o Ho) as [Hkey _]. destruct (server_get k ns name w1) as [Hu Hg]. rewrite Hu1 in Hg.
  cbn [ensure_want]. rewrite run_bind, E1. cbn [act bind run].
  destruct (env (Get k ns name) w1) as [r w2]. cbn [fst snd] in Hu, Hg.
  exists o, (t ++ [ev (Get k ns name) r]), w2. split; [done|]. split; [done|]. split; [by etrans|].
  split; [apply Forall_app; split; [done|]; by repeat constructor|].
  destruct (objs w k !! (ns, name)) as [old|].
  - subst r. cbn [bind].
    match goal with |- context [run env ?p w2] => destruct (run env p w2) as [[r' t'] w3] end.
    by rewrite <- app_assoc.
  - destruct Hg as (err & -> & ->). cbn [act run]. destruct (env (Create k o) w2) as [r' w3].
    by rewrite <- app_assoc.
Qed.

Lemma need_run ns k name w :
  match objs w k !! (ns, name) with
  | Some _ => exists t w', run env (ensure_want ns (Need k name)) w = (Returns (inr tt), t, w') /\
      unchanged (objs w) (objs w') /\ Forall read_only t
  | None => exists err w', run env (ensure_want ns (Need k name)) w
        = (Returns (inl err), [ev (Get k ns name) (inl err)], w') /\ unchanged (objs w) (objs w')
  end.
Proof.
  cbn [ensure_want]. unfold try, act. cbn [bind run]. destruct (server_get k ns name w) as [Hu Hg].
  destruct (env (Get k ns name) w) as [r w1]. cbn [fst snd] in Hu, Hg.
  destruct (objs w k !! (ns, name)) as [o|].
  - subst r. eexists _, w1. split; [reflexivity|]. split; [done|]. by repeat constructor.
  - destruct Hg as (err & -> & _). by exists err, w1.
Qed.

Lemma ensure_want_run ns want w :
  generates ns want -> workable admits ns (objs w) want ->
  exists t w', run env (ensure_want ns want) w = (Returns (inr tt), t, w') /\
    progress ns [want] (objs w) (objs w').
Proof.
  destruct want as [k name gen stale|k name]; intros Hg Hw.
  - destruct (want_looked_up ns k name gen stale w Hg) as (o & t & w1 & Ho & Hkey & Hu & _ & ->).
    cbn [workable] in Hw. destruct (objs w k !! (ns, name)) as [old|] eqn:E.
    + destruct Hw as (replace & Es & Ha). rewrite Es. cbn [or_panic bind]. destruct replace.
      * pose proof (update_run k ns name gen stale old o w1 (objs w) Hu E Es Hkey Ho) as H.
        rewrite Ha in H by done. destruct H as (e & w2 & -> & H). by exists (t ++ e), w2.
      * exists (t ++ []), w1. split; [done|]. apply progress_unchanged; [done|]. exists old. by rewrite Hu, E, Es.
    + pose proof (create_run k ns name gen stale o w1 (objs w) Hu E Hkey Ho) as H.
      rewrite Hw in H by done. destruct H as (e & w2 & -> & H). by exists (t ++ e), w2.
  - pose proof (need_run ns k name w) as H. cbn [workable] in Hw.
    destruct (objs w k !! (ns, name)) as [o|] eqn:E; [|done]. destruct H as (t & w1 & -> & Hu & _).
    exists t, w1. split; [done|]. apply progress_unchanged; [done|]. cbn [met]. by rewrite Hu, E.
Qed.

(** The end at a want that cannot be met. *)
Lemma ensure_want_refused ns want w :
  generates ns want -> hopeless admits ns (objs w) want ->
  exists err t e w', run env (ensure_want ns want) w = (Returns (inl err), t ++ [e], w') /\
    refuses ns (objs w) want err e /\ unchanged (objs w) (objs w').
Proof.
  destruct want as [k name gen stale|k name]; intros Hg Hw.
  - destruct (want_looked_up ns k name gen stale w Hg) as (o & t & w1 & Ho & Hkey & Hu & _ & ->).
    cbn [hopeless] in Hw. destruct (objs w k !! (ns, name)) as [old|] eqn:E.
    + destruct Hw as [Es Ha]. rewrite Es. cbn [or_panic bind].
      pose proof (update_run k ns name gen stale old o w1 (objs w) Hu E Es Hkey Ho) as H.
      rewrite Ha in H by done. destruct H as (err & w2 & -> & H). exists err, t, (ev (Update k o) (inl err)), w2.
      split; [done|]. split; [|done]. exists o. by rewrite E.
    + pose proof (create_run k ns name gen stale o w1 (objs w) Hu E Hkey Ho) as H.
      rewrite Hw in H by done. destruct H as (err & w2 & -> & H). exists err, t, (ev (Create k o) (inl err)), w2.
      split; [done|]. split; [|done]. exists o. by rewrite E.
  - pose proof (need_run ns k name w) as H. cbn [hopeless] in Hw. rewrite Hw in H.
    destruct H as (err & w1 & -> & Hu). exists err, [], (ev (Get k ns name) (inl err)), w1.
    by split_and!.
Qed.

(** ** The list *)

Lemma made_cons w ws : made (w :: ws) = made [w] ++ made ws.
Proof. by destruct w. Qed.

Lemma progress_cons ns w ws m m1 m2 :
  NoDup (made (w :: ws)) -> progress ns [w] m m1 -> progress ns ws m1 m2 -> progress ns (w :: ws) m m2.
Proof.
  rewrite made_cons. intros HN%NoDup_app (Hm1 & Ho1 & Hn1 & Hp1) (Hm2 & Ho2 & Hn2 & Hp2).
  destruct HN as (_ & Hdis & _). split_and!.
  - apply Forall_cons in Hm1 as [Hm1 _]. constructor.
    + destruct w as [k name gen stale|k name]; simpl in *; [|by apply Hp2].
      rewrite Ho2; [done|]. apply Hdis. left.
    + rewrite Forall_forall in Hm2 |- *. intros w' Hw'. specialize (Hm2 w' Hw').
      destruct w' as [k name gen stale|k name]; simpl in *; [|done].
      rewrite <- Ho1; [done|]. intros Hin. apply (Hdis _ Hin). unfold made.
      apply list_elem_of_omap. by exists (Make k name gen stale).
  - intros k name Hk. rewrite (made_cons w ws), not_elem_of_app in Hk. destruct Hk. by rewrite Ho2, Ho1.
  - intros k n name Hn. by rewrite Hn2, Hn1.
  - auto.
Qed.

(** What the making of one object leaves of the state of another. *)
Lemma other_kept ns w w' ws m m1 :
  NoDup (made (w :: ws)) -> progress ns [w] m m1 -> w' ∈ ws ->
  (forall k name gen stale, w' = Make k name gen stale -> m1 k !! (ns, name) = m k !! (ns, name)) /\
  (forall k key, m k !! key <> None -> m1 k !! key <> None).
Proof.
  rewrite made_cons. intros HN%NoDup_app (_ & Ho & _ & Hp) Hw'. destruct HN as (_ & Hdis & _).
  split; [|done]. intros k name gen stale ->. rewrite Ho; [done|]. intros Hin. apply (Hdis _ Hin). unfold made.
  apply list_elem_of_omap. by exists (Make k name gen stale).
Qed.

(** What was workable stays so, and what was hopeless, unless it is an object of
    the user's. *)
Lemma workable_kept ns w m m1 :
  (forall k name gen stale, w = Make k name gen stale -> m1 k !! (ns, name) = m k !! (ns, name)) ->
  (forall k key, m k !! key <> None -> m1 k !! key <> None) ->
  workable admits ns m w -> workable admits ns m1 w.
Proof.
  destruct w as [k name gen stale|k name]; intros H Hp; cbn [workable]; [|apply Hp].
  by rewrite (H k name gen stale eq_refl).
Qed.

Lemma workable_progress ns w ws m m1 :
  NoDup (made (w :: ws)) -> progress ns [w] m m1 ->
  Forall (workable admits ns m) ws -> Forall (workable admits ns m1) ws.
Proof.
  intros HN Hp. rewrite !Forall_forall. intros H w' Hw'.
  destruct (other_kept ns w w' ws m m1 HN Hp Hw') as [H1 H2]. by eapply workable_kept, H.
Qed.

Lemma ensure_all_run ns ws w :
  NoDup (made ws) -> Forall (generates ns) ws -> Forall (workable admits ns (objs w)) ws ->
  exists t w', run env (ensure_all ns ws) w = (Returns (inr tt), t, w') /\
    progress ns ws (objs w) (objs w').
Proof.
  revert w; induction ws as [|want ws IH]; intros w HN Hg Hw.
  - exists [], w. split; [done|]. by split_and!.
  - apply Forall_cons in Hg as [Hg1 Hg], Hw as [Hw1 Hw].
    destruct (ensure_want_run ns want w Hg1 Hw1) as (t1 & w1 & E1 & P1).
    assert (NoDup (made ws)) as HN' by (rewrite made_cons in HN; apply NoDup_app in HN; apply HN).
    destruct (IH w1 HN' Hg) as (t2 & w2 & E2 & P2); [exact (workable_progress ns want ws _ _ HN P1 Hw)|].
    exists (t1 ++ t2), w2. split; [|exact (progress_cons ns want ws _ _ _ HN P1 P2)].
    unfold ensure_all in *. cbn [for_each]. unfold try. by rewrite run_bind, E1, E2.
Qed.

(** Not an object of the user's that is itself one of those made before. *)
Definition own_turn (pre : list want) (w : want) : Prop :=
  match w with
  | Make k name _ _ => True
  | Need k name => (k, name) ∉ made pre
  end.

Lemma turn_kept ns pre w post m m1 :
  NoDup (made (pre ++ w :: post)) -> own_turn pre w -> progress ns pre m m1 ->
  hopeless admits ns m w ->
  hopeless admits ns m1 w /\ forall err e, refuses ns m1 w err e -> refuses ns m w err e.
Proof.
  unfold made. rewrite omap_app. intros HN%NoDup_app Ht (_ & Ho & _ & _) Hh. destruct HN as (_ & Hdis & _).
  destruct w as [k name gen stale|k name]; cbn [hopeless refuses] in *; rewrite Ho; try done.
  intros Hin. apply (Hdis _ Hin). simpl. left.
Qed.

Lemma ensure_all_refused ns pre w post v :
  NoDup (made (pre ++ w :: post)) -> Forall (generates ns) (pre ++ w :: post) ->
  Forall (workable admits ns (objs v)) pre -> own_turn pre w -> hopeless admits ns (objs v) w ->
  exists err t e v', run env (ensure_all ns (pre ++ w :: post)) v = (Returns (inl err), t ++ [e], v') /\
    refuses ns (objs v) w err e /\ progress ns pre (objs v) (objs v').
Proof.
  intros HN [Hg1 [Hg2 Hg3]%Forall_cons]%Forall_app Hw Ht Hh.
  assert (NoDup (made pre)) as HN1 by (unfold made in *; rewrite omap_app in HN; apply NoDup_app in HN; apply HN).
  destruct (ensure_all_run ns pre v HN1 Hg1 Hw) as (t1 & v1 & E1 & P1).
  destruct (turn_kept ns pre w post _ _ HN Ht P1 Hh) as [Hh' Href].
  destruct (ensure_want_refused ns w v1 Hg2 Hh') as (err & t2 & e & v2 & E2 & Hr & Hu).
  exists err, (t1 ++ t2), e, v2. split; [|split; [by apply Href|]].
  - rewrite (ensure_all_app ns pre (w :: post)). unfold try at 1. rewrite run_bind, E1. cbn [ensure_all for_each].
    change (for_each (w :: post) (ensure_want ns)) with
      (try (ensure_want ns w) (fun _ => for_each post (ensure_want ns))).
    unfold try. rewrite run_bind, E2. cbn [fail run]. by rewrite app_nil_r, app_assoc.
  - destruct P1 as (Hm & Ho & Hn & Hp). split_and!.
    + eapply Forall_impl; [exact Hm|]. intros [k name gen stale|k name]; cbn [met]; by rewrite Hu.
    + intros. rewrite Hu. by apply Ho.
    + intros. rewrite Hu. by apply Hn.
    + intros k key Hk. rewrite Hu. by apply Hp.
Qed.

(** ** Once settled, nothing is written *)

Lemma settled_want_run ns want w :
  generates ns want -> settled ns (objs w) want ->
  exists t w', run env (ensure_want ns want) w = (Returns (inr tt), t, w') /\
    unchanged (objs w) (objs w') /\ Forall read_only t.
Proof.
  destruct want as [k name gen stale|k name].
  - intros Hg (old & Hold & Es). destruct (want_looked_up ns k name gen stale w Hg)
      as (o & t & w1 & _ & _ & Hu & Ht & ->).
    rewrite Hold, Es. exists (t ++ []), w1. split; [done|]. split; [done|]. by rewrite app_nil_r.
  - intros _ Hw. pose proof (need_run ns k name w) as H. cbn [settled] in Hw.
    by destruct (objs w k !! (ns, name)).
Qed.

Lemma settled_run ns ws w :
  Forall (generates ns) ws -> Forall (settled ns (objs w)) ws ->
  exists t w', run env (ensure_all ns ws) w = (Returns (inr tt), t, w') /\
    unchanged (objs w) (objs w') /\ Forall read_only t.
Proof.
  revert w; induction ws as [|want ws IH]; intros w Hg Hs.
  - by exists [], w.
  - apply Forall_cons in Hg as [Hg1 Hg], Hs as [Hs1 Hs].
    destruct (settled_want_run ns want w Hg1 Hs1) as (t1 & w1 & E1 & U1 & R1).
    destruct (IH w1 Hg) as (t2 & w2 & E2 & U2 & R2).
    { eapply Forall_impl; [exact Hs|]. intros [k n g st|k n]; simpl; by rewrite U1. }
    exists (t1 ++ t2), w2. split; [|split; [by etrans|by apply Forall_app]].
    unfold ensure_all in *. cbn [for_each]. unfold try. by rewrite run_bind, E1, E2.
Qed.

(** If all wants can be met, the loop reaches the state it wants in one go, and
    then rests. *)
Definition establishes (ns : string) (ws : list want) (p : prog (result unit)) : Prop :=
  forall w, Forall (workable admits ns (objs w)) ws ->
  exists t w', run env p w = (Returns (inr tt), t, w') /\ progress ns ws (objs w) (objs w') /\
    exists t' w'', run env p w' = (Returns (inr tt), t', w'') /\
      unchanged (objs w') (objs w'') /\ Forall read_only t'.

(** Otherwise it stops at the first that cannot, with the server's error, and
    what was wanted before is in place. *)
Definition stops_short (ns : string) (ws : list want) (p : prog (result unit)) : Prop :=
  forall pre x post w, ws = pre ++ x :: post ->
  Forall (workable admits ns (objs w)) pre -> own_turn pre x -> hopeless admits ns (objs w) x ->
  exists err t e w', run env p w = (Returns (inl err), t ++ [e], w') /\
    refuses ns (objs w) x err e /\
    progress ns pre (objs w) (objs w').

Lemma ensure_all_establishes ns ws p :
  p ≃ ensure_all ns ws -> NoDup (made ws) -> Forall (generates ns) ws -> establishes ns ws p.
Proof.
  intros Hp HN Hg w Hw.
  destruct (ensure_all_run ns ws w HN Hg Hw) as (t & w' & E & P). rewrite <- Hp in E.
  exists t, w'. split; [done|]. split; [done|].
  destruct (settled_run ns ws w' Hg) as (t' & w'' & E' & U & R).
  { destruct P as [Hm _]. rewrite Forall_forall in *. intros want Hin.
    eapply met_settled; [by apply Hg|by apply Hw|by apply Hm]. }
  rewrite <- Hp in E'. by exists t', w''.
Qed.

Lemma ensure_all_stops ns ws p :
  p ≃ ensure_all ns ws -> NoDup (made ws) -> Forall (generates ns) ws -> stops_short ns ws p.
Proof.
  intros Hp HN Hg pre x post w -> Hw Ht Hh.
  destruct (ensure_all_refused ns pre x post w HN Hg Hw Ht Hh) as (err & t & e & w' & E & H). rewrite <- Hp in E.
  by exists err, t, e, w'.
Qed.

(** ** Whatever the server says *)

(** A want that would not trip the code over touches at most its own object,
    whether it is met or refused. *)
Definition sound_want (m : Objects) (ns : string) (w : want) : Prop :=
  match w with
  | Make k name _ stale => forall old, m k !! (ns, name) = Some old -> exists b, (stale old : option bool) = Some b
  | Need _ _ => True
  end.

Definition keys (ns : string) (ws : list want) : list (kind * (string * string)) :=
  (fun x => (x.1, (ns, x.2))) <$> made ws.

Lemma ensure_want_any ns x w :
  generates ns x -> sound_want (objs w) ns x ->
  exists r t w', run env (ensure_want ns x) w = (Returns r, t, w') /\
    forall k key, (k, key) ∉ keys ns [x] -> objs w' k !! key = objs w k !! key.
Proof.
  intros Hg Hs. unfold keys. destruct x as [k name gen stale|k name].
  - destruct (want_looked_up ns k name gen stale w Hg) as (o & t & w1 & Ho & Hkey & Hu & _ & ->).
    assert (forall m', progress ns [Make k name gen stale] (objs w) m' \/ unchanged (objs w) m' ->
      forall k' key, (k', key) ∉ ((fun x => (x.1, (ns, x.2))) <$> made [Make k name gen stale]) ->
      m' k' !! key = objs w k' !! key) as Hown.
    { intros m' [(_ & H1 & H2 & _)|H] k' [ns' name'] Hn; [|by rewrite H].
      destruct (decide (ns' = ns)) as [->|]; [|by apply H2]. apply H1. intros Hin. apply Hn.
      by apply (list_elem_of_fmap_2' _ _ (k', name')). }
    cbn [sound_want] in Hs. destruct (objs w k !! (ns, name)) as [old|] eqn:E.
    + destruct (Hs old eq_refl) as [replace Es]. rewrite Es. cbn [or_panic bind]. destruct replace.
      * pose proof (update_run k ns name gen stale old o w1 (objs w) Hu E Es Hkey Ho) as H.
        destruct (admits k (Some old) o); [destruct H as (e & w2 & -> & H)|destruct H as (err & w2 & -> & H)];
          eexists _, _, w2; (split; [reflexivity|]); apply Hown; auto.
      * eexists _, _, w1. split; [reflexivity|]. apply Hown. auto.
    + pose proof (create_run k ns name gen stale o w1 (objs w) Hu E Hkey Ho) as H.
      destruct (admits k None o); [destruct H as (e & w2 & -> & H)|destruct H as (err & w2 & -> & H)];
        eexists _, _, w2; (split; [reflexivity|]); apply Hown; auto.
  - pose proof (need_run ns k name w) as H.
    destruct (objs w k !! (ns, name)) as [o|]; [destruct H as (t & w1 & -> & Hu & _)|destruct H as (err & w1 & -> & Hu)];
      eexists _, _, w1; (split; [reflexivity|]); intros k' key _; apply Hu.
Qed.

(** So a want that cannot be met makes the loop fail, whatever becomes of those
    before it, and nothing behind it is made. *)
Lemma ensure_all_fails ns pre k name gen stale post w :
  let x := Make k name gen stale in
  NoDup (made (pre ++ x :: post)) -> Forall (generates ns) (pre ++ x :: post) ->
  (forall m, Forall (sound_want m ns) pre) -> hopeless admits ns (objs w) x ->
  exists err t w', run env (ensure_all ns (pre ++ x :: post)) w = (Returns (inl err), t, w') /\
    forall k key, (k, key) ∉ keys ns pre -> objs w' k !! key = objs w k !! key.
Proof.
  intros x HN Hg Hs. revert w. induction pre as [|y pre IH]; intros w Hh.
  - apply Forall_cons in Hg as [Hg _].
    destruct (ensure_want_refused ns x w Hg Hh) as (err & t & e & w' & E & _ & Hu).
    exists err, (t ++ [e]), w'. split; [|intros k' key _; apply Hu].
    unfold ensure_all. cbn [app for_each]. unfold try. rewrite run_bind, E. cbn [fail run]. by rewrite app_nil_r.
  - cbn [app] in HN, Hg. apply Forall_cons in Hg as [Hg1 Hg]. rewrite made_cons in HN.
    apply NoDup_app in HN as (_ & Hdis & HN).
    destruct (ensure_want_any ns y w Hg1) as (r & t & w1 & E & Hu).
    { specialize (Hs (objs w)). by apply Forall_cons in Hs as [Hs _]. }
    assert (forall k key, (k, key) ∉ keys ns (y :: pre) -> objs w1 k !! key = objs w k !! key) as Hu'.
    { intros k' key Hn. apply Hu. intros Hin. apply Hn. unfold keys in *. rewrite made_cons, fmap_app.
      apply elem_of_app. by left. }
    unfold ensure_all in *. cbn [app for_each]. unfold try. rewrite run_bind, E. destruct r as [err|[]].
    + exists err, (t ++ []), w1. by split.
    + destruct (IH HN Hg) with w1 as (err & t2 & w2 & E2 & Hu2).
      * intros m. specialize (Hs m). by apply Forall_cons in Hs as [_ Hs].
      * unfold hopeless, x in *. rewrite Hu; [done|]. unfold keys. intros Hin.
        apply list_elem_of_fmap in Hin as ([k' n'] & [= -> ->] & Hin). apply (Hdis _ Hin). unfold made.
        rewrite omap_app. apply elem_of_app. right. simpl. left.
      * exists err, (t ++ t2), w2. rewrite E2. split; [done|]. intros k' key Hn. rewrite Hu2; [by apply Hu'|].
        intros Hin. apply Hn. unfold keys in *. rewrite made_cons, fmap_app. apply elem_of_app. by right.
Qed.
(** In particular a service behind other services. *)
Lemma services_keys ns pre k key :
  Forall (fun x => exists s : Service, x = make KService s keep) pre -> (k, key) ∈ keys ns pre ->
  k = KService /\ key.1 = ns /\ (KService, key.2) ∈ made pre.
Proof.
  intros Hpre ([k' n'] & [= -> ->] & Hin)%list_elem_of_fmap. cbn [fst snd].
  assert (k' = KService) as ->; [|done]. unfold made in Hin.
  apply list_elem_of_omap in Hin as (x & Hx & Hm). rewrite Forall_forall in Hpre.
  destruct (Hpre x Hx) as [s ->]. by injection Hm.
Qed.

Lemma service_refused ns pre (s : Service) ws p w :
  p ≃ ensure_all ns ws -> NoDup (made ws) -> Forall (generates ns) ws ->
  (exists post, ws = pre ++ make KService s keep :: post) ->
  Forall (fun x => exists s : Service, x = make KService s keep) pre ->
  (forall old, admits KService old s = false) -> objs w KService !! (ns, Name (svc_meta s)) = None ->
  exists err t w', run env p w = (Returns (inl err), t, w') /\ objs w' KService !! (ns, Name (svc_meta s)) = None /\
    forall k key, k <> KService -> objs w' k !! key = objs w k !! key.
Proof.
  intros Hp HN Hg [post ->] Hpre Ha Hw.
  destruct (ensure_all_fails ns pre KService (Name (svc_meta s)) (Ret s) keep post w HN Hg)
    as (err & t & w' & E & Hu).
  - intros m. eapply Forall_impl; [exact Hpre|]. intros x [s' ->] old _. by exists false.
  - cbn [hopeless]. rewrite Hw. by intros o ->.
  - rewrite <- Hp in E. exists err, t, w'. split; [done|]. split.
    + rewrite Hu; [done|]. intros (_ & _ & Hin)%services_keys; [|done].
      unfold made in HN. rewrite omap_app in HN. apply NoDup_app in HN as (_ & HN & _).
      apply (HN _ Hin). simpl. left.
    + intros k key Hk. apply Hu. by intros [? _]%services_keys.
Qed.
End server.

(** ** The wants of a resource can be met *)

Lemma app_longer (s a : string) c : s <> s ^^ String c a.
Proof.
  intros H. apply (f_equal String.length) in H. rewrite length_app_str in H. simpl in H. lia.
Qed.

Section generated.
  Context {QO : QuantityOrder} {QL : QuantityLaws QO}.

Lemma generates_make k ns (o : object k) stale :
  Namespace (object_meta k o) = ns -> (forall stored, kept k o stored -> stale stored = Some false) ->
  generates ns (make k o stale).
Proof.
  intros <- Hs. split; [done|]. split; [done|]. intros o' Ho. simpl in Ho. subst o'. by split.
Qed.

Lemma kept_same_set sent stored : kept KStatefulSet sent stored -> same_set stored sent.
Proof. by intros (? & _ & ? & ?). Qed.

Lemma redis_set_kept rc l refs stored :
  kept KStatefulSet (SentinelGen.generateRedisStatefulSet rc l refs).1 stored ->
  redis_stale rc stored = Some false.
Proof.
  intros Hs%kept_same_set. unfold redis_stale. rewrite (exporter_unchanged rc l refs) by done.
  destruct (redis_head rc l refs) as (c & Hc & Hres). destruct (same_set_head _ _ _ Hs Hc) as (c' & -> & Hr).
  destruct Hs as (-> & _). simpl. by rewrite Hr, Hres, shouldUpdateRedis_same.
Qed.

Lemma sentinel_set_kept rc l refs stored :
  kept KStatefulSet (generateSentinelStatefulSet rc l refs) stored ->
  sentinel_stale rc stored = Some false.
Proof.
  intros Hs%kept_same_set. unfold sentinel_stale. destruct (same_set_head _ _ _ Hs eq_refl) as (c' & -> & Hr).
  destruct Hs as (-> & _). simpl in *. by rewrite Hr, shouldUpdateRedis_same.
Qed.

Lemma standalone_set_kept rs l refs stored :
  kept KStatefulSet (StandaloneGen.generateRedisStatefulSet rs l refs).1 stored ->
  standalone_stale rs stored = Some false.
Proof.
  intros Hs%kept_same_set. unfold standalone_stale. rewrite (exporter_unchanged' rs l refs) by done.
  destruct (server_head rs l refs) as (c & Hc & Hres). destruct (same_set_head _ _ _ Hs Hc) as (c' & -> & Hr).
  destruct Hs as (-> & _). simpl. by rewrite Hr, Hres, shouldUpdateRedis_same'.
Qed.

Lemma sentinel_generates rc l refs :
  Forall (generates (Namespace (meta rc))) (sentinel_wants rc l refs).
Proof.
  assert (forall k (o : object k), Namespace (object_meta k o) = Namespace (meta rc) ->
    generates (Namespace (meta rc)) (make k o keep)) as Hkeep by (intros; by apply generates_make).
  unfold sentinel_wants, sentinel_first. rewrite !Forall_app, !Forall_cons.
  split_and!; try (by apply Hkeep); try (by apply Forall_nil).
  - destruct (Enabled _); [|done]. apply Forall_cons. split; [by apply Hkeep|done].
  - destruct (_ =? _)%string; [by apply Hkeep|done].
  - apply generates_make; [done|]. apply redis_set_kept.
  - apply generates_make; [done|]. apply sentinel_set_kept.
Qed.

Lemma standalone_generates rs l refs :
  Forall (generates (Namespace (meta rs))) (standalone_wants rs l refs).
Proof.
  assert (forall k (o : object k), Namespace (object_meta k o) = Namespace (meta rs) ->
    generates (Namespace (meta rs)) (make k o keep)) as Hkeep by (intros; by apply generates_make).
  unfold standalone_wants, standalone_first. rewrite !Forall_app, !Forall_cons.
  split_and!; try (by apply Hkeep); try (by apply Forall_nil).
  - split; [by split|]. split; [by intros seed|]. intros o (seed & Ho). simpl in Ho. by subst o.
  - destruct (_ =? _)%string; [by apply Hkeep|done].
  - destruct (Enabled _); [|done]. apply Forall_cons. split; [by apply Hkeep|done].
  - apply generates_make; [done|]. apply standalone_set_kept.
Qed.

(** Objects of one kind that a resource wants have different names. *)
Lemma types_differ t t' n : t <> t' -> GenerateName t n <> GenerateName t' n.
Proof. intros Hne H. by apply Hne, (generate_type_inj t t' n). Qed.

Ltac names_differ :=
  repeat first [apply NoDup_nil_2 | apply NoDup_cons; split];
  rewrite ?not_elem_of_cons; repeat split; try apply not_elem_of_nil; congruence.

(** What each resource makes. *)
Lemma sentinel_made rc l refs G :
  (forall t, G t = GenerateName t (Name (meta rc))) ->
  made (sentinel_wants rc l refs) =
    [(KService, G Names.Sentinel.RedisName); (KService, G SentinelName); (KService, G "-sentinel-headless")] ++
    (if Enabled (Exporter (redis (Spec rc)))
     then [(KService, G Names.Sentinel.RedisName ^^ "-monitor")] else []) ++
    [(KConfigMap, G SentinelName); (KConfigMap, G "-sentinel-readiness")] ++
    (if (ShutdownConfigMap (redis (Spec rc)) =? "")%string
     then [(KConfigMap, G Names.Sentinel.RedisShutdownName)] else []) ++
    [(KPodDisruptionBudget, G RedisName); (KStatefulSet, G Names.Sentinel.RedisName);
     (KPodDisruptionBudget, G SentinelName); (KStatefulSet, G SentinelName)].
Proof.
  intros HG. rewrite !HG. unfold sentinel_wants, sentinel_first, made, make.
  destruct (Enabled _), (ShutdownConfigMap (redis (Spec rc)) =? "")%string eqn:E; cbn -[GenerateName];
    unfold Names.Sentinel.GetRedisShutdownConfigMapName; rewrite ?E; done.
Qed.

Lemma standalone_made rs l refs G :
  (forall t, G t = GenerateName t (Name (meta rs))) ->
  made (standalone_wants rs l refs) =
    [(KService, G Names.Standalone.RedisName); (KService, G Names.Standalone.RedisName ^^ "-headless");
     (KConfigMap, G Names.Standalone.RedisName)] ++
    (if (ShutdownConfigMap (Spec rs) =? "")%string
     then [(KConfigMap, G Names.Standalone.RedisShutdownName)] else []) ++
    (if Enabled (Exporter (Spec rs))
     then [(KService, G Names.Standalone.RedisName ^^ "-monitor")] else []) ++
    [(KStatefulSet, G Names.Standalone.RedisName)].
Proof.
  intros HG. rewrite !HG. unfold standalone_wants, standalone_first, made, make.
  destruct (Enabled _), (ShutdownConfigMap (Spec rs) =? "")%string eqn:E; cbn -[GenerateName];
    unfold Names.Standalone.GetRedisShutdownConfigMapName; rewrite ?E; done.
Qed.

Lemma sentinel_names rc l refs : NoDup (made (sentinel_wants rc l refs)).
Proof.
  set (G t := GenerateName t (Name (meta rc))).
  rewrite (sentinel_made rc l refs G) by done.
  assert (forall t t', t <> t' -> G t <> G t') as HG by (intros t t'; apply types_differ).
  assert (G Names.Sentinel.RedisName ^^ "-monitor" <> G SentinelName) as H1 by done.
  assert (G Names.Sentinel.RedisName ^^ "-monitor" <> G "-sentinel-headless") as H2 by done.
  pose proof (app_longer (G Names.Sentinel.RedisName) "monitor" "-") as H3.
  pose proof (HG Names.Sentinel.RedisName SentinelName ltac:(done)).
  pose proof (HG Names.Sentinel.RedisName "-sentinel-headless" ltac:(done)).
  pose proof (HG SentinelName "-sentinel-headless" ltac:(done)).
  pose proof (HG SentinelName "-sentinel-readiness" ltac:(done)).
  pose proof (HG SentinelName Names.Sentinel.RedisShutdownName ltac:(done)).
  pose proof (HG "-sentinel-readiness" Names.Sentinel.RedisShutdownName ltac:(done)).
  pose proof (HG RedisName SentinelName ltac:(done)).
  clearbody G. destruct (Enabled _), (_ =? _)%string; cbn [app]; names_differ.
Qed.

Lemma standalone_names rs l refs : NoDup (made (standalone_wants rs l refs)).
Proof.
  set (G t := GenerateName t (Name (meta rs))). rewrite (standalone_made rs l refs G) by done.
  pose proof (app_longer (G Names.Standalone.RedisName) "monitor" "-").
  pose proof (app_longer (G Names.Standalone.RedisName) "headless" "-").
  pose proof (types_differ Names.Standalone.RedisName Names.Standalone.RedisShutdownName
    (Name (meta rs)) ltac:(done)).
  assert (G Names.Standalone.RedisName ^^ "-headless" <> G Names.Standalone.RedisName ^^ "-monitor")
    by (intros Heq; by apply app_inj_l in Heq).
  fold (G Names.Standalone.RedisName) (G Names.Standalone.RedisShutdownName) in *.
  clearbody G. destruct (Enabled _), (_ =? _)%string; cbn [app]; names_differ.
Qed.


(** The names of the headless services. *)
Lemma headless_length rc rs :
  String.length (Names.Sentinel.GetSentinelHeadlessSvc rc) = (24 + String.length (Name (meta rc)))%nat /\
  String.length (Names.Standalone.GetRedisName rs ^^ "-headless") = (26 + String.length (Name (meta rs)))%nat.
Proof.
  unfold Names.Sentinel.GetSentinelHeadlessSvc, Names.Standalone.GetRedisName, GenerateName.
  rewrite !length_app_str. simpl. lia.
Qed.

(** C39: A name the validation accepts can be too long for the API server. The
    validation allows 48 characters; a Service's name may have 63, and the
    longest Service of a sentinel cluster is named after the resource with 24
    characters more, that of a standalone server with 26. So on a server that
    refuses services with longer names, [Ensure] of a cluster whose name has 40
    characters or more, or of a standalone server whose name has 38 or more, and
    whose headless service is not there, returns an error, whatever else the server
    holds or admits: the service is not there afterwards either, and no ConfigMap,
    budget or StatefulSet is made or changed. *)
Theorem long_names_refused {W} (env : Env W) (objs : W -> Objects) admits `{!ApiServer env objs admits} rc rs l refs :
  let fails ns name p := forall w, objs w KService !! (ns, name) = None ->
    exists err t w', run env p w = (Returns (inl err), t, w') /\ objs w' KService !! (ns, name) = None /\
      forall k key, k <> KService -> objs w' k !! key = objs w k !! key in
  (forall old s, (63 < String.length (Name (svc_meta s)))%nat -> admits KService old s = false) ->
  ((39 < String.length (Name (meta rc)))%nat ->
   fails (Namespace (meta rc)) (Names.Sentinel.GetSentinelHeadlessSvc rc)
     (outcome_of (SentinelHandler.Ensure rc l refs))) /\
  ((37 < String.length (Name (meta rs)))%nat ->
   fails (Namespace (meta rs)) (Names.Standalone.GetRedisName rs ^^ "-headless")
     (outcome_of (StandaloneHandler.Ensure rs l refs))).
Proof.
  intros fails Hlong. pose proof (headless_length rc rs) as [L1 L2].
  split; intros Hl w Hw.
  - eapply (service_refused env objs admits _ [_; _] (newHeadLessSvcForCR rc l refs));
      [apply sentinel_Ensure_wants|apply sentinel_names|apply sentinel_generates|by eexists| | |exact Hw].
    + repeat apply Forall_cons_2; [by eexists..|apply Forall_nil_2].
    + intros old. apply Hlong.
      change (63 < String.length (Names.Sentinel.GetSentinelHeadlessSvc rc))%nat. lia.
  - eapply (service_refused env objs admits _ [_] (generateHeadlessRedisService rs l refs));
      [apply standalone_Ensure_wants|apply standalone_names|apply standalone_generates|by eexists| | |exact Hw].
    + repeat apply Forall_cons_2; [by eexists..|apply Forall_nil_2].
    + intros old. apply Hlong.
      change (63 < String.length (Names.Standalone.GetRedisName rs ^^ "-headless"))%nat. lia.
Qed.
End generated.

(** ** A server *)

Definition put_object {k} (o : object k) (m : Objects) : Objects :=
  fun k' =>
    match decide (k = k') with
    | left H => eq_rect k (fun k => gmap (string * string) (object k)) (<[key_in o := o]> (m k)) k' H
    | right _ => m k'
    end.

Lemma put_object_put {k} (o : object k) m : put o m (put_object o m).
Proof.
  unfold put, put_object. split.
  - destruct (decide (k = k)) as [H|]; [|done]. rewrite (proof_irrel H eq_refl). simpl.
    apply lookup_insert_eq.
  - intros k' key Hne. destruct (decide (k = k')) as [<-|]; [|done]. simpl.
    apply lookup_insert_ne. congruence.
Qed.

Definition missing : error := mkError "not found" true.
Definition present : error := errors_New "already exists".

(** Two of the rules of Kubernetes' own validation: the name of a Service has at
    most 63 characters, and of a StatefulSet the selector and the claims never
    change. *)
Definition server_admits : Admission := fun k =>
  match k return option (object k) -> object k -> bool with
  | KService => fun _ s => (String.length (Name (svc_meta s)) <=? 63)%nat
  | KStatefulSet => fun old ss =>
      match old with
      | Some old => bool_decide (ss_Selector old = ss_Selector ss) &&
          bool_decide (ss_VolumeClaimTemplates old = ss_VolumeClaimTemplates ss)
      | None => true
      end
  | _ => fun _ _ => true
  end.
Definition invalid : error := errors_New "is invalid".

(** The state is the store itself. Nothing is listed and no redis answers. *)
Definition server : Env Objects := fun e =>
  match e return Objects -> resp e * Objects with
  | Get k ns name => fun m =>
      (match m k !! (ns, name) with Some o => inr o | None => inl missing end, m)
  | Create k o => fun m =>
      match m k !! key_in o with
      | Some _ => (inl present, m)
      | None => if server_admits k None o then (inr tt, put_object o m) else (inl invalid, m)
      end
  | Update k o => fun m =>
      match m k !! key_in o with
      | Some old => if server_admits k (Some old) o then (inr o, put_object o m) else (inl invalid, m)
      | None => (inl missing, m)
      end
  | StatusUpdate k o => fun m => (inr o, m)
  | Delete _ _ => fun m => (inl missing, m)
  | List _ _ _ => fun m => (inr [], m)
  | StringCmd _ _ => fun m => (inl present, m)
  | SliceCmd _ _ => fun m => (inl present, m)
  | IntCmd _ _ => fun m => (inl present, m)
  | BoolCmd _ _ => fun m => (inl present, m)
  | StatusCmd _ _ => fun m => (inl present, m)
  | Now => fun m => (0, m)
  | Sleep _ => fun m => (tt, m)
  | Seed => fun m => ([], m)
  | RecordEvent _ _ _ _ _ _ => fun m => (tt, m)
  | SetGauge _ _ _ => fun m => (tt, m)
  | DeleteGauge _ _ => fun m => (tt, m)
  end.

Lemma kept_refl k (o : object k) : kept k o o.
Proof. by destruct k. Qed.

#[export] Instance server_keeps : ApiServer server (fun m => m) server_admits.
Proof.
  split.
  - intros k ns name m. simpl. split; [done|]. destruct (m k !! (ns, name)); [done|]. by exists missing.
  - intros k o m E. simpl. rewrite E. destruct (server_admits k None o); [|split; [done|by eexists]].
    split; [done|]. exists o. split; [apply kept_refl|]. split; [done|apply put_object_put].
  - intros k old o m E. simpl. rewrite E. destruct (server_admits k (Some old) o); [|split; [done|by eexists]].
    exists o. split; [done|]. split; [apply kept_refl|]. split; [done|apply put_object_put].
  - done.
Qed.

(** ** Witness: from an empty server, the sample cluster's objects *)

Definition nothing : Objects := fun _ => ∅.

Lemma absent_workable admits ns m k name gen stale :
  m k !! (ns, name) = None -> (forall o, may_return gen o -> admits k None o = true) ->
  workable admits ns m (Make k name gen stale).
Proof. intros E H. cbn [workable]. by rewrite E. Qed.

Lemma nothing_workable : Forall (workable server_admits "prod" nothing) (sentinel_wants sampleSentinel ∅ sampleOwner).
Proof.
  unfold sentinel_wants. simpl.
  repeat apply Forall_cons_2; try apply Forall_nil_2; (apply absent_workable; [by apply lookup_empty|]);
    intros o ->; reflexivity.
Qed.

(** A cluster that had another label, and fewer replicas: the StatefulSet in
    place has a selector that the one generated now has not. *)
Definition outgrown : Objects :=
  let ss := (SentinelGen.generateRedisStatefulSet sampleSentinel {[ "team" := "a" ]} sampleOwner).1 in
  put_object (k := KStatefulSet)
    (mkStatefulSet (ss_meta ss) (ss_ServiceName ss) (Some 2) (ss_UpdateStrategy ss) (ss_Selector ss) (ss_Template ss)
       (ss_VolumeClaimTemplates ss) 2) nothing.


(** A name of 48 characters. *)
Definition longSentinel : RedisSentinel :=
  let m := meta sampleSentinel in
  mkResource (mkObjectMeta "a-cluster-of-redis-servers-for-the-production-of" (Namespace m) (UID m) (ResourceVersion m)
    (Generation m) (CreationTimestamp m) (Labels m) (Annotations m) (OwnerReferences m))
    (Spec sampleSentinel) (Status sampleSentinel).

Lemma long_names_refused_witness :
  (RedisSentinel_Validate longSentinel).2.2 = None /\
  exists err t m, run server (outcome_of (SentinelHandler.Ensure longSentinel ∅ sampleOwner)) nothing
      = (Returns (inl err), t, m) /\ m KStatefulSet = ∅.
Proof.
  split; [vm_compute; reflexivity|].
  destruct (long_names_refused (QL := sampleOrder_laws) server (fun m => m) server_admits longSentinel sampleStandalone
    ∅ sampleOwner) as [Hs _].
  - intros old s Hl. apply Nat.leb_gt. exact Hl.
  - destruct (Hs ltac:(vm_compute; lia) nothing ltac:(reflexivity)) as (err & t & m & E & _ & Hm).
    exists err, t, m. split; [exact E|]. apply map_eq. intros key. by rewrite Hm.
Defined.

(** How many objects were made: four services, three ConfigMaps, two budgets, two
    StatefulSets. *)
Example objects_made :
  let m := (run server (SentinelHandler.Ensure sampleSentinel ∅ sampleOwner) nothing).2 in
  (size (m KService), size (m KConfigMap), size (m KPodDisruptionBudget), size (m KStatefulSet))
  = (4, 3, 2, 2)%nat.
Proof. vm_compute. reflexivity. Qed.
