(* ===== verification/RedisProps.v ===== *)
(** * What the redis client guarantees

    Parsing of the servers' answers, and the commands each operation sends. *)

From S2P Require Import Prelude GoStd Corev1 Api Samples Util Effects RedisClient.

(** ** Commands sent

    [does p reqs]: when [p] succeeds it made exactly the requests [reqs]. *)

Definition requests (t : list event) : list Eff := projT1 <$> t.

Definition does (p : prog (result unit)) (reqs : list Eff) : Prop :=
  wlp p (fun t r => r = inr tt -> requests t = reqs).

Lemma does_ok : does (ok tt) [].
Proof. by intros _. Qed.

Lemma does_try {A} (m : prog (result A)) (f : A -> prog (result unit)) reqs reqs' :
  wlp m (fun t r => forall a, r = inr a -> requests t = reqs) -> (forall a, does (f a) reqs') ->
  does (try m f) (reqs ++ reqs').
Proof.
  intros Hm Hf. apply wlp_try. eapply wlp_mono, Hm. intros t [err|a] Ht; [done|].
  eapply wlp_mono, Hf. intros t' r Ht' Hr. unfold requests in *.
  by rewrite fmap_app, (Ht a), Ht'.
Qed.

Lemma does_status opt args (f : string -> prog (result unit)) reqs :
  (forall a, does (f a) reqs) -> does (try (act (StatusCmd opt args)) f) (StatusCmd opt args :: reqs).
Proof. intros Hf. apply (does_try _ _ [_]); [|done]. by intros r a _. Qed.

Lemma does_for_each {X} (xs : list X) (f : X -> prog (result unit)) (g : X -> list Eff) :
  (forall x, does (f x) (g x)) -> does (for_each xs f) (mjoin (g <$> xs)).
Proof.
  intros Hf. induction xs as [|x xs IH]; [apply does_ok|]. rewrite fmap_cons. simpl.
  apply does_try; [|done]. eapply wlp_mono, Hf. intros t r Ht [] Hr. auto.
Qed.

(** The commands of [MonitorRedis], in order. *)
Definition monitor_commands (ip monitor quorum : string) (auth : AuthConfig) : list Eff :=
  let opt := mkOptions (JoinHostPort ip "26379") "" 0 in
  [BoolCmd opt ["SENTINEL"; "REMOVE"; "mymaster"];
   BoolCmd opt ["SENTINEL"; "MONITOR"; "mymaster"; monitor; "6379"; quorum]] ++
  (if (auth_Password auth =? "")%string then []
   else [StatusCmd opt ["SENTINEL"; "SET"; "mymaster"; "auth-pass"; auth_Password auth]]) ++
  [StatusCmd opt ["SENTINEL"; "SET"; "mymaster"; "down-after-milliseconds"; "5000"];
   StatusCmd opt ["SENTINEL"; "SET"; "mymaster"; "failover-timeout"; "3000"];
   StatusCmd opt ["SENTINEL"; "SET"; "mymaster"; "parallel-syncs"; "2"]].

(** [MonitorRedis] sends its commands in a fixed order: it removes the old
    master, monitors the new one with the quorum, sets the password when there
    is one, then the three timing parameters. It always returns; on success all
    of them were sent, and after a failure what was sent is a beginning of that
    list. *)
Theorem MonitorRedis_sequence ip monitor quorum auth :
  spec (MonitorRedis ip monitor quorum auth) (fun t r =>
    match r with
    | inr _ => requests t = monitor_commands ip monitor quorum auth
    | inl _ => requests t `prefix_of` monitor_commands ip monitor quorum auth
    end).
Proof.
  unfold MonitorRedis, monitor_commands. destruct (auth_Password auth =? "")%string; simpl.
  - intros r1 [e|r2]; simpl; [by eexists|]. intros [e|r3]; simpl; [by eexists|].
    intros [e|r4]; simpl; [by eexists|]. intros [e|r5]; [by eexists|done].
  - intros r1 [e|r2]; simpl; [by eexists|]. intros [e|r3]; simpl; [by eexists|].
    intros [e|r4]; simpl; [by eexists|]. intros [e|r5]; simpl; [by eexists|].
    intros [e|r6]; [by eexists|done].
Qed.

(** ** Parsing *)

(** The leftmost occurrence of the literal is the one that is parsed. *)
Lemma find_submatch_at lit cls pre m rest :
  Contains (pre ^^ drop_last 1 lit) lit = false -> lit <> "" -> m <> "" ->
  all_chars cls m = true -> stops cls rest ->
  find_submatch lit cls (pre ^^ lit ^^ m ^^ rest) = Some m.
Proof.
  intros Hpre Hlit Hm Ha Hs. apply find_submatch_spec. exists pre, (lit ^^ m ^^ rest).
  split; [done|]. split; [apply match_here_spec; eauto 6|].
  intros p q E Hl. destruct (match_here lit cls q) as [m'|] eqn:Em; [exfalso|done].
  apply match_here_spec in Em as (_ & _ & r & -> & _).
  assert (exists c, lit = drop_last 1 lit ^^ String c "") as [c Hc].
  { clear -Hlit. unfold drop_last. destruct lit as [|d l]; [done|]. clear Hlit.
    revert d; induction l as [|d' l IH]; intros d; [by exists d|].
    destruct (IH d') as [c Hc]. exists c. simpl in *.
    rewrite Nat.sub_0_r in *. rewrite app_cons_str. f_equal. exact Hc. }
  assert ((p ^^ lit) ^^ (m' ^^ r) = (pre ^^ drop_last 1 lit) ^^ (String c "" ^^ m ^^ rest)) as E2.
  { rewrite !app_assoc_str. rewrite <- E. rewrite Hc at 1. by rewrite !app_assoc_str. }
  assert (String.length (p ^^ lit) <= String.length (pre ^^ drop_last 1 lit))%nat as Hlen.
  { pose proof (f_equal String.length Hc) as Hcl. rewrite length_app_str in Hcl.
    rewrite !length_app_str. change (String.length (String c "")) with 1%nat in Hcl. lia. }
  apply app_split in E2 as [(t & Et & Ep)|(t & Et & Ep)].
  - assert (t = "") as ->.
    { apply (f_equal String.length) in Ep. rewrite !length_app_str in Ep.
      rewrite !length_app_str in Hlen. destruct t; [done|]. simpl in Ep. lia. }
    rewrite app_empty_r in Ep.
    enough (Contains (pre ^^ drop_last 1 lit) lit = true) by congruence.
    apply Contains_spec. exists p, "". by rewrite app_empty_r.
  - enough (Contains (pre ^^ drop_last 1 lit) lit = true) by congruence.
    apply Contains_spec. exists p, t. by rewrite Ep, app_assoc_str.
Qed.

(** One line of a sentinel's answer to [INFO sentinel]. *)
Definition sentinel_line (pre addr : string) (slaves sentinels : Z) (rest : string) : string :=
  pre ^^ "status=ok,address=" ^^ addr ^^ ",slaves=" ^^ FormatInt slaves ^^ ",sentinels="
    ^^ FormatInt sentinels ^^ rest.

Lemma class_digit_numeral c : class_digit c = true -> numeral c = true.
Proof. unfold class_digit, numeral. by intros ->. Qed.

Lemma digits_value_class n s v : digits_value n s = Some v -> all_chars class_digit s = true.
Proof.
  revert n; induction s as [|c s IH]; intros n; [done|]. simpl.
  unfold digit_val at 1. unfold class_digit at 1. destruct (in_range "0" "9" c); [|done].
  intros H. simpl. by eapply IH.
Qed.

Lemma FormatInt_digits z : 0 <= z -> all_chars class_digit (FormatInt z) = true /\ FormatInt z <> "".
Proof.
  intros Hz. unfold FormatInt. destruct z as [|p|p]; [done| |lia].
  change (pretty (Z.pos p)) with (pretty (N.pos p)). split.
  - apply (digits_value_class 0 _ (N.pos p)), digits_value_pretty.
  - by destruct (pretty_N_cons (N.pos p)) as (c & s & -> & _).
Qed.

(** C38: Asked how many sentinels it knows, a sentinel answers with a line whose
    number is read back: for any address and any numbers, if the line says that
    the master is ok, [GetNumberSentinelsInMemory] returns exactly the number
    the line prints, provided the text before it holds neither key. *)
Theorem sentinels_read_back {W} (env : Env W) w ip auth pre addr slaves n rest :
  (env (StringCmd (mkOptions (JoinHostPort ip "26379") "" 0) ["info"; "sentinel"]) w).1 =
    inr (sentinel_line pre addr slaves n rest) ->
  0 <= n < 2 ^ 31 -> stops class_digit rest ->
  Contains (pre ^^ "status") "status=" = false ->
  Contains (pre ^^ "status=ok,address=" ^^ addr ^^ ",slaves=" ^^ FormatInt slaves ^^ ",sentinels")
    "sentinels=" = false ->
  (run env (GetNumberSentinelsInMemory ip auth) w).1.1 = Returns (inr n).
Proof.
  intros Henv Hn Hs H1 H2. unfold GetNumberSentinelsInMemory.
  change (setOptions ip sentinelPort auth) with (mkOptions (JoinHostPort ip "26379") "" 0).
  simpl. destruct (env _ w) as [r w1]. simpl in Henv. subst r. simpl.
  assert (isSentinelReady (sentinel_line pre addr slaves n rest) = None) as ->.
  { unfold isSentinelReady, sentinelStatusRE, sentinel_line.
    assert (find_submatch "status=" class_lower
      (pre ^^ "status=" ^^ "ok" ^^ (",address=" ^^ addr ^^ ",slaves=" ^^ FormatInt slaves
        ^^ ",sentinels=" ^^ FormatInt n ^^ rest)) = Some "ok") as E by (by apply find_submatch_at).
    change sentinelStatusLiteral with "status=".
    change (pre ^^ "status=ok,address=" ^^ ?x) with (pre ^^ "status=" ^^ "ok" ^^ (",address=" ^^ x)).
    by rewrite E. }
  destruct (FormatInt_digits n) as [Hd He]; [lia|].
  assert (sentinelNumberRE (sentinel_line pre addr slaves n rest) = Some (FormatInt n)) as ->.
  { unfold sentinelNumberRE, sentinel_line.
    pose proof (find_submatch_at "sentinels=" class_digit
      (pre ^^ "status=ok,address=" ^^ addr ^^ ",slaves=" ^^ FormatInt slaves ^^ ",")
      (FormatInt n) rest) as H. rewrite !app_assoc_str in H. by apply H. }
  unfold Atoi. rewrite ParseInt_FormatInt by (unfold in_int64; lia). simpl.
  rewrite int32_id by (unfold in_int32; lia). done.
Qed.

(** ** Settings *)

(** The flat answer to [CONFIG GET]. *)
Definition config_reply (l : list (string * string)) : list value :=
  mjoin ((fun kv => [VString kv.1; VString kv.2]) <$> l).

Lemma config_pairs_reply l m : config_pairs m (config_reply l) = Some (fold_left set_label l m).
Proof.
  revert m; induction l as [|[k v] l IH]; intros m; [done|].
  unfold config_reply. rewrite fmap_cons. simpl. apply IH.
Qed.

(** [GetAllRedisConfig] reads a server's settings back: whatever the order
    in which the server lists them, the map returned is the server's. *)
Theorem GetAllRedisConfig_roundtrip {W} (env : Env W) w opt (m : StringMap) l :
  l ≡ₚ map_to_list m ->
  (env (SliceCmd opt ["config"; "get"; "*"]) w).1 = inr (config_reply l) ->
  (run env (GetAllRedisConfig opt) w).1.1 = Returns (inr m).
Proof.
  intros Hl Henv. unfold GetAllRedisConfig. simpl. destruct (env _ w) as [r w1].
  simpl in Henv. subst r. simpl. rewrite config_pairs_reply. simpl.
  rewrite (fold_set_label _ m) by done. by rewrite (right_id_L ∅ (∪)).
Qed.

(** [SetCustomRedisConfig] on success sent one [CONFIG SET] per setting, each
    setting once, to the server's redis port with the password, and nothing
    else; it never panics. *)
Theorem SetCustomRedisConfig_sets ip configs auth :
  spec (SetCustomRedisConfig ip configs auth) (fun t r => r = inr tt ->
    exists settings, settings ≡ₚ map_to_list configs /\
      requests t = Seed :: ((fun kv => StatusCmd (mkOptions (JoinHostPort ip "6379") (auth_Password auth) 0)
        ["config"; "set"; kv.1; kv.2]) <$> settings)).
Proof.
  intros seed. simpl.
  change (setOptions ip redisPort auth) with (mkOptions (JoinHostPort ip "6379") (auth_Password auth) 0).
  set (opt := mkOptions _ _ _). pose proof (shuffle_perm seed (map_to_list configs)) as HP.
  set (l := shuffle seed (map_to_list configs)) in *.
  assert (spec (for_each l (fun kv => applyRedisConfig kv.1 kv.2 opt)) (fun t r => r = inr tt ->
    requests t = (fun kv => StatusCmd opt ["config"; "set"; kv.1; kv.2]) <$> l)) as H.
  { clear HP. induction l as [|kv l IH]; [by intros _|]. intros [e|s]; [by intros ?|].
    eapply spec_mono, IH. intros t r Ht Hr. unfold requests in *. rewrite ?fmap_cons, Ht by done. done. }
  eapply wp_mono, H. intros t [r| |]; [|done..]. intros Ht Hr. exists l. split; [done|].
  unfold requests in *. rewrite ?fmap_cons, Ht by done. done.
Qed.

(** A sentinel setting is split at its first space: a parameter without a
    space followed by a space and any value is read back, and a text without a
    space is refused. *)
Theorem getConfigParameters_spec p v config :
  has_char (fun c => (c =? " ")%char) p = false ->
  getConfigParameters (p ^^ " " ^^ v) = inr (p, v) /\
  (has_char (fun c => (c =? " ")%char) config = false ->
   getConfigParameters config = inl (errors_New ("configuration '" ^^ config ^^ "' malformed"))).
Proof.
  intros Hp. assert (forall s, has_char (fun c => (c =? " ")%char) s = false -> Split s " " = [s]) as Hs.
  { clear. induction s as [|c s IH]; [done|]. simpl. intros [Hc Hs]%orb_false_iff.
    by rewrite Hc, IH. }
  split.
  - unfold getConfigParameters.
    assert (Split (p ^^ " " ^^ v) " " = p :: Split v " ") as ->.
    { induction p as [|c p IH]; [done|]. simpl in Hp. apply orb_false_iff in Hp as [Hc Hp].
      rewrite app_cons_str. simpl. rewrite Hc, IH by done. done. }
    destruct (Split_cons v " ") as (w & ws & E). rewrite E. f_equal. f_equal.
    rewrite <- E. apply Join_Split.
  - intros Hc. unfold getConfigParameters. by rewrite Hs.
Qed.

(** ** Connections *)

(** What a redis server is told. *)
Definition redis_words (args : list string) : Prop :=
  args ∈ [["info"; "replication"]; ["config"; "get"; "*"]; ["slaveof"; "NO"; "ONE"]] \/
  (exists ip, args = ["slaveof"; ip; "6379"]) \/
  (exists k v, args = ["config"; "set"; k; v]).

(** What a sentinel is told. *)
Definition sentinel_words (auth : AuthConfig) (args : list string) : Prop :=
  args ∈ [["info"; "sentinel"]; ["sentinel"; "slaves"; "mymaster"]; ["SENTINEL"; "reset"; "*"];
    ["SENTINEL"; "master"; "mymaster"]; ["SENTINEL"; "REMOVE"; "mymaster"];
    ["SENTINEL"; "SET"; "mymaster"; "down-after-milliseconds"; "5000"];
    ["SENTINEL"; "SET"; "mymaster"; "failover-timeout"; "3000"];
    ["SENTINEL"; "SET"; "mymaster"; "parallel-syncs"; "2"]] \/
  (auth_Password auth <> "" /\ args = ["SENTINEL"; "SET"; "mymaster"; "auth-pass"; auth_Password auth]) \/
  (exists ip quorum, args = ["SENTINEL"; "MONITOR"; "mymaster"; ip; "6379"; quorum]) \/
  (exists k v, args = ["SENTINEL"; "set"; "mymaster"; k; v]).

(** A redis command goes to a redis port with the password, a sentinel command
    to a sentinel port without it; and no object is written. *)
Definition connected (auth : AuthConfig) (e : Eff) : Prop :=
  match e with
  | StringCmd opt args | SliceCmd opt args | IntCmd opt args | BoolCmd opt args
  | StatusCmd opt args => exists ip,
      (opt = mkOptions (JoinHostPort ip "6379") (auth_Password auth) 0 /\ redis_words args) \/
      (opt = mkOptions (JoinHostPort ip "26379") "" 0 /\ sentinel_words auth args)
  | Create _ _ | Update _ _ | StatusUpdate _ _ | Delete _ _ => False
  | _ => True
  end.

(** Which of the words it is. *)
Ltac said :=
  first [left; solve [repeat first [apply list_elem_of_here | apply list_elem_of_further]]
        | right; left; split; [assumption|reflexivity]
        | right; left; eexists; reflexivity
        | right; left; eexists _, _; reflexivity
        | right; right; left; eexists _, _; reflexivity
        | right; right; eexists _, _; reflexivity
        | right; right; right; eexists _, _; reflexivity].
Ltac said_to :=
  eexists; first [left; split; [reflexivity|said]|right; split; [reflexivity|said]].
Ltac connected_step := every_walk; try exact I; said_to.

Section connections.
  Context (ip : string) (auth : AuthConfig).

Lemma connected_sentinels : every (connected auth) (GetNumberSentinelsInMemory ip auth).
Proof. unfold GetNumberSentinelsInMemory. connected_step. Qed.

Lemma connected_blobs n l : every (connected auth) (count_slaves n l).
Proof.
  revert n; induction l as [|b l IH]; intros n; simpl; [done|].
  apply every_bind; [|intros; apply IH]. destruct b; simpl; auto with go.
Qed.

Lemma connected_slaves : every (connected auth) (GetNumberSentinelSlavesInMemory ip auth).
Proof.
  unfold GetNumberSentinelSlavesInMemory. every_walk; try exact I; [said_to..|apply connected_blobs].
Qed.

Lemma connected_reset : every (connected auth) (ResetSentinel ip auth).
Proof. unfold ResetSentinel. connected_step. Qed.

Lemma connected_master_ip : every (connected auth) (GetSlaveMasterIP ip auth).
Proof. unfold GetSlaveMasterIP. connected_step. Qed.

Lemma connected_is_master : every (connected auth) (IsMaster ip auth).
Proof. unfold IsMaster. connected_step. Qed.

Lemma connected_monitor m q : every (connected auth) (MonitorRedis ip m q auth).
Proof. unfold MonitorRedis. destruct (String.eqb_spec (auth_Password auth) ""); cbn [negb]; connected_step. Qed.

Lemma connected_make_master : every (connected auth) (MakeMaster ip auth).
Proof. unfold MakeMaster. connected_step. Qed.

Lemma connected_make_slave m : every (connected auth) (MakeSlaveOf ip m auth).
Proof. unfold MakeSlaveOf. connected_step. Qed.

Lemma connected_monitored : every (connected auth) (GetSentinelMonitor ip auth).
Proof. unfold GetSentinelMonitor. connected_step. Qed.

Lemma connected_set_sentinel configs : every (connected auth) (SetCustomSentinelConfig ip configs auth).
Proof. unfold SetCustomSentinelConfig, applySentinelConfig. connected_step. Qed.

Lemma connected_set_redis configs : every (connected auth) (SetCustomRedisConfig ip configs auth).
Proof. unfold SetCustomRedisConfig, applyRedisConfig, range_map. connected_step. Qed.

Lemma connected_get_all :
  every (connected auth) (GetAllRedisConfig (mkOptions (JoinHostPort ip "6379") (auth_Password auth) 0)).
Proof. unfold GetAllRedisConfig. connected_step. Qed.

End connections.

Create HintDb connected.
#[export] Hint Resolve connected_sentinels connected_slaves connected_reset connected_master_ip
  connected_is_master connected_monitor connected_make_master connected_make_slave
  connected_monitored connected_set_sentinel connected_set_redis connected_get_all : connected.

(** ** Witnesses *)

(** An environment that answers every redis command with fixed replies. *)
Definition replying (info : string) (slice : list value) : Env unit :=
  fun e w =>
    (match e return resp e with
     | Get _ _ _ => inl (mkError "not found" true)
     | Create _ _ => inr tt
     | Update _ o => inr o
     | StatusUpdate _ o => inr o
     | Delete _ _ => inr tt
     | List _ _ _ => inr []
     | StringCmd _ _ => inr info
     | SliceCmd _ _ => inr slice
     | IntCmd _ _ => inr 0
     | BoolCmd _ _ => inr true
     | StatusCmd _ _ => inr "OK"
     | Now => 0
     | Sleep _ => tt
     | Seed => []
     | RecordEvent _ _ _ _ _ _ => tt
     | SetGauge _ _ _ => tt
     | DeleteGauge _ _ => tt
     end, w).

Lemma sentinels_read_back_witness :
  (run (replying (sentinel_line "master0:name=mymaster," "10.0.0.7:6379" 2 3 "") [])
     (GetNumberSentinelsInMemory "10.0.0.9" (mkAuth "pw")) tt).1.1 = Returns (inr 3).
Proof.
  apply (sentinels_read_back _ tt "10.0.0.9" (mkAuth "pw") "master0:name=mymaster," "10.0.0.7:6379" 2 3 "");
    try reflexivity; lia.
Defined.

Lemma GetAllRedisConfig_roundtrip_witness :
  (run (replying "" (config_reply [("save", "60 1")]))
     (GetAllRedisConfig (mkOptions "10.0.0.7:6379" "" 0)) tt).1.1
  = Returns (inr {[ "save" := "60 1" ]}).
Proof.
  apply (GetAllRedisConfig_roundtrip _ tt _ {[ "save" := "60 1" ]} [("save", "60 1")]);
    [by rewrite map_to_list_singleton|reflexivity].
Defined.

Lemma getConfigParameters_spec_witness :
  getConfigParameters ("save" ^^ " " ^^ "900 1 300 10") = inr ("save", "900 1 300 10").
Proof. apply (getConfigParameters_spec "save" "900 1 300 10" "" eq_refl). Defined.
