(* ===== verification/HealProps.v ===== *)
(** * What checking and healing guarantees

    The comparison of settings, the count of masters, the choice of a new one,
    the connections made, and the wait for a restored sentinel. *)

From S2P Require Import Prelude GoStd Corev1 Api Samples Util Common Names Effects K8s RedisClient.
From S2P Require Import SentinelGen SentinelCheck SentinelHeal SentinelClient StandaloneService.
From S2P Require Import Cache Handler SentinelHandler StandaloneHandler RedisProps.

(** ** Settings *)

(** What agreement of a setting with the server's means: equality of the text,
    or, for the settings that are amounts of memory, of the amount in bytes; an
    amount that cannot be read counts as agreeing. *)
Definition agrees (configs : StringMap) (key value : string) : Prop :=
  let current := default "" (configs !! key) in
  if is_memory_key key then
    match ParseRedisMemConf value with
    | inr bytes => bytes = current
    | inl _ => True
    end
  else value = current.

Lemma check_setting_agrees configs kv :
  check_setting configs kv = None <-> agrees configs kv.1 kv.2.
Proof.
  destruct kv as [k v]. unfold check_setting, agrees. simpl.
  assert (forall w c (e : error), (if negb (w =? c)%string then Some e else None) = None <-> w = c) as H.
  { intros w c e. by destruct (String.eqb_spec w c). }
  destruct (is_memory_key k); [|apply H]. destruct (ParseRedisMemConf v); [done|apply H].
Qed.

Lemma check_settings_agree configs l :
  check_settings configs l = None <-> forall kv, kv ∈ l -> agrees configs kv.1 kv.2.
Proof.
  induction l as [|kv l IH]; simpl.
  - split; [|done]. by intros _ kv ?%elem_of_nil.
  - destruct (check_setting configs kv) as [err|] eqn:E.
    + split; [done|]. intros H. rewrite <- E. apply check_setting_agrees, H. left.
    + rewrite IH. apply check_setting_agrees in E. split.
      * intros H kv' [->|Hkv']%elem_of_cons; auto.
      * intros H kv' Hkv'. apply H. by right.
Qed.

Definition redis_options (ip : string) (auth : AuthConfig) : Options :=
  mkOptions (JoinHostPort ip "6379") (auth_Password auth) 0.

(** [CheckRedisConfig] answers nil exactly when every setting of the resource
    agrees with the server's settings, in whatever order the settings are
    visited; it asks for the server's settings and sends nothing else. The same
    holds for both kinds of resource. *)
Theorem CheckRedisConfig_spec rc rs ip auth :
  let verdict config (t : list event) (r : result unit) :=
    (exists err, t = [ev (SliceCmd (redis_options ip auth) ["config"; "get"; "*"]) (inl err)] /\
       r = inl err) \/
    (exists val configs seed,
       t = [ev (SliceCmd (redis_options ip auth) ["config"; "get"; "*"]) (inr val); ev Seed seed] /\
       config_pairs ∅ val = Some configs /\
       (r = inr tt <-> forall k v, config !! k = Some v -> agrees configs k v)) in
  wlp (SentinelCheck.CheckRedisConfig rc ip auth) (verdict (config_of (redis (Spec rc)))) /\
  wlp (StandaloneService.CheckRedisConfig rs ip auth) (verdict (config_of (Spec rs))).
Proof.
  cbn zeta. change (mkOptions (JoinHostPort ip "6379") (auth_Password auth) 0) with (redis_options ip auth).
  assert (forall (config : StringMap) (configs : StringMap) val seed,
    config_pairs ∅ val = Some configs ->
    let r := match check_settings configs (shuffle seed (map_to_list config)) with
             | Some err => Ret (inl err) | None => Ret (inr tt) end in
    wlp r (fun t r => exists val' configs' seed',
      ev (SliceCmd (redis_options ip auth) ["config"; "get"; "*"]) (inr val) :: ev Seed seed :: t =
      [ev (SliceCmd (redis_options ip auth) ["config"; "get"; "*"]) (inr val'); ev Seed seed'] /\
      config_pairs ∅ val' = Some configs' /\
      (r = inr tt <-> forall k v, config !! k = Some v -> agrees configs' k v))) as H.
  { intros config configs val seed Hval. cbn zeta.
    pose proof (check_settings_agree configs (shuffle seed (map_to_list config))) as Hc.
    assert ((forall kv, kv ∈ shuffle seed (map_to_list config) -> agrees configs kv.1 kv.2) <->
      (forall k v, config !! k = Some v -> agrees configs k v)) as Heq.
    { split.
      - intros H k v Hkv. apply (H (k, v)), elem_of_shuffle. by apply elem_of_map_to_list.
      - intros H [k v] Hkv%elem_of_shuffle. apply H. by apply elem_of_map_to_list. }
    rewrite Heq in Hc.
    destruct (check_settings _ _) as [err|]; exists val, configs, seed;
      (split; [done|]; split; [done|]); rewrite <- Hc; done. }
  split; intros [err|val]; simpl; try (by left; exists err);
    destruct (config_pairs ∅ val) as [configs|] eqn:E; simpl; try done; intros seed;
    (eapply wlp_mono; [|by apply H]); intros t r Hr; by right.
Qed.

(** ** Masters *)

(** The addresses asked for their role, each with its answer. *)
Definition asked (auth : AuthConfig) (replies : list (string * string)) : list event :=
  (fun r => ev (StringCmd (redis_options r.1 auth) ["info"; "replication"]) (inr r.2)) <$> replies.

Definition is_master (reply : string * string) : bool := Contains reply.2 "role:master".

Definition masters_of (replies : list (string * string)) : list string :=
  (List.filter is_master replies).*1.

(** The last request was refused, which the function's error says. *)
Definition refused (e : event) : Prop :=
  match e with
  | existT (Get _ _ _) r => exists err, r = inl err
  | existT (List _ _ _) r => exists err, r = inl err
  | existT (StringCmd _ _) r => exists err, r = inl err
  | _ => False
  end.
Definition refusal {A} (t : list event) (r : result A) : Prop :=
  exists t' e err, t = t' ++ [e] /\ refused e /\ r = inl err.

Lemma refusal_after {A} (t0 t : list event) (r : result A) : refusal t r -> refusal (t0 ++ t) r.
Proof. intros (t' & e & err & -> & He & ->). exists (t0 ++ t'), e, err. by rewrite <- app_assoc. Qed.

Lemma fold_masters {B} auth (step : B -> string -> bool -> B) ips (b : B) :
  spec (fold_each ips b (fun b rip => let? master := IsMaster rip auth in ok (step b rip master)))
    (fun t r => refusal t r \/ exists replies, t = asked auth replies /\ replies.*1 = ips /\
       r = inr (fold_left (fun b reply => step b reply.1 (is_master reply)) replies b)).
Proof.
  revert b; induction ips as [|ip ips IH]; intros b; simpl.
  - right. by exists [].
  - intros [e|info]; simpl; [left; eexists [], _, e; split; [done|]; split; [by exists e|done]|].
    eapply spec_mono, IH. intros t r [Hr|(replies & -> & <- & ->)].
    + left. by apply (refusal_after [_]).
    + right. by exists ((ip, info) :: replies).
Qed.

Lemma fold_count replies n :
  fold_left (fun n reply => if is_master reply then n + 1 else n) replies n =
  n + Z.of_nat (length (masters_of replies)).
Proof.
  revert n; induction replies as [|r rs IH]; intros n; [simpl; lia|].
  simpl. rewrite IH. unfold masters_of. rewrite !length_fmap. simpl.
  destruct (is_master r); simpl length; lia.
Qed.

Lemma fold_collect replies l :
  fold_left (fun l reply => if is_master reply then l ++ [reply.1] else l) replies l =
  l ++ masters_of replies.
Proof.
  revert l; induction replies as [|r rs IH]; intros l; [by rewrite app_nil_r|].
  unfold masters_of in *. simpl. rewrite IH. destruct (is_master r); simpl; [|done].
  by rewrite <- app_assoc.
Qed.

(** The requests by which the running redis servers are found. *)
Definition pods_found (ns name : string) (ss : StatefulSet) (labels : StringMap) (items : list Pod)
    : list event :=
  [ev (Get KStatefulSet ns name) (inr ss); ev (List KPod ns labels) (inr items)].

(** A function of the roles of all running servers: it panics if the StatefulSet
    has no selector; it returns an error if a request is refused, and ends there;
    otherwise it has found the running pods of the redis StatefulSet and asked each
    of them, once and in order, for its role, and answers by the replies. *)
Definition by_roles {A} (rc : RedisSentinel) (auth : AuthConfig)
    (answer : list (string * string) -> result A -> Prop) (t : list event) (o : outcome (result A)) : Prop :=
  match o with
  | Returns r => refusal t r \/ exists ss labels items replies,
      ss_Selector ss = Some labels /\ replies.*1 = running_ips items /\
      t = pods_found (Namespace (meta rc)) (Names.Sentinel.GetRedisName rc) ss labels items
          ++ asked auth replies /\
      answer replies r
  | Panics => exists ss, ss_Selector ss = None /\
      t = [ev (Get KStatefulSet (Namespace (meta rc)) (Names.Sentinel.GetRedisName rc)) (inr ss)]
  | Stuck => False
  end.

(** The common beginning. *)
Lemma by_roles_found {A} rc auth (f : list string -> prog (result A)) answer :
  (forall ips, spec (f ips) (fun t r => refusal t r \/
     exists replies, t = asked auth replies /\ replies.*1 = ips /\ answer replies r)) ->
  wp (try (SentinelCheck.GetRedisesIPs rc auth) f) (by_roles rc auth answer).
Proof.
  intros Hf [err|ss]; simpl; [left; eexists [], _, err; split; [done|]; split; [by exists err|done]|].
  destruct (ss_Selector ss) as [labels|] eqn:E; simpl; [|by exists ss].
  intros [err|items]; simpl; [left; eexists [_], _, err; split; [done|]; split; [by exists err|done]|].
  eapply wp_mono, Hf. intros t [r| |]; [|done..]. intros [Hr|(replies & -> & Hips & Ha)].
  - left. by apply (refusal_after [_; _]).
  - right. by exists ss, labels, items, replies.
Qed.

(** C21: The masters are counted right. Both functions find the running pods of
    the redis StatefulSet and ask each of them once, in order, for its role.
    Unless a request is refused, which ends them with an error,
    [GetNumberMasters] answers with the number of servers that said they are
    masters, and [GetMasterIP] with an address if and only if that server, and no
    other, said so, and with an error otherwise. They panic only if the
    StatefulSet has no selector. *)
Theorem masters_counted rc auth :
  wp (GetNumberMasters rc auth) (by_roles rc auth (fun replies r =>
    r = inr (Z.of_nat (length (masters_of replies))))) /\
  wp (GetMasterIP rc auth) (by_roles rc auth (fun replies r =>
    forall ip, r = inr ip <-> masters_of replies = [ip])).
Proof.
  split; apply by_roles_found; intros ips.
  - eapply spec_mono; [|apply (fold_masters auth (fun n _ b => if b : bool then n + 1 else n))].
    intros t r [Hr|(replies & -> & <- & ->)]; [by left|right]. exists replies. by rewrite fold_count.
  - apply spec_try.
    eapply spec_mono; [|apply (fold_masters auth (fun l rip b => if b : bool then l ++ [rip] else l))].
    intros t r [(t' & e & err & -> & He & ->)|(replies & -> & <- & ->)]; [by left; exists t', e, err|].
    rewrite fold_collect. simpl.
    destruct (masters_of replies) as [|m [|m' ms]] eqn:E; unfold spec; simpl; right; exists replies;
      rewrite app_nil_r; (split; [done|]); (split; [done|]); intros ip; rewrite E; naive_solver.
Qed.

(** ** Choosing a master *)

Definition make_master (ip : string) (auth : AuthConfig) : Eff :=
  StatusCmd (redis_options ip auth) ["slaveof"; "NO"; "ONE"].
Definition make_slave (ip master : string) (auth : AuthConfig) : Eff :=
  StatusCmd (redis_options ip auth) ["slaveof"; master; "6379"].

Lemma GetStatefulSetPods_spec ns name :
  wlp (GetStatefulSetPods ns name) (fun t r => forall items, r = inr items ->
    exists ss labels, ss_Selector ss = Some labels /\ t = pods_found ns name ss labels items).
Proof.
  intros [e|ss]; simpl; [by intros items ?|].
  destruct (ss_Selector ss) as [labels|] eqn:E; simpl; [|done].
  intros [e|items']; simpl; [by intros items ?|]. intros items [= <-]. by exists ss, labels.
Qed.

Lemma oldest_slaves auth master pods :
  master <> "" ->
  spec (fold_each pods master (oldest_step auth)) (fun t r => forall v, r = inr v ->
    requests t = (fun p => make_slave (pod_PodIP p) master auth) <$> pods).
Proof.
  intros Hm. induction pods as [|p pods IH]; [by intros v|]. simpl.
  unfold oldest_step at 1. rewrite (proj2 (String.eqb_neq _ _) Hm).
  intros [e|s]; simpl; [by intros v ?|]. eapply spec_mono, IH. intros t r Hr v Hv.
  unfold requests in *. rewrite ?fmap_cons, (Hr v Hv). done.
Qed.

#[export] Instance created_before_order :
  KeyOrder created_before (fun p => CreationTimestamp (pod_meta p)).
Proof. done. Qed.

(** C22: [SetOldestAsMaster] makes one pod created first the master and all the
    others its slaves. On success, and if that pod has an address, exactly one
    server was told to be a master, namely that pod's, and every other pod of
    the StatefulSet was told once to follow its address; nothing else was
    sent. *)
Theorem SetOldestAsMaster_spec rc auth :
  wlp (SetOldestAsMaster rc auth) (fun t r => r = inr tt ->
    exists ss labels items seed oldest rest cmds,
      t = pods_found (Namespace (meta rc)) (Names.Sentinel.GetRedisName rc) ss labels items
          ++ ev Seed seed :: cmds /\
      ss_Selector ss = Some labels /\ oldest :: rest ≡ₚ items /\
      (forall p, p ∈ items -> CreationTimestamp (pod_meta oldest) <= CreationTimestamp (pod_meta p)) /\
      (pod_PodIP oldest <> "" ->
       requests cmds = make_master (pod_PodIP oldest) auth ::
         ((fun p => make_slave (pod_PodIP p) (pod_PodIP oldest) auth) <$> rest))).
Proof.
  apply wlp_try. eapply wlp_mono; [|apply GetStatefulSetPods_spec].
  intros t [e|items] Ht; [done|]. destruct (Ht items eq_refl) as (ss & labels & Hsel & ->).
  destruct (Z.ltb_spec (Z.of_nat (length items)) 1) as [|Hlen]; [done|].
  intros seed. cbn [bind]. fold (@bind).
  pose proof (sort_Slice_perm seed created_before items) as HP.
  destruct (sort_Slice seed created_before items) as [|oldest rest] eqn:E.
  { apply Permutation_nil_l in HP. subst. simpl in Hlen. lia. }
  destruct (sort_Slice_head _ _ _ _ _ _ E) as [_ Hmin].
  assert (forall (Q : list event -> outcome (result unit) -> Prop) p,
    wp p (fun t o => Q t o) -> wp p Q) as Hid by done.
  eapply (wp_mono _ (fun t o => match o with
    | Returns r => r = inr tt -> pod_PodIP oldest <> "" ->
        requests t = make_master (pod_PodIP oldest) auth ::
         ((fun p => make_slave (pod_PodIP p) (pod_PodIP oldest) auth) <$> rest)
    | _ => True end)).
  { intros cmds [r| |] Hr; [|done..]. intros ->.
    exists ss, labels, items, seed, oldest, rest, cmds. split_and!; auto. }
  clear Hid Ht. simpl. unfold oldest_step at 1. simpl.
  intros [e|s]; simpl; [by intros ?|].
  destruct (decide (pod_PodIP oldest = "")) as [Hip|Hip].
  { eapply wp_mono, wp_true. intros t [r| |] _; done. }
  apply wp_bind. eapply wp_mono; [|by apply oldest_slaves].
  intros t [[err|v]| |] Ht; try done. simpl. intros _ _.
  unfold requests in *. rewrite ?fmap_app, ?fmap_cons, (Ht v eq_refl). simpl. by rewrite app_nil_r.
Qed.

(** [SetMasterOnAll] on success tells each pod of the StatefulSet, in the
    order the API lists them, exactly once: the pods with the master's address to
    be a master, every other pod to follow that address. *)
Theorem SetMasterOnAll_spec master rc auth :
  wlp (SetMasterOnAll master rc auth) (fun t r => r = inr tt ->
    exists ss labels items cmds,
      t = pods_found (Namespace (meta rc)) (Names.Sentinel.GetRedisName rc) ss labels items ++ cmds /\
      requests cmds = (fun p => if (pod_PodIP p =? master)%string then make_master master auth
                                else make_slave (pod_PodIP p) master auth) <$> items).
Proof.
  apply wlp_try. eapply wlp_mono; [|apply GetStatefulSetPods_spec].
  intros t [e|items] Ht; [done|]. destruct (Ht items eq_refl) as (ss & labels & Hsel & ->).
  eapply wlp_mono.
  2:{ apply (does_for_each items _ (fun p => [if (pod_PodIP p =? master)%string
        then make_master master auth else make_slave (pod_PodIP p) master auth])).
      intros p. destruct (_ =? _)%string; (intros [err|s]; [by intros ?|by intros _]). }
  intros cmds r Hr ->. exists ss, labels, items, cmds. split; [done|]. rewrite (Hr eq_refl).
  clear. induction items as [|p items IH]; [done|]. rewrite !fmap_cons. simpl. by rewrite IH.
Qed.

(** ** Connections and refusals *)

Lemma connected_pods auth ns name : every (connected auth) (GetStatefulSetPods ns name).
Proof. unfold GetStatefulSetPods, listSelected, GetStatefulSet, get. every_walk; done. Qed.

Lemma connected_redises rc auth auth' : every (connected auth) (SentinelCheck.GetRedisesIPs rc auth').
Proof. unfold SentinelCheck.GetRedisesIPs. apply every_try; [apply connected_pods|done]. Qed.

Lemma connected_set ns name auth : every (connected auth) (GetStatefulSet ns name).
Proof. by split. Qed.

#[export] Hint Resolve connected_pods connected_redises connected_set : connected.

Lemma connected_check_config rc ip auth : every (connected auth) (SentinelCheck.CheckRedisConfig rc ip auth).
Proof.
  unfold SentinelCheck.CheckRedisConfig. apply every_try; [apply connected_get_all|].
  intros configs. apply every_bind; [by split|]. intros l. by destruct (check_settings _ _).
Qed.

Lemma connected_check_config' rs ip auth : every (connected auth) (StandaloneService.CheckRedisConfig rs ip auth).
Proof.
  unfold StandaloneService.CheckRedisConfig. apply every_try; [apply connected_get_all|].
  intros configs. apply every_bind; [by split|]. intros l. by destruct (check_settings _ _).
Qed.

Lemma connected_check_slaves s rc auth :
  every (connected auth) (CheckSentinelSlavesNumberInMemory s rc auth).
Proof. unfold CheckSentinelSlavesNumberInMemory. apply every_try; [apply connected_slaves|]. by intros n; destruct (negb _). Qed.

Lemma connected_wait turns start s rc auth : every (connected auth) (wait_loop turns start s rc auth).
Proof.
  induction turns as [|turns IH]; [done|]. cbn [wait_loop].
  apply every_bind; [by split|]. intros now.
  destruct (_ <=? _); [done|]. apply every_bind; [apply connected_check_slaves|].
  intros [e|r]; [|done]. apply every_bind; [by split|done].
Qed.

#[export] Hint Resolve connected_check_config connected_check_config' connected_check_slaves
  connected_wait : connected.

Ltac connected_walk :=
  every_walk; eauto with connected; try done.

Lemma CheckAndHeal_connected fuel rc rs m :
  every (connected (Auth m)) (SentinelHandler.CheckAndHeal fuel rc m) /\
  every (connected (Auth m)) (StandaloneHandler.CheckAndHeal rs m).
Proof.
  split.
  - unfold SentinelHandler.CheckAndHeal, SentinelCheck.CheckRedisNumber, CheckSentinelNumber, GetNumberMasters,
      heal_masters, heal_replication, agree_on_master, SentinelHeal.MakeMaster, GetMinimumRedisPodTime,
      SetOldestAsMaster, oldest_step, GetMasterIP, CheckAllSlavesFromMaster, SetMasterOnAll,
      SentinelHandler.setRedisConfig, SentinelHeal.SetRedisCustomConfig, GetSentinelsIPs,
      heal_monitors, CheckSentinelMonitor, NewSentinelMonitor, heal_slaves, RestoreSentinel,
      waitRestoreSentinelSlavesOK, heal_sentinels, CheckSentinelNumberInMemory,
      setSentinelConfig, SetSentinelCustomConfig, EnsureSentinelReady, SentinelHandler.notify,
      Event.UpdateSentinelStatus, Event.FailedCluster, Event.record.
    connected_walk.
  - unfold StandaloneHandler.CheckAndHeal, StandaloneService.CheckRedisNumber,
      StandaloneHandler.setRedisConfig, StandaloneService.GetRedisesIPs,
      StandaloneService.SetRedisCustomConfig, StandaloneHandler.notify,
      Event.UpdateSentinelStatus, Event.record.
    connected_walk.
Qed.

(** C23: Who is told what, and with which credentials. Every command of
    [CheckAndHeal], for both kinds of resource, is one of two vocabularies: the
    redis commands (role, settings, whom to follow) go to port 6379 of some
    address, authenticated with the cached password; the sentinel commands go to
    port 26379, with no credentials. So no sentinel is sent the password to log
    in with; but it is told the password, as the argument of one command, [SENTINEL
    SET mymaster auth-pass], which is never sent when the password is empty. And
    [CheckAndHeal] writes no object of the cluster. *)
Theorem CheckAndHeal_connections fuel rc rs m :
  every (connected (Auth m)) (SentinelHandler.CheckAndHeal fuel rc m) /\
  every (connected (Auth m)) (StandaloneHandler.CheckAndHeal rs m).
Proof. apply CheckAndHeal_connected. Qed.

(** Requests that talk to a redis server or a sentinel. *)
Definition redis_command (e : Eff) : bool :=
  match e with
  | StringCmd _ _ | SliceCmd _ _ | IntCmd _ _ | BoolCmd _ _ | StatusCmd _ _ => true
  | _ => false
  end.

(** C26: A cluster whose sentinels are miscounted is reported healthy. Whenever
    the redis servers are complete and the sentinel StatefulSet, read
    successfully, has another replica count than the specification asks for,
    [CheckAndHeal] heals nothing, sends no redis command, and returns nil. *)
Theorem sentinel_mismatch_ignored {W} (env : Env W) fuel rc m w w1 w2 ss n :
  run env (SentinelCheck.CheckRedisNumber rc) w = (Returns (inr tt), w1, w2) ->
  (env (Get KStatefulSet (Namespace (meta rc)) (Names.Sentinel.GetSentinelName rc)) w2).1 = inr ss ->
  ss_Replicas ss = Some n -> n <> Replicas (Sentinel (Spec rc)) ->
  exists t w', run env (SentinelHandler.CheckAndHeal fuel rc m) w = (Returns (inr tt), t, w') /\
    Forall (fun e => redis_command (projT1 e) = false) t.
Proof.
  intros H1 H2 H3 H4. unfold SentinelHandler.CheckAndHeal. rewrite run_bind, H1. simpl.
  destruct (env _ w2) as [r w3]. simpl in H2. subst r. simpl. rewrite H3. simpl.
  replace (Replicas (Sentinel (Spec rc)) =? n) with false by (symmetry; apply Z.eqb_neq; congruence).
  simpl. destruct (env _ w3) as [u w4]. eexists _, _. split; [done|].
  apply Forall_app. split; [|by repeat constructor].
  assert (every (fun e => redis_command e = false) (SentinelCheck.CheckRedisNumber rc)) as He.
  { unfold SentinelCheck.CheckRedisNumber. every_walk; done. }
  apply every_trace in He. by apply (run_wp env _ w _ _ _ _ He) in H1.
Qed.

(** With more than one master the operator touches no data. If the servers
    that say they are masters are two or more, [CheckAndHeal] asks for manual
    help: the switch fails and no server is told to follow another. *)
Theorem many_masters_refused {W} (env : Env W) fuel rc m w t0 w0 t1 w1 t2 w2 n :
  run env (SentinelCheck.CheckRedisNumber rc) w = (Returns (inr tt), t0, w0) ->
  run env (CheckSentinelNumber rc) w0 = (Returns (inr tt), t1, w1) ->
  run env (GetNumberMasters rc (Auth m)) w1 = (Returns (inr n), t2, w2) -> 2 <= n ->
  run env (SentinelHandler.CheckAndHeal fuel rc m) w =
    (Returns (inl (errors_New "more than one master, fix manually")), t0 ++ t1 ++ t2, w2) /\
  Forall (fun e => match projT1 e with StatusCmd _ _ | BoolCmd _ _ | IntCmd _ _ => False | _ => True end)
    (t0 ++ t1 ++ t2).
Proof.
  intros H0 H1 H2 Hn. split.
  - unfold SentinelHandler.CheckAndHeal. rewrite run_bind, H0, run_bind, H1.
    unfold try. rewrite run_bind, H2, run_bind. unfold heal_masters.
    rewrite (proj2 (Z.eqb_neq n 0)), (proj2 (Z.eqb_neq n 1)) by lia. simpl.
    by rewrite !app_nil_r.
  - set (P := fun e => match e with StatusCmd _ _ | BoolCmd _ _ | IntCmd _ _ => False | _ => True end).
    assert (every P (SentinelCheck.CheckRedisNumber rc)) as E0 by (unfold SentinelCheck.CheckRedisNumber; every_walk; done).
    assert (every P (CheckSentinelNumber rc)) as E1 by (unfold CheckSentinelNumber; every_walk; done).
    assert (every P (GetNumberMasters rc (Auth m))) as E2.
    { unfold GetNumberMasters, SentinelCheck.GetRedisesIPs, GetStatefulSetPods, listSelected, IsMaster.
      every_walk; done. }
    apply every_trace in E0, E1, E2.
    apply Forall_app. split; [by apply (run_wp env _ _ _ _ _ _ E0) in H0|].
    apply Forall_app. split; [by apply (run_wp env _ _ _ _ _ _ E1) in H1|].
    by apply (run_wp env _ _ _ _ _ _ E2) in H2.
Qed.
