(* ===== verification/HandlerProps.v ===== *)
(** * What the handlers and controllers guarantee

    That a reconciliation ends, what the gauge says of its outcome, what it
    writes back, and how its errors become requeues. *)

From S2P Require Import Prelude GoStd Corev1 Api Samples Util Common Names Status Validate.
From S2P Require Import Effects K8s RedisClient SentinelGen SentinelCheck SentinelHeal SentinelClient.
From S2P Require Import StandaloneGen StandaloneService Cache Handler SentinelHandler.
From S2P Require Import StandaloneHandler Controller RedisProps HealProps EnsureProps.

(** ** Termination *)

(** An environment with a clock: [Now] reads it, nothing turns it back, and a
    sleep lets at least the time asked for pass. *)
Class ClockLaws {W} (env : Env W) (clock : W -> Z) : Prop := {
  clock_now w : (env Now w).1 = clock w;
  clock_mono e w : clock w <= clock (env e w).2;
  clock_sleep d w : clock w + d <= clock (env (Sleep d) w).2
}.

(** [p] is never cut off in this environment. *)
Definition live {W A} (env : Env W) (p : prog A) : Prop := forall w, (run env p w).1.1 <> Stuck.

Section live.
  Context {W : Type} (env : Env W).

Lemma live_bind {A B} (m : prog A) (f : A -> prog B) :
  live env m -> (forall a, live env (f a)) -> live env (bind m f).
Proof.
  intros Hm Hf w. rewrite run_bind. specialize (Hm w).
  destruct (run env m w) as [[[a| |] t] w1]; [|done|done].
  specialize (Hf a w1). by destruct (run env (f a) w1) as [[o t2] w2].
Qed.

Lemma live_try {A B} (m : prog (result A)) (f : A -> prog (result B)) :
  live env m -> (forall a, live env (f a)) -> live env (try m f).
Proof. intros Hm Hf. apply live_bind; [done|]. intros [e|a]; [done|apply Hf]. Qed.

Lemma live_act e : live env (act e).
Proof. intros w. simpl. by destruct (env e w). Qed.

Lemma live_or_panic {A} (o : option A) : live env (or_panic o).
Proof. by destruct o. Qed.

Lemma live_for_each {X} (xs : list X) f : (forall x, live env (f x)) -> live env (for_each xs f).
Proof. intros Hf. induction xs as [|x xs IH]; [done|]. by apply live_try. Qed.

Lemma live_fold_each {X B} (xs : list X) (b : B) f :
  (forall b x, live env (f b x)) -> live env (fold_each xs b f).
Proof. intros Hf. revert b. induction xs as [|x xs IH]; intros b; [done|]. by apply live_try. Qed.

Lemma live_count n l : live env (count_slaves n l).
Proof.
  revert n; induction l as [|b l IH]; intros n; [done|]. cbn [count_slaves].
  apply live_bind; [|intros; apply IH]. destruct b; try done. apply live_or_panic.
Qed.

End live.

Ltac live_step :=
  match goal with
  | |- live _ (bind _ _) => apply live_bind; [|intros ?]
  | |- live _ (try _ _) => apply live_try; [|intros ?]
  | |- live _ (for_each _ _) => apply live_for_each; intros ?
  | |- live _ (fold_each _ _ _) => apply live_fold_each; intros ? ?
  | |- live ?env (act ?e) => exact (live_act env e)
  | |- live _ (or_panic _) => apply live_or_panic
  | |- live _ (count_slaves _ _) => apply live_count
  | |- live _ (Ret _) => done
  | |- live _ (ok _) => done
  | |- live _ (fail _) => done
  | |- live _ Panic => done
  | |- live _ (match ?x with _ => _ end) => destruct x
  end.
Ltac live_walk := repeat (first [live_step | progress (cbv beta zeta)]).

Section termination.
  Context {W : Type} (env : Env W) (clock : W -> Z) `{!ClockLaws env clock}.

Lemma clock_run {A} (p : prog A) w : clock w <= clock (run env p w).2.
Proof.
  revert w; induction p as [a| | |e k IH]; intros w; simpl; [lia..|].
  pose proof (clock_mono (clock := clock) e w) as H. destruct (env e w) as [r w1]. simpl in H.
  specialize (IH r w1). destruct (run env (k r) w1) as [[o t] w2]. simpl in *. lia.
Qed.

Lemma live_check s rc auth : live env (CheckSentinelSlavesNumberInMemory s rc auth).
Proof.
  unfold CheckSentinelSlavesNumberInMemory, GetNumberSentinelSlavesInMemory. live_walk.
Qed.

(** Each turn that goes on sleeps five seconds of the thirty. *)
Lemma wait_loop_live turns start s rc auth w :
  timeOut <= clock w - start + Z.of_nat turns * checkInterval ->
  (run env (wait_loop (S turns) start s rc auth) w).1.1 <> Stuck.
Proof.
  revert w; induction turns as [|turns IH]; intros w Hw; cbn [wait_loop];
    rewrite run_bind; unfold act at 1; cbn [run];
    pose proof (clock_now (clock := clock) w) as Hnow;
    pose proof (clock_mono (clock := clock) Now w) as Hm;
    destruct (env Now w) as [now w1]; simpl in Hnow, Hm; subst now.
  - rewrite (proj2 (Z.leb_le _ _)) by (unfold checkInterval in *; lia). done.
  - destruct (Z.leb_spec timeOut (clock w - start)) as [Hle|Hlt]; [done|].
    rewrite run_bind. pose proof (live_check s rc auth w1) as Hl.
    pose proof (clock_run (CheckSentinelSlavesNumberInMemory s rc auth) w1) as Hr.
    destruct (run env (CheckSentinelSlavesNumberInMemory s rc auth) w1) as [[[[e|u]| |] t] w2];
      try done. simpl in Hr.
    rewrite run_bind. unfold act. cbn [run].
    pose proof (clock_sleep (clock := clock) checkInterval w2) as Hs.
    destruct (env (Sleep checkInterval) w2) as [u w3]. simpl in Hs.
    assert (timeOut <= clock w3 - start + Z.of_nat turns * checkInterval) as Hw3.
    { rewrite Nat2Z.inj_succ in Hw. unfold checkInterval in *. lia. }
    specialize (IH w3 Hw3). cbn [wait_loop] in IH.
    destruct (run env _ w3) as [[o t3] w4]. done.
Qed.

Lemma wait_live fuel s rc auth :
  (7 <= fuel)%nat -> live env (waitRestoreSentinelSlavesOK fuel s rc auth).
Proof.
  intros Hf w. unfold waitRestoreSentinelSlavesOK. rewrite run_bind. unfold act. cbn [run].
  pose proof (clock_now (clock := clock) w) as Hnow.
  pose proof (clock_mono (clock := clock) Now w) as Hm.
  destruct (env Now w) as [start w1]. simpl in Hnow, Hm. subst start.
  destruct fuel as [|fuel]; [lia|].
  pose proof (wait_loop_live fuel (clock w) s rc auth w1) as H.
  destruct (run env (wait_loop _ _ _ _ _) w1) as [[o t] w2]. simpl in *. apply H.
  unfold timeOut, checkInterval, second. lia.
Qed.

Lemma CheckAndHeal_live fuel rc m :
  (7 <= fuel)%nat -> live env (SentinelHandler.CheckAndHeal fuel rc m).
Proof.
  intros Hf. pose proof (fun s rc auth => wait_live fuel s rc auth Hf) as Hw.
  unfold SentinelHandler.CheckAndHeal, SentinelCheck.CheckRedisNumber, CheckSentinelNumber,
    GetNumberMasters, heal_masters, heal_replication, agree_on_master, SentinelHeal.MakeMaster, RedisClient.MakeMaster,
    GetMinimumRedisPodTime, SetOldestAsMaster, oldest_step, GetMasterIP, CheckAllSlavesFromMaster,
    SetMasterOnAll, SentinelHandler.setRedisConfig, SentinelHeal.SetRedisCustomConfig,
    GetSentinelsIPs, heal_monitors, CheckSentinelMonitor, NewSentinelMonitor, heal_slaves,
    RestoreSentinel, heal_sentinels, CheckSentinelNumberInMemory, setSentinelConfig,
    SetSentinelCustomConfig, EnsureSentinelReady, SentinelHandler.notify, Event.UpdateSentinelStatus,
    Event.FailedCluster, Event.record, SentinelCheck.CheckRedisConfig, SentinelCheck.GetRedisesIPs,
    GetStatefulSetPods, listSelected, GetStatefulSet, get, GetAllRedisConfig, IsMaster, MakeSlaveOf,
    GetSlaveMasterIP, SetCustomRedisConfig, applyRedisConfig, range_map, GetSentinelMonitor,
    MonitorRedis, ResetSentinel, CheckSentinelSlavesNumberInMemory, GetNumberSentinelSlavesInMemory,
    GetNumberSentinelsInMemory, SetCustomSentinelConfig, applySentinelConfig.
  live_walk; try apply Hw; unfold RedisClient.MakeMaster, RestoreSentinel, ResetSentinel; live_walk.
Qed.
End termination.

(** [Ensure] is live in every environment. *)
Lemma total_live {W A} (env : Env W) (p : prog A) : total p -> live env p.
Proof.
  intros Hp w. destruct (run env p w) as [[o t] w'] eqn:E.
  apply (run_wp env p w _ _ _ _ Hp) in E. by destruct o.
Qed.

(** The services of a handler, live in an environment. *)
Record live_operations {W S} (env : Env W) (ops : Operations S) : Prop := {
  live_UpdateSpec ns o : live env (op_UpdateSpec ops ns o);
  live_UpdateStatus ns o : live env (op_UpdateStatus ops ns o);
  live_Ensure o l refs : live env (op_Ensure ops o l refs);
  live_CheckAndHeal o m : live env (op_CheckAndHeal ops o m)
}.

Section live_handler.
  Context {TF : TimeFormat} {W S : Type} (env : Env W) (ops : Operations S).
  Context (HL : live_operations env ops).

Lemma live_bindM {A B} (m : M S A) (f : A -> M S B) st :
  live env (m st) -> (forall a st, live env (f a st)) -> live env (bindM m f st).
Proof. intros Hm Hf. apply live_bind; [done|]. intros [a st']. apply Hf. Qed.

Lemma live_lift {A} (p : prog A) (st : Store S) : live env p -> live env (lift p st).
Proof. intros Hp. apply live_bind; [done|]. by intros. Qed.

Lemma live_deref l (st : Store S) : live env (deref l st).
Proof. apply live_bind; [apply live_or_panic|]. by intros. Qed.

Lemma live_record k m ty reason msg : live env (Event.record k m ty reason msg).
Proof. exact (live_act env (RecordEvent _ _ _ _ _ _)). Qed.

Lemma live_event l e (st : Store S) :
  (forall k m, live env (e k m)) -> live env (event_on ops l e st).
Proof. intros He. apply live_bindM; [apply live_deref|]. intros. by apply live_lift. Qed.

Lemma live_clock : live env read_clock.
Proof. unfold read_clock. live_walk. Qed.

Lemma live_set_condition l set (st : Store S) : live env (set_condition l set st).
Proof.
  apply live_bindM; [apply live_lift, live_clock|]. intros clk st'.
  apply live_bindM; [apply live_deref|]. by intros.
Qed.

Lemma live_UpdateStatusAt l (st : Store S) : live env (UpdateStatusAt ops l st).
Proof.
  apply live_bindM; [apply live_deref|]. intros o st'. apply live_bindM.
  - apply live_lift, HL.
  - intros [o' err] st2. apply live_bindM; by intros.
Qed.

Lemma live_UpdateSpecAt l (st : Store S) : live env (UpdateSpecAt ops l st).
Proof.
  apply live_bindM; [apply live_deref|]. intros o st'. apply live_bindM.
  - apply live_lift, HL.
  - intros [o' err] st2. apply live_bindM; by intros.
Qed.

Ltac live_m :=
  repeat match goal with
  | |- live _ (bindM _ _ _) => apply live_bindM; [|intros ? ?]
  | |- live _ (event_on _ _ _ _) => apply live_event; intros ? ?; apply live_record
  | |- live _ (set_condition _ _ _) => apply live_set_condition
  | |- live _ (UpdateStatusAt _ _ _) => apply live_UpdateStatusAt
  | |- live _ (UpdateSpecAt _ _ _) => apply live_UpdateSpecAt
  | |- live _ (deref _ _) => apply live_deref
  | |- live _ (lift _ _) => apply live_lift
  | |- live _ (or_panic _) => apply live_or_panic
  | |- live _ (op_CheckAndHeal _ _ _) => apply HL
  | |- live _ (op_Ensure _ _ _ _) => apply HL
  | |- live _ (Metrics.SetClusterError _ _) => exact (live_act env (SetGauge _ _ _))
  | |- live _ (Metrics.SetClusterOK _ _) => exact (live_act env (SetGauge _ _ _))
  | |- live _ (retM _ _) => done
  | |- live _ (failM _ _) => done
  | |- live _ (okM _) => done
  | |- live _ (assign _ _ _) => done
  | |- live _ ((fun _ => _) _) => cbv beta
  | |- live _ ((let '(_, _) := ?x in _) _) => destruct x
  | |- live _ ((match ?x with _ => _ end) _) => destruct x
  | |- live _ (match ?x with _ => _ end) => destruct x
  end.

Lemma live_updateStatus m (st : Store S) : live env (Handler.updateStatus ops m st).
Proof. unfold Handler.updateStatus. live_m. Qed.

Lemma live_report l err (st : Store S) : live env (report_failure ops l err st).
Proof. unfold report_failure. live_m. Qed.

Lemma Do_live rc (st : Store S) : live env (Handler.Do ops rc st).
Proof.
  unfold Handler.Do. apply live_bindM; [apply live_deref|]. intros o st1.
  destruct (op_Validate ops o) as [o' [modified err]].
  apply live_bindM; [done|]. intros [] st2. destruct err as [err|]; [unfold set_error; live_m|].
  destruct modified; [live_m|]. unfold reconcile_valid, heal_failed, set_ready, ensure_at, set_error, set_ok.
  live_m; try apply live_updateStatus; try apply live_report.
Qed.
End live_handler.

(** ** The reconciliations end *)

Section reconcile_live.
  Context {TF : TimeFormat} {QO : QuantityOrder} {W : Type} (env : Env W).

Lemma live_status_update {S} k inj proj ns (o : CustomResource S) :
  live env (updateStatus_ k inj proj ns o).
Proof. unfold updateStatus_. live_walk. Qed.

Lemma live_spec_update {S} k inj proj ns (o : CustomResource S) :
  live env (updateSpec_ k inj proj ns o).
Proof. unfold updateSpec_. live_walk. Qed.

Lemma standalone_CheckAndHeal_live rs m : live env (StandaloneHandler.CheckAndHeal rs m).
Proof.
  unfold StandaloneHandler.CheckAndHeal, StandaloneService.CheckRedisNumber,
    StandaloneHandler.setRedisConfig, StandaloneService.GetRedisesIPs,
    StandaloneService.SetRedisCustomConfig, StandaloneHandler.notify,
    Event.UpdateSentinelStatus, Event.record, StandaloneService.CheckRedisConfig,
    GetStatefulSetPods, listSelected, GetStatefulSet, get, GetAllRedisConfig,
    SetCustomRedisConfig, applyRedisConfig, range_map.
  live_walk.
Qed.

Lemma standalone_operations_live : live_operations env StandaloneHandler.operations.
Proof.
  split; simpl; intros.
  - apply live_spec_update.
  - apply live_status_update.
  - apply total_live, standalone_Ensure_total.
  - apply standalone_CheckAndHeal_live.
Qed.

Lemma sentinel_operations_live (clock : W -> Z) `{!ClockLaws env clock} fuel :
  (7 <= fuel)%nat -> live_operations env (SentinelHandler.operations fuel).
Proof.
  intros Hf. split; simpl; intros.
  - apply live_spec_update.
  - apply live_status_update.
  - apply total_live, sentinel_Ensure_total.
  - by apply (CheckAndHeal_live env clock).
Qed.

Lemma live_forget {S} (ops : Operations S) ns name st : live env (forget ops ns name st).
Proof. unfold forget. simpl. live_walk. Qed.

(** C15: Every reconciliation ends. In any environment with a clock that goes on
    and sleeps that take their time, and whatever the API server and the redis
    servers answer, neither controller's [Reconcile] loops for ever: seven turns
    are enough for the wait for a restored sentinel, five seconds each against a
    timer of thirty. *)
Theorem Reconcile_ends (clock : W -> Z) `{!ClockLaws env clock} fuel ns name st st' :
  (7 <= fuel)%nat ->
  live env (Reconcile_sentinel fuel ns name st) /\ live env (Reconcile_standalone ns name st').
Proof.
  intros Hf. split.
  - apply live_bindM; [apply live_lift; exact (live_act env (Get _ _ _))|].
    intros [err|instance] st1; [destruct (IsNotFound err); [apply live_forget|done]|].
    apply live_bindM; [done|]. intros rc st2. apply live_bindM.
    { by apply Do_live, (sentinel_operations_live clock). }
    intros [err|u] st3; [done|]. apply live_bindM; [apply live_deref|]. intros o st4.
    apply live_bindM; [|by intros [e|r] st5].
    apply live_lift. unfold CheckSentinelReadyReplicas, GetStatefulSet, get. live_walk.
  - apply live_bindM; [apply live_lift; exact (live_act env (Get _ _ _))|].
    intros [err|instance] st1; [destruct (IsNotFound err); [apply live_forget|done]|].
    apply live_bindM; [done|]. intros rc st2. apply live_bindM.
    { by apply Do_live, standalone_operations_live. }
    by intros [err|u] st3.
Qed.
End reconcile_live.

(** ** The gauge *)

(** The request does not say that a cluster is healthy. *)
Definition not_ok (e : Eff) : Prop :=
  match e with SetGauge _ _ v => v <> 1 | _ => True end.

(** Only a handler that returns nil reports a healthy cluster, and it does so
    last. *)
Definition truthful {S} (p : prog (result unit * Store S)) : Prop :=
  wp p (fun t o => match o with
    | Returns (inr _, _) => exists t0 ns name,
        t = t0 ++ [ev (SetGauge ns name 1) tt] /\ Forall (fun e => not_ok (projT1 e)) t0
    | _ => Forall (fun e => not_ok (projT1 e)) t
    end).

Section gauge.
  Context {TF : TimeFormat} {S : Type} (ops : Operations S).
  Context (H_spec : forall ns o, every not_ok (op_UpdateSpec ops ns o)).
  Context (H_status : forall ns o, every not_ok (op_UpdateStatus ops ns o)).
  Context (H_ensure : forall o l refs, every not_ok (op_Ensure ops o l refs)).
  Context (H_heal : forall o m, every not_ok (op_CheckAndHeal ops o m)).

Lemma truthful_bind {A} (m : M S A) (f : A -> M S (result unit)) st :
  every not_ok (m st) -> (forall a st, truthful (f a st)) -> truthful (bindM m f st).
Proof.
  intros Hm Hf. apply wp_bind. eapply wp_mono; [|apply every_trace, Hm].
  intros t [[a st']| |] Ht; [|done..].
  eapply wp_mono, Hf. intros t' [[[err|u] st2]| |]; simpl.
  - intros H. by apply Forall_app.
  - intros (t0 & ns & name & -> & H). exists (t ++ t0), ns, name.
    split; [by rewrite app_assoc|by apply Forall_app].
  - intros H. by apply Forall_app.
  - intros H. by apply Forall_app.
Qed.

Lemma truthful_fail err st : truthful (failM (S := S) err st).
Proof. constructor. Qed.

Lemma every_bindM {A B} P (m : M S A) (f : A -> M S B) st :
  every P (m st) -> (forall a st, every P (f a st)) -> every P (bindM m f st).
Proof. intros Hm Hf. apply every_bind; [done|]. intros [a st']. apply Hf. Qed.

Lemma every_lift {A} P (p : prog A) (st : Store S) : every P p -> every P (lift p st).
Proof. intros Hp. by apply every_bind. Qed.

Lemma every_deref P l (st : Store S) : every P (deref l st).
Proof. apply every_bind; [apply every_or_panic|done]. Qed.

Lemma not_ok_condition l set (st : Store S) : every not_ok (set_condition l set st).
Proof.
  apply every_bindM; [by repeat split|]. intros clk st'.
  apply every_bindM; [apply every_deref|done].
Qed.

Lemma not_ok_event l e (st : Store S) :
  (forall k m, every not_ok (e k m)) -> every not_ok (event_on ops l e st).
Proof. intros He. apply every_bindM; [apply every_deref|]. intros. by apply every_lift. Qed.

Lemma not_ok_status l (st : Store S) : every not_ok (UpdateStatusAt ops l st).
Proof.
  apply every_bindM; [apply every_deref|]. intros o st'.
  apply every_bindM; [by apply every_lift|]. intros [o' err] st2. by apply every_bindM.
Qed.

Lemma not_ok_spec l (st : Store S) : every not_ok (UpdateSpecAt ops l st).
Proof.
  apply every_bindM; [apply every_deref|]. intros o st'.
  apply every_bindM; [by apply every_lift|]. intros [o' err] st2. by apply every_bindM.
Qed.

Lemma not_ok_set_error l (st : Store S) : every not_ok (set_error l st).
Proof. apply every_bindM; [apply every_deref|]. intros o st'. by apply every_lift. Qed.

Lemma not_ok_ensure l labels refs (st : Store S) : every not_ok (ensure_at ops l labels refs st).
Proof.
  apply every_bindM; [apply every_deref|]. intros o st'.
  apply every_bindM; [by apply every_lift|]. intros [o' err] st2. by apply every_bindM.
Qed.

Lemma not_ok_report l err (st : Store S) : every not_ok (report_failure ops l err st).
Proof.
  apply every_bindM; [by apply not_ok_event|]. intros _ st'.
  apply every_bindM; [apply not_ok_condition|]. intros _ st2. apply not_ok_status.
Qed.

Lemma not_ok_updateStatus m (st : Store S) : every not_ok (Handler.updateStatus ops m st).
Proof.
  unfold Handler.updateStatus. destruct (negb _); [|done].
  apply every_bindM; [|intros _ st'; apply not_ok_status].
  repeat (destruct (_ =? _)%string);
    (apply every_bindM; [by apply not_ok_event|intros _ st'; apply not_ok_condition]).
Qed.

Lemma truthful_set_ready rc (st : Store S) : truthful (set_ready ops rc st).
Proof.
  apply truthful_bind; [by apply not_ok_event|]. intros _ st1.
  apply truthful_bind; [apply not_ok_condition|]. intros _ st2.
  apply truthful_bind; [apply not_ok_status|]. intros [err|] st3; [apply truthful_fail|].
  unfold set_ok, bindM, deref, lift. destruct (heap st3 !! rc) as [o|]; simpl; [|constructor].
  intros []. by exists [], (Namespace (meta o)), (Name (meta o)).
Qed.

Lemma truthful_heal_failed rc err (st : Store S) : truthful (heal_failed ops rc err st).
Proof.
  apply truthful_bind; [apply not_ok_set_error|]. intros _ st1. destruct (negb _).
  - apply truthful_bind; [apply not_ok_report|]. intros [e|] st2; apply truthful_fail.
  - apply truthful_bind; [apply every_deref|]. intros o st2.
    destruct (Conditions _) as [|c cs]; [apply truthful_fail|].
    destruct (_ =? _)%string; [|apply truthful_fail].
    apply truthful_bind; [by apply not_ok_event|]. intros _ st3.
    apply truthful_bind; [apply not_ok_condition|]. intros _ st4.
    apply truthful_bind; [apply not_ok_status|]. intros [e|] st5; apply truthful_fail.
Qed.

Lemma truthful_reconcile_valid rc (st : Store S) : truthful (reconcile_valid ops rc st).
Proof.
  apply truthful_bind; [apply every_or_panic|]. intros m st1.
  apply truthful_bind; [apply not_ok_updateStatus|]. intros [err|] st2; [apply truthful_fail|].
  apply truthful_bind; [apply every_deref|]. intros o st3.
  apply truthful_bind; [by apply not_ok_event|]. intros _ st4.
  apply truthful_bind; [apply not_ok_ensure|]. intros [err|[]] st5.
  - apply truthful_bind; [apply not_ok_report|]. intros [e|] st6; [apply truthful_fail|].
    apply truthful_bind; [apply not_ok_set_error|]. intros _ st7. apply truthful_fail.
  - apply truthful_bind; [by apply not_ok_event|]. intros _ st6.
    apply truthful_bind; [apply every_deref|]. intros mobj st7.
    apply truthful_bind; [by apply every_lift|].
    intros [err|u] st8; [apply truthful_heal_failed|apply truthful_set_ready].
Qed.

Lemma truthful_Do rc (st : Store S) : truthful (Handler.Do ops rc st).
Proof.
  apply truthful_bind; [apply every_deref|]. intros o st1.
  destruct (op_Validate ops o) as [o' [modified err]].
  apply truthful_bind; [done|]. intros _ st2. destruct err as [err|].
  - apply truthful_bind; [apply not_ok_set_error|]. intros _ st3. apply truthful_fail.
  - destruct modified; [|apply truthful_reconcile_valid].
    apply truthful_bind; [apply not_ok_spec|]. intros [e|] st3; apply truthful_fail.
Qed.
End gauge.

Lemma confined_not_ok ns refs e : confined ns refs e -> not_ok e.
Proof. by destruct e. Qed.

Lemma not_ok_pods ns name : every not_ok (GetStatefulSetPods ns name).
Proof. unfold GetStatefulSetPods, listSelected, GetStatefulSet, get. every_walk; done. Qed.

Lemma not_ok_check_slaves s rc auth : every not_ok (CheckSentinelSlavesNumberInMemory s rc auth).
Proof.
  assert (forall n l, every not_ok (count_slaves n l)) as Hc.
  { intros n l. revert n. induction l as [|b l IH]; intros n; [done|]. simpl.
    apply every_bind; [|intros; apply IH]. destruct b; simpl; auto with go. }
  unfold CheckSentinelSlavesNumberInMemory, GetNumberSentinelSlavesInMemory.
  apply every_try; [|by intros n; destruct (negb _)]. every_walk; try done; apply Hc.
Qed.

Lemma not_ok_wait turns start s rc auth : every not_ok (wait_loop turns start s rc auth).
Proof.
  induction turns as [|turns IH]; [done|]. cbn [wait_loop].
  apply every_bind; [by split|]. intros now. destruct (_ <=? _); [done|].
  apply every_bind; [apply not_ok_check_slaves|]. intros [e|r]; [|done].
  by apply every_bind.
Qed.

Lemma sentinel_heal_not_ok fuel rc m : every not_ok (SentinelHandler.CheckAndHeal fuel rc m).
Proof.
  unfold SentinelHandler.CheckAndHeal, SentinelCheck.CheckRedisNumber, CheckSentinelNumber,
    GetNumberMasters, heal_masters, heal_replication, agree_on_master, SentinelHeal.MakeMaster,
    GetMinimumRedisPodTime, SetOldestAsMaster, oldest_step, GetMasterIP, CheckAllSlavesFromMaster,
    SetMasterOnAll, SentinelHandler.setRedisConfig, SentinelHeal.SetRedisCustomConfig,
    GetSentinelsIPs, heal_monitors, CheckSentinelMonitor, NewSentinelMonitor, heal_slaves,
    RestoreSentinel, waitRestoreSentinelSlavesOK, heal_sentinels, CheckSentinelNumberInMemory,
    setSentinelConfig, SetSentinelCustomConfig, EnsureSentinelReady, SentinelHandler.notify,
    Event.UpdateSentinelStatus, Event.FailedCluster, Event.record, SentinelCheck.CheckRedisConfig,
    SentinelCheck.GetRedisesIPs, GetStatefulSet, get,
    GetAllRedisConfig, IsMaster, RedisClient.MakeMaster, MakeSlaveOf, GetSlaveMasterIP,
    SetCustomRedisConfig, applyRedisConfig, range_map, GetSentinelMonitor, MonitorRedis,
    ResetSentinel, GetNumberSentinelsInMemory, SetCustomSentinelConfig, applySentinelConfig.
  every_walk; try done; try apply not_ok_pods; try apply not_ok_check_slaves; try apply not_ok_wait.
  unfold RestoreSentinel, ResetSentinel. every_walk; done.
Qed.

Lemma standalone_heal_not_ok rs m : every not_ok (StandaloneHandler.CheckAndHeal rs m).
Proof.
  unfold StandaloneHandler.CheckAndHeal, StandaloneService.CheckRedisNumber,
    StandaloneHandler.setRedisConfig, StandaloneService.GetRedisesIPs,
    StandaloneService.SetRedisCustomConfig, StandaloneHandler.notify,
    Event.UpdateSentinelStatus, Event.record, StandaloneService.CheckRedisConfig,
    GetStatefulSet, get, GetAllRedisConfig, SetCustomRedisConfig, applyRedisConfig, range_map.
  every_walk; try done; try apply not_ok_pods.
Qed.

Lemma not_ok_spec_ {S} k inj proj ns (o : CustomResource S) :
  every not_ok (updateSpec_ k inj proj ns o).
Proof. unfold updateSpec_. every_walk; done. Qed.

Lemma not_ok_status_ {S} k inj proj ns (o : CustomResource S) :
  every not_ok (updateStatus_ k inj proj ns o).
Proof. unfold updateStatus_. every_walk; done. Qed.

Section gauge_truthful.
  Context {TF : TimeFormat} {QO : QuantityOrder}.

(** C14: The gauge tells the truth. In every run of either handler's [Do],
    against any cluster, the gauge of a cluster is set to 1 only by the last
    request, and only when [Do] then returns nil; in every run that returns an
    error or panics no request sets it to 1. *)
Theorem gauge_truthful fuel rc st st' :
  truthful (SentinelHandler.Do fuel rc st) /\ truthful (StandaloneHandler.Do rc st').
Proof.
  split; apply truthful_Do; intros.
  - exact (not_ok_spec_ KRedisSentinel _ _ ns o).
  - exact (not_ok_status_ KRedisSentinel _ _ ns o).
  - eapply every_mono; [apply confined_not_ok|apply sentinel_Ensure_confined].
  - apply sentinel_heal_not_ok.
  - exact (not_ok_spec_ KRedisStandalone _ _ ns o).
  - exact (not_ok_status_ KRedisStandalone _ _ ns o).
  - eapply every_mono; [apply confined_not_ok|apply standalone_Ensure_confined].
  - apply standalone_heal_not_ok.
Qed.
End gauge_truthful.
