(* ===== verification/FlowProps.v ===== *)
(** * What a reconciliation writes and how it is scheduled again

    The status a handler sends, what an invalid or incomplete resource leads to,
    and which request each outcome of [Reconcile] becomes. *)

From S2P Require Import Prelude GoStd Corev1 Api Samples Util Common Status Validate.
From S2P Require Import Effects K8s Cache Handler SentinelHandler StandaloneHandler Controller.

Section rules.
  Context {S : Type}.
  Implicit Types st : Store S.

Lemma wlp_bindM {A B} (m : M S A) (f : A -> M S B) st Q :
  wlp (m st) (fun t '(a, st1) => wlp (f a st1) (fun t' r => Q (t ++ t') r)) ->
  wlp (bindM m f st) Q.
Proof. intros H. apply wlp_bind. eapply wlp_mono, H. by intros t [a st1]. Qed.

Lemma deref_at l st o : heap st !! l = Some o -> deref l st = Ret (o, st).
Proof. intros H. unfold deref. by rewrite H. Qed.

Lemma bindM_deref {B} l (f : CustomResource S -> M S B) st o :
  heap st !! l = Some o -> bindM (deref l) f st = f o st.
Proof. intros H. unfold bindM. by rewrite (deref_at _ _ o). Qed.

Lemma write_at l o st : (l < length (heap st))%nat -> heap (write l o st) !! l = Some o.
Proof. intros H. by apply list_lookup_insert_eq. Qed.
End rules.

(** ** The status that is sent *)

Section status.
  Context {TF : TimeFormat} {S : Type} (ops : Operations S).

(** The event and condition of a status, by the table of [updateStatus]. *)
Definition condition_of (status : ConditionType) : ConditionType :=
  if (status =? ClusterConditionCreating)%string then ClusterConditionCreating
  else if (status =? ClusterConditionScaling)%string then ClusterConditionScaling
  else if (status =? ClusterConditionScalingDown)%string then ClusterConditionScaling
  else if (status =? ClusterConditionUpgrading)%string then ClusterConditionUpgrading
  else ClusterConditionUpdating.

(** The object sent says of the type that it is so, with the message. *)
Definition announces (o sent : CustomResource S) (ty : ConditionType) (msg : string) : Prop :=
  meta sent = meta o /\ Spec sent = Spec o /\
  exists cs seed c, Status sent = DescConditionsByTime seed cs /\
    lookup_condition cs ty = Some c /\ Type_ c = ty /\ cond_Status c = ConditionTrue /\
    cond_Message c = msg /\
    (forall t, t <> ty -> lookup_condition cs t = lookup_condition (Status o) t).

(** A setter of a condition, described. *)
Definition sets (set : Clock -> ClusterStatus -> ClusterStatus) (ty : ConditionType) (msg : string) :=
  exists reason, forall clk cs, set clk cs =
    setClusterCondition clk (newClusterCondition clk ty ConditionTrue reason msg) cs.

Lemma find_type i cs t p c : find_condition i cs t = Some (p, c) -> Type_ c = t.
Proof. intros H. by apply find_condition_Some in H as (k & _ & _ & Ht & _). Qed.

Lemma set_announces set ty msg clk seed (o : CustomResource S) :
  sets set ty msg ->
  announces o (set_Status (DescConditionsByTime seed (set clk (Status o))) o) ty msg.
Proof.
  intros [reason Hset]. rewrite Hset. split; [done|]. split; [done|].
  set (c0 := newClusterCondition clk ty ConditionTrue reason msg).
  exists (setClusterCondition clk c0 (Status o)), seed.
  pose proof (lookup_set clk c0 (Status o) (Type_ c0)) as Hl. rewrite String.eqb_refl in Hl.
  exists (match lookup_condition (Status o) (Type_ c0) with Some cp => updated clk cp c0 | None => c0 end).
  split; [done|]. split; [exact Hl|].
  assert (forall t, t <> ty -> lookup_condition (setClusterCondition clk c0 (Status o)) t =
    lookup_condition (Status o) t) as Hoth.
  { intros t Ht. rewrite lookup_set. by rewrite (proj2 (String.eqb_neq t (Type_ c0)) Ht). }
  destruct (lookup_condition (Status o) (Type_ c0)) as [cp|] eqn:E; [|by split_and!].
  unfold lookup_condition, getClusterCondition in E.
  apply fmap_Some in E as ([p cp'] & E & ->). apply find_type in E. simpl.
  unfold updated, same_condition.
  destruct (String.eqb_spec (cond_Status cp') (cond_Status c0)) as [E1|]; [|by split_and!].
  destruct (String.eqb_spec (Reason cp') (Reason c0)) as [E2|]; [|by split_and!].
  destruct (String.eqb_spec (cond_Message cp') (cond_Message c0)) as [E3|]; by split_and!.
Qed.

End status.


(** A handler whose status updates are the ones of [updateStatus_]. *)
Class StatusByUpdate {S} (ops : Operations S) (k : kind) (inj : CustomResource S -> object k)
    (proj : object k -> CustomResource S) : Prop :=
  status_by_update ns o : op_UpdateStatus ops ns o = updateStatus_ k inj proj ns o.

#[export] Instance sentinel_status {TF : TimeFormat} {QO : QuantityOrder} fuel :
  StatusByUpdate (SentinelHandler.operations fuel) KRedisSentinel (fun o => o) (fun o => o).
Proof. done. Qed.
#[export] Instance standalone_status {TF : TimeFormat} {QO : QuantityOrder} :
  StatusByUpdate StandaloneHandler.operations KRedisStandalone (fun o => o) (fun o => o).
Proof. done. Qed.

Section sent.
  Context {TF : TimeFormat} {S : Type} (ops : Operations S) (k : kind).
  Context (inj : CustomResource S -> object k) (proj : object k -> CustomResource S).
  Context `{!StatusByUpdate ops k inj proj}.

Definition sent_status (l : loc) (st : Store S) (o : CustomResource S) (ty : ConditionType)
    (msg : string) (t : list event) (r : option error * Store S) : Prop :=
  exists t0 sent answer, t = t0 ++ [ev (StatusUpdate k (inj sent)) answer] /\
    announces o sent ty msg /\
    r = match answer with
        | inl err => (Some err, write l sent st)
        | inr stored => (None, write l (proj stored) st)
        end.

Lemma write_write l o o' (st : Store S) : write l o (write l o' st) = write l o st.
Proof. unfold write. simpl. by rewrite list_insert_insert_eq. Qed.

(** Event, condition, status update: the common tail. *)
Lemma condition_sent l st o e set ty msg :
  heap st !! l = Some o -> (forall m, exists a b c, e (op_kind ops) m = Event.record (op_kind ops) m a b c) ->
  sets set ty msg ->
  spec ((do* _ := (do* _ := event_on ops l e in set_condition l set) in UpdateStatusAt ops l) st)
    (sent_status l st o ty msg).
Proof.
  intros Ho He Hset.
  assert (l < length (heap st))%nat as Hl by (by eapply lookup_lt_Some).
  destruct (He (meta o)) as (a & b & c & Ee).
  unfold event_on. unfold bindM at 1 2. rewrite (bindM_deref _ _ _ o) by done.
  unfold lift. rewrite Ee. intros []. cbn [bind]. fold (@bind).
  unfold set_condition, read_clock, bindM, lift. intros n1 n2 n3 n4. cbn [bind act].
  rewrite (deref_at _ _ o) by done. cbn [bind assign].
  unfold UpdateStatusAt, bindM, lift. rewrite (deref_at _ _ _ (write_at _ _ _ Hl)). cbn [bind].
  rewrite status_by_update. intros seed. cbn [bind act]. intros answer.
  set (clk := mkClock n1 n2 n3 n4).
  assert (forall t r, r = match answer with
      | inl err => (Some err, write l (set_Status (DescConditionsByTime seed (set clk (Status o))) o) st)
      | inr stored => (None, write l (proj stored) st) end ->
    t = [ev (StatusUpdate k (inj (set_Status (DescConditionsByTime seed (set clk (Status o))) o))) answer] ->
    sent_status l st o ty msg (ev (RecordEvent (op_kind ops) (Namespace (meta o)) (Name (meta o)) a b c) () ::
      ev Now n1 :: ev Now n2 :: ev Now n3 :: ev Now n4 :: ev Seed seed :: t) r) as H.
  { intros t r -> ->. exists [ev (RecordEvent (op_kind ops) (Namespace (meta o)) (Name (meta o)) a b c) ();
      ev Now n1; ev Now n2; ev Now n3; ev Now n4; ev Seed seed],
      (set_Status (DescConditionsByTime seed (set clk (Status o))) o), answer.
    split; [done|]. split; [by apply set_announces|done]. }
  destruct answer as [err|stored]; cbn; rewrite write_write; by apply H.
Qed.
End sent.

(** ** [updateStatus] *)

Section update_status.
  Context {TF : TimeFormat} {S : Type} (ops : Operations S) (k : kind).
  Context (inj : CustomResource S -> object k) (proj : object k -> CustomResource S).
  Context `{!StatusByUpdate ops k inj proj}.

(** What [updateStatus] does with the metadata the cache returned. *)
Definition status_flow (m : Meta) (st : Store S) (o : CustomResource S) : Prop :=
  if bool_decide (State m = StateCheck) then Handler.updateStatus ops m st = Ret (None, st)
  else spec (Handler.updateStatus ops m st)
         (sent_status k inj proj (Obj m) st o (condition_of (m_Status m)) (Message m)).

Lemma updateStatus_flow m st o : heap st !! Obj m = Some o -> status_flow m st o.
Proof.
  intros Ho. unfold status_flow. case_bool_decide as HS.
  - unfold Handler.updateStatus. by rewrite bool_decide_true.
  - unfold Handler.updateStatus, condition_of. rewrite bool_decide_false by done. cbn [negb].
    repeat (destruct (_ =? _)%string;
      [apply (condition_sent ops k inj proj); [done|intros ?; by eexists _, _, _|by eexists]|]).
    apply (condition_sent ops k inj proj); [done|intros ?; by eexists _, _, _|by eexists].
Qed.
End update_status.

Section status_claims.
  Context {TF : TimeFormat} {QO : QuantityOrder}.

(** The status that announces a change. When the cache says that the
    resource is only to be checked, [updateStatus] does nothing. Otherwise it
    always returns; its last request sends the object the entry points to, with
    metadata and specification unchanged and, under the condition of the
    entry's status (scaling down is filed under "Scaling", anything unknown
    under "Updating"), status "True" and the entry's message, all other
    conditions as they were; the server's answer then replaces that object. *)
Theorem updateStatus_sends fuel m st o m' st' o' :
  heap st !! Obj m = Some o -> heap st' !! Obj m' = Some o' ->
  status_flow (SentinelHandler.operations fuel) KRedisSentinel (fun o => o) (fun o => o) m st o /\
  status_flow StandaloneHandler.operations KRedisStandalone (fun o => o) (fun o => o) m' st' o'.
Proof. intros H H'. split; by apply updateStatus_flow. Qed.

(** C18: The protection of the password is lost when a change is announced.
    The cache puts the old password into a changed object, and keeps the old one
    to connect with; but an announcement replaces the object by the server's
    answer. If that carries the specification the user wrote, as it does when the
    server keeps the specification on a write of the status, whatever it does to
    the metadata, then the object handed to [Ensure] carries the new password, the
    one kept to connect with is still the old one, and the cache no longer is well
    formed. *)
Theorem password_protection_lost fuel rc st o m st1 m0 old :
  wf st -> heap st !! rc = Some o -> metas st !! key_of o = Some m0 ->
  heap st !! Obj m0 = Some old -> Generation (meta old) <> Generation (meta o) ->
  Password (redisSpec (Spec o)) <> Password (redisSpec (Spec old)) ->
  SentinelCache.Cache rc st = Some (m, st1) ->
  spec (SentinelHandler.updateStatus fuel m st1) (fun t '(err, st2) => err = None ->
    exists t0 sent stored, t = t0 ++ [ev (StatusUpdate KRedisSentinel sent) (inr stored)] /\
      Password (redisSpec (Spec sent)) = Password (redisSpec (Spec old)) /\
      heap st2 !! Obj m = Some stored /\
      auth_Password (Auth m) = Password (redisSpec (Spec old)) /\
      (Spec stored = Spec o ->
       Password (redisSpec (Spec stored)) <> auth_Password (Auth m) /\ ~ wf st2)).
Proof.
  intros Hwf Ho Hm0 Hold Hgen Hpw HC.
  unfold SentinelCache.Cache in HC. rewrite (Cache_again _ rc st o m0 old) in HC by done.
  injection HC as <- <-. unfold updated_meta, updated_heap.
  rewrite (proj2 (Z.eqb_neq _ _) Hgen).
  match goal with |- context [describe_change ?a ?b ?c] => set (m := describe_change a b c);
    destruct (describe_change_fields a b c) as (Hobj & Hauth & Hstate & _); fold m in Hobj, Hauth, Hstate end.
  simpl in Hobj, Hauth, Hstate. clearbody m.
  set (o1 := with_password _ o).
  set (st1 := mkStore _ _).
  assert (heap st1 !! Obj m = Some o1) as Ho1.
  { rewrite Hobj. simpl. apply list_lookup_insert_eq. by eapply lookup_lt_Some. }
  pose proof (updateStatus_flow (SentinelHandler.operations fuel) KRedisSentinel (fun o => o) (fun o => o)
    m st1 o1 Ho1) as Hf.
  unfold status_flow in Hf. rewrite bool_decide_false in Hf by congruence.
  eapply spec_mono, Hf.
  intros t [err st2] (t0 & sent & answer & -> & (_ & Hsp & _) & E) Herr.
  destruct answer as [e|stored]; injection E as -> ->; [done|].
  exists t0, sent, stored. split; [done|]. rewrite Hsp, Hauth. unfold o1.
  destruct (with_password_fields (Password (redisSpec (Spec old))) o) as (_ & _ & Hpass).
  split; [by rewrite Hpass|].
  assert (heap (write (Obj m) stored st1) !! Obj m = Some stored) as Hst
    by (apply write_at; by eapply lookup_lt_Some).
  split; [exact Hst|]. split; [done|]. intros Hspec. rewrite Hspec. split; [done|].
  intros Hwf2. destruct (Hwf2 (key_of o) m) as (o2 & Ho2 & _ & Ha2).
  { simpl. apply lookup_insert_eq. }
  assert (Some o2 = Some stored) as [= ->] by (rewrite <- Ho2; exact Hst). rewrite Hauth, Hspec in Ha2. by injection Ha2.
Qed.
End status_claims.

(** ** Validation first *)

Class SpecByUpdate {S} (ops : Operations S) (k : kind) (inj : CustomResource S -> object k)
    (proj : object k -> CustomResource S) : Prop :=
  spec_by_update ns o : op_UpdateSpec ops ns o = updateSpec_ k inj proj ns o.

#[export] Instance sentinel_spec_update {TF : TimeFormat} {QO : QuantityOrder} fuel :
  SpecByUpdate (SentinelHandler.operations fuel) KRedisSentinel (fun o => o) (fun o => o).
Proof. done. Qed.
#[export] Instance standalone_spec_update {TF : TimeFormat} {QO : QuantityOrder} :
  SpecByUpdate StandaloneHandler.operations KRedisStandalone (fun o => o) (fun o => o).
Proof. done. Qed.

Section validation.
  Context {TF : TimeFormat} {S : Type} (ops : Operations S) (k : kind).
  Context (inj : CustomResource S -> object k) (proj : object k -> CustomResource S).
  Context `{!SpecByUpdate ops k inj proj}.

(** What [Do] does, by the outcome of the validation. *)
Definition validates (rc : loc) (st : Store S) (o : CustomResource S) : Prop :=
  let '(o', (modified, err)) := op_Validate ops o in
  match err with
  | Some err =>
      spec (Handler.Do ops rc st) (fun t r =>
        t = [ev (SetGauge (Namespace (meta o')) (Name (meta o')) 0) tt] /\
        r = (inl err, write rc o' st))
  | None =>
      if (modified : bool) then
        spec (Handler.Do ops rc st) (fun t r => exists answer,
          t = [ev (Update k (inj o')) answer] /\
          r = match answer with
              | inl err => (inl err, write rc o' st)
              | inr stored => (inl ErrNeedRequeueImmediately, write rc (proj stored) st)
              end)
      else Handler.Do ops rc st = reconcile_valid ops rc (write rc o' st)
  end.

Lemma Do_validates rc st o : heap st !! rc = Some o -> validates rc st o.
Proof.
  intros Ho. assert (rc < length (heap st))%nat as Hl by (by eapply lookup_lt_Some).
  unfold validates, Handler.Do. rewrite (bindM_deref _ _ _ o) by done.
  destruct (op_Validate ops o) as [o' [modified [err|]]].
  - unfold set_error, bindM, lift. cbn [bind assign].
    rewrite (deref_at _ _ _ (write_at _ _ _ Hl)). simpl. by intros [].
  - destruct modified; [|done]. unfold UpdateSpecAt, bindM, lift. cbn [bind assign].
    rewrite (deref_at _ _ _ (write_at _ _ _ Hl)). cbn [bind]. rewrite spec_by_update.
    intros [err|stored]; cbn; rewrite write_write; [by exists (inl err)|by exists (inr stored)].
Qed.
End validation.

Section validation_claims.
  Context {TF : TimeFormat} {QO : QuantityOrder}.

(** Nothing is done for a resource before it is valid and complete. If the
    validation refuses it, [Do] only sets its gauge to 0 and returns the error;
    if the validation filled in defaults, [Do] only writes the completed resource
    back and asks to be called again at once (or returns the write's error);
    only a resource that was valid and complete is cached, ensured and
    healed. *)
Theorem Do_validates_first fuel rc st o rc' st' o' :
  heap st !! rc = Some o -> heap st' !! rc' = Some o' ->
  validates (SentinelHandler.operations fuel) KRedisSentinel (fun o => o) (fun o => o) rc st o /\
  validates StandaloneHandler.operations KRedisStandalone (fun o => o) (fun o => o) rc' st' o'.
Proof. intros H H'. split; by apply Do_validates. Qed.
End validation_claims.

(** ** The outcome of [Reconcile] *)

Section outcomes.
  Context {TF : TimeFormat} {QO : QuantityOrder}.

(** Will the resource be looked at again? A nil error without a requeue drops
    it until it is changed. *)
Definition scheduled (r : reconciled) : Prop :=
  r.2 <> None \/ Requeue r.1 = true \/ 0 < RequeueAfter r.1.

Lemma requeue_of_cases after err :
  match requeue_of after err with
  | (res, Some e) => e = err /\ res = noRequeue /\ Error err <> NeedRequeueMsg /\
      Error err <> NeedRequeueImmediatelyMsg
  | (res, None) => (Error err = NeedRequeueImmediatelyMsg /\ res = mkResult true 0) \/
      (Error err = NeedRequeueMsg /\ res = mkResult false after)
  end.
Proof.
  unfold requeue_of. destruct (String.eqb_spec (Error err) NeedRequeueImmediatelyMsg); [by left|].
  destruct (String.eqb_spec (Error err) NeedRequeueMsg); [by right|done].
Qed.

Lemma requeue_of_scheduled after err : 0 < after -> scheduled (requeue_of after err).
Proof.
  intros Ha. pose proof (requeue_of_cases after err) as H. unfold scheduled.
  destruct (requeue_of after err) as [res [e|]]; [by left|].
  destruct H as [[_ ->]|[_ ->]]; simpl; auto.
Qed.

Lemma forget_run {S} (ops : Operations S) ns name st :
  forget ops ns name st =
  Ret ((noRequeue, None),
    mkStore (heap st ++ [mkResource (newMeta name ns ∅ []) (op_zero ops) emptyStatus])
      (delete (getNamespacedName ns name) (metas st))).
Proof.
  unfold forget, Del. cbn [alloc heap metas].
  by rewrite lookup_app_r, Nat.sub_diag by done.
Qed.

Lemma wlp_any {A} (p : prog A) (Q : A -> Prop) : (forall a, Q a) -> wlp p (fun _ a => Q a).
Proof. intros H. eapply wp_mono, wp_true. intros t [a| |] _; auto. Qed.

(** C16: No live resource is dropped. Whatever a reconciliation meets, if the API
    server returned the resource, then [Reconcile] returns an error, which the
    controller retries, or asks to be called again at once or after some time;
    if the resource could not be read for another reason than its absence, the
    error is returned. Only for a resource that does not exist does it return
    without either. *)
Theorem Reconcile_scheduled fuel ns name st st' :
  wlp (Reconcile_sentinel fuel ns name st) (fun t '(r, _) =>
    scheduled r \/
    exists err, IsNotFound err = true /\ t = [ev (Get KRedisSentinel ns name) (inl err)]) /\
  wlp (Reconcile_standalone ns name st') (fun t '(r, _) =>
    scheduled r \/
    exists err, IsNotFound err = true /\ t = [ev (Get KRedisStandalone ns name) (inl err)]).
Proof.
  split; intros [err|instance].
  - cbn. destruct (IsNotFound err) eqn:E; [|left; by left].
    rewrite forget_run. right. by exists err.
  - eapply (wlp_mono (A := reconciled * Store _) _ (fun _ r => scheduled r.1));
      [intros t [r s] H; by left|].
    cbn [bind]. unfold bindM at 1. cbn [bind]. apply wlp_bindM, wlp_any. intros [[err|u] st2].
    + by apply requeue_of_scheduled.
    + apply wlp_bindM, wlp_any. intros [o st3]. apply wlp_bindM, wlp_any.
      intros [[e|r] st4]; right; by right.
  - cbn. destruct (IsNotFound err) eqn:E; [|left; by left].
    rewrite forget_run. right. by exists err.
  - eapply (wlp_mono (A := reconciled * Store _) _ (fun _ r => scheduled r.1));
      [intros t [r s] H; by left|].
    cbn [bind]. unfold bindM at 1. cbn [bind]. apply wlp_bindM, wlp_any. intros [[err|u] st2].
    + by apply requeue_of_scheduled.
    + right. by right.
Qed.
End outcomes.

(** ** What reaches the queue *)

(** The events that lead to a reconciliation. *)
Definition enqueues (e : WatchEvent) : Prop :=
  let managed (m : ObjectMeta) := Annotations m !! AnnotationScope = Some AnnotationClusterScoped in
  match e with
  | CreateEvent o => managed o
  | DeleteEvent o unknown => managed o /\ unknown = false
  | UpdateEvent old new => managed new /\ Generation old <> Generation new
  | GenericEvent _ => True
  end.

(** The gauges a controller drops on an event. *)
Definition dropped_gauges (e : WatchEvent) : list event :=
  match e with
  | DeleteEvent o _ =>
      if ShouldManage o then [ev (DeleteGauge (Namespace o) (Name o)) tt] else []
  | _ => []
  end.

Lemma ShouldManage_iff m :
  ShouldManage m = true <-> Annotations m !! AnnotationScope = Some AnnotationClusterScoped.
Proof.
  unfold ShouldManage, IsClusterScoped. destruct (_ !! _) as [v|]; [|done].
  rewrite String.eqb_eq. naive_solver.
Qed.

(** C40: What reaches the queue. Either controller lets pass the creation of a
    resource annotated as cluster-scoped, an update that leaves it so annotated
    and changes its generation, the deletion of one so annotated whose final state
    is known, but not one that was missed, whatever the comment at the predicate
    says, and every generic event, for which no predicate is given; nothing else.
    The sentinel controller drops the gauge of a deleted resource so annotated, in
    either case; the standalone controller never drops one. *)
Theorem watch_filter e :
  spec (passes pred_sentinel e) (fun t r => (r = true <-> enqueues e) /\ t = dropped_gauges e) /\
  spec (passes pred_standalone e) (fun t r => (r = true <-> enqueues e) /\ t = []).
Proof.
  destruct e as [o|o unknown|old new|o]; cbn [passes pred_sentinel pred_standalone CreateFunc DeleteFunc
    UpdateFunc GenericFunc dropped_gauges enqueues].
  - pose proof (ShouldManage_iff o). unfold CreateFunc_sentinel, CreateFunc_standalone.
    destruct (ShouldManage o); split; (split; [naive_solver|done]).
  - pose proof (ShouldManage_iff o). unfold DeleteFunc_sentinel, DeleteFunc_standalone.
    destruct (ShouldManage o); simpl; split; [intros []| | |]; (split; [|done]);
      destruct unknown; naive_solver.
  - pose proof (ShouldManage_iff new). pose proof (Z.eqb_eq (Generation old) (Generation new)).
    unfold UpdateFunc_sentinel, UpdateFunc_standalone.
    destruct (ShouldManage new), (Generation old =? Generation new);
      split; (split; [naive_solver|done]).
  - by split.
Qed.
