(* ===== verification/Convergence.v ===== *)
(** * Healing converges

    With redis servers that do what they are told, one round of healing ends
    with one master that all the others follow, and the checks that led to it
    pass afterwards. What is assumed of the outside is a class of laws over the
    roles of the servers, the documented behaviour of [SLAVEOF] and
    [INFO replication]; [Cluster.v] has an environment that satisfies them. *)

From S2P Require Import Prelude GoStd Corev1 Api Samples Util Common Names Effects K8s RedisClient.
From S2P Require Import SentinelGen SentinelCheck SentinelHeal Cache Handler SentinelHandler HealProps.

(** The role a server plays: a master, or the slave of an address. *)
Inductive role := Master | SlaveOf (master : string).

#[export] Instance role_eq : EqDecision role.
Proof. solve_decision. Defined.

(** An address of digits and dots, as IPv4 addresses are. *)
Definition class_v4 (c : ascii) : bool := class_digit c || (c =? ".")%char.
Definition valid_host (h : string) : Prop := h <> "" /\ all_chars class_v4 h = true.

Definition valid_role (r : role) : Prop :=
  match r with Master => True | SlaveOf h => valid_host h end.

(** A set of reachable pods: the API lists always the same ones, all running,
    each with an address of its own, and the redis server of each answers. *)
Class Reachable {W} (env : Env W) (roles : W -> gmap string role) (auth : AuthConfig)
    (ns set : string) (ss : StatefulSet) (labels : StringMap) (items : list Pod) : Prop := {
  set_found w : (env (Get KStatefulSet ns set) w).1 = inr ss;
  set_selector : ss_Selector ss = Some labels;
  pods_listed w : (env (List KPod ns labels) w).1 = inr items;
  pods_some : items <> [];
  pods_running p : p ∈ items -> pod_Phase p = PodRunning;
  pods_addressed p : p ∈ items -> valid_host (pod_PodIP p);
  pods_distinct : NoDup (pod_PodIP <$> items);
  roles_kept e w : redis_command e = false -> roles (env e w).2 = roles w;
  slaveof_no_one p w : p ∈ items -> exists s w',
    env (make_master (pod_PodIP p) auth) w = (inr s, w') /\
    roles w' = <[pod_PodIP p := Master]> (roles w);
  slaveof p q w : p ∈ items -> q ∈ items -> exists s w',
    env (make_slave (pod_PodIP p) (pod_PodIP q) auth) w = (inr s, w') /\
    roles w' = <[pod_PodIP p := SlaveOf (pod_PodIP q)]> (roles w);
  info_replication p w : p ∈ items -> exists s w',
    env (StringCmd (redis_options (pod_PodIP p) auth) ["info"; "replication"]) w = (inr s, w') /\
    roles w' = roles w /\
    match roles w !! pod_PodIP p with
    | Some Master => Contains s redisRoleMaster = true /\ redisMasterHostRE s = None
    | Some (SlaveOf m) => valid_host m ->
        Contains s redisRoleMaster = false /\ redisMasterHostRE s = Some m
    | None => True
    end
}.

Section convergence.
  Context {W : Type} (env : Env W) (roles : W -> gmap string role) (auth : AuthConfig).
  Context (rc : RedisSentinel) (ss : StatefulSet) (labels : StringMap) (items : list Pod).
  Context `{!Reachable env roles auth (Namespace (meta rc)) (Names.Sentinel.GetRedisName rc)
              ss labels items}.

Definition ips : list string := pod_PodIP <$> items.

Lemma ips_running : running_ips items = ips.
Proof.
  pose proof (pods_running (items := items)) as H. unfold ips. clear -H. unfold running_ips.
  induction items as [|p l IH]; [done|]. simpl. rewrite H by left.
  rewrite String.eqb_refl. simpl. f_equal. apply IH. intros q Hq. apply H. by right.
Qed.

Lemma items_triple {A} (P : W -> Prop) (f : list Pod -> prog (result A)) Q :
  (forall w w', roles w' = roles w -> P w -> P w') ->
  triple env P (f items) Q ->
  triple env P (try (GetStatefulSetPods (Namespace (meta rc)) (Names.Sentinel.GetRedisName rc)) f) Q.
Proof.
  intros HP Hf. eapply (triple_try _ _ _ _ (fun a w => a = items /\ P w)).
  - intros w Hw. unfold GetStatefulSetPods, GetStatefulSet, get, listSelected. simpl.
    pose proof (set_found (env := env) (roles := roles) (auth := auth) w) as H1.
    pose proof (roles_kept (env := env) (roles := roles)
      (Get KStatefulSet (Namespace (meta rc)) (Names.Sentinel.GetRedisName rc)) w eq_refl) as H2.
    destruct (env (Get _ _ _) w) as [r w1]. simpl in H1, H2. subst r. simpl.
    rewrite (set_selector (ss := ss)). simpl.
    pose proof (pods_listed (env := env) (roles := roles) (auth := auth) (labels := labels) w1) as H3.
    pose proof (roles_kept (env := env) (roles := roles)
      (List KPod (Namespace (meta rc)) labels) w1 eq_refl) as H4.
    destruct (env (List _ _ _) w1) as [r w2]. simpl in H3, H4. subst r. simpl.
    eexists _, _, w2. split; [done|]. split; [done|]. eapply HP, Hw. congruence.
  - intros a w [-> Hw]. by apply Hf.
Qed.

(** ** Single commands *)

Definition at_roles (R : gmap string role) (w : W) : Prop := roles w = R.

Lemma in_ips ip : ip ∈ ips -> exists p, p ∈ items /\ pod_PodIP p = ip.
Proof. intros (p & -> & Hp)%list_elem_of_fmap. by exists p. Qed.

Lemma redis_setOptions ip : setOptions ip redisPort auth = redis_options ip auth.
Proof. done. Qed.

Lemma MakeMaster_triple ip R :
  ip ∈ ips -> triple env (at_roles R) (RedisClient.MakeMaster ip auth)
    (fun r w => r = inr tt /\ at_roles (<[ip := Master]> R) w).
Proof.
  intros (p & Hp & <-)%in_ips w Hw. unfold RedisClient.MakeMaster.
  destruct (slaveof_no_one (env := env) (roles := roles) p w Hp) as (s & w' & E & Hr).
  rewrite redis_setOptions. simpl. unfold make_master in E. rewrite E. simpl.
  eexists _, _, _. split; [done|]. split; [done|]. unfold at_roles. by rewrite Hr, Hw.
Qed.

Lemma MakeSlaveOf_triple ip m R :
  ip ∈ ips -> m ∈ ips -> triple env (at_roles R) (MakeSlaveOf ip m auth)
    (fun r w => r = inr tt /\ at_roles (<[ip := SlaveOf m]> R) w).
Proof.
  intros (p & Hp & <-)%in_ips (q & Hq & <-)%in_ips w Hw. unfold MakeSlaveOf.
  destruct (slaveof (env := env) (roles := roles) p q w Hp Hq) as (s & w' & E & Hr).
  rewrite redis_setOptions. simpl. unfold make_slave in E. change "6379" with redisPort in E. rewrite E. simpl.
  eexists _, _, _. split; [done|]. split; [done|]. unfold at_roles. by rewrite Hr, Hw.
Qed.

(** What a server says of itself. *)
Definition master_role (R : gmap string role) (ip : string) : bool :=
  bool_decide (R !! ip = Some Master).
Definition host_of (R : gmap string role) (ip : string) : string :=
  match R !! ip with Some (SlaveOf m) => m | _ => "" end.

(** Something is known of the server that the client can read. *)
Definition role_known (R : gmap string role) (ip : string) : Prop :=
  exists r, R !! ip = Some r /\ valid_role r.

Lemma IsMaster_triple ip R :
  ip ∈ ips -> role_known R ip ->
  triple env (at_roles R) (IsMaster ip auth) (fun r w => r = inr (master_role R ip) /\ at_roles R w).
Proof.
  intros (p & Hp & <-)%in_ips (x & Hx & Hv) w Hw. unfold IsMaster.
  destruct (info_replication (env := env) (roles := roles) p w Hp) as (s & w' & E & Hr & Hs).
  rewrite redis_setOptions. simpl. rewrite E. simpl.
  eexists _, _, _. split; [done|]. unfold at_roles in *. rewrite Hr, Hw. split; [|done].
  rewrite Hw, Hx in Hs. unfold master_role. rewrite Hx. f_equal.
  destruct x; [destruct Hs as [-> _]|destruct (Hs Hv) as [-> _]];
    [by rewrite bool_decide_true|by rewrite bool_decide_false].
Qed.

Lemma GetSlaveMasterIP_triple ip R :
  ip ∈ ips -> role_known R ip ->
  triple env (at_roles R) (GetSlaveMasterIP ip auth) (fun r w => r = inr (host_of R ip) /\ at_roles R w).
Proof.
  intros (p & Hp & <-)%in_ips (x & Hx & Hv) w Hw. unfold GetSlaveMasterIP.
  destruct (info_replication (env := env) (roles := roles) p w Hp) as (s & w' & E & Hr & Hs).
  rewrite redis_setOptions. simpl. rewrite E. simpl.
  rewrite Hw, Hx in Hs. unfold host_of. rewrite Hx.
  destruct x as [|m]; [destruct Hs as [_ ->]|destruct (Hs Hv) as [_ ->]]; eexists _, _, _; (split; [done|]);
    unfold at_roles in *; by rewrite Hr, Hw.
Qed.

(** ** Loops *)

Lemma fold_triple {A B} (P : W -> Prop) (xs : list A) (b : B) f step :
  (forall b x, x ∈ xs -> triple env P (f b x) (fun r w => r = inr (step b x) /\ P w)) ->
  triple env P (fold_each xs b f) (fun r w => r = inr (fold_left step xs b) /\ P w).
Proof.
  revert b; induction xs as [|x xs IH]; intros b Hf; simpl.
  - apply triple_ret. by intros w Hw.
  - eapply (triple_try _ _ _ _ (fun a w => a = step b x /\ P w)).
    + eapply triple_conseq, Hf; [done| |left]. by intros r w [-> Hw].
    + intros a w [-> Hw]. apply IH; [|done]. intros b' y Hy. apply Hf. by right.
Qed.

(** A loop that appoints: every server visited gets its role. *)
Definition appointed (m ip : string) : role := if (ip =? m)%string then Master else SlaveOf m.

Definition appoint (m : string) (l : list string) (R : gmap string role) : gmap string role :=
  fold_left (fun R ip => <[ip := appointed m ip]> R) l R.

Lemma appoint_lookup m l R ip :
  appoint m l R !! ip = if bool_decide (ip ∈ l) then Some (appointed m ip) else R !! ip.
Proof.
  revert R; induction l as [|x l IH]; intros R; [done|].
  - unfold appoint in *. cbn [fold_left]. rewrite IH. destruct (decide (ip ∈ l)) as [Hl|Hl].
    + rewrite !bool_decide_true; [done|by right|done].
    + rewrite (bool_decide_false _ Hl). destruct (decide (ip = x)) as [->|Hne].
      * rewrite bool_decide_true by left. by rewrite lookup_insert_eq.
      * rewrite bool_decide_false, lookup_insert_ne; [done..|].
        by intros [|]%elem_of_cons.
Qed.

Lemma appoint_cons m ip l R : appoint m (ip :: l) R = appoint m l (<[ip := appointed m ip]> R).
Proof. done. Qed.

Lemma oldest_triple m l R :
  m ∈ ips -> m <> "" -> (forall p, p ∈ l -> p ∈ items /\ pod_PodIP p <> m) ->
  triple env (at_roles R) (fold_each l m (oldest_step auth))
    (fun r w => r = inr m /\ at_roles (appoint m (pod_PodIP <$> l) R) w).
Proof.
  intros Hm Hne. revert R; induction l as [|p l IH]; intros R Hl.
  { apply triple_ret. by intros w Hw. }
  destruct (Hl p ltac:(left)) as [Hp Hpm]. cbn [fold_each].
  eapply (triple_try _ _ _ _ (fun a w => a = m /\ at_roles (<[pod_PodIP p := SlaveOf m]> R) w)).
  - unfold oldest_step. rewrite (proj2 (String.eqb_neq _ _) Hne).
    eapply (triple_try _ _ _ _ (fun _ w => at_roles (<[pod_PodIP p := SlaveOf m]> R) w)).
    + eapply triple_conseq, MakeSlaveOf_triple; [done| |by apply list_elem_of_fmap_2|done].
      by intros r w [-> Hw].
    + intros _. apply triple_ret. by intros w Hw.
  - intros a w [-> Hw]. rewrite fmap_cons, appoint_cons.
    assert (appointed m (pod_PodIP p) = SlaveOf m) as ->
      by (unfold appointed; by rewrite (proj2 (String.eqb_neq _ _) Hpm)).
    apply IH; [|done]. intros q Hq. apply Hl. by right.
Qed.

(** The body of [SetMasterOnAll]. *)
Lemma appoint_triple m l R :
  m ∈ ips -> (forall p, p ∈ l -> p ∈ items) ->
  triple env (at_roles R)
    (for_each l (fun pod => if (pod_PodIP pod =? m)%string then RedisClient.MakeMaster m auth
                            else MakeSlaveOf (pod_PodIP pod) m auth))
    (fun r w => r = inr tt /\ at_roles (appoint m (pod_PodIP <$> l) R) w).
Proof.
  intros Hm. revert R; induction l as [|p l IH]; intros R Hl.
  { apply triple_ret. by intros w Hw. }
  cbn [for_each].
  eapply (triple_try _ _ _ _ (fun _ w => at_roles (<[pod_PodIP p := appointed m (pod_PodIP p)]> R) w)).
  - assert (pod_PodIP p ∈ ips) as Hp by (apply list_elem_of_fmap_2, Hl; left).
    unfold appointed. destruct (String.eqb_spec (pod_PodIP p) m) as [->|];
      (eapply triple_conseq;
        [| |first [by apply MakeMaster_triple|by apply MakeSlaveOf_triple]]; [done|]);
      by intros r w [-> Hw].
  - intros _. rewrite fmap_cons, appoint_cons. apply IH. intros q Hq. apply Hl. by right.
Qed.

(** ** The checks, on the roles *)

Definition known (R : gmap string role) : Prop := forall ip, ip ∈ ips -> role_known R ip.

Lemma fold_filter (f : string -> bool) l acc :
  fold_left (fun l ip => if f ip then l ++ [ip] else l) l acc = acc ++ List.filter f l.
Proof.
  revert acc; induction l as [|x l IH]; intros acc; simpl; [by rewrite app_nil_r|].
  rewrite IH. destruct (f x); [|done]. by rewrite <- app_assoc.
Qed.

Lemma fold_count_filter (f : string -> bool) l n :
  fold_left (fun n ip => if f ip then n + 1 else n) l n = n + Z.of_nat (length (List.filter f l)).
Proof.
  revert n; induction l as [|x l IH]; intros n; simpl; [lia|].
  rewrite IH. destruct (f x); simpl; lia.
Qed.

Definition masters (R : gmap string role) : list string := List.filter (master_role R) ips.

Lemma at_roles_kept R w w' : roles w' = roles w -> at_roles R w -> at_roles R w'.
Proof. unfold at_roles. congruence. Qed.

Lemma redises_triple {A} R (f : list string -> prog (result A)) Q :
  triple env (at_roles R) (f ips) Q -> triple env (at_roles R) (try (SentinelCheck.GetRedisesIPs rc auth) f) Q.
Proof.
  intros Hf. eapply (triple_try _ _ _ _ (fun a w => a = ips /\ at_roles R w)).
  - unfold SentinelCheck.GetRedisesIPs. apply items_triple; [apply at_roles_kept|].
    apply triple_ret. intros w Hw. by rewrite ips_running.
  - intros a w [-> Hw]. by apply Hf.
Qed.

Lemma GetNumberMasters_triple R :
  known R -> triple env (at_roles R) (GetNumberMasters rc auth)
    (fun r w => r = inr (Z.of_nat (length (masters R))) /\ at_roles R w).
Proof.
  intros HR. unfold GetNumberMasters. apply redises_triple.
  eapply triple_conseq, (fold_triple _ ips 0 _ (fun n ip => if master_role R ip then n + 1 else n)).
  - done.
  - intros r w [-> Hw]. by rewrite fold_count_filter.
  - intros n ip Hip. eapply (triple_try _ _ _ _ (fun b w => b = master_role R ip /\ at_roles R w)).
    + eapply triple_conseq, IsMaster_triple; [done| |done|by apply HR]. by intros r w [-> Hw].
    + intros b. apply triple_ret. by intros w [-> Hw].
Qed.

Lemma GetMasterIP_triple R m :
  known R -> masters R = [m] -> triple env (at_roles R) (GetMasterIP rc auth)
    (fun r w => r = inr m /\ at_roles R w).
Proof.
  intros HR Hm. unfold GetMasterIP. apply redises_triple.
  eapply (triple_try _ _ _ _ (fun l w => l = [m] /\ at_roles R w)).
  - eapply triple_conseq,
      (fold_triple _ ips [] _ (fun l ip => if master_role R ip then l ++ [ip] else l)).
    + done.
    + intros r w [-> Hw]. rewrite fold_filter. by rewrite <- Hm.
    + intros l ip Hip. eapply (triple_try _ _ _ _ (fun b w => b = master_role R ip /\ at_roles R w)).
      * eapply triple_conseq, IsMaster_triple; [done| |done|by apply HR]. by intros r w [-> Hw].
      * intros b. apply triple_ret. by intros w [-> Hw].
  - intros l w [-> Hw]. apply (triple_ret _ (at_roles R)); [|done]. by intros.
Qed.

(** The servers the check accepts: those without a master, or with this one. *)
Definition follows (R : gmap string role) (m ip : string) : bool :=
  (host_of R ip =? "")%string || (host_of R ip =? m)%string.

Lemma CheckAllSlaves_triple R m :
  known R -> triple env (at_roles R) (CheckAllSlavesFromMaster m rc auth)
    (fun r w => at_roles R w /\ forallb (follows R m) ips = match r with inr _ => true | inl _ => false end).
Proof.
  intros HR. unfold CheckAllSlavesFromMaster. apply redises_triple.
  assert (forall ip, ip ∈ ips -> ip ∈ ips) as Hl by done. revert Hl. generalize ips at 1 3 4 as l.
  induction l as [|ip l IH]; intros Hl; [apply triple_ret; by intros w Hw|].
  cbn [for_each]. eapply (triple_try _ _ _ _ (fun _ w => at_roles R w /\ follows R m ip = true)).
  - eapply (triple_try _ _ _ _ (fun h w => h = host_of R ip /\ at_roles R w)).
    + eapply triple_conseq, GetSlaveMasterIP_triple; [done| |by apply Hl; left|by apply HR, Hl; left].
      by intros r w [-> Hw].
    + intros h. unfold follows. destruct (negb (h =? "")%string && negb (h =? m)%string) eqn:E;
        apply triple_ret; intros w [-> Hw]; (split; [done|]); simpl;
        destruct (_ =? "")%string, (_ =? m)%string; done.
  - intros _ w [Hw Hf]. simpl. rewrite Hf. apply IH; [|done]. intros ip' Hip'. apply Hl. by right.
Qed.

(** ** The two ways of healing *)

(** One server is the master and all the others follow it. *)
Definition led_by (m : string) (R : gmap string role) : Prop :=
  forall ip, ip ∈ ips -> R !! ip = Some (appointed m ip).

Lemma led_known m R : m ∈ ips -> led_by m R -> known R.
Proof.
  intros (p & Hp & <-)%in_ips H ip Hip. exists (appointed (pod_PodIP p) ip).
  split; [by apply H|]. unfold appointed. destruct (_ =? _)%string; [done|].
  by apply (pods_addressed (items := items)).
Qed.

Lemma filter_unique (f : string -> bool) m l :
  NoDup l -> m ∈ l -> (forall ip, ip ∈ l -> f ip = (ip =? m)%string) -> List.filter f l = [m].
Proof.
  induction l as [|x l IH]; intros HN Hm Hf; [by apply elem_of_nil in Hm|].
  apply NoDup_cons in HN as [Hx HN]. simpl. rewrite (Hf x) by left.
  destruct (String.eqb_spec x m) as [->|Hne].
  - f_equal. clear -Hx Hf. induction l as [|y l IH]; [done|]. simpl.
    apply not_elem_of_cons in Hx as [Hy Hx]. rewrite (Hf y) by (right; left).
    rewrite (proj2 (String.eqb_neq _ _)) by done. apply IH; [done|].
    intros ip Hip. apply Hf. apply elem_of_cons in Hip as [->|Hip]; [left|]. by do 2 right.
  - apply IH; [done| |intros ip Hip; apply Hf; by right].
    by apply elem_of_cons in Hm as [->|].
Qed.

Lemma led_masters m R : m ∈ ips -> led_by m R -> masters R = [m].
Proof.
  intros Hm HR. apply filter_unique; [apply (pods_distinct (items := items))|done|].
  intros ip Hip. unfold master_role. rewrite HR by done. unfold appointed.
  by destruct (ip =? m)%string.
Qed.

Lemma led_follows m R : led_by m R -> forallb (follows R m) ips = true.
Proof.
  intros HR. apply forallb_forall. intros ip Hip%list_elem_of_In. unfold follows, host_of.
  rewrite HR by done. unfold appointed. destruct (ip =? m)%string; [done|].
  by rewrite String.eqb_refl, orb_true_r.
Qed.

(** The checks pass where one server leads. *)
Lemma led_checks m R :
  m ∈ ips -> led_by m R ->
  triple env (at_roles R)
    (let? master := GetMasterIP rc auth in
     let? _ := CheckAllSlavesFromMaster master rc auth in ok master)
    (fun r w => r = inr m /\ at_roles R w).
Proof.
  intros Hm HR. pose proof (led_known m R Hm HR) as Hk.
  eapply (triple_try _ _ _ _ (fun a w => a = m /\ at_roles R w)).
  - eapply triple_conseq, GetMasterIP_triple; [done| |done|by apply led_masters]. by intros r w [-> Hw].
  - intros a w [-> Hw]. revert w Hw. fold (triple env (at_roles R) (let? _ := CheckAllSlavesFromMaster m rc auth in ok m) (fun r w => r = inr m /\ at_roles R w)).
    eapply (triple_try _ _ _ _ (fun _ w => at_roles R w)).
    + eapply triple_conseq, CheckAllSlaves_triple; [done| |done].
      intros [e|u] w [Hw Hf]; [|done]. rewrite led_follows in Hf; done.
    + intros u. apply triple_ret. by intros w Hw.
Qed.

Lemma appoint_all m R : m ∈ ips -> forall l, (forall ip, ip ∈ ips -> ip ∈ l) -> led_by m (appoint m l R).
Proof. intros Hm l Hl ip Hip. rewrite appoint_lookup, bool_decide_true; auto. Qed.

(** The first in order of creation becomes the master. *)
Lemma SetOldestAsMaster_triple R :
  triple env (at_roles R) (SetOldestAsMaster rc auth) (fun r w => r = inr tt /\
    exists p, p ∈ items /\
      (forall q, q ∈ items -> CreationTimestamp (pod_meta p) <= CreationTimestamp (pod_meta q)) /\
      led_by (pod_PodIP p) (roles w)).
Proof.
  unfold SetOldestAsMaster. apply items_triple; [apply at_roles_kept|].
  destruct (Z.ltb_spec (Z.of_nat (length items)) 1) as [Hlen|_].
  { exfalso. apply (pods_some (items := items)), length_zero_iff_nil. lia. }
  eapply (triple_bind _ _ _ _ (fun _ w => at_roles R w)).
  { apply triple_act. intros w Hw. by eapply at_roles_kept; [apply (roles_kept (env := env))|]. }
  intros seed. pose proof (sort_Slice_perm seed created_before items) as HP.
  destruct (sort_Slice seed created_before items) as [|p l] eqn:E.
  { apply Permutation_nil_l in HP. by pose proof (pods_some (items := items)). }
  destruct (sort_Slice_head created_before (fun p => CreationTimestamp (pod_meta p)) _ _ _ _ E)
    as [Hp Hmin].
  assert (pod_PodIP p ∈ ips) as Hip by by apply list_elem_of_fmap_2.
  pose proof (pods_distinct (items := items)) as HN.
  assert (NoDup (pod_PodIP <$> p :: l)) as [Hpl _]%NoDup_cons by by rewrite HP.
  eapply (triple_try _ _ _ _ (fun v w => at_roles (appoint (pod_PodIP p) (pod_PodIP <$> p :: l) R) w)).
  - cbn [fold_each].
    eapply (triple_try _ _ _ _ (fun v w => v = pod_PodIP p /\ at_roles (<[pod_PodIP p := Master]> R) w)).
    + unfold oldest_step. change ("" =? "")%string with true. cbv iota zeta.
      eapply (triple_try _ _ _ _ (fun _ w => at_roles (<[pod_PodIP p := Master]> R) w)).
      * eapply triple_conseq; [| |by apply MakeMaster_triple]; [done|]. by intros r w [-> Hw].
      * intros _. apply triple_ret. by intros w Hw.
    + intros v w [-> Hw]. rewrite fmap_cons, appoint_cons.
      assert (appointed (pod_PodIP p) (pod_PodIP p) = Master) as ->
        by (unfold appointed; by rewrite String.eqb_refl).
      eapply (triple_conseq _ _ (at_roles (<[pod_PodIP p := Master]> R))); [done| |apply oldest_triple|done];
        [by intros r w' [-> Hw']|done|by apply (pods_addressed (items := items))|].
      intros q Hq. split; [rewrite <- HP; by right|].
      intros Heq. apply Hpl. rewrite <- Heq. by apply list_elem_of_fmap_2.
  - intros v. apply triple_ret. intros w Hw. split; [done|]. exists p. split; [done|]. split; [done|].
    rewrite Hw. apply appoint_all; [done|]. intros ip. unfold ips. by rewrite HP.
Qed.
End convergence.

(** ** A round of healing *)

Section round.
  Context {W : Type} (env : Env W) (roles : W -> gmap string role) (m : Meta).
  Context (rc : RedisSentinel) (ss : StatefulSet) (labels : StringMap) (items : list Pod).
  Context `{!Reachable env roles (Auth m) (Namespace (meta rc)) (Names.Sentinel.GetRedisName rc)
              ss labels items}.

(** A single master that all accept leads. *)
Lemma follows_led x R :
  known items R -> masters items R = [x] -> forallb (follows R x) (ips items) = true -> led_by items x R.
Proof.
  intros HR Hm Hf ip Hip. destruct (HR ip Hip) as (r & Hr & Hs).
  rewrite forallb_forall in Hf. specialize (Hf ip (proj1 (list_elem_of_In _ _) Hip)).
  assert (forall y, y ∈ ips items -> R !! y = Some Master <-> y = x) as Hx.
  { intros y Hy. assert (y ∈ masters items R <-> y = x) as <- by (rewrite Hm; apply list_elem_of_singleton).
    unfold masters. rewrite !list_elem_of_In, filter_In, <- list_elem_of_In.
    unfold master_role. rewrite bool_decide_eq_true. tauto. }
  unfold appointed. destruct (String.eqb_spec ip x) as [->|Hne]; [by apply Hx|].
  destruct r as [|h]; [by apply Hx in Hr|]. rewrite Hr. unfold follows, host_of in Hf. rewrite Hr in Hf.
  rewrite (proj2 (String.eqb_neq h "")) in Hf by apply Hs. simpl in Hf.
  by apply String.eqb_eq in Hf as ->.
Qed.

Lemma agree_on_master_triple x R :
  x ∈ ips items -> known items R -> masters items R = [x] ->
  triple env (at_roles roles R) (agree_on_master rc m)
    (fun r w => r = inr x /\ led_by items x (roles w)).
Proof.
  intros Hx HR Hm.
  unfold agree_on_master.
  eapply (triple_try _ _ _ _ (fun a w => a = x /\ at_roles roles R w)).
  { eapply triple_conseq; [| |by apply (GetMasterIP_triple env roles _ rc ss labels items R x)]; [done|].
    by intros r w [-> Hw]. }
  intros a. apply (triple_conseq _ (fun w => a = x /\ at_roles roles R w) _ _
    (fun r w => r = inr x /\ led_by items x (roles w))); [done|done|].
  intros w [-> Hw]. revert w Hw.
  eapply (triple_bind _ _ _ _ (fun r w => at_roles roles R w /\
    forallb (follows R x) (ips items) = match r with inr _ => true | inl _ => false end)).
  { by apply (CheckAllSlaves_triple env roles _ rc ss labels items). }
  intros checked. eapply (triple_try _ _ _ _ (fun _ w => led_by items x (roles w))).
  - destruct checked as [e|u].
    + unfold SetMasterOnAll. intros w [Hw _]. revert w Hw.
      apply (items_triple env roles (Auth m) rc ss labels items); [by apply at_roles_kept|].
      eapply triple_conseq; [| |by apply (appoint_triple env roles (Auth m) rc ss labels items)]; [done|].
      intros r w [-> Hw]. rewrite Hw. by apply appoint_all.
    + apply triple_ret. intros w [Hw Hf]. rewrite Hw. by apply follows_led.
  - intros u. apply triple_ret. by intros w Hw.
Qed.

Lemma quiet_act_triple e R :
  redis_command e = false -> triple env (at_roles roles R) (act e) (fun _ w => at_roles roles R w).
Proof.
  intros He. apply triple_act. intros w Hw. unfold at_roles in *. rewrite <- Hw.
  by apply (roles_kept (env := env)).
Qed.

Lemma GetMinimumRedisPodTime_triple R :
  triple env (at_roles roles R) (GetMinimumRedisPodTime rc)
    (fun r w => (exists v, r = inr v) /\ at_roles roles R w).
Proof.
  unfold GetMinimumRedisPodTime.
  apply (items_triple env roles (Auth m) rc ss labels items); [by apply at_roles_kept|].
  generalize (100000 * 3600 * SentinelCheck.second) as b. generalize items at 1 as l.
  induction l as [|p l IH]; intros b; [apply triple_ret; intros w Hw; split; [by exists b|done]|].
  cbn [fold_each]. eapply (triple_try _ _ _ _ (fun _ w => at_roles roles R w)); [|intros b'; apply IH].
  destruct (pod_StartTime p) as [t|]; [|apply triple_ret; by intros w Hw].
  cbv zeta. eapply triple_bind; [by apply (quiet_act_triple Now R)|]. intros now.
  apply triple_ret. by intros w Hw.
Qed.

(** Without a master the first pod created, or the only one, becomes it; a
    master that is there stays. *)
Lemma heal_masters_triple R :
  known items R -> (length (masters items R) <= 1)%nat ->
  triple env (at_roles roles R) (heal_masters rc m (Z.of_nat (length (masters items R))))
    (fun r w => r = inr tt /\ exists x, x ∈ ips items /\ known items (roles w) /\ masters items (roles w) = [x] /\
       (forall y, masters items R = [y] -> y = x)).
Proof.
  intros HR Hlen. unfold heal_masters.
  destruct (masters items R) as [|x l] eqn:E; [|destruct l; [|simpl in Hlen; lia]].
  2:{ apply triple_ret. intros w Hw. split; [done|]. exists x. rewrite Hw. split_and!; [|done..|congruence].
      assert (x ∈ masters items R) as Hx by (rewrite E; left).
      unfold masters in Hx. by apply list_elem_of_In, filter_In in Hx as [Hx%list_elem_of_In _]. }
  eapply (triple_bind _ _ _ _ (fun _ w => at_roles roles R w));
    [exact (quiet_act_triple (RecordEvent _ _ _ _ _ _) R eq_refl)|]. intros _.
  apply (redises_triple env roles (Auth m) rc ss labels items).
  assert (triple env (at_roles roles R)
    (let? _ := GetMinimumRedisPodTime rc in SetOldestAsMaster rc (Auth m))
    (fun r w => r = inr tt /\ exists x, x ∈ ips items /\ led_by items x (roles w))) as Hold.
  { eapply (triple_try _ _ _ _ (fun _ w => at_roles roles R w)).
    - eapply triple_conseq; [| |apply GetMinimumRedisPodTime_triple]; [done|].
      by intros r w [[v ->] Hw].
    - intros _. eapply triple_conseq;
        [| |apply (SetOldestAsMaster_triple env roles (Auth m) rc ss labels items R)]; [done|].
      intros r w [-> (p & Hp & _ & Hl)]. split; [done|]. exists (pod_PodIP p).
      split; [by apply list_elem_of_fmap_2|done]. }
  apply (triple_conseq _ (at_roles roles R) _ _
    (fun r w => r = inr tt /\ exists x, x ∈ ips items /\ led_by items x (roles w))); [done| |].
  { intros r w [-> (x & Hx & Hl)]. split; [done|]. exists x.
    split_and!; [done|by eapply (led_known env roles (Auth m) rc ss labels items)| |done].
    by apply (led_masters env roles (Auth m) rc ss labels items). }
  destruct (ips items) as [|ip [|ip' l]] eqn:Eips; [exact Hold| |exact Hold].
  eapply triple_conseq; [| |apply (MakeMaster_triple env roles (Auth m) rc ss labels items ip R)];
    [done| |rewrite Eips; left].
  intros r w [-> Hw]. split; [done|]. exists ip. split; [left|].
  intros y Hy. rewrite Eips in Hy. apply list_elem_of_singleton in Hy as ->.
  rewrite Hw, lookup_insert_eq. unfold appointed. by rewrite String.eqb_refl.
Qed.

(** One round of healing settles the replication. Suppose the pods of the
    redis StatefulSet are all running and reachable, each server says that it is
    a master or the slave of some IPv4 address, and at most one says it is a
    master. Then
    counting the masters, [heal_masters] and [agree_on_master] all succeed, and
    afterwards one server is a master and every other server follows it; a
    master that was there before stays the master. *)
Theorem healing_converges R :
  known items R -> (length (masters items R) <= 1)%nat ->
  triple env (at_roles roles R)
    (let? nMasters := GetNumberMasters rc (Auth m) in
     let? _ := heal_masters rc m nMasters in
     agree_on_master rc m)
    (fun r w => exists x, r = inr x /\ x ∈ ips items /\ led_by items x (roles w) /\
       (forall y, masters items R = [y] -> y = x)).
Proof.
  intros HR Hlen.
  eapply (triple_try _ _ _ _ (fun n w => n = Z.of_nat (length (masters items R)) /\ at_roles roles R w)).
  { eapply triple_conseq; [| |by apply (GetNumberMasters_triple env roles (Auth m) rc ss labels items R)];
      [done|]. by intros r w [-> Hw]. }
  intros n w [-> Hw]. revert w Hw.
  eapply (triple_try _ _ _ _ (fun _ w => exists x, x ∈ ips items /\ known items (roles w) /\
    masters items (roles w) = [x] /\ (forall y, masters items R = [y] -> y = x))).
  { eapply triple_conseq; [| |by apply heal_masters_triple]; [done|]. by intros r w [-> Hw]. }
  intros _ w (x & Hx & Hs & Hm & Hy).
  destruct (agree_on_master_triple x (roles w) Hx Hs Hm w eq_refl) as (r & t & w' & E & -> & Hl).
  exists (inr x), t, w'. split; [done|]. by exists x.
Qed.

(** The election of a master. Where no server is a master and there are
    several pods, the server of a pod that was created before all others is
    made the master and all others its slaves, and the two checks that follow
    pass at once. *)
Theorem election_converges R :
  triple env (at_roles roles R)
    (let? _ := SetOldestAsMaster rc (Auth m) in
     let? master := GetMasterIP rc (Auth m) in
     let? _ := CheckAllSlavesFromMaster master rc (Auth m) in ok master)
    (fun r w => exists p, p ∈ items /\ r = inr (pod_PodIP p) /\ led_by items (pod_PodIP p) (roles w) /\
      forall q, q ∈ items -> CreationTimestamp (pod_meta p) <= CreationTimestamp (pod_meta q)).
Proof.
  eapply (triple_try _ _ _ _ (fun _ w => exists p, p ∈ items /\
      (forall q, q ∈ items -> CreationTimestamp (pod_meta p) <= CreationTimestamp (pod_meta q)) /\
      led_by items (pod_PodIP p) (roles w))).
  { eapply triple_conseq;
      [| |apply (SetOldestAsMaster_triple env roles (Auth m) rc ss labels items R)]; [done|].
    by intros r w [-> H]. }
  intros _ w (p & Hp & Hmin & Hl).
  assert (pod_PodIP p ∈ ips items) as Hip by by apply list_elem_of_fmap_2.
  destruct (led_checks env roles (Auth m) rc ss labels items _ (roles w) Hip Hl w eq_refl)
    as (r & t & w' & E & -> & Hr).
  exists (inr (pod_PodIP p)), t, w'. split; [done|]. exists p. by rewrite Hr.
Qed.
End round.
