(* ===== verification/Cluster.v ===== *)
(** * A small cluster to run the operator against

    An environment that keeps StatefulSets, the roles of the redis servers and a
    clock, and answers the other requests in the simplest way. It satisfies the
    laws the theorems assume of the outside, so that they are instantiated on
    it. *)

From S2P Require Import Prelude GoStd Corev1 Api Samples Util Common Names Status Validate.
From S2P Require Import Effects K8s RedisClient SentinelGen SentinelCheck SentinelHeal SentinelClient.
From S2P Require Import Cache Handler SentinelHandler StandaloneHandler Controller.
From S2P Require Import RedisProps HealProps HandlerProps FlowProps Convergence.

Record World := mkWorld {
  w_clock : Z;
  w_sets : gmap string StatefulSet;
  w_roles : gmap string role
}.

Definition set_clock (c : Z) (w : World) : World := mkWorld c (w_sets w) (w_roles w).
Definition set_role (ip : string) (r : role) (w : World) : World :=
  mkWorld (w_clock w) (w_sets w) (<[ip := r]> (w_roles w)).

Definition notFound : error := mkError "not found" true.

(** The text of [INFO replication]. *)
Definition info_text (r : option role) : string :=
  match r with
  | Some Master => lines ["# Replication"; "role:master"; "connected_slaves:0"]
  | Some (SlaveOf m) => "# Replication" ^^ newline ^^ "role:slave" ^^ newline ^^
      "master_host:" ^^ m ^^ newline ^^ "master_port:6379"
  | None => ""
  end.

Section cluster.
  Context (pods : list Pod).

(** The address of the pod a redis client is connected to. *)
Definition server_of (opt : Options) : option string :=
  head (List.filter (fun ip => (JoinHostPort ip "6379" =? Addr opt)%string) (pod_PodIP <$> pods)).

Definition refused : error := errors_New "connection refused".

Definition found (k : kind) (name : string) (w : World) : result (object k) :=
  match k return result (object k) with
  | KStatefulSet => match w_sets w !! name with Some ss => inr ss | None => inl notFound end
  | _ => inl notFound
  end.

Definition listed (k : kind) : result (list (object k)) :=
  match k return result (list (object k)) with
  | KPod => inr pods
  | _ => inr []
  end.

Definition slaveof_cmd (opt : Options) (args : list string) (w : World) : result string * World :=
  match server_of opt with
  | Some ip =>
      match args with
      | ["slaveof"; m; p] =>
          (inr "OK", set_role ip (if (p =? "ONE")%string then Master else SlaveOf m) w)
      | _ => (inr "OK", w)
      end
  | None => (inl refused, w)
  end.

Definition info_cmd (opt : Options) (w : World) : result string * World :=
  match server_of opt with
  | Some ip => (inr (info_text (w_roles w !! ip)), w)
  | None => (inl refused, w)
  end.

Definition cluster : Env World := fun e =>
  match e return World -> resp e * World with
  | Get k _ name => fun w => (found k name w, w)
  | Create _ _ => fun w => (inr tt, w)
  | Update _ o => fun w => (inr o, w)
  | StatusUpdate _ o => fun w => (inr o, w)
  | Delete _ _ => fun w => (inr tt, w)
  | List k _ _ => fun w => (listed k, w)
  | StringCmd opt _ => info_cmd opt
  | SliceCmd _ _ => fun w => (inr [], w)
  | IntCmd _ _ => fun w => (inr 1, w)
  | BoolCmd _ _ => fun w => (inr true, w)
  | StatusCmd opt args => slaveof_cmd opt args
  | Now => fun w => (w_clock w, w)
  | Sleep d => fun w => (tt, set_clock (w_clock w + Z.max 0 d) w)
  | Seed => fun w => ([], w)
  | RecordEvent _ _ _ _ _ _ => fun w => (tt, w)
  | SetGauge _ _ _ => fun w => (tt, w)
  | DeleteGauge _ _ => fun w => (tt, w)
  end.

(** ** The laws *)

#[export] Instance cluster_clock : ClockLaws cluster w_clock.
Proof.
  split; [done| |intros d w; simpl; lia].
  intros [] w; simpl; try lia; unfold info_cmd, slaveof_cmd; destruct (server_of _); simpl; try lia.
  repeat (match goal with |- context [match ?l with _ => _ end] => destruct l end; simpl; try lia).
Qed.
End cluster.

(** A text without the first letter of a literal does not hide it. *)
Lemma Contains_skip (p : ascii -> bool) a b c lit :
  all_chars p a = true -> p c = false -> Contains (a ^^ b) (String c lit) = Contains b (String c lit).
Proof.
  intros Ha Hc. induction a as [|x a IH]; [done|]. simpl in Ha. apply andb_true_iff in Ha as [Hx Ha].
  rewrite app_cons_str. cbn [Contains String.prefix].
  destruct (Ascii.ascii_dec c x) as [->|Hne]; [congruence|]. by apply IH.
Qed.

Lemma all_chars_mono (p q : ascii -> bool) s :
  (forall c, p c = true -> q c = true) -> all_chars p s = true -> all_chars q s = true.
Proof.
  intros H. induction s as [|c s IH]; [done|]. simpl. intros [Hc Hs]%andb_true_iff.
  by rewrite H, IH.
Qed.

Lemma class_v4_host c : class_v4 c = true -> class_host c = true.
Proof.
  unfold class_v4, class_digit, class_host. intros [->| ->]%orb_true_iff; [done|by rewrite orb_true_r].
Qed.

Lemma info_slave m : valid_host m ->
  Contains (info_text (Some (SlaveOf m))) redisRoleMaster = false /\
  redisMasterHostRE (info_text (Some (SlaveOf m))) = Some m.
Proof.
  intros [Hne Hm]. split.
  - transitivity (Contains (m ^^ newline ^^ "master_port:6379") redisRoleMaster); [reflexivity|].
    unfold redisRoleMaster. by rewrite (Contains_skip class_v4).
  - unfold redisMasterHostRE. apply (find_submatch_at redisMasterHostLiteral class_host
      ("# Replication" ^^ newline ^^ "role:slave" ^^ newline) m (newline ^^ "master_port:6379")); try done.
    eapply all_chars_mono, Hm. apply class_v4_host.
Qed.

(** ** Three pods *)

Definition samplePod (name ip : string) (created : Z) : Pod :=
  mkPod (mkObjectMeta name "prod" name "1" 1 created ∅ ∅ []) PodRunning ip (Some created).

Definition samplePods : list Pod :=
  [samplePod "demo-0" "10.0.0.1" 30; samplePod "demo-1" "10.0.0.2" 20; samplePod "demo-2" "10.0.0.3" 25].


(** The StatefulSets the operator generates, as a cluster that started all
    their pods reports them. *)
Definition ready (n : Z) (ss : StatefulSet) : StatefulSet :=
  mkStatefulSet (ss_meta ss) (ss_ServiceName ss) (Some n) (ss_UpdateStrategy ss) (ss_Selector ss)
    (ss_Template ss) (ss_VolumeClaimTemplates ss) n.

Definition redisSet : StatefulSet :=
  ready 3 (SentinelGen.generateRedisStatefulSet sampleSentinel ∅ sampleOwner).1.
Definition sentinelSet (n : Z) : StatefulSet :=
  ready n (generateSentinelStatefulSet sampleSentinel ∅ sampleOwner).

Definition redisName : string := Names.Sentinel.GetRedisName sampleSentinel.
Definition sentinelName : string := Names.Sentinel.GetSentinelName sampleSentinel.

(** The cluster with the given number of sentinels and the given roles. *)
Definition world (sentinels : Z) (roles : gmap string role) : World :=
  mkWorld 0 (<[redisName := redisSet]> {[ sentinelName := sentinelSet sentinels ]}) roles.

(** The servers of the sample pods: the StatefulSet is always there. *)
Definition sampleCluster : Env World := fun e w =>
  match e return resp e * World with
  | Get KStatefulSet ns name =>
      if (name =? redisName)%string then (inr redisSet, w)
      else cluster samplePods (Get KStatefulSet ns name) w
  | e => cluster samplePods e w
  end.

Definition sampleEntry : Meta := newCluster SentinelCache.bootstrap 0%nat sampleSentinel.

#[export] Instance sample_reachable :
  Reachable sampleCluster w_roles (Auth sampleEntry) (Namespace (meta sampleSentinel)) redisName
    redisSet (default ∅ (ss_Selector redisSet)) samplePods.
Proof.
  assert (forall (P : Pod -> Prop), Forall P samplePods -> forall p, p ∈ samplePods -> P p) as HF
    by (intros P H p Hp; by eapply Forall_forall in Hp).
  split; try done.
  - apply HF. by repeat constructor.
  - apply HF. repeat constructor; done.
  - vm_compute. repeat constructor; intros H; repeat (apply elem_of_cons in H as [H|H]; [done|]);
      by apply elem_of_nil in H.
  - intros [] w; try done. destruct k; try done. simpl. by destruct (_ =? _)%string.
  - intros p w. revert p. apply HF. repeat constructor; by eexists _, _.
  - intros p q w Hp _. revert p Hp. apply HF. repeat constructor; by eexists _, _.
  - intros p w. revert p. apply HF.
    assert (forall ip, exists s w', (inr (info_text (w_roles w !! ip)) : result string, w) = (inr s, w') /\
      w_roles w' = w_roles w /\
      match w_roles w !! ip with
      | Some Master => Contains s redisRoleMaster = true /\ redisMasterHostRE s = None
      | Some (SlaveOf m) => valid_host m ->
          Contains s redisRoleMaster = false /\ redisMasterHostRE s = Some m
      | None => True
      end) as H.
    { intros ip. eexists _, _. split; [done|]. split; [done|].
      destruct (w_roles w !! ip) as [[|m]|]; [done|apply info_slave|done]. }
    repeat constructor; apply H.
Qed.

(** ** Witnesses *)

(** Three servers that follow a server that is gone. *)
Definition orphans : gmap string role :=
  <["10.0.0.1" := SlaveOf "10.0.0.9"]> (<["10.0.0.2" := SlaveOf "10.0.0.9"]>
    {[ "10.0.0.3" := SlaveOf "10.0.0.2" ]}).

Lemma orphans_known : known samplePods orphans.
Proof.
  intros ip Hip. unfold ips in Hip. simpl in Hip.
  repeat (apply elem_of_cons in Hip as [->|Hip]; [by eexists|]). by apply elem_of_nil in Hip.
Qed.

Lemma healing_converges_witness :
  exists x t w', run sampleCluster
    (let? nMasters := GetNumberMasters sampleSentinel (Auth sampleEntry) in
     let? _ := heal_masters sampleSentinel sampleEntry nMasters in
     agree_on_master sampleSentinel sampleEntry) (world 3 orphans) = (Returns (inr x), t, w') /\
    led_by samplePods x (w_roles w').
Proof.
  destruct (healing_converges sampleCluster w_roles sampleEntry sampleSentinel redisSet
    (default ∅ (ss_Selector redisSet)) samplePods orphans orphans_known
    ltac:(vm_compute; lia) (world 3 orphans) eq_refl) as (r & t & w' & E & x & -> & _ & Hl & _).
  exists x, t, w'. split; [exact E|exact Hl].
Defined.

Lemma election_converges_witness :
  exists p t w', run sampleCluster
    (let? _ := SetOldestAsMaster sampleSentinel (Auth sampleEntry) in
     let? master := GetMasterIP sampleSentinel (Auth sampleEntry) in
     let? _ := CheckAllSlavesFromMaster master sampleSentinel (Auth sampleEntry) in ok master)
    (world 3 orphans) = (Returns (inr (pod_PodIP p)), t, w') /\
    CreationTimestamp (pod_meta p) <= 20.
Proof.
  destruct (election_converges sampleCluster w_roles sampleEntry sampleSentinel redisSet
    (default ∅ (ss_Selector redisSet)) samplePods orphans (world 3 orphans) eq_refl)
    as (r & t & w' & E & p & _ & -> & _ & Hmin).
  exists p, t, w'. split; [exact E|].
  apply (Hmin (samplePod "demo-1" "10.0.0.2" 20)). right. left.
Defined.

(** What the round did, computed: the second pod was created first. *)
Example healed_roles :
  w_roles (run sampleCluster
    (let? nMasters := GetNumberMasters sampleSentinel (Auth sampleEntry) in
     let? _ := heal_masters sampleSentinel sampleEntry nMasters in
     agree_on_master sampleSentinel sampleEntry) (world 3 orphans)).2 =
  <["10.0.0.1" := SlaveOf "10.0.0.2"]> (<["10.0.0.2" := Master]>
    {[ "10.0.0.3" := SlaveOf "10.0.0.2" ]}).
Proof. vm_compute. reflexivity. Qed.

Lemma Reconcile_ends_witness :
  live (cluster samplePods) (Reconcile_sentinel (TF := sampleFormat) 7 "prod" "demo" (mkStore [] ∅)).
Proof.
  apply (Reconcile_ends (TF := sampleFormat) (cluster samplePods) w_clock 7 "prod" "demo"
    (mkStore [] ∅) (mkStore [] ∅)). lia.
Defined.

Lemma sentinel_mismatch_ignored_witness :
  exists t w', run sampleCluster (SentinelHandler.CheckAndHeal 7 sampleSentinel sampleEntry) (world 5 orphans)
    = (Returns (inr tt), t, w') /\ Forall (fun e => redis_command (projT1 e) = false) t.
Proof.
  apply (sentinel_mismatch_ignored sampleCluster 7 sampleSentinel sampleEntry (world 5 orphans)
    (run sampleCluster (SentinelCheck.CheckRedisNumber sampleSentinel) (world 5 orphans)).1.2
    (world 5 orphans) (sentinelSet 5) 5).
  - vm_compute. reflexivity.
  - vm_compute. reflexivity.
  - reflexivity.
  - vm_compute. discriminate.
Defined.

(** Two servers that both say they are masters. *)
Definition split_brain : gmap string role :=
  <["10.0.0.1" := Master]> (<["10.0.0.2" := Master]> {[ "10.0.0.3" := SlaveOf "10.0.0.2" ]}).

Lemma many_masters_refused_witness :
  (run sampleCluster (SentinelHandler.CheckAndHeal 7 sampleSentinel sampleEntry) (world 3 split_brain)).1.1
    = Returns (inl (errors_New "more than one master, fix manually")).
Proof.
  refine (f_equal (fun r => r.1.1) (proj1 (many_masters_refused sampleCluster 7 sampleSentinel sampleEntry (world 3 split_brain)
    (run sampleCluster (SentinelCheck.CheckRedisNumber sampleSentinel) (world 3 split_brain)).1.2
    (world 3 split_brain)
    (run sampleCluster (CheckSentinelNumber sampleSentinel) (world 3 split_brain)).1.2
    (world 3 split_brain)
    (run sampleCluster (GetNumberMasters sampleSentinel (Auth sampleEntry)) (world 3 split_brain)).1.2
    (world 3 split_brain) 2
    ltac:(vm_compute; reflexivity) ltac:(vm_compute; reflexivity) ltac:(vm_compute; reflexivity)
    ltac:(lia)))).
Defined.

(** The handlers' flow, on the store of the cache's examples. *)
Lemma updateStatus_sends_witness :
  status_flow (TF := sampleFormat) (SentinelHandler.operations 7) KRedisSentinel
    (fun o => o) (fun o => o) sampleEntry sampleStore sampleSentinel.
Proof.
  apply (updateStatus_sends (TF := sampleFormat) 7 sampleEntry sampleStore sampleSentinel
    (newCluster StandaloneCache.bootstrap 0%nat sampleStandalone) (mkStore [sampleStandalone] ∅)
    sampleStandalone); reflexivity.
Defined.

Lemma Do_validates_first_witness :
  validates (TF := sampleFormat) (SentinelHandler.operations 7) KRedisSentinel
    (fun o => o) (fun o => o) 0%nat sampleStore sampleSentinel.
Proof.
  exact (proj1 (Do_validates_first (TF := sampleFormat) 7 0%nat sampleStore sampleSentinel
    0%nat (mkStore [sampleStandalone] ∅) sampleStandalone eq_refl eq_refl)).
Defined.

Lemma password_protection_lost_witness :
  exists m st1, SentinelCache.Cache 1%nat cachedStore = Some (m, st1) /\
    spec (SentinelHandler.updateStatus (TF := sampleFormat) 7 m st1) (fun t '(err, st2) => err = None ->
      exists t0 sent stored, t = t0 ++ [ev (StatusUpdate KRedisSentinel sent) (inr stored)] /\
        Password (redisSpec (Spec sent)) = "s3cret" /\ heap st2 !! Obj m = Some stored /\
        auth_Password (Auth m) = "s3cret" /\
        (Spec stored = Spec newerSentinel ->
         Password (redisSpec (Spec stored)) <> auth_Password (Auth m) /\ ~ wf st2)).
Proof.
  eexists _, _. split; [reflexivity|].
  apply (password_protection_lost (TF := sampleFormat) 7 1%nat cachedStore newerSentinel _ _
    (newCluster SentinelCache.bootstrap 0%nat sampleSentinel) sampleSentinel wf_cachedStore);
    [reflexivity..|discriminate|discriminate|reflexivity].
Defined.
