(* ===== verification/System.v ===== *)
(** * The operator as a state machine

    The state of a controller is its cache and the heap of objects the cache
    points into; a step is one reconciliation of some resource, with whatever
    answers it gets. Along all steps no pointer dangles, and a reconciliation
    crashes only when a server sends an answer that the code dereferences
    blindly. *)

From S2P Require Import Prelude GoStd Corev1 Api Samples Util Common Names Status Validate.
From S2P Require Import Effects K8s RedisClient SentinelGen SentinelCheck SentinelHeal SentinelClient.
From S2P Require Import StandaloneGen StandaloneService Cache Handler SentinelHandler.
From S2P Require Import StandaloneHandler Controller EnsureProps FlowProps ApiServer.

(** ** Answers the code cannot digest *)

(** A StatefulSet without containers, replica count or selector. *)
Definition bad_set (ss : StatefulSet) : Prop :=
  ps_Containers (pt_Spec (ss_Template ss)) = [] \/ ss_Replicas ss = None \/ ss_Selector ss = None.

Definition bad_slave (blob : value) : Prop :=
  match blob with VArray l => slave_field "slave-priority" l = None | _ => True end.

(** A reply that does not have the shape of the command's: settings that are not
    pairs of strings, a master's description whose fourth field is no string,
    a slave's that is no list of strings. *)
Definition bad_reply (args : list string) (reply : list value) : Prop :=
  (args = ["config"; "get"; "*"] /\ config_pairs ∅ reply = None) \/
  (args = ["SENTINEL"; "master"; masterName] /\ forall s, reply !! 3%nat <> Some (VString s)) \/
  (args = ["sentinel"; "slaves"; masterName] /\ Exists bad_slave reply).

Definition bad (e : event) : Prop :=
  match e with
  | existT e r =>
      match e return resp e -> Prop with
      | Get k ns name =>
          match k return result (object k) -> Prop with
          | KStatefulSet => fun r => match r with inr ss => bad_set ss | inl _ => False end
          | _ => fun _ => False
          end
      | SliceCmd _ args => fun r => match r with inr reply => bad_reply args reply | inl _ => False end
      | _ => fun _ => False
      end r
  end.

(** [p] panics only after such an answer. *)
Definition safe {A} (p : prog A) : Prop :=
  wp p (fun t o => match o with Panics => Exists bad t | _ => True end).

Lemma safe_bind {A B} (m : prog A) (f : A -> prog B) :
  safe m -> (forall a, safe (f a)) -> safe (bind m f).
Proof.
  intros Hm Hf. apply wp_bind. eapply wp_mono, Hm. intros t [a| |]; [|done..]. intros _.
  eapply wp_mono, Hf. intros t' [b| |]; [done| |done]. intros H. apply Exists_app. by right.
Qed.

Lemma safe_try {A B} (m : prog (result A)) (f : A -> prog (result B)) :
  safe m -> (forall a, safe (f a)) -> safe (try m f).
Proof. intros Hm Hf. apply safe_bind; [done|]. by intros [err|a]. Qed.

Lemma safe_act e : safe (act e).
Proof. intros r. exact I. Qed.

(** A request whose bad answers may be followed by a panic. *)
Lemma safe_request {A} e (k : resp e -> prog A) :
  (forall r, bad (ev e r) \/ safe (k r)) -> safe (Act e k).
Proof.
  intros H r. destruct (H r) as [Hb|Hs].
  - eapply wp_mono, wp_true. intros t [a| |] _; [done|by left|done].
  - eapply wp_mono, Hs. intros t [a| |]; [done| |done]. intros Ht. by right.
Qed.

Lemma safe_for_each {X} (xs : list X) f : (forall x, safe (f x)) -> safe (for_each xs f).
Proof. intros Hf. induction xs as [|x xs IH]; [done|]. by apply safe_try. Qed.

Lemma safe_fold_each {X B} (xs : list X) (b : B) f :
  (forall b x, safe (f b x)) -> safe (fold_each xs b f).
Proof. intros Hf. revert b. induction xs as [|x xs IH]; intros b; [done|]. by apply safe_try. Qed.

Lemma total_safe {A} (p : prog A) : total p -> safe p.
Proof.
  apply wp_mono. intros t [a| |]; try done. intros H. eapply Exists_impl; [exact H|].
  intros [e r]. destruct e; try done. destruct k; try done. destruct r as [err|ss]; [done|].
  simpl. unfold bad_set. tauto.
Qed.

(** *** The requests that can be followed by a panic *)

Lemma safe_pods ns name : safe (GetStatefulSetPods ns name).
Proof.
  apply safe_request. intros [err|ss]; [by right|]. simpl. unfold listSelected.
  destruct (ss_Selector ss) eqn:E; [right; apply (safe_act (List _ _ _))|left]. right. by right.
Qed.

Lemma safe_settings opt : safe (GetAllRedisConfig opt).
Proof.
  apply safe_request. intros [err|val]; [by right|]. simpl.
  destruct (config_pairs ∅ val) eqn:E; [by right|]. left. by left.
Qed.

Lemma safe_monitor ip auth : safe (GetSentinelMonitor ip auth).
Proof.
  apply safe_request. intros [err|res]; [by right|]. simpl.
  destruct (res !! 3%nat) as [[s|z| |l]|] eqn:E; [by right|..]; left; right; left;
    (split; [done|]); intros s'; by rewrite E.
Qed.

Lemma count_slaves_safe n l : Exists bad_slave l \/ safe (count_slaves n l).
Proof.
  revert n. induction l as [|blob l IH]; intros n; [by right|]. cbn [count_slaves].
  destruct blob as [s|z| |fields]; try (by left; left).
  cbn [slaveInfoFieldByName].
  destruct (slave_field "slave-priority" fields) as [p|] eqn:E; [|by left; left].
  simpl. destruct (IH (if (p =? "0")%string then n - 1 else n)) as [H|H]; [left; by right|by right].
Qed.

Lemma safe_slaves ip auth : safe (GetNumberSentinelSlavesInMemory ip auth).
Proof.
  unfold GetNumberSentinelSlavesInMemory. apply safe_try; [apply safe_act|]. intros info.
  destruct (isSentinelReady info); [done|]. apply safe_request. intros [err|blobs]; [by right|]. simpl.
  destruct (count_slaves_safe (Z.of_nat (length blobs)) blobs) as [H|H]; [left; right; by right|].
  right. by apply safe_bind.
Qed.

(** A StatefulSet that is read and whose replica count is then looked at. *)
Lemma safe_replicas {A} ns name (g : StatefulSet -> Z -> prog (result A)) :
  (forall ss n, safe (g ss n)) ->
  safe (let? ss := GetStatefulSet ns name in
        let* replicas := or_panic (ss_Replicas ss) in g ss replicas).
Proof.
  intros Hg. apply safe_request. intros [err|ss]; [by right|]. simpl.
  destruct (ss_Replicas ss) as [n|] eqn:E; [right; apply Hg|left]. right. by left.
Qed.

Create HintDb safe.
#[export] Hint Resolve safe_pods safe_settings safe_monitor safe_slaves : safe.

Ltac safe_step :=
  match goal with
  | |- safe (Ret _) => exact I
  | |- safe (ok _) => exact I
  | |- safe (fail _) => exact I
  | |- safe OutOfFuel => exact I
  | |- safe (act ?e) => exact (safe_act e)
  | |- safe _ => solve [eauto with safe nocore]
  | |- safe (bind _ _) => apply safe_bind; [|intros ?]
  | |- safe (try _ _) => apply safe_try; [|intros ?]
  | |- safe (for_each _ _) => apply safe_for_each; intros ?
  | |- safe (fold_each _ _ _) => apply safe_fold_each; intros ? ?
  | |- safe (match ?x with _ => _ end) => destruct x
  end.
Ltac safe_walk := repeat (first [safe_step | progress (cbv beta zeta)]).

(** *** The services of the handlers *)

Lemma check_slaves_safe sip rc auth : safe (CheckSentinelSlavesNumberInMemory sip rc auth).
Proof. apply safe_try; [apply safe_slaves|]. intros n. by destruct (negb _). Qed.

Lemma wait_safe turns start sip rc auth : safe (wait_loop turns start sip rc auth).
Proof.
  induction turns as [|turns IH]; [done|]. cbn [wait_loop].
  apply safe_bind; [apply (safe_act Now)|]. intros now. destruct (_ <=? _); [done|].
  apply safe_bind; [apply check_slaves_safe|]. intros [err|u]; [|done].
  by apply safe_bind; [apply (safe_act (Sleep _))|].
Qed.
#[export] Hint Resolve check_slaves_safe wait_safe : safe.

Section services.
  Context {TF : TimeFormat} {QO : QuantityOrder}.

Lemma replication_safe fuel rc m : safe (heal_replication fuel rc m).
Proof.
  unfold heal_replication, agree_on_master, GetMasterIP, CheckAllSlavesFromMaster, IsMaster,
    SetMasterOnAll, SentinelHandler.setRedisConfig, SentinelHeal.SetRedisCustomConfig,
    GetSentinelsIPs, heal_monitors, CheckSentinelMonitor, NewSentinelMonitor, heal_slaves,
    RestoreSentinel, heal_sentinels, CheckSentinelNumberInMemory, setSentinelConfig,
    SetSentinelCustomConfig, EnsureSentinelReady, SentinelHandler.notify,
    Event.UpdateSentinelStatus, Event.record, SentinelCheck.CheckRedisConfig,
    SentinelCheck.GetRedisesIPs, GetStatefulSet, get, MakeSlaveOf, RedisClient.MakeMaster,
    GetSlaveMasterIP, SetCustomRedisConfig, applyRedisConfig, range_map, MonitorRedis,
    ResetSentinel, GetNumberSentinelsInMemory, SetCustomSentinelConfig, applySentinelConfig,
    waitRestoreSentinelSlavesOK.
  safe_walk. unfold RestoreSentinel, ResetSentinel. safe_walk.
Qed.

Lemma masters_safe rc m n : safe (heal_masters rc m n).
Proof.
  unfold heal_masters, SentinelHandler.notify, Event.UpdateSentinelStatus, Event.record,
    SentinelCheck.GetRedisesIPs, SentinelHeal.MakeMaster, RedisClient.MakeMaster,
    GetMinimumRedisPodTime, SetOldestAsMaster, oldest_step, RedisClient.MakeMaster, MakeSlaveOf.
  safe_walk.
Qed.

Lemma sentinel_heal_safe fuel rc m : safe (SentinelHandler.CheckAndHeal fuel rc m).
Proof.
  unfold SentinelHandler.CheckAndHeal. apply safe_bind.
  { apply safe_replicas. intros ss n. safe_walk. }
  intros [err|u]; [unfold SentinelHandler.notify; safe_walk; apply safe_act|]. apply safe_bind.
  { apply safe_replicas. intros ss n. safe_walk. }
  intros [err|u']; [unfold SentinelHandler.notify; safe_walk; apply safe_act|].
  unfold GetNumberMasters, SentinelCheck.GetRedisesIPs, IsMaster. apply safe_try; [safe_walk|].
  intros n. apply safe_try; [apply masters_safe|]. intros _. apply replication_safe.
Qed.

Lemma standalone_heal_safe rs m : safe (StandaloneHandler.CheckAndHeal rs m).
Proof.
  unfold StandaloneHandler.CheckAndHeal. apply safe_bind.
  { apply safe_replicas. intros ss n. safe_walk. }
  intros [err|u]; [unfold StandaloneHandler.notify; safe_walk; apply safe_act|].
  unfold StandaloneHandler.setRedisConfig, StandaloneService.GetRedisesIPs,
    StandaloneService.SetRedisCustomConfig, StandaloneHandler.notify,
    Event.UpdateSentinelStatus, Event.record, StandaloneService.CheckRedisConfig,
    SetCustomRedisConfig, applyRedisConfig, range_map.
  safe_walk.
Qed.
End services.

(** ** The store of one controller *)

(** Every entry of the cache is filed under the name it bears and points to an
    object of its own. *)
Record sound {S} (st : Store S) : Prop := {
  sound_key key m : metas st !! key = Some m -> key = getNamespacedName (m_NameSpace m) (m_Name m);
  sound_obj key m : metas st !! key = Some m -> (Obj m < length (heap st))%nat;
  sound_own key key' m m' :
    metas st !! key = Some m -> metas st !! key' = Some m' -> Obj m = Obj m' -> key = key'
}.

(** The object of the entry [key], and those made since. *)
Definition mine {S} (st0 : Store S) (key : string) (l : loc) : Prop :=
  (length (heap st0) <= l)%nat \/ exists m, metas st0 !! key = Some m /\ Obj m = l.

(** From [st0] to [st] only the entry [key] and its objects have changed; [own]
    are such objects that exist. *)
Record within {S} (st0 : Store S) (key : string) (own : list loc) (st : Store S) : Prop := {
  within_sound : sound st;
  within_metas k : k <> key -> metas st !! k = metas st0 !! k;
  within_heap l : ~ mine st0 key l -> heap st !! l = heap st0 !! l;
  within_entry m : metas st !! key = Some m -> mine st0 key (Obj m);
  within_own l : l ∈ own -> (l < length (heap st))%nat /\ mine st0 key l
}.

(** A program of a handler, from states in [P] to values and states in [Q]; it
    may stop only after a bad answer. *)
Definition hoare {S A} (P : Store S -> Prop) (m : M S A) (Q : A -> Store S -> Prop) : Prop :=
  forall st, P st -> wp (m st) (fun t o =>
    match o with
    | Returns (a, st') => Q a st'
    | Panics => Exists bad t
    | Stuck => True
    end).

Section hoare.
  Context {S : Type}.
  Implicit Types P : Store S -> Prop.

Lemma hoare_bind {A B} P (m : M S A) (f : A -> M S B) Q R :
  hoare P m Q -> (forall a, hoare (Q a) (f a) R) -> hoare P (bindM m f) R.
Proof.
  intros Hm Hf st HP. apply wp_bind. eapply wp_mono, Hm, HP. intros t [[a st']| |]; [|done..].
  intros HQ. eapply wp_mono, Hf, HQ. intros t' [[b st2]| |]; [done| |done].
  intros H. apply Exists_app. by right.
Qed.

Lemma hoare_ret {A} P (a : A) : hoare P (retM a) (fun _ => P).
Proof. by intros st HP. Qed.

Lemma hoare_pre {A} P P' (m : M S A) Q : (forall st, P st -> P' st) -> hoare P' m Q -> hoare P m Q.
Proof. intros HP H st Hst. by apply H, HP. Qed.

Lemma hoare_post {A} P (m : M S A) (Q Q' : A -> Store S -> Prop) :
  (forall a st, Q a st -> Q' a st) -> hoare P m Q -> hoare P m Q'.
Proof.
  intros HQ H st Hst. eapply wp_mono, H, Hst. intros t [[a st']| |]; [apply HQ|done..].
Qed.

Lemma hoare_lift {A} P (p : prog A) : safe p -> hoare P (lift p) (fun _ => P).
Proof.
  intros Hp st HP. apply wp_bind. eapply wp_mono, Hp. by intros t [a| |].
Qed.
End hoare.

(** *** Own objects *)

Section within.
  Context {S : Type} (st0 : Store S) (key : string) (own : list loc).
  Abbreviation inv := (within st0 key own).

Lemma hoare_deref l : l ∈ own -> hoare inv (deref l) (fun o st => inv st /\ heap st !! l = Some o).
Proof.
  intros Hl st Hst. unfold deref. destruct (heap st !! l) as [o|] eqn:E; [done|].
  apply lookup_ge_None in E. pose proof (within_own _ _ _ _ Hst l Hl) as [? _]. lia.
Qed.

Lemma hoare_read l : l ∈ own -> hoare inv (deref l) (fun _ => inv).
Proof. intros Hl. eapply hoare_post, hoare_deref, Hl. by intros o st []. Qed.

Lemma hoare_assign l o : l ∈ own ->
  hoare inv (assign l o) (fun _ st => inv st /\ heap st !! l = Some o).
Proof.
  intros Hl st [[Hk Ho Hi] Hm Hh He Hw]. destruct (Hw l Hl) as [Hlt Hmine]. simpl.
  split; [|by apply list_lookup_insert_eq]. split; [|exact Hm| |exact He|].
  - split; [exact Hk| |exact Hi]. intros k m Hkm. simpl. rewrite length_insert. by eapply Ho.
  - intros l' Hl'. simpl. rewrite list_lookup_insert_ne by (by intros ->). by apply Hh.
  - intros l' Hl'. simpl. rewrite length_insert. by apply Hw.
Qed.

Lemma hoare_write l o : l ∈ own -> hoare inv (assign l o) (fun _ => inv).
Proof. intros Hl. eapply hoare_post, hoare_assign, Hl. by intros _ st []. Qed.
End within.

(** *** Caching makes the entry's object one's own *)

Section cached.
  Context {S : Type} `{HS : HasRedisSpec S} (bootstrap : string) (st0 : Store S).

Lemma updated_meta_fields m rc (old o : CustomResource S) :
  m_NameSpace (updated_meta m rc old o) = m_NameSpace m /\
  m_Name (updated_meta m rc old o) = m_Name m /\
  (Obj (updated_meta m rc old o) = Obj m \/ Obj (updated_meta m rc old o) = rc).
Proof.
  unfold updated_meta. destruct (_ =? _); [split_and!; try done; by left|].
  match goal with |- context [describe_change ?a ?b ?c] =>
    destruct (describe_change_fields a b c) as (-> & _ & _ & _ & -> & ->) end.
  split_and!; try done. by right.
Qed.

Lemma length_updated_heap (h : list (CustomResource S)) rc old o :
  length (updated_heap h rc old o) = length h.
Proof. unfold updated_heap. destruct (_ =? _); [done|by rewrite length_insert]. Qed.

(** A new entry for [key], for an object of its own. *)
Lemma within_insert key rc st h m :
  sound st0 -> within st0 key [rc] st ->
  length h = length (heap st) -> (forall l, l <> rc -> h !! l = heap st !! l) ->
  key = getNamespacedName (m_NameSpace m) (m_Name m) ->
  Obj m = rc \/ (exists m1, metas st !! key = Some m1 /\ Obj m = Obj m1) ->
  within st0 key [rc; Obj m] (mkStore h (<[key := m]> (metas st))).
Proof.
  intros H0 [[Hk Ho Hi] Hm Hh He Hw] Hlen Hheap Hkey Hobj.
  destruct (Hw rc ltac:(by left)) as [Hlt Hrc].
  assert ((Obj m < length (heap st))%nat /\ mine st0 key (Obj m)) as [Hom Hmine].
  { destruct Hobj as [->|(m1 & Hm1 & ->)]; [done|]. split; [by eapply Ho|by apply He]. }
  assert (forall k m', k <> key -> metas st !! k = Some m' -> Obj m' <> Obj m) as Hsep.
  { intros k m' Hne Hm' E. rewrite Hm in Hm' by done. destruct Hmine as [Hge|(m0 & Hm0 & E0)].
    - pose proof (sound_obj _ H0 _ _ Hm'). lia.
    - apply Hne. eapply (sound_own _ H0); [exact Hm'|exact Hm0|congruence]. }
  split; simpl.
  - split; simpl; [..|intros k k' m1 m2 H1 H2 E]; try (rewrite ?Hlen; intros k m' Hm';
      apply lookup_insert_Some in Hm' as [[<- <-]|[Hne Hm']]; eauto).
    apply lookup_insert_Some in H1 as [[<- <-]|[Hne H1]], H2 as [[<- <-]|[Hne' H2]]; eauto.
    + by case (Hsep k' m2 (not_eq_sym Hne') H2).
    + by case (Hsep k m1 (not_eq_sym Hne) H1).
  - intros k Hne. rewrite lookup_insert_ne by done. by apply Hm.
  - intros l Hl. rewrite Hheap by (by intros ->). by apply Hh.
  - intros m' Hm'. rewrite lookup_insert_eq in Hm'. by injection Hm' as <-.
  - rewrite Hlen. intros l Hl. apply elem_of_cons in Hl as [->|Hl]; [done|].
    by apply list_elem_of_singleton in Hl as ->.
Qed.

Lemma hoare_Cache rc key :
  sound st0 ->
  hoare (fun st => within st0 key [rc] st /\ exists o, heap st !! rc = Some o /\ key_of o = key)
    (fun st => or_panic (Cache bootstrap rc st)) (fun m => within st0 key [rc; Obj m]).
Proof.
  intros H0 st (Hw & o & Ho & Hkey).
  destruct (metas st !! key_of o) as [m|] eqn:Em.
  - pose proof (within_sound _ _ _ _ Hw) as [Hk Hobj _].
    destruct (lookup_lt_is_Some_2 (heap st) (Obj m) (Hobj _ _ Em)) as [old Hold].
    rewrite (Cache_again _ rc st o m old) by done. simpl.
    destruct (updated_meta_fields m rc old o) as (Hns & Hn & HO).
    rewrite Hkey in *. apply within_insert; try done.
    + apply length_updated_heap.
    + intros l Hl. by apply updated_heap_ne.
    + rewrite Hns, Hn. by apply Hk.
    + destruct HO as [HO|HO]; [right; by exists m|by left].
  - rewrite (Cache_first _ rc st o) by done. simpl. rewrite Hkey in *.
    apply (within_insert key rc st (heap st) (newCluster bootstrap rc o)); try done. by left.
Qed.
End cached.

(** ** A reconciliation *)

(** What a handler relies on of its services. *)
Class SafeOperations {S} `{HS : HasRedisSpec S} (ops : Operations S) (bootstrap : string) : Prop := {
  safe_UpdateSpec ns o : safe (op_UpdateSpec ops ns o);
  safe_UpdateStatus ns o : safe (op_UpdateStatus ops ns o);
  safe_Ensure o labels refs : safe (op_Ensure ops o labels refs);
  safe_CheckAndHeal o m : safe (op_CheckAndHeal ops o m);
  ops_Cache : op_Cache ops = Cache bootstrap;
  Validate_meta o : meta (op_Validate ops o).1 = meta o
}.

Section handler.
  Context {TF : TimeFormat} {S : Type} `{HS : HasRedisSpec S} (ops : Operations S).
  Context (bootstrap : string) `{SO : !SafeOperations ops bootstrap}.
  Context (st0 : Store S) (H0 : sound st0) (key : string).

Section owned.
  Context (own : list loc).
  Abbreviation inv := (within st0 key own).

Lemma hoare_event l e :
  l ∈ own -> (forall k m, safe (e k m)) -> hoare inv (event_on ops l e) (fun _ => inv).
Proof.
  intros Hl He. eapply hoare_bind; [by apply hoare_read|]. intros o. by apply hoare_lift.
Qed.

Lemma hoare_set_condition l set : l ∈ own -> hoare inv (set_condition l set) (fun _ => inv).
Proof.
  intros Hl. eapply hoare_bind; [by apply hoare_lift|]. intros clk.
  eapply hoare_bind; [by apply hoare_read|]. intros o. by apply hoare_write.
Qed.

Lemma hoare_UpdateStatusAt l : l ∈ own -> hoare inv (UpdateStatusAt ops l) (fun _ => inv).
Proof.
  intros Hl. eapply hoare_bind; [by apply hoare_read|]. intros o.
  eapply hoare_bind; [apply hoare_lift; by eapply safe_UpdateStatus|]. intros [o' err].
  eapply hoare_bind; [by apply hoare_write|]. intros u. apply hoare_ret.
Qed.

Lemma hoare_UpdateSpecAt l : l ∈ own -> hoare inv (UpdateSpecAt ops l) (fun _ => inv).
Proof.
  intros Hl. eapply hoare_bind; [by apply hoare_read|]. intros o.
  eapply hoare_bind; [apply hoare_lift; by eapply safe_UpdateSpec|]. intros [o' err].
  eapply hoare_bind; [by apply hoare_write|]. intros u. apply hoare_ret.
Qed.

Lemma hoare_ensure l labels refs : l ∈ own -> hoare inv (ensure_at ops l labels refs) (fun _ => inv).
Proof.
  intros Hl. eapply hoare_bind; [by apply hoare_read|]. intros o.
  eapply hoare_bind; [apply hoare_lift; by eapply safe_Ensure|]. intros [o' r].
  eapply hoare_bind; [by apply hoare_write|]. intros u. apply hoare_ret.
Qed.

Lemma hoare_gauge l v :
  l ∈ own -> hoare inv (do* o := deref l in lift (act (SetGauge (Namespace (meta o)) (Name (meta o)) v)))
    (fun _ => inv).
Proof.
  intros Hl. eapply hoare_bind; [by apply hoare_read|]. intros o. by apply hoare_lift.
Qed.
End owned.

Ltac hoare_step :=
  match goal with
  | |- hoare _ (bindM _ _) _ => eapply hoare_bind; [|intros ?; cbv beta]
  | |- hoare _ (event_on _ _ _) _ => apply hoare_event; [|intros ? ?; by apply safe_act]
  | |- hoare _ (set_condition _ _) _ => apply hoare_set_condition
  | |- hoare _ (UpdateStatusAt _ _) _ => apply hoare_UpdateStatusAt
  | |- hoare _ (UpdateSpecAt _ _) _ => apply hoare_UpdateSpecAt
  | |- hoare _ (ensure_at _ _ _ _) _ => apply hoare_ensure
  | |- hoare _ (set_error _) _ => apply hoare_gauge
  | |- hoare _ (set_ok _) _ => apply hoare_gauge
  | |- hoare _ (deref _) _ => apply hoare_read
  | |- hoare _ (lift _) _ => apply hoare_lift
  | |- hoare _ (retM _) _ => apply hoare_ret
  | |- hoare _ (failM _) _ => apply hoare_ret
  | |- hoare _ okM _ => apply hoare_ret
  | |- hoare _ (match ?x with _ => _ end) _ => destruct x
  | |- _ ∈ _ => set_solver
  end.
Ltac hoare_walk := repeat hoare_step.

Lemma hoare_updateStatus own m :
  Obj m ∈ own -> hoare (within st0 key own) (Handler.updateStatus ops m) (fun _ => within st0 key own).
Proof. intros Hm. unfold Handler.updateStatus. hoare_walk. Qed.

Lemma hoare_report own l err :
  l ∈ own -> hoare (within st0 key own) (report_failure ops l err) (fun _ => within st0 key own).
Proof. intros Hl. unfold report_failure. hoare_walk. Qed.

(** After the caching, only the two objects in hand are written to. *)
Lemma hoare_reconcile rc :
  hoare (fun st => within st0 key [rc] st /\ exists o, heap st !! rc = Some o /\ key_of o = key)
    (reconcile_valid ops rc) (fun _ st => exists own, within st0 key (rc :: own) st).
Proof.
  unfold reconcile_valid. eapply hoare_bind.
  { rewrite (ops_Cache (ops := ops)). by apply hoare_Cache. }
  intros m. eapply hoare_post; [intros a st H; exists [Obj m]; exact H|].
  unfold heal_failed, set_ready.
  eapply hoare_bind; [apply hoare_updateStatus; set_solver|]. intros [err|]; [hoare_walk|].
  repeat first [apply hoare_report | hoare_step | by eapply safe_CheckAndHeal].
Qed.

(** The object in hand is [key]'s. *)
Definition holding (rc : loc) (st : Store S) : Prop :=
  within st0 key [rc] st /\ exists o, heap st !! rc = Some o /\ key_of o = key.

Definition kept_within {A} (_ : A) (st : Store S) : Prop :=
  exists rc own, within st0 key (rc :: own) st.

Lemma hoare_Do rc : hoare (holding rc) (Handler.Do ops rc)
  (fun _ st => exists own, within st0 key (rc :: own) st).
Proof.
  unfold Handler.Do. eapply (hoare_bind _ _ _ (fun o st => within st0 key [rc] st /\ key_of o = key)).
  { intros st (Hw & o & Ho & Hk). by rewrite (deref_at _ _ o). }
  intros o st [Hw Hk]. pose proof (Validate_meta (ops := ops) (bootstrap := bootstrap) o) as Hmeta.
  destruct (op_Validate ops o) as [o' [modified err]]. simpl in Hmeta.
  revert st Hw. change (hoare (within st0 key [rc]) (do* _ := assign rc o' in
    match err with
    | Some err => do* _ := set_error rc in failM err
    | None =>
        if (modified : bool) then
          do* updateErr := UpdateSpecAt ops rc in
          match updateErr with Some e => failM e | None => failM ErrNeedRequeueImmediately end
        else reconcile_valid ops rc
    end) (fun _ st => exists own, within st0 key (rc :: own) st)).
  eapply hoare_bind; [apply hoare_assign; set_solver|]. intros u. cbv beta. clear u.
  assert (forall (P : Store S -> Prop) (m : M S (result unit)),
    hoare (within st0 key [rc]) m (fun _ => within st0 key [rc]) ->
    hoare (fun st => within st0 key [rc] st /\ P st) m
      (fun _ st => exists own, within st0 key (rc :: own) st)) as Hweak.
  { intros P m Hm. eapply (hoare_pre _ (within st0 key [rc])); [by intros st []|]. eapply hoare_post, Hm.
    intros a st H. by exists []. }
  destruct err as [err|]; [|destruct modified].
  - apply Hweak. hoare_walk.
  - apply Hweak. hoare_walk.
  - eapply hoare_pre, hoare_reconcile. intros st [Hw' Ho]. split; [done|]. exists o'.
    split; [done|]. unfold key_of in *. by rewrite Hmeta.
Qed.

Lemma hoare_alloc instance :
  key_of instance = key ->
  hoare (eq st0) (fun st => Ret (alloc instance st)) (fun rc => holding rc).
Proof.
  intros Hk st <-. destruct H0 as [Hkey Hobj Hown]. simpl. split.
  - split; simpl; try done.
    + split; simpl; [done| |done]. intros k m Hm. rewrite length_app. pose proof (Hobj _ _ Hm). lia.
    + intros l Hl. apply lookup_app_l. destruct (decide (l < length (heap st0))%nat); [done|].
      exfalso. apply Hl. left. lia.
    + intros m Hm. right. by exists m.
    + intros l Hl. apply list_elem_of_singleton in Hl as ->. rewrite length_app. simpl.
      split; [lia|left; lia].
  - exists instance. simpl. by rewrite lookup_app_r, Nat.sub_diag.
Qed.

End handler.

(** ** One reconciliation among many *)

(** The cache is sound, and the entries and objects of other resources are as
    they were. *)
Definition undisturbed {S} (st0 : Store S) (key : string) (st : Store S) : Prop :=
  sound st /\
  (forall k, k <> key -> metas st !! k = metas st0 !! k) /\
  (forall k m, k <> key -> metas st0 !! k = Some m -> heap st !! Obj m = heap st0 !! Obj m).

Lemma within_undisturbed {S} (st0 : Store S) key own st :
  sound st0 -> within st0 key own st -> undisturbed st0 key st.
Proof.
  intros [Hk Ho Hi] [Hs Hm Hh _ _]. split_and!; [done..|]. intros k m Hne Hkm. apply Hh.
  intros [Hge|(m' & Hm' & E)]; [pose proof (Ho _ _ Hkm); lia|]. apply Hne. by eapply Hi.
Qed.

(** An API server that answers with the object it was asked for. *)
Definition answers_asked (k : kind) (name_of : object k -> string) ns name (t : list event) : Prop :=
  forall o rest, t = ev (Get k ns name) (inr o) :: rest -> name_of o = getNamespacedName ns name.

(** What a reconciliation of [ns]/[name] leaves behind. *)
Definition contained {S A} (k : kind) (name_of : object k -> string) ns name (st : Store S)
    (p : prog (A * Store S)) : Prop :=
  wp p (fun t o => match o with
    | Returns (_, st') => sound st' /\
        (answers_asked k name_of ns name t -> undisturbed st (getNamespacedName ns name) st')
    | Panics => Exists bad t
    | Stuck => True
    end).

Section contained.
  Context {TF : TimeFormat} {S : Type} `{HS : HasRedisSpec S} (ops : Operations S).
  Context (k : kind) (name_of : object k -> string) (ns name : string) (st : Store S).
  Context (Hst : sound st).

Lemma sound_forget (o : CustomResource S) :
  let st' := mkStore (heap st ++ [o]) (delete (getNamespacedName ns name) (metas st)) in
  undisturbed st (getNamespacedName ns name) st'.
Proof.
  destruct Hst as [Hk Ho Hi]. split_and!; simpl.
  - split; simpl.
    + intros key m Hm. apply lookup_delete_Some in Hm as [_ Hm]. by apply Hk.
    + intros key m Hm. apply lookup_delete_Some in Hm as [_ Hm]. rewrite length_app.
      pose proof (Ho _ _ Hm). lia.
    + intros key key' m m' Hm Hm' E. apply lookup_delete_Some in Hm as [_ Hm], Hm' as [_ Hm'].
      by eapply Hi.
  - intros key Hne. by rewrite lookup_delete_ne.
  - intros key m Hne Hm. apply lookup_app_l. by eapply Ho.
Qed.

(** What [contained] asks of the run after the first answer. *)
Definition rest_contained {A} (answer : result (object k)) (p : prog (A * Store S)) : Prop :=
  wp p (fun t o => match o with
    | Returns (_, st') => sound st' /\
        (answers_asked k name_of ns name (ev (Get k ns name) answer :: t) ->
         undisturbed st (getNamespacedName ns name) st')
    | Panics => Exists bad (ev (Get k ns name) answer :: t)
    | Stuck => True
    end).

Lemma rest_read {A} (o : object k) key (body : M S A) :
  name_of o = key ->
  hoare (eq st) body (fun _ st' => exists own, within st key own st') ->
  rest_contained (inr o) (body st).
Proof.
  intros Hname Hb. eapply wp_mono, (Hb st eq_refl). intros t [[a st']| |]; [|by right|done].
  intros (own & Hw). split; [by eapply within_sound|]. intros Hask.
  specialize (Hask o t eq_refl). rewrite <- Hask, Hname. by eapply within_undisturbed.
Qed.

Lemma rest_missing (err : error) : rest_contained (inl err) (forget ops ns name st).
Proof.
  rewrite forget_run. pose proof (sound_forget (mkResource (newMeta name ns ∅ []) (op_zero ops) emptyStatus))
    as H. split; [apply H|done].
Qed.

Lemma undisturbed_refl : undisturbed st (getNamespacedName ns name) st.
Proof. done. Qed.

End contained.

Section reconcile.
  Context {TF : TimeFormat} {QO : QuantityOrder}.

Lemma RedisSentinel_Validate_meta r : meta (RedisSentinel_Validate r).1 = meta r.
Proof.
  unfold RedisSentinel_Validate. cbv zeta. destruct (maxNameLength <? _); [reflexivity|].
  destruct (negb _ && _); [reflexivity|].
  destruct (Size _ =? 0); cbn [set_Spec Spec meta];
    (destruct (negb _ && _); [reflexivity|]); destruct (Replicas _ =? 0); reflexivity.
Qed.

Lemma RedisStandalone_Validate_meta r : meta (RedisStandalone_Validate r).1 = meta r.
Proof.
  unfold RedisStandalone_Validate. cbv zeta. destruct (maxNameLength <? _); [reflexivity|].
  destruct (negb _ && _); [reflexivity|]. destruct (Size _ =? 0); reflexivity.
Qed.

#[export] Instance sentinel_safe fuel :
  SafeOperations (SentinelHandler.operations fuel) SentinelCache.bootstrap.
Proof.
  split; simpl; intros.
  - unfold UpdateSentinelSpec, updateSpec_. safe_walk.
  - unfold UpdateSentinelStatus, updateStatus_. safe_walk.
  - apply total_safe, sentinel_Ensure_total.
  - apply sentinel_heal_safe.
  - done.
  - apply RedisSentinel_Validate_meta.
Qed.

#[export] Instance standalone_safe :
  SafeOperations StandaloneHandler.operations StandaloneCache.bootstrap.
Proof.
  split; simpl; intros.
  - unfold UpdateStandaloneSpec, updateSpec_. safe_walk.
  - unfold UpdateStandaloneStatus, updateStatus_. safe_walk.
  - apply total_safe, standalone_Ensure_total.
  - apply standalone_heal_safe.
  - done.
  - apply RedisStandalone_Validate_meta.
Qed.

Lemma hoare_from_alloc {S A} `{HS : HasRedisSpec S} (ops : Operations S) (bootstrap : string)
    `{SO : !SafeOperations ops bootstrap} st o (f : loc -> result unit -> M S A) :
  sound st ->
  (forall rc own r, hoare (within st (key_of o) (rc :: own)) (f rc r)
     (fun _ => within st (key_of o) (rc :: own))) ->
  hoare (eq st) (do* rc := (fun st => Ret (alloc o st)) in do* done := Handler.Do ops rc in f rc done)
    (fun _ st' => exists own, within st (key_of o) own st').
Proof.
  intros Hst Hf. eapply hoare_bind; [by apply (hoare_alloc st Hst (key_of o))|]. intros rc.
  eapply hoare_bind; [by eapply hoare_Do|]. intros r st' (own & Hw).
  eapply wp_mono, (Hf rc own r st' Hw). intros t [[a st2]| |]; [|done..]. by eexists.
Qed.

Lemma Reconcile_sentinel_contained fuel ns name st :
  sound st -> contained KRedisSentinel (key_of (S := RedisSentinelSpec)) ns name st
    (Reconcile_sentinel fuel ns name st).
Proof.
  intros Hst. unfold contained, Reconcile_sentinel. unfold bindM at 1, lift at 1, act.
  cbn [bind wp]. intros [err|instance]; cbv beta iota.
  - destruct (IsNotFound err); [|by split].
    by apply (rest_missing _ KRedisSentinel key_of ns name st).
  - eapply (rest_read KRedisSentinel); [done|by instantiate (1 := key_of instance)|].
    apply (hoare_from_alloc _ SentinelCache.bootstrap); [done|].
    intros rc own [err|u]; [apply hoare_ret|].
    eapply hoare_bind; [by apply hoare_read; left|]. intros o. eapply hoare_bind.
    { apply hoare_lift. unfold CheckSentinelReadyReplicas, GetStatefulSet, get. safe_walk. }
    intros [err|u']; apply hoare_ret.
Qed.

Lemma Reconcile_standalone_contained ns name st :
  sound st -> contained KRedisStandalone (key_of (S := RedisStandaloneSpec)) ns name st
    (Reconcile_standalone ns name st).
Proof.
  intros Hst. unfold contained, Reconcile_standalone. unfold bindM at 1, lift at 1, act.
  cbn [bind wp]. intros [err|instance]; cbv beta iota.
  - destruct (IsNotFound err); [|by split].
    by apply (rest_missing _ KRedisStandalone key_of ns name st).
  - eapply (rest_read KRedisStandalone); [done|by instantiate (1 := key_of instance)|].
    apply (hoare_from_alloc _ StandaloneCache.bootstrap); [done|].
    intros rc own [err|u]; apply hoare_ret.
Qed.

(** C11: Resources are kept apart. From any sound cache, a reconciliation of one
    resource leaves the cache sound: each entry is filed under its own name and
    points to an object that exists and is no other entry's. If the API server
    answered with the resource that was asked for, every other resource's entry
    and object are as they were. The reconciliation crashes only after a server
    sent an answer the code takes apart without looking. *)
Theorem Reconcile_isolated fuel ns name st st' :
  sound st -> sound st' ->
  contained KRedisSentinel key_of ns name st (Reconcile_sentinel fuel ns name st) /\
  contained KRedisStandalone key_of ns name st' (Reconcile_standalone ns name st').
Proof.
  intros H H'. split; [by apply Reconcile_sentinel_contained|by apply Reconcile_standalone_contained].
Qed.

(** ** The operator *)

Record Operator := mkOperator {
  sentinels : Store RedisSentinelSpec;
  standalones : Store RedisStandaloneSpec
}.

Definition started (fuel : nat) : Operator :=
  mkOperator (metaCache (NewRedisSentinelReconciler fuel)) (metaCache NewRedisStandaloneReconciler).

(** A reconciliation of either controller, with any answers, or a restart of
    the process. *)
Inductive step (fuel : nat) : Operator -> Operator -> Prop :=
| step_sentinel ns name r st st' other :
    may_return (Reconcile_sentinel fuel ns name st) (r, st') ->
    step fuel (mkOperator st other) (mkOperator st' other)
| step_standalone ns name r st st' other :
    may_return (Reconcile_standalone ns name st) (r, st') ->
    step fuel (mkOperator other st) (mkOperator other st')
| step_restart w : step fuel w (started fuel).

Lemma wp_may_return {A} (p : prog A) (Q : list event -> outcome A -> Prop) a :
  wp p Q -> may_return p a -> exists t, Q t (Returns a).
Proof.
  revert Q; induction p as [b| | |e k IH]; intros Q; simpl; try done.
  - intros HQ ->. by exists [].
  - intros HQ [r Hr]. destruct (IH r _ (HQ r) Hr) as [t Ht]. by eexists.
Qed.

Lemma run_may_return {W A} (env : Env W) (p : prog A) w a :
  (run env p w).1.1 = Returns a -> may_return p a.
Proof.
  revert w; induction p as [b| | |e k IH]; intros w; simpl; try done.
  - by intros [= ->].
  - destruct (env e w) as [r w1] eqn:E. intros H. exists r. apply (IH r w1).
    by destruct (run env (k r) w1) as [[o t] w2].
Qed.

Definition sound_operator (w : Operator) : Prop := sound (sentinels w) /\ sound (standalones w).

Lemma started_sound fuel : sound_operator (started fuel).
Proof. split; split; simpl; intros; by rewrite lookup_empty in *. Qed.

Lemma step_sound fuel w w' : step fuel w w' -> sound_operator w -> sound_operator w'.
Proof.
  intros [ns name r st st' other Hr|ns name r st st' other Hr|w0] [H H'].
  - destruct (wp_may_return _ _ _ (Reconcile_sentinel_contained fuel ns name st H) Hr) as (t & Hs & _).
    by split.
  - destruct (wp_may_return _ _ _ (Reconcile_standalone_contained ns name st H') Hr) as (t & Hs & _).
    by split.
  - apply started_sound.
Qed.

Lemma contained_safe {S A} k name_of ns name (st : Store S) (p : prog (A * Store S)) :
  contained k name_of ns name st p -> safe p.
Proof. apply wp_mono. by intros t [[a st']| |]. Qed.

(** C9: The operator's caches stay sound for its whole life. In every state it
    reaches, by reconciliations of any resources with any answers and by
    restarts, no pointer of a cache dangles or is shared, each entry is filed
    under its own name, and no reconciliation that may come next crashes unless
    it is sent an answer the code takes apart without looking. *)
Theorem Operator_sound fuel w :
  rtc (step fuel) (started fuel) w ->
  sound_operator w /\
  forall ns name, safe (Reconcile_sentinel fuel ns name (sentinels w)) /\
    safe (Reconcile_standalone ns name (standalones w)).
Proof.
  intros Hw. assert (sound_operator w) as [Hs Hs'].
  { revert Hw. apply (rtc_ind_r sound_operator); [apply started_sound|].
    intros x y _ Hxy Hx. by eapply step_sound. }
  split; [done|]. intros ns name. split; eapply contained_safe.
  - by apply Reconcile_sentinel_contained.
  - by apply Reconcile_standalone_contained.
Qed.
End reconcile.

(** ** Witnesses *)

Lemma cachedStore_sound : sound cachedStore.
Proof.
  split; simpl.
  - intros key m H. by apply lookup_singleton_Some in H as [<- <-].
  - intros key m H. apply lookup_singleton_Some in H as [<- <-]. simpl. lia.
  - intros key key' m m' H H' _. apply lookup_singleton_Some in H as [<- _], H' as [<- _]. done.
Qed.

Lemma Reconcile_isolated_witness :
  contained KRedisSentinel key_of "prod" "other" cachedStore
    (Reconcile_sentinel (TF := sampleFormat) 7 "prod" "other" cachedStore).
Proof.
  refine (proj1 (Reconcile_isolated (TF := sampleFormat) 7 "prod" "other" cachedStore (mkStore [] ∅) _ _)).
  - exact cachedStore_sound.
  - split; simpl; intros; by rewrite lookup_empty in *.
Defined.

(** Two reconciliations against a server that has one sentinel resource and
    nothing else: the first completes the resource, the second caches it and
    creates its objects. *)
Definition demo_run (st : Store RedisSentinelSpec) (m : Objects) :=
  run server (Reconcile_sentinel (TF := sampleFormat) 7 "prod" "demo" st) m.

Definition store_after (r : outcome (reconciled * Store RedisSentinelSpec) * list event * Objects) :=
  match r.1.1 with Returns (_, st) => st | _ => mkStore [] ∅ end.

Definition first_run := demo_run (mkStore [] ∅) (put_object (k := KRedisSentinel) sampleSentinel nothing).
Definition second_run := demo_run (store_after first_run) first_run.2.

Lemma Operator_sound_witness :
  sound_operator (mkOperator (store_after second_run) (mkStore [] ∅)) /\
  State <$> (metas (store_after second_run) !! "prod/demo") = Some StateCreate /\
  length (heap (store_after second_run)) = 2%nat.
Proof.
  split; [|by vm_compute].
  apply (Operator_sound (TF := sampleFormat) 7). eapply rtc_l; [|apply rtc_once].
  - apply (step_sentinel _ "prod" "demo" (mkResult true 0, None) _ (store_after first_run)).
    apply (run_may_return server _ (put_object (k := KRedisSentinel) sampleSentinel nothing)).
    vm_compute. reflexivity.
  - apply (step_sentinel _ "prod" "demo" (mkResult false (20 * second), None) _ (store_after second_run)).
    apply (run_may_return server _ first_run.2). vm_compute. reflexivity.
Defined.
