(* ===== verification/Clash.v ===== *)
(** * Which objects two resources share

    The names of all objects are made of a prefix and the resource's name; an
    object that is there is good enough for [createIfNotExists], whoever made
    it. So two resources of a namespace get in each other's way exactly when a
    name of one is a name of the other, which happens only in the cases listed
    here. *)

From S2P Require Import Prelude GoStd Corev1 Api Samples Util Common Names Effects.
From S2P Require Import SentinelGen StandaloneGen Desired ApiServer.

(** Some object is wanted by both, under one kind and name. *)
Definition shares (ws ws' : list want) : Prop := exists x, x ∈ made ws /\ x ∈ made ws'.

Lemma elem_of_if {A} (b : bool) (x : A) l : x ∈ (if b then l else []) <-> b = true /\ x ∈ l.
Proof. destruct b; [by split; [|intros []]|]. rewrite elem_of_nil. by split; [|intros []]. Qed.

Fixpoint last_char (s : string) : option ascii :=
  match s with
  | "" => None
  | String c s => match last_char s with Some d => Some d | None => Some c end
  end.

Lemma last_char_app a b : b <> "" -> last_char (a ^^ b) = last_char b.
Proof.
  intros Hb. induction a as [|c a IH]; [done|]. rewrite app_cons_str. simpl. rewrite IH.
  destruct b as [|d b]; [done|]. simpl. by destruct (last_char b).
Qed.

(** Names that end in different letters. *)
Lemma suffix_differ a b c d :
  c <> "" -> d <> "" -> last_char c <> last_char d -> a ^^ c <> b ^^ d.
Proof. intros Hc Hd Hne E. apply Hne. by rewrite <- (last_char_app a c), <- (last_char_app b d), E. Qed.

Section clash.
  Context {QO : QuantityOrder}.

Lemma GenerateName_app t n s : GenerateName t n ^^ s = GenerateName t (n ^^ s).
Proof. unfold GenerateName. by rewrite !app_assoc_str. Qed.

Lemma headless_name n : GenerateName "-sentinel-headless" n = GenerateName SentinelName ("headless-" ^^ n).
Proof. done. Qed.

Lemma readiness_name n : GenerateName "-sentinel-readiness" n = GenerateName SentinelName ("readiness-" ^^ n).
Proof. done. Qed.

(** A shared object, as an equation between the two resources' names. *)
Ltac shared_names H H' :=
  repeat match type of H with
  | _ ∈ _ ++ _ => apply elem_of_app in H as [H|H]
  | _ ∈ (if _ then _ else _) => apply elem_of_if in H as [? H]
  | _ ∈ _ :: _ => apply elem_of_cons in H as [H|H]
  | _ ∈ [] => by apply elem_of_nil in H
  end; subst;
  repeat match type of H' with
  | _ ∈ _ ++ _ => apply elem_of_app in H' as [H'|H']
  | _ ∈ (if _ then _ else _) => apply elem_of_if in H' as [? H']
  | _ ∈ _ :: _ => apply elem_of_cons in H' as [H'|H']
  | _ ∈ [] => by apply elem_of_nil in H'
  end;
  (discriminate H' || (apply (f_equal snd) in H'; cbn [snd] in H';
    rewrite ?GenerateName_app, ?headless_name, ?readiness_name in H';
    apply GenerateName_inj in H'; try apply app_inj_l in H'; try apply app_inj_r in H';
    auto 10)).

(** To find a key in the two lists, name by name. *)
Ltac member :=
  lazymatch goal with
  | |- _ ∈ _ ++ _ => apply elem_of_app; first [left; member | right; member]
  | |- _ ∈ (if _ then _ else _) => apply elem_of_if; split; [assumption|member]
  | |- _ ∈ _ :: _ => apply elem_of_cons; first [left; reflexivity | right; member]
  end.
Ltac share key :=
  exists key; rewrite ?GenerateName_app, ?headless_name, ?readiness_name;
  with_strategy opaque [GenerateName] (split; member).

Lemma sentinels_share rc rc' l l' refs refs' :
  let n := Name (meta rc) in
  let n' := Name (meta rc') in
  shares (sentinel_wants rc l refs) (sentinel_wants rc' l' refs') <->
  n = n' \/
  (Enabled (Exporter (redis (Spec rc'))) = true /\ n = n' ^^ "-monitor") \/
  (Enabled (Exporter (redis (Spec rc))) = true /\ n' = n ^^ "-monitor") \/
  n = "headless-" ^^ n' \/ n' = "headless-" ^^ n \/
  n = "readiness-" ^^ n' \/ n' = "readiness-" ^^ n.
Proof.
  intros n n'. unfold shares.
  rewrite (sentinel_made rc l refs (fun t => GenerateName t n)),
    (sentinel_made rc' l' refs' (fun t => GenerateName t n')) by done.
  clearbody n n'. split; [intros (x & H & H'); shared_names H H'|].
  intros [->|[[He ->]|[[He ->]|[-> |[-> |[-> | ->]]]]]].
  - share (KStatefulSet, GenerateName SentinelName n').
  - share (KService, GenerateName Names.Sentinel.RedisName (n' ^^ "-monitor")). 
  - share (KService, GenerateName Names.Sentinel.RedisName (n ^^ "-monitor")).
  - share (KService, GenerateName SentinelName ("headless-" ^^ n')).
  - share (KService, GenerateName SentinelName ("headless-" ^^ n)).
  - share (KConfigMap, GenerateName SentinelName ("readiness-" ^^ n')).
  - share (KConfigMap, GenerateName SentinelName ("readiness-" ^^ n)).
Qed.

Lemma monitor_headless a b : a ^^ "-monitor" <> b ^^ "-headless".
Proof. by apply suffix_differ. Qed.

Lemma standalones_share rs rs' l l' refs refs' :
  let n := Name (meta rs) in
  let n' := Name (meta rs') in
  shares (standalone_wants rs l refs) (standalone_wants rs' l' refs') <->
  n = n' \/
  (Enabled (Exporter (Spec rs')) = true /\ n = n' ^^ "-monitor") \/
  (Enabled (Exporter (Spec rs)) = true /\ n' = n ^^ "-monitor") \/
  n = n' ^^ "-headless" \/ n' = n ^^ "-headless".
Proof.
  intros n n'. unfold shares.
  rewrite (standalone_made rs l refs (fun t => GenerateName t n)),
    (standalone_made rs' l' refs' (fun t => GenerateName t n')) by done.
  clearbody n n'. split; [intros (x & H & H'); shared_names H H'; try (by apply monitor_headless in H');
    by symmetry in H'; apply monitor_headless in H'|].
  intros [-> |[[He ->]|[[He ->]|[-> | ->]]]].
  - share (KStatefulSet, GenerateName Names.Standalone.RedisName n').
  - share (KService, GenerateName Names.Standalone.RedisName (n' ^^ "-monitor")).
  - share (KService, GenerateName Names.Standalone.RedisName (n ^^ "-monitor")).
  - share (KService, GenerateName Names.Standalone.RedisName (n' ^^ "-headless")).
  - share (KService, GenerateName Names.Standalone.RedisName (n ^^ "-headless")).
Qed.

Lemma sentinel_standalone_share rc rs l l' refs refs' :
  shares (sentinel_wants rc l refs) (standalone_wants rs l' refs') <->
  Name (meta rc) = Name (meta rs) /\
  ShutdownConfigMap (redis (Spec rc)) = "" /\ ShutdownConfigMap (Spec rs) = "".
Proof.
  unfold shares. rewrite (sentinel_made rc l refs (fun t => GenerateName t (Name (meta rc)))),
    (standalone_made rs l' refs' (fun t => GenerateName t (Name (meta rs)))) by done.
  rewrite <- !String.eqb_eq.
  split; [intros (x & H & H'); rewrite String.eqb_eq; shared_names H H'|].
  intros (E%String.eqb_eq & H & H'). rewrite E.
  share (KConfigMap, GenerateName Names.Sentinel.RedisShutdownName (Name (meta rs))).
Qed.

(** C20: Which objects two resources of a namespace share. Two sentinel resources
    want an object of one kind and name exactly when they have the same name,
    or one is called as the other with "-monitor" behind it (and the other
    exports metrics), or with "headless-" or "readiness-" before it. Two
    standalone servers do exactly when they have the same name, or one is
    called as the other with "-monitor" (and the other exports metrics) or
    "-headless" behind it. A sentinel resource and a standalone server do
    exactly when they have the same name and neither names a shutdown ConfigMap
    of its own. *)
Theorem shared_objects rc rc' rs rs' l l' refs refs' :
  (shares (sentinel_wants rc l refs) (sentinel_wants rc' l' refs') <->
   Name (meta rc) = Name (meta rc') \/
   (Enabled (Exporter (redis (Spec rc'))) = true /\ Name (meta rc) = Name (meta rc') ^^ "-monitor") \/
   (Enabled (Exporter (redis (Spec rc))) = true /\ Name (meta rc') = Name (meta rc) ^^ "-monitor") \/
   Name (meta rc) = "headless-" ^^ Name (meta rc') \/ Name (meta rc') = "headless-" ^^ Name (meta rc) \/
   Name (meta rc) = "readiness-" ^^ Name (meta rc') \/ Name (meta rc') = "readiness-" ^^ Name (meta rc)) /\
  (shares (standalone_wants rs l refs) (standalone_wants rs' l' refs') <->
   Name (meta rs) = Name (meta rs') \/
   (Enabled (Exporter (Spec rs')) = true /\ Name (meta rs) = Name (meta rs') ^^ "-monitor") \/
   (Enabled (Exporter (Spec rs)) = true /\ Name (meta rs') = Name (meta rs) ^^ "-monitor") \/
   Name (meta rs) = Name (meta rs') ^^ "-headless" \/ Name (meta rs') = Name (meta rs) ^^ "-headless") /\
  (shares (sentinel_wants rc l refs) (standalone_wants rs l' refs') <->
   Name (meta rc) = Name (meta rs) /\
   ShutdownConfigMap (redis (Spec rc)) = "" /\ ShutdownConfigMap (Spec rs) = "").
Proof.
  split_and!; [apply sentinels_share|apply standalones_share|apply sentinel_standalone_share].
Qed.
End clash.
