(* ===== verification/Main.v ===== *)
(** * The program's entry ([main.go], the [init] of
      [controllers/common/common.go], [pkg/metrics/metrics.go])

    What happens before the first reconciliation: the defaults and the gauge
    that [init] sets up, the flags, the manager and the two controllers. The
    command line is read as Go's [flag] package documents; the flags other
    libraries add to it are a parameter. Each call into a library is a [Call],
    which succeeds or fails as an oracle says, given the calls before it. *)

From S2P Require Import Prelude GoStd Corev1 Api Util Common Effects.

(** ** [init] *)

Definition RedisSentinelControllerName : string := "redis-sentinel-controller".
Definition RedsiStandaloneControllerName : string := "redis-standalone-controller".
Definition promControllerSubsystem : string := "controller".

(** [prometheus.GaugeOpts] and the label names of the vector. *)
Record GaugeVec := mkGaugeVec {
  gauge_Namespace : string;
  gauge_Subsystem : string;
  gauge_Name : string;
  gauge_labels : list string
}.

(** [PromMetrics]: the gauge, and what its registry holds. *)
Record PromMetrics := mkPromMetrics { clusterHealthy : option GaugeVec; registry : list GaugeVec }.

(** [register]: a second registration would panic. *)
Definition register (p : PromMetrics) : option PromMetrics :=
  g ← clusterHealthy p;
  match registry p with
  | [] => Some (mkPromMetrics (clusterHealthy p) [g])
  | _ => None
  end.

Definition InitPrometheusMetrics (namespace : string) (fresh : list GaugeVec) : option PromMetrics :=
  register (mkPromMetrics
    (Some (mkGaugeVec namespace promControllerSubsystem "cluster_healthy" ["namespace"; "name"])) fresh).

(** [init] of the package [common]; its flag set is read by nobody. *)
Definition init (getenv : string -> string) : option PromMetrics :=
  let namespace := ReplaceSymbol (GetEnvOrDefault getenv "MY_POD_NAMESPACE" "default") in
  InitPrometheusMetrics namespace [].

(** ** The command line *)

Record Flags := mkFlags {
  metricsAddr : string;
  enableLeaderElection : bool;
  probeAddr : string;
  library_flags : list (string * string)
}.

Definition defaultFlags : Flags := mkFlags ":8080" false ":8081" [].

(** [strconv.ParseBool]. *)
Definition ParseBool (s : string) : option bool :=
  if existsb (String.eqb s) ["1"; "t"; "T"; "TRUE"; "true"; "True"] then Some true
  else if existsb (String.eqb s) ["0"; "f"; "F"; "FALSE"; "false"; "False"] then Some false
  else None.

Definition FormatBool (b : bool) : string := if b then "true" else "false".

(** The name of a flag and the value behind the first equals sign. *)
Fixpoint cut_equals (s : string) : string * option string :=
  match s with
  | "" => ("", None)
  | String c s' =>
      if (c =? "=")%char then ("", Some s')
      else let '(name, value) := cut_equals s' in (String c name, value)
  end.

(** How the parse of the command line ends. *)
Inductive parsed :=
| Flagged (f : Flags)
| Usage
| Help.

Section flags.
  (** The flags of the libraries: whether the flag is boolean, and the values
      it accepts. *)
  Context (library : string -> option (bool * (string -> bool))).

Definition is_bool_flag (name : string) : option bool :=
  if (name =? "metrics-bind-address")%string then Some false
  else if (name =? "health-probe-bind-address")%string then Some false
  else if (name =? "leader-elect")%string then Some true
  else fst <$> library name.

Definition set_flag (name value : string) (f : Flags) : option Flags :=
  if (name =? "metrics-bind-address")%string
  then Some (mkFlags value (enableLeaderElection f) (probeAddr f) (library_flags f))
  else if (name =? "health-probe-bind-address")%string
  then Some (mkFlags (metricsAddr f) (enableLeaderElection f) value (library_flags f))
  else if (name =? "leader-elect")%string
  then b ← ParseBool value; Some (mkFlags (metricsAddr f) b (probeAddr f) (library_flags f))
  else '(_, accepts) ← library name;
       if (accepts value : bool)
       then Some (mkFlags (metricsAddr f) (enableLeaderElection f) (probeAddr f)
              (library_flags f ++ [(name, value)]))
       else None.

(** What an argument is: the end of the flags, a malformed flag, or a flag. *)
Inductive argument := Stop | Malformed | Flag (name : string) (value : option string).

Definition read_argument (s : string) : argument :=
  match s with
  | String "-" "" => Stop
  | String "-" (String "-" "") => Stop
  | String "-" s' =>
      let name := match s' with String "-" s2 => s2 | _ => s' end in
      match name with
      | String "-" _ | String "=" _ => Malformed
      | _ => let '(name, value) := cut_equals name in Flag name value
      end
  | _ => Stop
  end.

(** [flag.Parse]; a failure leaves the process. *)
Fixpoint Parse (args : list string) (f : Flags) : parsed :=
  match args with
  | [] => Flagged f
  | s :: rest =>
      match read_argument s with
      | Stop => Flagged f
      | Malformed => Usage
      | Flag name value =>
          match is_bool_flag name with
          | None => if (name =? "help")%string || (name =? "h")%string then Help else Usage
          | Some true =>
              match set_flag name (default "true" value) f with
              | Some f => Parse rest f
              | None => Usage
              end
          | Some false =>
              match value, rest with
              | Some value, _ =>
                  match set_flag name value f with Some f => Parse rest f | None => Usage end
              | None, value :: rest' =>
                  match set_flag name value f with Some f => Parse rest' f | None => Usage end
              | None, [] => Usage
              end
          end
      end
  end.
End flags.

(** ** Starting up *)

Record ManagerOptions := mkManagerOptions {
  MetricsBindAddress : string;
  Port : Z;
  HealthProbeBindAddress : string;
  LeaderElection : bool;
  LeaderElectionID : string
}.

(** The calls that can fail. [GetConfig] and [NewClient] are the namespace
    client's own way to the cluster, taken once per controller. *)
Inductive Call :=
| GetConfigOrDie
| NewManager (opts : ManagerOptions)
| GetConfig
| NewClient
| Complete (kind : string) (MaxConcurrentReconciles : Z)
| AddHealthzCheck (name : string)
| AddReadyzCheck (name : string)
| Start.

(** How the process ends; [Returns_] is the manager's orderly stop. *)
Inductive ending := Exits (code : Z) | Panics_ | Returns_.

Section main.
  Context (library : string -> option (bool * (string -> bool))).
  Context (succeeds : list Call -> Call -> bool).

(** A program that goes on after the calls made so far. *)
Definition Boot : Type := list Call -> list Call * ending.

(** [if err := c(); err != nil { ... }]. *)
Definition attempt (c : Call) (failed : ending) (next : Boot) : Boot :=
  fun made => if succeeds made c then next (made ++ [c]) else (made ++ [c], failed).

Definition NewNameSpaces (next : Boot) : Boot :=
  attempt GetConfig Panics_ (attempt NewClient Panics_ next).

(** [New], which each reconciler's constructor calls: the other clients only
    keep the manager's client. *)
Definition New (next : Boot) : Boot := NewNameSpaces next.

(** The controller is built with the number of workers [init] left. *)
Definition SetupWithManager_sentinel (next : Boot) : Boot :=
  attempt (Complete RedisSentinelKind MaxConcurrentReconciles) (Exits 1) next.
Definition SetupWithManager_standalone (next : Boot) : Boot :=
  attempt (Complete RedisStandaloneKind MaxConcurrentReconciles) (Exits 1) next.

Definition manager_options (f : Flags) : ManagerOptions :=
  mkManagerOptions (metricsAddr f) 9443 (probeAddr f) (enableLeaderElection f)
    "c740b416.lovelycat.io".

Definition main (args : list string) : list Call * ending :=
  match Parse library args defaultFlags with
  | Usage => ([], Exits 2)
  | Help => ([], Exits 0)
  | Flagged f =>
      (attempt GetConfigOrDie (Exits 1)
       (attempt (NewManager (manager_options f)) (Exits 1)
       (New (SetupWithManager_sentinel
       (New (SetupWithManager_standalone
       (attempt (AddHealthzCheck "healthz") (Exits 1)
       (attempt (AddReadyzCheck "readyz") (Exits 1)
       (attempt Start (Exits 1)
       (fun made => (made, Returns_))))))))))) []
  end.

End main.

(** *** Flags *)

Section reading.
  Context (library : string -> option (bool * (string -> bool))).

Definition flag_is (name value : string) : string := "--" ^^ name ^^ "=" ^^ value.

(** The flags are read back: whatever addresses are given with the flags,
    joined by an equals sign or as an argument of their own, the manager is
    given just those, leader election is switched as Go's own spelling of the
    boolean says, and the arguments behind are read on. *)
Theorem flags_roundtrip m p b rest f :
  Parse library (flag_is "metrics-bind-address" m :: "-health-probe-bind-address" :: p ::
                 flag_is "leader-elect" (FormatBool b) :: rest) f =
  Parse library rest (mkFlags m b p (library_flags f)).
Proof.
  unfold flag_is. cbn [Parse].
  assert (read_argument ("--" ^^ "metrics-bind-address" ^^ "=" ^^ m) =
    Flag "metrics-bind-address" (Some m)) as -> by done.
  assert (read_argument ("--" ^^ "leader-elect" ^^ "=" ^^ FormatBool b) =
    Flag "leader-elect" (Some (FormatBool b))) as -> by done.
  by destruct b.
Qed.

(** The flags of [ControllerFlagSet] are never added to the command line. *)
Lemma controller_flags_refused value rest f :
  library "ctr-reconciletime" = None -> library "ctr-maxconcurrent" = None ->
  Parse library (flag_is "ctr-reconciletime" value :: rest) f = Usage /\
  Parse library (flag_is "ctr-maxconcurrent" value :: rest) f = Usage.
Proof.
  intros H H'. unfold flag_is. cbn [Parse].
  assert (read_argument ("--" ^^ "ctr-reconciletime" ^^ "=" ^^ value) =
    Flag "ctr-reconciletime" (Some value)) as -> by done.
  assert (read_argument ("--" ^^ "ctr-maxconcurrent" ^^ "=" ^^ value) =
    Flag "ctr-maxconcurrent" (Some value)) as -> by done.
  unfold is_bool_flag. simpl. by rewrite H, H'.
Qed.
End reading.

(** The gauge's registry is its own: it holds that gauge and nothing more. *)
Example gauge_registered :
  init (fun name => if (name =? "MY_POD_NAMESPACE")%string then "cndb-redis-system" else "") =
  let g := mkGaugeVec "cndb_redis_system" "controller" "cluster_healthy" ["namespace"; "name"] in
  Some (mkPromMetrics (Some g) [g]).
Proof. reflexivity. Qed.

(** A start without trouble, and one whose second controller cannot be set up. *)
Example clean_start :
  (main (fun _ => None) (fun _ _ => true) ["--leader-elect"]).2 = Returns_ /\
  main (fun _ => None) (fun made _ => negb (length made =? 7)%nat) [] =
    ([GetConfigOrDie; NewManager (mkManagerOptions ":8080" 9443 ":8081" false "c740b416.lovelycat.io");
      GetConfig; NewClient; Complete "RedisSentinel" 4; GetConfig; NewClient;
      Complete "RedisStandalone" 4], Exits 1).
Proof. by vm_compute. Qed.
