(* ===== verification/Settings.v ===== *)
(** * Setting the servers' settings converges

    With redis servers that remember what [CONFIG SET] tells them and list it on
    [CONFIG GET], the healing of the settings succeeds, the check it starts from
    passes on every server afterwards, and the next round sends no setting. The
    servers store an amount of memory as its number of bytes, so the comparison
    of the operator has to read amounts as they do. *)

From S2P Require Import Prelude GoStd Corev1 Api Samples Util Common Names Effects Repair K8s.
From S2P Require Import RedisClient SentinelCheck SentinelHeal StandaloneService Cache Handler SentinelHandler.
From S2P Require Import StandaloneHandler RedisProps HealProps Cluster.

#[export] Instance Options_eq : EqDecision Options.
Proof. solve_decision. Defined.

(** A setting that the laws below speak of: no amount of memory, or an amount
    nobody can read, or a number and a unit whose product fits 64 bits. *)
Definition fits (k v : string) : Prop :=
  is_memory_key k = true ->
  (exists err, ParseRedisMemConf v = inl err) \/
  (exists z u mul, v = FormatInt z ^^ u /\ 0 <= z /\ unit_value (ToLower u) = Some mul /\
     in_int64 (z * mul)).

(** Redis servers that can be reached with the options in [up]: [conf] is what
    each remembers, [accepts] says which settings it takes and [normal] in what
    form it keeps them. *)
Class ConfigServers {W} (env : Env W) (up : Options -> Prop) (conf : W -> Options -> StringMap)
    (accepts : string -> string -> Prop) (normal : string -> string -> string) : Prop := {
  config_get opt w : up opt -> exists l,
    (env (SliceCmd opt ["config"; "get"; "*"]) w).1 = inr (config_reply l) /\
    l ≡ₚ map_to_list (conf w opt);
  config_set opt k v w : up opt -> accepts k v -> exists s,
    (env (StatusCmd opt ["config"; "set"; k; v]) w).1 = inr s /\
    conf (env (StatusCmd opt ["config"; "set"; k; v]) w).2 opt = <[k := normal k v]> (conf w opt);
  config_kept e w opt : up opt -> (forall k v, e <> StatusCmd opt ["config"; "set"; k; v]) ->
    conf (env e w).2 opt = conf w opt;
  normal_text k v : is_memory_key k = false -> normal k v = v;
  normal_amount k z u mul : is_memory_key k = true -> 0 <= z ->
    unit_value (ToLower u) = Some mul -> in_int64 (z * mul) ->
    normal k (FormatInt z ^^ u) = FormatInt (z * mul)
}.

(** The two services run the same check and set the same settings. *)
Definition check_of (config : StringMap) (ip : string) (auth : AuthConfig) : prog (result unit) :=
  let? configs := GetAllRedisConfig (redis_options ip auth) in
  let* settings := range_map config in
  match check_settings configs settings with Some err => fail err | None => ok tt end.

Definition set_of (config : StringMap) (ip : string) (auth : AuthConfig) : prog (result unit) :=
  if bool_decide (config = ∅) && (auth_Password auth =? "")%string then ok tt
  else SetCustomRedisConfig ip config auth.

Lemma unit_value_pos u mul : unit_value u = Some mul -> 1 <= mul.
Proof.
  unfold unit_value. repeat (destruct (_ =? _)%string; [intros [= <-]; lia|]). done.
Qed.

(** The event changes no setting. *)
Definition no_set (e : Eff) : Prop := forall opt k v, e <> StatusCmd opt ["config"; "set"; k; v].

Section settings.
  Context {W : Type} (env : Env W) (up : Options -> Prop) (conf : W -> Options -> StringMap).
  Context (accepts : string -> string -> Prop) (normal : string -> string -> string).
  Context `{CS : !ConfigServers env up conf accepts normal}.
  Context (config : StringMap) (auth : AuthConfig).
  Context (Haccepts : forall k v, config !! k = Some v -> accepts k v).
  Context (Hfits : forall k v, config !! k = Some v -> fits k v).

Abbreviation opt_of ip := (redis_options ip auth).

(** The server agrees with every setting of the resource. *)
Definition settled (w : W) (ip : string) : Prop :=
  forall k v, config !! k = Some v -> agrees (conf w (opt_of ip)) k v.

(** What a server keeps agrees with what it was told. *)
Lemma kept_agrees c k v : fits k v -> c !! k = Some (normal k v) -> agrees c k v.
Proof.
  intros Hf Hk. unfold agrees. rewrite Hk. simpl. destruct (is_memory_key k) eqn:E.
  - destruct (Hf E) as [[err ->]|(z & u & mul & -> & Hz & Hu & Hm)]; [done|].
    rewrite (normal_amount k z u mul) by done. pose proof (unit_value_pos _ _ Hu).
    rewrite (ParseRedisMemConf_spec z u mul) by (done || unfold in_int64 in *; nia).
    by rewrite int64_id.
  - by rewrite normal_text.
Qed.

Lemma settings_kept {A} (p : prog A) w ip :
  up (opt_of ip) -> every no_set p -> conf (run env p w).2 (opt_of ip) = conf w (opt_of ip).
Proof.
  intros Hup. revert w; induction p as [a| | |e k IH]; intros w; simpl; try done.
  intros [He Hk]. pose proof (config_kept e w _ Hup (He _)) as Hc.
  destruct (env e w) as [r w1]. simpl in Hc. specialize (IH r w1 (Hk r)).
  destruct (run env (k r) w1) as [[o t] w2]. simpl in *. congruence.
Qed.

Lemma check_no_set ip : every no_set (check_of config ip auth).
Proof.
  unfold check_of, GetAllRedisConfig, range_map. every_walk; done.
Qed.

(** The check reads and says whether the server agrees. *)
Lemma check_run ip w :
  up (opt_of ip) ->
  exists r t w', run env (check_of config ip auth) w = (Returns r, t, w') /\
    (r = inr tt <-> settled w ip).
Proof.
  intros Hup. unfold check_of, GetAllRedisConfig. destruct (config_get _ w Hup) as (l & Hl & Hperm).
  simpl. destruct (env _ w) as [r w1]. simpl in Hl. subst r. simpl.
  rewrite config_pairs_reply. simpl. rewrite (fold_set_label _ (conf w (opt_of ip))) by done.
  rewrite (right_id_L ∅ (∪)). destruct (env Seed w1) as [seed w2].
  pose proof (check_settings_agree (conf w (opt_of ip)) (shuffle seed (map_to_list config))) as H.
  assert (check_settings (conf w (opt_of ip)) (shuffle seed (map_to_list config)) = None <-> settled w ip)
    as H'.
  { rewrite H. split.
    - intros Ha k v Hkv. apply (Ha (k, v)). rewrite shuffle_perm. by apply elem_of_map_to_list.
    - intros Ha [k v] Hkv. rewrite shuffle_perm in Hkv. by apply Ha, elem_of_map_to_list. }
  destruct (check_settings _ _) as [err|]; (eexists _, _, _; split; [reflexivity|]); rewrite <- H'.
  - by split.
  - by split.
Qed.

(** Setting the settings of a list: they are kept, whatever else was. *)
Lemma set_list_run ip l w :
  up (opt_of ip) -> (forall kv, kv ∈ l -> config !! kv.1 = Some kv.2) ->
  exists t w', run env (for_each l (fun kv => applyRedisConfig kv.1 kv.2 (opt_of ip))) w
      = (Returns (inr tt), t, w') /\
    (forall kv, kv ∈ l -> conf w' (opt_of ip) !! kv.1 = Some (normal kv.1 kv.2)) /\
    (forall k v, config !! k = Some v -> conf w (opt_of ip) !! k = Some (normal k v) ->
       conf w' (opt_of ip) !! k = Some (normal k v)) /\
    (forall ip', up (opt_of ip') -> opt_of ip' <> opt_of ip ->
       conf w' (opt_of ip') = conf w (opt_of ip')).
Proof.
  intros Hup. revert w; induction l as [|[k v] l IH]; intros w Hl.
  { eexists _, w. split; [reflexivity|]. split_and!; try done. by intros kv ?%elem_of_nil. }
  pose proof (Hl (k, v) ltac:(left)) as Hkv. simpl in Hkv.
  destruct (config_set _ k v w Hup (Haccepts _ _ Hkv)) as (s & Hs & Hc).
  cbn [for_each fst snd]. unfold applyRedisConfig at 1, try at 1 2, act. cbn [bind run].
  pose proof (fun ip' Hu Hne => config_kept (StatusCmd (opt_of ip) ["config"; "set"; k; v]) w (opt_of ip') Hu Hne)
    as Hother.
  destruct (env _ w) as [r w1]. simpl in Hs, Hc, Hother. subst r. cbn [bind ok run].
  destruct (IH w1) as (t & w' & E & Hdone & Hstay & Hoth); [intros kv H; apply Hl; by right|].
  rewrite E. eexists _, w'. split; [reflexivity|].
  assert (conf w1 (opt_of ip) !! k = Some (normal k v)) as H1 by (rewrite Hc; apply lookup_insert_eq).
  split_and!.
  - intros kv [->|H]%elem_of_cons; [by apply Hstay|by apply Hdone].
  - intros k' v' Hk' Hw. apply Hstay; [done|]. rewrite Hc. destruct (decide (k' = k)) as [->|Hne].
    + rewrite lookup_insert_eq. congruence.
    + by rewrite lookup_insert_ne.
  - intros ip' Hu Hne. rewrite Hoth by done. apply Hother; [done|]. intros k' v' Heq. congruence.
Qed.

(** Setting all of them settles the server, and unsettles none. *)
Lemma set_run ip w :
  up (opt_of ip) ->
  exists t w', run env (set_of config ip auth) w = (Returns (inr tt), t, w') /\
    settled w' ip /\ (forall ip', up (opt_of ip') -> settled w ip' -> settled w' ip').
Proof.
  intros Hup. unfold set_of. destruct (bool_decide (config = ∅) && (auth_Password auth =? "")%string) eqn:E.
  { eexists _, w. split; [reflexivity|]. split; [|done]. apply andb_true_iff in E as [E%bool_decide_eq_true_1 _].
    intros k v H. by rewrite E in H. }
  unfold SetCustomRedisConfig, range_map. rewrite run_bind. simpl.
  pose proof (fun ip' Hu => config_kept (conf := conf) Seed w (opt_of ip') Hu ltac:(done)) as Hseed.
  destruct (env Seed w) as [seed w1]. simpl in *.
  destruct (set_list_run ip (shuffle seed (map_to_list config)) w1 Hup) as (t & w' & E' & Hdone & _ & Hoth).
  { intros [k v]. rewrite shuffle_perm. apply elem_of_map_to_list. }
  change (setOptions ip redisPort auth) with (opt_of ip). rewrite E'.
  assert (settled w' ip) as Hs.
  { intros k v Hkv. apply kept_agrees; [by apply Hfits|]. apply (Hdone (k, v)).
    rewrite shuffle_perm. by apply elem_of_map_to_list. }
  eexists _, w'. split; [reflexivity|]. split; [done|]. intros ip' Hu Hs'.
  destruct (decide (opt_of ip' = opt_of ip)) as [Heq|Hne].
  - intros k v Hkv. rewrite Heq. by apply Hs.
  - intros k v Hkv. rewrite Hoth, Hseed by done. by apply Hs'.
Qed.

(** *** One server *)

Lemma spared (w w' : W) :
  (forall ip, up (opt_of ip) -> conf w' (opt_of ip) = conf w (opt_of ip)) ->
  spares (fun ip => up (opt_of ip)) settled w w'.
Proof. intros H ip Hu Hs k v Hkv. rewrite H by done. by apply Hs. Qed.

Lemma check_tells ip w :
  up (opt_of ip) ->
  exists r t w', run env (check_of config ip auth) w = (Returns r, t, w') /\
    (r = inr tt <-> settled w ip) /\ spares (fun ip => up (opt_of ip)) settled w w'.
Proof.
  intros Hup. destruct (check_run ip w Hup) as (r & t & w1 & E & Hr).
  exists r, t, w1. split; [done|]. split; [done|]. apply spared. intros ip' Hu.
  pose proof (settings_kept (check_of config ip auth) w ip' Hu (check_no_set ip)) as H.
  by rewrite E in H.
Qed.

(** The repair: an event is recorded, then the settings are set. *)
Lemma repair_settles (note : prog unit) ip w :
  every no_set note -> returns note -> up (opt_of ip) ->
  exists t w', run env (let* _ := note in set_of config ip auth) w = (Returns (inr tt), t, w') /\
    settled w' ip /\ spares (fun ip => up (opt_of ip)) settled w w'.
Proof.
  intros Hnote Hret Hup. destruct (run env note w) as [[o t2] w2] eqn:E2. rewrite run_bind, E2.
  pose proof (run_wp _ _ _ _ _ _ _ Hret E2) as Ho. destruct o as [u| |]; [|done..].
  assert (spares (fun ip => up (opt_of ip)) settled w w2) as Hs.
  { apply spared. intros ip' Hu. pose proof (settings_kept note w ip' Hu Hnote) as H.
    by rewrite E2 in H. }
  destruct (set_run ip w2 Hup) as (t3 & w3 & -> & Hs3 & Hk3).
  eexists _, w3. split; [reflexivity|]. split; [done|]. intros y Hy Hg. by apply Hk3, Hs.
Qed.
End settings.

Section converge.
  Context {W : Type} (env : Env W) (up : Options -> Prop) (conf : W -> Options -> StringMap).
  Context (accepts : string -> string -> Prop) (normal : string -> string -> string).
  Context `{CS : !ConfigServers env up conf accepts normal}.

(** The step [p] of a handler, which finds the servers with [find]: if their
    settings can be set, it settles all of them, and to look after them again
    sends no setting. *)
Definition sets_settings (find : prog (result (list string))) (config : StringMap) (auth : AuthConfig)
    (note : prog unit) (p : prog (result unit)) : Prop :=
  (forall k v, config !! k = Some v -> accepts k v /\ fits k v) ->
  repairs env (fun ip => check_of config ip auth) (fun ip => let* _ := note in set_of config ip auth)
    (fun ip => up (redis_options ip auth)) (settled conf config auth) no_set find p.

Lemma sets_settings_loop find config auth note :
  every no_set note -> returns note ->
  sets_settings find config auth note (try find (repair_loop (fun ip => check_of config ip auth)
    (fun ip => let* _ := note in set_of config ip auth))).
Proof.
  intros Hnote Hret Hc. apply repairs_found.
  - intros ip w Hip.
    apply (tells_at_once env (fun ip => check_of config ip auth) (fun ip => up (redis_options ip auth))
      (settled conf config auth)); [done|]. by apply (check_tells env up conf accepts normal).
  - intros ip. apply check_no_set.
  - intros ip w Hip. apply (repair_settles env up conf accepts normal); try done;
      intros k v Hkv; by apply Hc.
Qed.

(** C8: Setting the settings converges. If the servers found can be reached,
    remember what they are told and take the resource's settings, then
    [setRedisConfig] of either handler succeeds; afterwards every server agrees
    with every setting, amounts of memory compared as bytes, also where the
    server had them otherwise or not at all; and another round over the same
    servers succeeds without sending a setting. *)
Theorem setRedisConfig_converges rc rs m :
  sets_settings (SentinelCheck.GetRedisesIPs rc (Auth m)) (config_of (redis (Spec rc))) (Auth m)
    (SentinelHandler.notify rc (fun k o =>
       Event.UpdateSentinelStatus k o "set custom config for redis server"))
    (SentinelHandler.setRedisConfig rc m) /\
  sets_settings (StandaloneService.GetRedisesIPs rs) (config_of (Spec rs)) (Auth m)
    (StandaloneHandler.notify rs (fun k o =>
       Event.UpdateSentinelStatus k o "set custom config for redis server"))
    (StandaloneHandler.setRedisConfig rs m).
Proof. split; by apply sets_settings_loop. Qed.
End converge.

(** ** Witness: the sample cluster's servers, by address *)

Definition stored (k v : string) : string :=
  if is_memory_key k then match ParseRedisMemConf v with inr bytes => bytes | inl _ => v end else v.

Definition trusted (opt : Options) : Prop := opt_Password opt = "s3cret" /\ DB opt = 0.
#[export] Instance trusted_dec opt : Decision (trusted opt).
Proof. unfold trusted. apply _. Defined.

Definition memory (w : gmap string StringMap) (opt : Options) : StringMap := default ∅ (w !! Addr opt).

Definition config_set_cmd (opt : Options) (args : list string) (w : gmap string StringMap)
    : gmap string StringMap :=
  if decide (trusted opt) then
    match args with
    | [a; b; k; v] =>
        if bool_decide (a = "config" /\ b = "set")
        then <[Addr opt := <[k := stored k v]> (memory w opt)]> w else w
    | _ => w
    end
  else w.

Definition config_server : Env (gmap string StringMap) := fun e =>
  match e return gmap string StringMap -> resp e * gmap string StringMap with
  | Get k _ _ => fun w =>
      (match k return result (object k) with KStatefulSet => inr redisSet | _ => inl notFound end, w)
  | Create _ _ => fun w => (inr tt, w)
  | Update _ o => fun w => (inr o, w)
  | StatusUpdate _ o => fun w => (inr o, w)
  | Delete _ _ => fun w => (inr tt, w)
  | List k _ _ => fun w =>
      (match k return result (list (object k)) with KPod => inr samplePods | _ => inr [] end, w)
  | StringCmd _ _ => fun w => (inl refused, w)
  | SliceCmd opt _ => fun w =>
      (if decide (trusted opt) then inr (config_reply (map_to_list (memory w opt))) else inl refused, w)
  | IntCmd _ _ => fun w => (inl refused, w)
  | BoolCmd _ _ => fun w => (inl refused, w)
  | StatusCmd opt args => fun w =>
      (if decide (trusted opt) then inr "OK" else inl refused, config_set_cmd opt args w)
  | Now => fun w => (0, w)
  | Sleep _ => fun w => (tt, w)
  | Seed => fun w => ([], w)
  | RecordEvent _ _ _ _ _ _ => fun w => (tt, w)
  | SetGauge _ _ _ => fun w => (tt, w)
  | DeleteGauge _ _ => fun w => (tt, w)
  end.

Lemma config_set_cmd_other opt args w opt' :
  trusted opt' -> (forall k v, StatusCmd opt args <> StatusCmd opt' ["config"; "set"; k; v]) ->
  memory (config_set_cmd opt args w) opt' = memory w opt'.
Proof.
  intros [Hp Hd] Hne. unfold config_set_cmd. destruct (decide (trusted opt)) as [[Hp' Hd']|]; [|done].
  destruct args as [|a [|b [|k [|v [|? ?]]]]]; try done.
  case_bool_decide as H; [|done]. destruct H as [-> ->].
  unfold memory. rewrite lookup_insert_ne; [done|]. intros E. apply (Hne k v). f_equal.
  destruct opt, opt'. simpl in *. congruence.
Qed.

#[export] Instance config_server_laws :
  ConfigServers config_server trusted memory (fun _ _ => True) stored.
Proof.
  split.
  - intros opt w Hup. exists (map_to_list (memory w opt)). simpl. by rewrite decide_True.
  - intros opt k v w Hup _. exists "OK". simpl. unfold config_set_cmd. rewrite !decide_True by done.
    split; [done|]. rewrite bool_decide_true by done. unfold memory. by rewrite lookup_insert_eq.
  - intros [] w opt' Hup He; try done. by apply config_set_cmd_other.
  - intros k v Hk. unfold stored. by rewrite Hk.
  - intros k z u mul Hk Hz Hu Hm. unfold stored. rewrite Hk. pose proof (unit_value_pos _ _ Hu).
    rewrite (ParseRedisMemConf_spec z u mul) by (done || unfold in_int64 in *; nia).
    by rewrite int64_id.
Qed.

(** A resource with two settings, one an amount of memory. *)
Definition tunedSentinel : RedisSentinel :=
  mkResource (meta sampleSentinel)
    (mkSentinelSpec (set_Config (Some {[ "maxmemory" := "2GB"; "save" := "60 1" ]}) sampleSpec)
       sampleSettings) emptyStatus.

Lemma tuned_fits k v : config_of (redis (Spec tunedSentinel)) !! k = Some v -> True /\ fits k v.
Proof.
  intros Hkv. split; [done|]. intros Hk. right.
  change (config_of _) with ({[ "maxmemory" := "2GB"; "save" := "60 1" ]} : StringMap) in Hkv.
  apply lookup_insert_Some in Hkv as [[<- <-]|[_ Hkv]].
  - exists 2, "GB", 1073741824. by vm_compute.
  - apply lookup_singleton_Some in Hkv as [<- <-]. discriminate Hk.
Qed.

Lemma setRedisConfig_converges_witness :
  exists t w, run config_server (SentinelHandler.setRedisConfig tunedSentinel sampleEntry) ∅
      = (Returns (inr tt), t, w) /\
    settled memory (config_of (redis (Spec tunedSentinel))) (Auth sampleEntry) w "10.0.0.2".
Proof.
  destruct (proj1 (setRedisConfig_converges config_server trusted memory (fun _ _ => True) stored
    tunedSentinel sampleStandalone sampleEntry) tuned_fits ∅ ["10.0.0.1"; "10.0.0.2"; "10.0.0.3"]
    (run config_server (SentinelCheck.GetRedisesIPs tunedSentinel (Auth sampleEntry)) ∅).1.2 ∅)
    as (t & w & E & Hs & _).
  - vm_compute. reflexivity.
  - intros ip _. by split.
  - exists t, w. split; [exact E|]. apply Hs. right. left.
Defined.

(** What the second server remembers. *)
Example tuned_memory :
  (run config_server (SentinelHandler.setRedisConfig tunedSentinel sampleEntry) ∅).2 !! "10.0.0.2:6379" =
  Some ({[ "maxmemory" := "2147483648"; "save" := "60 1" ]} : StringMap).
Proof. vm_compute. reflexivity. Qed.
