(* ===== verification/Monitors.v ===== *)
(** * Pointing the sentinels at the master converges

    With sentinels that watch what they are told to watch, one round of
    [heal_monitors] ends with every sentinel watching the master, whatever each
    watched before, and the next round only asks. *)

From S2P Require Import Prelude GoStd Corev1 Api Samples Util Common Names Effects Repair K8s.
From S2P Require Import RedisClient SentinelGen SentinelCheck SentinelHeal Cache Handler.
From S2P Require Import SentinelHandler Cluster Settings.

(** The client of a sentinel: without the password. *)
Definition sentinel_options (ip : string) : Options := mkOptions (JoinHostPort ip "26379") "" 0.

(** The commands that change which master a sentinel watches. *)
Definition watch_command (opt : Options) (e : Eff) : Prop :=
  exists args, e = BoolCmd opt args.

(** Sentinels that can be reached: [watched] is the address each watches under
    the master's name, and [known] says which addresses it takes. *)
Class Sentinels {W} (env : Env W) (up : Options -> Prop) (watched : W -> Options -> option string)
    (known : string -> Prop) : Prop := {
  sentinel_master opt w : up opt ->
    match watched w opt with
    | Some m => exists reply,
        (env (SliceCmd opt ["SENTINEL"; "master"; masterName]) w).1 = inr reply /\
        reply !! 3%nat = Some (VString m)
    | None => exists err, (env (SliceCmd opt ["SENTINEL"; "master"; masterName]) w).1 = inl err
    end;
  sentinel_remove opt w : up opt ->
    watched (env (BoolCmd opt ["SENTINEL"; "REMOVE"; masterName]) w).2 opt = None;
  sentinel_monitor opt m port quorum w : up opt -> known m -> watched w opt = None ->
    let e := BoolCmd opt ["SENTINEL"; "MONITOR"; masterName; m; port; quorum] in
    (exists b, (env e w).1 = inr b) /\ watched (env e w).2 opt = Some m;
  sentinel_set opt k v w : up opt -> watched w opt <> None ->
    exists s, (env (StatusCmd opt ["SENTINEL"; "SET"; masterName; k; v]) w).1 = inr s;
  sentinel_kept e w opt : up opt -> ~ watch_command opt e ->
    watched (env e w).2 opt = watched w opt
}.

(** The request changes nothing on a sentinel. *)
Definition only_asks (e : Eff) : Prop :=
  match e with BoolCmd _ _ | StatusCmd _ _ | IntCmd _ _ => False | _ => True end.

Section monitors.
  Context {W : Type} (env : Env W) (up : Options -> Prop) (watched : W -> Options -> option string).
  Context (known : string -> Prop) `{SL : !Sentinels env up watched known}.
  Context (rc : RedisSentinel) (auth : AuthConfig) (master : string) (Hknown : known master).

Definition up_ip (ip : string) : Prop := up (sentinel_options ip).
Definition watching (w : W) (ip : string) : Prop := watched w (sentinel_options ip) = Some master.

Lemma not_watch e opt : (forall args, e <> BoolCmd opt args) -> ~ watch_command opt e.
Proof. intros H [args ->]. by apply (H args). Qed.

Lemma monitor_check_tells ip w :
  up_ip ip ->
  exists r t w', run env (CheckSentinelMonitor ip master auth) w = (Returns r, t, w') /\
    (r = inr tt <-> watching w ip) /\ spares up_ip watching w w'.
Proof.
  intros Hup. unfold CheckSentinelMonitor, GetSentinelMonitor.
  change (setOptions ip sentinelPort auth) with (sentinel_options ip).
  pose proof (sentinel_master _ w Hup) as Hm. unfold watching.
  pose proof (fun ip' Hu => sentinel_kept (SliceCmd (sentinel_options ip) ["SENTINEL"; "master"; masterName])
    w (sentinel_options ip') Hu ltac:(apply not_watch; done)) as Hk.
  unfold try at 1 2, act. cbn [bind run]. destruct (env _ w) as [r w1]. simpl in Hm, Hk.
  assert (spares up_ip watching w w1) as Hs by (intros y Hy Hg; unfold watching; by rewrite Hk).
  destruct (watched w (sentinel_options ip)) as [m|].
  - destruct Hm as (reply & -> & H3). simpl. rewrite H3. simpl.
    destruct (String.eqb_spec m master) as [->|Hne]; simpl.
    + by eexists _, _, w1.
    + eexists _, _, w1. split; [reflexivity|]. split; [|done]. split; [done|congruence].
  - destruct Hm as [err ->]. simpl. eexists _, _, w1. split; [reflexivity|]. by split.
Qed.

(** *** The repair *)

(** Since [w0] only the sentinel [opt] has changed; it watches [m]. *)
Definition now_watching (w0 : W) (opt : Options) (m : option string) (w : W) : Prop :=
  watched w opt = m /\
  forall opt', up opt' -> opt' <> opt -> watched w opt' = watched w0 opt'.

Lemma other_watch_command opt opt' args :
  opt' <> opt -> ~ watch_command opt' (BoolCmd opt args).
Proof. intros Hne [args' [= E]]. congruence. Qed.

Lemma remove_triple w0 opt :
  up opt -> triple env (fun w => forall opt', up opt' -> opt' <> opt -> watched w opt' = watched w0 opt')
    (act (BoolCmd opt ["SENTINEL"; "REMOVE"; masterName])) (fun _ => now_watching w0 opt None).
Proof.
  intros Hup. apply triple_act. intros w Hw. split; [by apply sentinel_remove|].
  intros opt' Hu Hne. rewrite sentinel_kept by (done || by apply other_watch_command). by apply Hw.
Qed.

Lemma monitor_triple w0 opt m port quorum :
  up opt -> known m -> triple env (now_watching w0 opt None)
    (act (BoolCmd opt ["SENTINEL"; "MONITOR"; masterName; m; port; quorum]))
    (fun r w => match r with inl _ => False | inr _ => now_watching w0 opt (Some m) w end).
Proof.
  intros Hup Hm. apply triple_act. intros w [Hn Hw].
  destruct (sentinel_monitor opt m port quorum w Hup Hm Hn) as [[b ->] Hs]. split; [done|].
  intros opt' Hu Hne. rewrite sentinel_kept by (done || by apply other_watch_command). by apply Hw.
Qed.

(** One setting, and what follows it. *)
Lemma set_triple {A} w0 opt m k v (f : prog (result A)) Q :
  up opt -> triple env (now_watching w0 opt (Some m)) f Q ->
  triple env (now_watching w0 opt (Some m))
    (try (act (StatusCmd opt ["SENTINEL"; "SET"; masterName; k; v])) (fun _ => f)) Q.
Proof.
  intros Hup Hf. eapply (triple_try _ _ _ _ (fun _ => now_watching w0 opt (Some m))); [|by intros _].
  refine (triple_act env _ (StatusCmd opt ["SENTINEL"; "SET"; masterName; k; v])
    (fun r w => match r with inl err => Q (inl err) w | inr _ => now_watching w0 opt (Some m) w end) _).
  intros w [Hm Hw]. assert (watched w opt <> None) as Hsome by congruence.
  destruct (sentinel_set opt k v w Hup Hsome) as [s ->].
  assert (forall opt', up opt' -> watched (env (StatusCmd opt ["SENTINEL"; "SET"; masterName; k; v]) w).2 opt'
    = watched w opt') as Hk by (intros opt' Hu; apply sentinel_kept; [done|]; by apply not_watch).
  split; [by rewrite Hk|]. intros opt' Hu Hne. rewrite Hk by done. by apply Hw.
Qed.

Lemma monitor_repairs ip w :
  up_ip ip ->
  exists t w', run env (NewSentinelMonitor ip master rc auth) w = (Returns (inr tt), t, w') /\
    watching w' ip /\ spares up_ip watching w w'.
Proof.
  intros Hup. assert (triple env (eq w) (NewSentinelMonitor ip master rc auth) (fun r w' =>
    r = inr tt /\ now_watching w (sentinel_options ip) (Some master) w')) as H.
  { unfold NewSentinelMonitor, MonitorRedis.
    change (setOptions ip sentinelPort auth) with (sentinel_options ip).
    eapply triple_bind; [eapply triple_conseq, remove_triple; [|done|done]; by intros w1 <-|].
    intros removed. eapply triple_try.
    { eapply triple_conseq, monitor_triple; [done| |done|done]. intros [err|b]; [done|].
      exact (fun w H => H). }
    intros done_. cbv beta.
    eapply (triple_try _ _ _ _ (fun _ => now_watching w (sentinel_options ip) (Some master))).
    { destruct (negb _); [apply set_triple; [done|]|]; by apply triple_ret. }
    intros u. do 3 (apply set_triple; [done|]). by apply triple_ret. }
  destruct (H w eq_refl) as (r & t & w' & E & -> & Hw & Ho). exists t, w'. split; [done|].
  split; [done|]. intros y Hy Hg. unfold watching.
  destruct (decide (sentinel_options y = sentinel_options ip)) as [->|Hne]; [done|]. by rewrite Ho.
Qed.

Lemma monitor_check_asks ip : every only_asks (CheckSentinelMonitor ip master auth).
Proof. unfold CheckSentinelMonitor, GetSentinelMonitor. every_walk; done. Qed.
End monitors.

(** C12: The sentinels are pointed at the master. If the sentinels found can be
    reached, watch what they are told to watch and take the master's address,
    then the step of [CheckAndHeal] that looks after them succeeds; afterwards
    each watches the master, whatever it watched before; and to look after them
    again only asks. *)
Theorem heal_monitors_converges {W} (env : Env W) (up : Options -> Prop)
    (watched : W -> Options -> option string) (known : string -> Prop)
    `{!Sentinels env up watched known} rc m master :
  known master ->
  repairs env (fun sip => CheckSentinelMonitor sip master (Auth m))
    (fun sip => NewSentinelMonitor sip master rc (Auth m))
    (up_ip up) (watching watched master) only_asks (GetSentinelsIPs rc)
    (let? sentinels := GetSentinelsIPs rc in heal_monitors rc m master sentinels).
Proof.
  intros Hknown. apply repairs_found.
  - intros ip w Hip.
    apply (tells_at_once env (fun sip => CheckSentinelMonitor sip master (Auth m)) (up_ip up)
      (watching watched master)); [done|]. by apply (monitor_check_tells env up watched known).
  - intros ip. apply monitor_check_asks.
  - intros ip w Hip. by apply (monitor_repairs env up watched known).
Qed.

(** ** Witness: three sentinels, by address *)

Definition plain (opt : Options) : Prop := opt_Password opt = "" /\ DB opt = 0.
#[export] Instance plain_dec opt : Decision (plain opt).
Proof. unfold plain. apply _. Defined.

Definition watch_of (w : gmap string string) (opt : Options) : option string := w !! Addr opt.

(** [SENTINEL REMOVE] has three words, [SENTINEL MONITOR] six. *)
Definition watch_cmd (opt : Options) (args : list string) (w : gmap string string) : gmap string string :=
  if decide (plain opt) then
    match args with
    | [_; _; _] => delete (Addr opt) w
    | [_; _; _; m; _; _] => <[Addr opt := m]> w
    | _ => w
    end
  else w.

Definition sentinel_server : Env (gmap string string) := fun e =>
  match e return gmap string string -> resp e * gmap string string with
  | Get k _ _ => fun w =>
      (match k return result (object k) with KStatefulSet => inr (sentinelSet 3) | _ => inl notFound end, w)
  | Create _ _ => fun w => (inr tt, w)
  | Update _ o => fun w => (inr o, w)
  | StatusUpdate _ o => fun w => (inr o, w)
  | Delete _ _ => fun w => (inr tt, w)
  | List k _ _ => fun w =>
      (match k return result (list (object k)) with KPod => inr samplePods | _ => inr [] end, w)
  | StringCmd _ _ => fun w => (inl refused, w)
  | SliceCmd opt _ => fun w =>
      (match watch_of w opt with
       | Some m => inr [VString "name"; VString masterName; VString "ip"; VString m]
       | None => inl (errors_New "ERR No such master with that name")
       end, w)
  | IntCmd _ _ => fun w => (inl refused, w)
  | BoolCmd opt args => fun w => (inr true, watch_cmd opt args w)
  | StatusCmd _ _ => fun w => (inr "OK", w)
  | Now => fun w => (0, w)
  | Sleep _ => fun w => (tt, w)
  | Seed => fun w => ([], w)
  | RecordEvent _ _ _ _ _ _ => fun w => (tt, w)
  | SetGauge _ _ _ => fun w => (tt, w)
  | DeleteGauge _ _ => fun w => (tt, w)
  end.

#[export] Instance sentinel_server_laws : Sentinels sentinel_server plain watch_of (fun _ => True).
Proof.
  split.
  - intros opt w _. simpl. destruct (watch_of w opt); by eexists.
  - intros opt w Hup. simpl. unfold watch_cmd, watch_of. rewrite decide_True by done.
    apply lookup_delete_eq.
  - intros opt m port quorum w Hup _ _. simpl. split; [by eexists|].
    unfold watch_cmd, watch_of. rewrite decide_True by done. apply lookup_insert_eq.
  - intros opt k v w _ _. by eexists.
  - intros e w opt [Hp Hd] Hne. destruct e as [| | | | | | | | |opt' args| | | | | | | ]; try done. simpl. unfold watch_cmd.
    destruct (decide (plain opt')) as [[Hp' Hd']|]; [|done].
    assert (Addr opt' <> Addr opt) as Ha.
    { intros E. apply Hne. exists args. destruct opt, opt'. simpl in *. congruence. }
    unfold watch_of. destruct args as [|? [|? [|? [|? [|? [|? [|? ?]]]]]]]; try done.
    + by apply lookup_delete_ne.
    + by apply lookup_insert_ne.
Qed.

(** One sentinel watches a server that is gone, one the master, one nothing. *)
Definition stray : gmap string string :=
  {[ "10.0.0.1:26379" := "10.0.0.9"; "10.0.0.2:26379" := "10.0.0.2" ]}.

Lemma heal_monitors_converges_witness :
  exists t w, run sentinel_server (let? sentinels := GetSentinelsIPs sampleSentinel in
      heal_monitors sampleSentinel sampleEntry "10.0.0.2" sentinels) stray = (Returns (inr tt), t, w) /\
    watching watch_of "10.0.0.2" w "10.0.0.1" /\ watching watch_of "10.0.0.2" w "10.0.0.3".
Proof.
  destruct (heal_monitors_converges sentinel_server plain watch_of (fun _ => True) sampleSentinel sampleEntry
    "10.0.0.2" I stray ["10.0.0.1"; "10.0.0.2"; "10.0.0.3"]
    (run sentinel_server (GetSentinelsIPs sampleSentinel) stray).1.2 stray) as (t & w & E & Hs & _).
  - vm_compute. reflexivity.
  - intros ip _. by split.
  - exists t, w. split; [exact E|]. split; apply Hs; [left|right; right; left].
Defined.
