(* ===== verification/Healthy.v ===== *)
(** * A healthy cluster is left alone

    If every answer [CheckAndHeal] gets is the answer of a healthy cluster (one
    master that all servers follow, settings that agree, sentinels that watch
    the master and know each other) then it succeeds and has only asked: no
    server is told anything and no event is recorded. *)

From S2P Require Import Prelude GoStd Corev1 Api Samples Util Common Names Effects K8s RedisClient.
From S2P Require Import SentinelGen SentinelCheck SentinelHeal Cache Handler SentinelHandler.
From S2P Require Import RedisProps HealProps Convergence Cluster.

(** ** Programs that stay calm *)

(** As long as the answers are as expected, [p] returns [a] and makes only
    requests in [R]. *)
Definition calm {A} (expected : event -> Prop) (R : Eff -> Prop) (p : prog A) (a : A) : Prop :=
  wp p (fun t o => Forall expected t -> o = Returns a /\ Forall (fun e => R (projT1 e)) t).

Section calm.
  Context (expected : event -> Prop) (R : Eff -> Prop).
  Abbreviation calm := (calm expected R).

Lemma calm_ret {A} (a : A) : calm (Ret a) a.
Proof. by split. Qed.

Lemma calm_request {A} e (k : resp e -> prog A) a :
  R e -> (forall r, expected (ev e r) -> calm (k r) a) -> calm (Act e k) a.
Proof.
  intros He Hk r. apply wp_mono with (Q := fun t o => expected (ev e r) -> Forall expected t ->
    o = Returns a /\ Forall (fun e => R (projT1 e)) t).
  - intros t o H [Hr Ht]%Forall_cons. destruct (H Hr Ht) as [-> HR]. split; [done|by constructor].
  - apply wp_impl. by apply Hk.
Qed.

Lemma calm_bind {A B} (m : prog A) (f : A -> prog B) a b :
  calm m a -> calm (f a) b -> calm (bind m f) b.
Proof.
  intros Hm Hf. apply wp_bind. eapply wp_mono, Hm. intros t o Ho.
  assert (forall o', o <> Returns a -> Forall expected t ->
    o' = Returns b /\ Forall (fun e => R (projT1 e)) t) as Hno.
  { intros o' Hne Ht. by destruct (Ho Ht) as [-> _]. }
  destruct o as [a'| |]; [|by intros Ht; apply Hno|by intros Ht; apply Hno].
  eapply wp_mono with (Q := fun t' o => a' = a -> Forall expected t' ->
    o = Returns b /\ Forall (fun e => R (projT1 e)) t').
  - intros t' o' H [Ht Ht']%Forall_app. destruct (Ho Ht) as [[= ->] HR].
    destruct (H eq_refl Ht') as [-> HR']. split; [done|by apply Forall_app].
  - apply wp_impl. by intros ->.
Qed.

Lemma calm_try {A B} (m : prog (result A)) (f : A -> prog (result B)) a b :
  calm m (inr a) -> calm (f a) b -> calm (try m f) b.
Proof. intros Hm Hf. by apply (calm_bind _ _ (inr a)). Qed.

Lemma calm_for_each {X} (xs : list X) f :
  (forall x, x ∈ xs -> calm (f x) (inr tt)) -> calm (for_each xs f) (inr tt).
Proof.
  induction xs as [|x xs IH]; intros Hf; [apply calm_ret|]. apply (calm_try _ _ tt); [apply Hf; left|].
  apply IH. intros y Hy. apply Hf. by right.
Qed.

Lemma calm_fold_each {X B} (xs : list X) (b : B) f step :
  (forall b x, x ∈ xs -> calm (f b x) (inr (step b x))) ->
  calm (fold_each xs b f) (inr (fold_left step xs b)).
Proof.
  revert b; induction xs as [|x xs IH]; intros b Hf; [apply calm_ret|].
  apply (calm_try _ _ (step b x)); [apply Hf; left|]. apply IH. intros b' y Hy. apply Hf. by right.
Qed.
End calm.

(** ** The answers of a healthy cluster *)

(** What the healing asks, and nothing else. *)
Definition asks (e : Eff) : Prop :=
  match e with
  | Get _ _ _ | List _ _ _ | StringCmd _ _ | SliceCmd _ _ | Seed => True
  | _ => False
  end.

Section healthy.
  Context (rc : RedisSentinel) (auth : AuthConfig) (master : string).
  Context (rset sset : StatefulSet) (rlabels slabels : StringMap) (rpods spods : list Pod).

(** The StatefulSets have the sizes of the specification, all pods are ready,
    and the master is one of the running ones. *)
Record complete : Prop := {
  redis_size : ss_Replicas rset = Some (Size (redis (Spec rc)));
  redis_ready : ss_ReadyReplicas rset = Size (redis (Spec rc));
  redis_selector : ss_Selector rset = Some rlabels;
  sentinel_size : ss_Replicas sset = Some (Replicas (Sentinel (Spec rc)));
  sentinel_ready : ss_ReadyReplicas sset = Replicas (Sentinel (Spec rc));
  sentinel_selector : ss_Selector sset = Some slabels;
  selectors_differ : rlabels <> slabels;
  one_master : List.filter (fun ip => (ip =? master)%string) (running_ips rpods) = [master]
}.

Definition healthy_replication (ip info : string) : Prop :=
  Contains info redisRoleMaster = (ip =? master)%string /\
  redisMasterHostRE info = (if (ip =? master)%string then None else Some master).

Definition healthy_sentinel (info : string) : Prop :=
  isSentinelReady info = None /\
  exists digits n, sentinelNumberRE info = Some digits /\ Atoi digits = inr n /\
    int32 n = Replicas (Sentinel (Spec rc)).

(** A slave that may be made the master. *)
Definition eligible (blob : value) : Prop :=
  exists fields priority, blob = VArray fields /\
    slave_field "slave-priority" fields = Some priority /\ priority <> "0".

(** The answer to a request is that of the healthy cluster. *)
Definition as_healthy (e : event) : Prop :=
  match e with
  | existT e r =>
      match e return resp e -> Prop with
      | Get KStatefulSet _ name => fun r =>
          (name = Names.Sentinel.GetRedisName rc -> r = inr rset) /\
          (name = Names.Sentinel.GetSentinelName rc -> r = inr sset)
      | List KPod _ labels => fun r =>
          (labels = rlabels -> r = inr rpods) /\ (labels = slabels -> r = inr spods)
      | StringCmd opt args => fun r => exists info, r = inr info /\
          (args = ["info"; "replication"] ->
           forall ip, opt = redis_options ip auth -> healthy_replication ip info) /\
          (args = ["info"; "sentinel"] -> healthy_sentinel info)
      | SliceCmd opt args => fun r => exists reply, r = inr reply /\
          (args = ["config"; "get"; "*"] -> exists configs, config_pairs ∅ reply = Some configs /\
             forall k v, config_of (redis (Spec rc)) !! k = Some v -> agrees configs k v) /\
          (args = ["SENTINEL"; "master"; masterName] -> reply !! 3%nat = Some (VString master)) /\
          (args = ["sentinel"; "slaves"; masterName] -> Forall eligible reply /\
             Z.of_nat (length reply) = Size (redis (Spec rc)) - 1)
      | _ => fun _ => True
      end r
  end.

(** ** Each check passes *)

Context (HC : complete).
Abbreviation still := (calm as_healthy asks).

Lemma still_redis_set : still (GetStatefulSet (Namespace (meta rc)) (Names.Sentinel.GetRedisName rc)) (inr rset).
Proof. apply calm_request; [done|]. intros r [H _]. rewrite H by done. apply calm_ret. Qed.

Lemma still_sentinel_set :
  still (GetStatefulSet (Namespace (meta rc)) (Names.Sentinel.GetSentinelName rc)) (inr sset).
Proof. apply calm_request; [done|]. intros r [_ H]. rewrite H by done. apply calm_ret. Qed.

Lemma still_redis_pods :
  still (GetStatefulSetPods (Namespace (meta rc)) (Names.Sentinel.GetRedisName rc)) (inr rpods).
Proof.
  apply (calm_try _ _ _ _ rset); [apply still_redis_set|]. unfold listSelected.
  rewrite (redis_selector HC). apply calm_request; [done|]. intros r [H _]. rewrite H by done.
  apply calm_ret.
Qed.

Lemma still_sentinel_pods :
  still (GetStatefulSetPods (Namespace (meta rc)) (Names.Sentinel.GetSentinelName rc)) (inr spods).
Proof.
  apply (calm_try _ _ _ _ sset); [apply still_sentinel_set|]. unfold listSelected.
  rewrite (sentinel_selector HC). apply calm_request; [done|]. intros r [_ H]. rewrite H by done.
  apply calm_ret.
Qed.

Lemma still_redises : still (SentinelCheck.GetRedisesIPs rc auth) (inr (running_ips rpods)).
Proof. apply (calm_try _ _ _ _ rpods); [apply still_redis_pods|apply calm_ret]. Qed.

Lemma still_sentinels : still (GetSentinelsIPs rc) (inr (running_ips spods)).
Proof. apply (calm_try _ _ _ _ spods); [apply still_sentinel_pods|apply calm_ret]. Qed.

Lemma still_redis_number : still (SentinelCheck.CheckRedisNumber rc) (inr tt).
Proof.
  apply (calm_try _ _ _ _ rset); [apply still_redis_set|].
  rewrite (redis_size HC), (redis_ready HC). cbn [or_panic bind]. rewrite Z.eqb_refl. apply calm_ret.
Qed.

Lemma still_sentinel_number : still (CheckSentinelNumber rc) (inr tt).
Proof.
  apply (calm_try _ _ _ _ sset); [apply still_sentinel_set|].
  rewrite (sentinel_size HC). cbn [or_panic bind]. rewrite Z.eqb_refl. apply calm_ret.
Qed.

Lemma still_sentinel_ready : still (EnsureSentinelReady rc) (inr tt).
Proof.
  apply (calm_try _ _ _ _ sset); [apply still_sentinel_set|].
  rewrite (sentinel_ready HC), Z.eqb_refl. apply calm_ret.
Qed.

Lemma still_is_master ip : still (IsMaster ip auth) (inr (ip =? master)%string).
Proof.
  unfold IsMaster. rewrite redis_setOptions. apply calm_request; [done|].
  intros r (info & -> & H & _). destruct (H eq_refl ip eq_refl) as [E _]. cbn [bind].
  rewrite E. apply calm_ret.
Qed.

Lemma still_master_of ip :
  still (GetSlaveMasterIP ip auth) (inr (if (ip =? master)%string then "" else master)).
Proof.
  unfold GetSlaveMasterIP. rewrite redis_setOptions. apply calm_request; [done|].
  intros r (info & -> & H & _). destruct (H eq_refl ip eq_refl) as [_ E]. cbn [bind].
  rewrite E. destruct (ip =? master)%string; apply calm_ret.
Qed.

Lemma still_masters : still (GetNumberMasters rc auth) (inr 1).
Proof.
  apply (calm_try _ _ _ _ (running_ips rpods)); [apply still_redises|].
  assert (fold_left (fun n ip => if (ip =? master)%string then n + 1 else n) (running_ips rpods) 0 = 1)
    as Hone by (by rewrite (fold_count_filter (fun ip => (ip =? master)%string)), (one_master HC)).
  eapply eq_ind; [|exact (f_equal inr Hone)]. apply calm_fold_each. intros n ip _.
  apply (calm_try _ _ _ _ (ip =? master)%string); [apply still_is_master|apply calm_ret].
Qed.

Lemma still_master_ip : still (GetMasterIP rc auth) (inr master).
Proof.
  apply (calm_try _ _ _ _ (running_ips rpods)); [apply still_redises|].
  apply (calm_try _ _ _ _ [master]); [|apply calm_ret].
  rewrite <- (one_master HC).
  rewrite <- (app_nil_l (List.filter (fun ip => (ip =? master)%string) (running_ips rpods))).
  rewrite <- (fold_filter (fun ip => (ip =? master)%string) (running_ips rpods) []).
  apply calm_fold_each. intros l ip _.
  apply (calm_try _ _ _ _ (ip =? master)%string); [apply still_is_master|apply calm_ret].
Qed.

Lemma still_agreement m : Auth m = auth -> still (agree_on_master rc m) (inr master).
Proof.
  intros Hm. unfold agree_on_master. rewrite Hm.
  apply (calm_try _ _ _ _ master); [apply still_master_ip|].
  apply (calm_bind _ _ _ _ (inr tt)); [|apply calm_ret].
  apply (calm_try _ _ _ _ (running_ips rpods)); [apply still_redises|].
  apply calm_for_each. intros ip _.
  apply (calm_try _ _ _ _ (if (ip =? master)%string then "" else master)); [apply still_master_of|].
  cbv beta. destruct (ip =? master)%string; [apply calm_ret|]. rewrite (String.eqb_refl master).
  destruct (negb _); apply calm_ret.
Qed.

Lemma still_settings ip : still (SentinelCheck.CheckRedisConfig rc ip auth) (inr tt).
Proof.
  unfold SentinelCheck.CheckRedisConfig, GetAllRedisConfig, range_map.
  apply calm_request; [done|]. intros r (reply & -> & H & _).
  destruct (H eq_refl) as (configs & E & Ha). cbn [bind]. rewrite E. cbn [or_panic bind].
  apply calm_request; [done|]. intros seed _. cbn [bind].
  assert (check_settings configs (shuffle seed (map_to_list (config_of (redis (Spec rc))))) = None) as ->.
  { apply check_settings_agree. intros [k v]. rewrite shuffle_perm, elem_of_map_to_list. apply Ha. }
  apply calm_ret.
Qed.

Lemma still_monitor sip : still (CheckSentinelMonitor sip master auth) (inr tt).
Proof.
  unfold CheckSentinelMonitor, GetSentinelMonitor. apply calm_request; [done|].
  intros r (reply & -> & _ & H & _). cbn [bind]. rewrite (H eq_refl). cbn [bind ok].
  rewrite String.eqb_refl. apply calm_ret.
Qed.

Lemma count_eligible n l : Forall eligible l -> count_slaves n l = Ret n.
Proof.
  induction 1 as [|blob l (fields & p & -> & Hf & Hp) _ IH]; [done|]. cbn [count_slaves slaveInfoFieldByName].
  rewrite Hf. simpl. by rewrite (proj2 (String.eqb_neq _ _) Hp).
Qed.

Lemma still_slaves sip : still (CheckSentinelSlavesNumberInMemory sip rc auth) (inr tt).
Proof.
  unfold CheckSentinelSlavesNumberInMemory, GetNumberSentinelSlavesInMemory.
  apply calm_request; [done|]. intros r (info & -> & _ & H). destruct (H eq_refl) as [E _].
  cbn [bind]. rewrite E. apply calm_request; [done|]. intros r (reply & -> & _ & _ & Hs).
  destruct (Hs eq_refl) as [He Hl]. cbn [bind]. rewrite count_eligible by done. cbn [bind ok].
  rewrite Hl, Z.eqb_refl. apply calm_ret.
Qed.

Lemma still_sentinels_known sip : still (CheckSentinelNumberInMemory sip rc auth) (inr tt).
Proof.
  unfold CheckSentinelNumberInMemory, GetNumberSentinelsInMemory.
  apply calm_request; [done|]. intros r (info & -> & _ & H).
  destruct (H eq_refl) as (E & digits & n & Ed & En & Hn). cbn [bind]. rewrite E, Ed, En. cbn [bind ok].
  rewrite Hn, Z.eqb_refl. apply calm_ret.
Qed.

Lemma still_replication fuel m :
  Auth m = auth -> State m = StateCheck -> still (heal_replication fuel rc m) (inr tt).
Proof.
  intros Hm Hs. unfold heal_replication.
  apply (calm_try _ _ _ _ master); [by apply still_agreement|]. apply (calm_try _ _ _ _ tt).
  { unfold SentinelHandler.setRedisConfig. rewrite Hm.
    apply (calm_try _ _ _ _ (running_ips rpods)); [apply still_redises|].
    apply calm_for_each. intros ip _. apply (calm_bind _ _ _ _ (inr tt)); [apply still_settings|apply calm_ret]. }
  apply (calm_try _ _ _ _ (running_ips spods)); [apply still_sentinels|].
  assert (forall f, (forall sip, still (f sip) (inr tt)) -> still (for_each (running_ips spods) f) (inr tt))
    as Hloop by (intros f Hf; apply calm_for_each; intros sip _; apply Hf).
  apply (calm_try _ _ _ _ tt).
  { apply Hloop. intros sip. rewrite Hm.
    apply (calm_bind _ _ _ _ (inr tt)); [apply still_monitor|apply calm_ret]. }
  apply (calm_try _ _ _ _ tt).
  { apply Hloop. intros sip. rewrite Hm.
    apply (calm_bind _ _ _ _ (inr tt)); [apply still_slaves|apply calm_ret]. }
  apply (calm_try _ _ _ _ tt).
  { apply Hloop. intros sip. rewrite Hm.
    apply (calm_bind _ _ _ _ (inr tt)); [apply still_sentinels_known|apply calm_ret]. }
  apply (calm_try _ _ _ _ tt); [|apply still_sentinel_ready].
  unfold setSentinelConfig. rewrite bool_decide_true by done. apply calm_ret.
Qed.
End healthy.

(** C10: Healing leaves a healthy cluster alone. If the cluster is complete, the
    resource is only to be checked, and every answer is that of a healthy
    cluster, then [CheckAndHeal] returns nil, and all it has done is to read
    objects and to ask servers: no server is told to change, no event is
    recorded, nothing is waited for. *)
Theorem healthy_left_alone fuel rc m master rset sset rlabels slabels rpods spods :
  complete rc master rset sset rlabels slabels rpods ->
  State m = StateCheck ->
  wp (SentinelHandler.CheckAndHeal fuel rc m) (fun t o =>
    Forall (as_healthy rc (Auth m) master rset sset rlabels slabels rpods spods) t ->
    o = Returns (inr tt) /\ Forall (fun e => asks (projT1 e)) t).
Proof.
  intros HC Hs. unfold SentinelHandler.CheckAndHeal.
  apply (calm_bind _ _ _ _ (inr tt)); [by apply still_redis_number|].
  apply (calm_bind _ _ _ _ (inr tt)); [by apply still_sentinel_number|].
  apply (calm_try _ _ _ _ 1); [by apply still_masters|].
  apply (calm_try _ _ _ _ tt); [apply calm_ret|]. by apply still_replication.
Qed.

(** ** Witness: three servers, three sentinels *)

Definition leader : string := "10.0.0.2".
Definition checkedEntry : Meta := set_State StateCheck sampleEntry.
Definition redisLabels : StringMap := default ∅ (ss_Selector redisSet).
Definition sentinelLabels : StringMap := default ∅ (ss_Selector (sentinelSet 3)).

Definition slave_blob (ip : string) : value :=
  VArray [VString "ip"; VString ip; VString "slave-priority"; VString "100"].

Definition healthy_server : Env unit := fun e w =>
  (match e return resp e with
   | Get k _ name =>
       match k return result (object k) with
       | KStatefulSet => if (name =? redisName)%string then inr redisSet else inr (sentinelSet 3)
       | _ => inl notFound
       end
   | Create _ _ => inr tt
   | Update _ o => inr o
   | StatusUpdate _ o => inr o
   | Delete _ _ => inr tt
   | List k _ _ => match k return result (list (object k)) with KPod => inr samplePods | _ => inr [] end
   | StringCmd opt args =>
       if bool_decide (args = ["info"; "sentinel"])
       then inr "master0:name=mymaster,status=ok,address=10.0.0.2:6379,slaves=2,sentinels=3"
       else if (Addr opt =? "10.0.0.2:6379")%string then inr "role:master" else inr "master_host:10.0.0.2"
   | SliceCmd _ args =>
       if bool_decide (args = ["config"; "get"; "*"]) then inr (config_reply [("maxmemory", "1073741824"); ("save", "60 1")])
       else if bool_decide (args = ["sentinel"; "slaves"; masterName])
       then inr [slave_blob "10.0.0.1"; slave_blob "10.0.0.3"]
       else inr [VString "name"; VString masterName; VString "ip"; VString leader]
   | IntCmd _ _ => inr 1
   | BoolCmd _ _ => inr true
   | StatusCmd _ _ => inr "OK"
   | Now => 0
   | Sleep _ => tt
   | Seed => []
   | RecordEvent _ _ _ _ _ _ => tt
   | SetGauge _ _ _ => tt
   | DeleteGauge _ _ => tt
   end, w).

Lemma run_answers {W A} (env : Env W) (P : event -> Prop) (p : prog A) w :
  (forall e w, P (ev e (env e w).1)) -> Forall P (run env p w).1.2.
Proof.
  intros H. revert w; induction p as [a| | |e k IH]; intros w; simpl; try constructor.
  pose proof (H e w) as He. destruct (env e w) as [r w1]. specialize (IH r w1).
  destruct (run env (k r) w1) as [[o t] w2]. by constructor.
Qed.

Lemma leader_address ip : (JoinHostPort ip "6379" =? "10.0.0.2:6379")%string = (ip =? leader)%string.
Proof.
  destruct (String.eqb_spec ip leader) as [->|Hne]; [done|]. apply String.eqb_neq. intros E.
  unfold JoinHostPort in E. destruct (has_char _ ip); [done|].
  apply Hne. by apply (app_inj_r ip leader ":6379").
Qed.

Lemma sample_settings k v :
  config_of (redis (Spec sampleSentinel)) !! k = Some v ->
  (k = "maxmemory" /\ v = "1gb") \/ (k = "save" /\ v = "60 1").
Proof.
  change (config_of (redis (Spec sampleSentinel))) with
    (<["maxmemory" := "1gb"]> {[ "save" := "60 1" ]} : StringMap).
  rewrite lookup_insert_Some, lookup_singleton_Some. intros [[<- <-]|[_ [<- <-]]]; auto.
Qed.

Lemma sample_agrees :
  exists configs, config_pairs ∅ (config_reply [("maxmemory", "1073741824"); ("save", "60 1")]) = Some configs /\
    forall k v, config_of (redis (Spec sampleSentinel)) !! k = Some v -> agrees configs k v.
Proof.
  exists (<["save" := "60 1"]> {[ "maxmemory" := "1073741824" ]}). split; [reflexivity|].
  intros k v [[-> ->]|[-> ->]]%sample_settings; reflexivity.
Qed.

Lemma healthy_answers e w :
  as_healthy sampleSentinel (Auth checkedEntry) leader redisSet (sentinelSet 3) redisLabels sentinelLabels
    samplePods samplePods (ev e (healthy_server e w).1).
Proof.
  destruct e as [k ns name| | | | |k ns labels|opt args|opt args| | | | | | | | |]; try done.
  - destruct k; try done. simpl. split; [by intros ->|]. by intros ->.
  - by destruct k.
  - simpl. case_bool_decide as Ha.
    + eexists. split; [done|]. split; [by subst args|]. intros _. split; [done|].
      exists "3", 3. by vm_compute.
    + assert (forall ip, opt = redis_options ip (Auth checkedEntry) ->
        (Addr opt =? "10.0.0.2:6379")%string = (ip =? leader)%string) as Hip.
      { intros ip ->. apply leader_address. }
      destruct (Addr opt =? "10.0.0.2:6379")%string; (eexists; split; [done|]); (split; [|done]);
        intros _ ip Hopt; specialize (Hip ip Hopt); unfold healthy_replication; rewrite <- Hip; by vm_compute.
  - simpl. case_bool_decide as Hc; [|case_bool_decide as Hs]; (eexists; split; [done|]).
    + split_and!; [|by subst args|by subst args]. intros _. apply sample_agrees.
    + split_and!; [by intros ?|by subst args|]. intros _. split; [|done].
      repeat constructor; by eexists _, _.
    + by split_and!.
Qed.

Lemma sample_complete :
  complete sampleSentinel leader redisSet (sentinelSet 3) redisLabels sentinelLabels samplePods.
Proof.
  split; [reflexivity..| |reflexivity]. intros E.
  apply (f_equal (fun m : StringMap => m !! "app.kubernetes.io/component")) in E.
  vm_compute in E. discriminate E.
Qed.

Lemma healthy_left_alone_witness :
  exists t, run healthy_server (SentinelHandler.CheckAndHeal 7 sampleSentinel checkedEntry) tt
      = (Returns (inr tt), t, tt) /\ Forall (fun e => asks (projT1 e)) t.
Proof.
  pose proof (healthy_left_alone 7 sampleSentinel checkedEntry leader redisSet (sentinelSet 3)
    redisLabels sentinelLabels samplePods samplePods sample_complete eq_refl) as H.
  destruct (run healthy_server (SentinelHandler.CheckAndHeal 7 sampleSentinel checkedEntry) tt)
    as [[o t] []] eqn:E.
  pose proof (run_answers healthy_server _ (SentinelHandler.CheckAndHeal 7 sampleSentinel checkedEntry) tt
    healthy_answers) as Ht.
  rewrite E in Ht. destruct (run_wp _ _ _ _ _ _ _ H E Ht) as [-> HR]. exists t. split; [reflexivity|exact HR].
Defined.
