(* ===== verification/Rejoin.v ===== *)
(** * Waiting for the sentinels to know the slaves converges

    A sentinel that does not list all slaves is reset, and the operator polls it
    every five seconds until it does, for thirty seconds at most. If a sentinel
    takes no longer than [delay] to find the slaves again, no answer takes longer
    than [latency], and [delay] with one poll and two answers fits the thirty
    seconds, then the wait never times out, however often it polls in vain. *)

From S2P Require Import Prelude GoStd Corev1 Api Samples Util Common Names Effects Repair K8s.
From S2P Require Import RedisClient SentinelCheck SentinelHeal Cache Handler SentinelHandler.
From S2P Require Import HealProps Healthy Cluster Settings Monitors.

(** The commands after which a sentinel looks for the slaves anew. *)
Definition restarts (opt : Options) (e : Eff) : Prop :=
  exists args, e = IntCmd opt args \/ e = BoolCmd opt args.

(** Sentinels that can be reached: [joined] is the time from which each lists
    all the slaves. *)
Class Rejoining {W} (env : Env W) (up : Options -> Prop) (clock : W -> Z)
    (joined : W -> Options -> Z) (slaves delay latency : Z) : Prop := {
  rejoin_now w : (env Now w).1 = clock w;
  rejoin_latency e w : (forall d, e <> Sleep d) ->
    clock w <= clock (env e w).2 <= clock w + latency;
  rejoin_sleep d w : 0 <= d -> clock w + d <= clock (env (Sleep d) w).2 <= clock w + d + latency;
  rejoin_ready opt w : up opt -> exists info,
    (env (StringCmd opt ["info"; "sentinel"]) w).1 = inr info /\ isSentinelReady info = None;
  rejoin_slaves opt w : up opt -> exists reply,
    (env (SliceCmd opt ["sentinel"; "slaves"; masterName]) w).1 = inr reply /\
    Forall eligible reply /\ Z.of_nat (length reply) < 2 ^ 31 /\
    (Z.of_nat (length reply) = slaves <-> joined w opt <= clock w);
  rejoin_reset opt w : up opt ->
    let e := IntCmd opt ["SENTINEL"; "reset"; "*"] in
    (exists n, (env e w).1 = inr n) /\ joined (env e w).2 opt <= clock (env e w).2 + delay;
  rejoin_kept e w opt : up opt -> ~ restarts opt e -> joined (env e w).2 opt = joined w opt
}.

Section rejoin.
  Context {W : Type} (env : Env W) (up : Options -> Prop) (clock : W -> Z).
  Context (joined : W -> Options -> Z) (slaves delay latency : Z).
  Context `{RJ : !Rejoining env up clock joined slaves delay latency}.
  Context (rc : RedisSentinel) (auth : AuthConfig).
  Context (Hslaves : slaves = Size (redis (Spec rc)) - 1) (Hfit : 0 <= slaves < 2 ^ 31).
  Context (Hdelay : 0 <= delay) (Hlatency : 0 <= latency).
  Context (Htime : delay + checkInterval + 2 * latency <= timeOut).

Abbreviation opt_of ip := (sentinel_options ip).

(** The sentinel knows all the slaves. *)
Definition rejoined (w : W) (ip : string) : Prop := joined w (opt_of ip) <= clock w.

(** Time has passed, and no sentinel has started anew. *)
Definition later (w w' : W) : Prop :=
  clock w <= clock w' /\ forall opt, up opt -> joined w' opt = joined w opt.

Lemma later_trans w1 w2 w3 : later w1 w2 -> later w2 w3 -> later w1 w3.
Proof. intros [H1 H1'] [H2 H2']. split; [lia|]. intros opt Hu. by rewrite H2', H1'. Qed.

Lemma later_spares w w' : later w w' -> spares (up_ip up) rejoined w w'.
Proof. intros [H H'] ip Hu Hg. unfold rejoined in *. rewrite H' by done. lia. Qed.

Lemma latency_later e w :
  (forall d, e <> Sleep d) -> (forall opt, ~ restarts opt e) ->
  later w (env e w).2 /\ clock (env e w).2 <= clock w + latency.
Proof.
  intros Hs Hr. destruct (rejoin_latency (latency := latency) e w Hs). split; [|done].
  split; [done|]. intros opt Hu. by apply rejoin_kept.
Qed.

Lemma sleep_later w :
  later w (env (Sleep checkInterval) w).2 /\
  clock w + checkInterval <= clock (env (Sleep checkInterval) w).2 <= clock w + checkInterval + latency.
Proof.
  destruct (rejoin_sleep (latency := latency) checkInterval w ltac:(unfold checkInterval, second; lia)).
  split; [|done]. split; [unfold checkInterval, second in *; lia|]. intros opt Hu.
  apply rejoin_kept; [done|]. by intros (args & [H'|H']).
Qed.

Lemma int32_eq a b : 0 <= a < 2 ^ 31 -> 0 <= b < 2 ^ 31 -> (int32 a =? int32 b) = (a =? b).
Proof. intros Ha Hb. rewrite !int32_id; [done|unfold in_int32; lia..]. Qed.

(** The check says whether the sentinel knows the slaves at the time it answers;
    if it does not, not much time has passed since. *)
Lemma slaves_check_run ip w :
  up_ip up ip ->
  exists r t w', run env (CheckSentinelSlavesNumberInMemory ip rc auth) w = (Returns r, t, w') /\
    later w w' /\ (r = inr tt -> rejoined w' ip) /\ (rejoined w ip -> r = inr tt) /\
    (r <> inr tt -> clock w' < joined w (opt_of ip) + latency).
Proof.
  intros Hup. unfold CheckSentinelSlavesNumberInMemory, GetNumberSentinelSlavesInMemory.
  change (setOptions ip sentinelPort auth) with (opt_of ip). unfold try, act. cbn [bind run].
  destruct (rejoin_ready _ w Hup) as (info & Hinfo & Hready).
  destruct (latency_later (StringCmd (opt_of ip) ["info"; "sentinel"]) w ltac:(done)
    ltac:(by intros opt (a & [H|H]))) as [L1 _].
  destruct (env _ w) as [r w1]. cbn [fst snd] in Hinfo, L1. subst r. cbn [bind run]. rewrite Hready.
  destruct (rejoin_slaves _ w1 Hup) as (reply & Hreply & Hel & Hlen & Hiff).
  destruct (latency_later (SliceCmd (opt_of ip) ["sentinel"; "slaves"; masterName]) w1 ltac:(done)
    ltac:(by intros opt (a & [H|H]))) as [L2 Hq].
  cbn [bind run]. destruct (env _ w1) as [r w2]. cbn [fst snd] in Hreply, L2, Hq. subst r. cbn [bind run].
  rewrite count_eligible by done. cbn [bind ok run].
  rewrite <- Hslaves, int32_eq by lia. pose proof (later_trans _ _ _ L1 L2) as L.
  destruct L1 as [Hc1 Hj1]. specialize (Hj1 _ Hup). unfold rejoined.
  destruct (Z.eqb_spec (Z.of_nat (length reply)) slaves) as [Heq|Hne]; simpl;
    (eexists _, _, w2; split; [reflexivity|]; split; [done|]).
  - split_and!; [|done|done]. intros _. apply (later_spares _ _ L2 ip Hup). by apply Hiff.
  - assert (clock w1 < joined w1 (opt_of ip)) by (destruct (Z.leb_spec (joined w1 (opt_of ip)) (clock w1));
      [by destruct Hne; apply Hiff|done]).
    split_and!; [done|lia|lia].
Qed.

Lemma wait_loop_S turns start ip :
  wait_loop (S turns) start ip rc auth =
  let* now := act Now in
  if timeOut <=? now - start then fail timeout_error
  else
    let* checked := CheckSentinelSlavesNumberInMemory ip rc auth in
    match checked with
    | inl _ => let* _ := act (Sleep checkInterval) in wait_loop turns start ip rc auth
    | inr _ => ok tt
    end.
Proof. done. Qed.

(** The loop ends well as long as its polls cover the delay. *)
Lemma wait_loop_run turns start ip w :
  up_ip up ip -> joined w (opt_of ip) <= start + delay ->
  clock w < start + timeOut -> start + delay <= clock w + Z.of_nat turns * checkInterval ->
  exists t w', run env (wait_loop (S turns) start ip rc auth) w = (Returns (inr tt), t, w') /\
    later w w' /\ rejoined w' ip.
Proof.
  intros Hup. revert w; induction turns as [|turns IH]; intros w Hj Hc Hn; rewrite wait_loop_S;
    unfold act; cbn [bind run]; pose proof (rejoin_now (clock := clock) w) as Hnow;
    destruct (latency_later Now w ltac:(done) ltac:(by intros opt (a & [H|H]))) as [L1 _];
    destruct (env Now w) as [now w1]; cbn [fst snd] in Hnow, L1; subst now;
    rewrite (proj2 (Z.leb_gt _ _)) by lia;
    destruct (slaves_check_run ip w1 Hup) as (r & t & w2 & E & L2 & Hgood & Hpass & Hlate);
    pose proof (later_trans _ _ _ L1 L2) as L; pose proof (proj1 L1) as Hc1;
    pose proof (proj2 L1 _ Hup) as Hj1; rewrite run_bind, E.
  - rewrite Hpass in * by (unfold rejoined; lia). eexists _, w2. split; [reflexivity|]. auto.
  - destruct r as [err|[]]; [|eexists _, w2; split; [reflexivity|]; auto].
    specialize (Hlate ltac:(done)). cbn [bind run].
    destruct (sleep_later w2) as [L3 Hs]. destruct (env (Sleep _) w2) as [u w3]. cbn [fst snd] in L3, Hs.
    pose proof (later_trans _ _ _ L L3) as L4. pose proof (proj2 L4 _ Hup) as Hj4.
    pose proof (proj1 L2) as Hc2.
    destruct (IH w3) as (t3 & w4 & E3 & L5 & Hg); [lia|lia|rewrite Nat2Z.inj_succ in Hn; lia|].
    rewrite E3. eexists _, w4. split; [reflexivity|].
    split; [by eapply later_trans|done].
Qed.

(** A reset, and the wait. *)
Lemma restore_run fuel ip w :
  (7 <= fuel)%nat -> up_ip up ip ->
  exists t w', run env (let? _ := RestoreSentinel ip auth in waitRestoreSentinelSlavesOK fuel ip rc auth) w
      = (Returns (inr tt), t, w') /\
    rejoined w' ip /\ spares (up_ip up) rejoined w w'.
Proof.
  intros Hfuel Hup. unfold RestoreSentinel, ResetSentinel, waitRestoreSentinelSlavesOK.
  change (setOptions ip sentinelPort auth) with (opt_of ip). unfold try, act. cbn [bind run].
  set (e := IntCmd (opt_of ip) ["SENTINEL"; "reset"; "*"]).
  destruct (rejoin_reset _ w Hup) as [[n Hn] Hj]. fold e in Hn, Hj.
  pose proof (rejoin_latency (latency := latency) e w ltac:(done)) as Hc.
  assert (forall opt, up opt -> opt <> opt_of ip -> joined (env e w).2 opt = joined w opt) as Hother.
  { intros opt Hu Hne. apply rejoin_kept; [done|]. intros (args & [[= Ho]|H']); [by subst|done]. }
  destruct (env e w) as [r w1]. cbn [fst snd] in *. subst r. cbn [bind ok run].
  pose proof (rejoin_now (clock := clock) w1) as Hnow.
  destruct (latency_later Now w1 ltac:(done) ltac:(by intros opt (a & [H|H]))) as [L1 Hq].
  destruct (env Now w1) as [start w2]. cbn [fst snd] in *. subst start.
  destruct fuel as [|fuel]; [lia|].
  destruct (wait_loop_run fuel (clock w1) ip w2) as (t & w3 & E & L2 & Hg).
  - done.
  - rewrite (proj2 L1) by done. done.
  - unfold checkInterval, timeOut, second in *. lia.
  - pose proof (proj1 L1). unfold checkInterval, timeOut, second in *. lia.
  - rewrite E. eexists _, w3. split; [reflexivity|]. split; [done|]. intros y Hy Hgy.
    pose proof (later_trans _ _ _ L1 L2) as [Hc2 Hj2]. unfold rejoined in *.
    destruct (decide (opt_of y = opt_of ip)) as [Heq|Hne]; [by rewrite Heq|].
    rewrite Hj2, Hother by done. lia.
Qed.
End rejoin.

Lemma count_asks n l : every only_asks (count_slaves n l).
Proof.
  revert n; induction l as [|blob l IH]; intros n; cbn [count_slaves]; [done|].
  apply every_bind; [|intros p; apply IH]. unfold slaveInfoFieldByName. every_walk.
Qed.

(** The sentinels come to know the slaves. If the sentinels found can be
    reached, each finds all slaves again within [delay] of a reset, no answer
    takes longer than [latency], and [delay], one poll and two answers fit the
    thirty seconds, then the step of [CheckAndHeal] that looks after their
    slaves succeeds, without a timeout; afterwards each sentinel knows all the
    slaves; and to look after them again only asks. *)
Theorem heal_slaves_converges {W} (env : Env W) (up : Options -> Prop) (clock : W -> Z)
    (joined : W -> Options -> Z) (slaves delay latency : Z)
    `{!Rejoining env up clock joined slaves delay latency} fuel rc m :
  (7 <= fuel)%nat -> slaves = Size (redis (Spec rc)) - 1 -> 0 <= slaves < 2 ^ 31 ->
  0 <= delay -> 0 <= latency -> delay + checkInterval + 2 * latency <= timeOut ->
  repairs env (fun sip => CheckSentinelSlavesNumberInMemory sip rc (Auth m))
    (fun sip => let? _ := RestoreSentinel sip (Auth m) in waitRestoreSentinelSlavesOK fuel sip rc (Auth m))
    (up_ip up) (rejoined clock joined) only_asks (GetSentinelsIPs rc)
    (let? sentinels := GetSentinelsIPs rc in heal_slaves fuel rc m sentinels).
Proof.
  intros Hfuel Hs Hfit Hd Hl Ht. apply repairs_found.
  - intros ip w Hip.
    destruct (slaves_check_run env up clock joined slaves delay latency rc (Auth m) Hs Hfit ip w Hip)
      as (r & t & w' & E & L & Hg & Hp & _).
    exists r, t, w'. split_and!; [done..|]. by apply (later_spares up clock joined).
  - intros ip. unfold CheckSentinelSlavesNumberInMemory, GetNumberSentinelSlavesInMemory.
    every_walk; try done. apply count_asks.
  - intros ip w Hip. by apply (restore_run env up clock joined slaves delay latency).
Qed.
