(* ===== verification/Steady.v ===== *)
(** * The handlers when nothing goes wrong

    The steps of [Do] around [Ensure] and [CheckAndHeal]: events, conditions,
    status updates and the gauge leave the servers alone and the objects in the
    heap what they are but for the status. The API server takes a status only
    from an object of the version it has, and gives it a new version; so it
    matters that the object the reconciliation has just read is the one whose
    status is written, each time with the version of the last answer. If then
    [Ensure] and [CheckAndHeal] do what they should, so does [Do], for both kinds
    of resource and in whatever state the cache has the resource. *)

From S2P Require Import Prelude GoStd Corev1 Api Samples Util Common Names Status Validate Effects Repair K8s.
From S2P Require Import SentinelGen SentinelHandler StandaloneHandler Controller Cache Handler.
From S2P Require Import RedisProps HealProps EnsureProps FlowProps.

(** ** Resources that count as the same *)

(** Metadata that differ in the version only. *)
Definition same_meta (m m' : ObjectMeta) : Prop := set_ResourceVersion "" m = set_ResourceVersion "" m'.

(** Resources that differ in their version and status. *)
Definition same_resource {S} (o o' : CustomResource S) : Prop :=
  same_meta (meta o) (meta o') /\ Spec o = Spec o'.

(** The resource at some version, with some status. *)
Definition revised {S} (v : string) (s : ClusterStatus) (rc : CustomResource S) : CustomResource S :=
  mkResource (set_ResourceVersion v (meta rc)) (Spec rc) s.

(** Resources that may also differ in the owners of the volume claim: [Ensure] sets
    them, in the object it works on. *)
Definition bare {S} `{HasRedisSpec S} (spec : S) : S :=
  set_redisSpec (set_Storage (set_claim_owner [] (Storage (redisSpec spec))) (redisSpec spec)) spec.
Definition like {S} `{HasRedisSpec S} (o o' : CustomResource S) : Prop :=
  same_meta (meta o) (meta o') /\ bare (Spec o) = bare (Spec o').

#[export] Instance same_meta_equivalence : Equivalence same_meta.
Proof. unfold same_meta. split; [done|by intros m m' E|]. intros a b c E1 E2. congruence. Qed.

#[export] Instance same_resource_equivalence {S} : Equivalence (same_resource (S := S)).
Proof.
  split; [by split|intros o o' [H1 H2]; split; by symmetry|]. intros a b c [H1 H2] [H3 H4].
  split; [by etrans|congruence].
Qed.

#[export] Instance like_equivalence {S} `{HasRedisSpec S} : Equivalence (like (S := S)).
Proof.
  split; [by split|intros o o' [H1 H2]; split; by symmetry|]. intros a b c [H1 H2] [H3 H4].
  split; [by etrans|congruence].
Qed.

Lemma same_meta_eq m m' : same_meta m m' -> m' = set_ResourceVersion (ResourceVersion m') m.
Proof. destruct m, m'. intros E. injection E. intros. by subst. Qed.

Lemma same_revised {S} (rc o : CustomResource S) :
  same_resource rc o -> o = revised (ResourceVersion (meta o)) (Status o) rc.
Proof. destruct o as [m s st]. intros [Hm%same_meta_eq Hs]. unfold revised. cbn in *. by rewrite <- Hm, Hs. Qed.

Lemma revised_same {S} v s (rc : CustomResource S) : same_resource rc (revised v s rc).
Proof. by split. Qed.

Lemma status_same {S} s (o : CustomResource S) : same_resource o (set_Status s o).
Proof. by split. Qed.

Lemma same_like {S} `{HasRedisSpec S} (o o' : CustomResource S) : same_resource o o' -> like o o'.
Proof. intros [E1 E2]. split; [done|by rewrite E2]. Qed.

Lemma like_same {S} `{HasRedisSpec S} (rc o o' : CustomResource S) :
  same_resource o o' -> like rc o -> like rc o'.
Proof. intros E%same_like Ho. by etrans. Qed.

Lemma like_password {S} `{HasRedisSpec S} (o o' : CustomResource S) :
  like o o' -> Password (redisSpec (Spec o)) = Password (redisSpec (Spec o')).
Proof.
  intros [_ E]. apply (f_equal (fun spec => Password (redisSpec spec))) in E. unfold bare in E.
  rewrite !redisSpec_set in E. exact E.
Qed.

(** What the metadata of such a resource have in common. *)
Lemma same_meta_fields m m' :
  same_meta m m' -> Name m = Name m' /\ Namespace m = Namespace m' /\ Generation m = Generation m'.
Proof. by intros ->%same_meta_eq. Qed.

Lemma like_key {S} `{HasRedisSpec S} (o o' : CustomResource S) : like o o' -> key_of o = key_of o'.
Proof. intros [(E1 & E2 & _)%same_meta_fields _]. unfold key_of. by rewrite E1, E2. Qed.

Lemma like_labels {S} `{HasRedisSpec S} (o o' : CustomResource S) K :
  like o o' -> getLabels o = getLabels o' /\ createOwnerReferences K o = createOwnerReferences K o'.
Proof.
  intros [E%same_meta_eq _]. unfold getLabels, createOwnerReferences, NewControllerRef. by rewrite E.
Qed.

(** The claim's new owners replace any old ones. *)
Lemma claim_owner_twice refs refs' st : set_claim_owner refs (set_claim_owner refs' st) = set_claim_owner refs st.
Proof. by destruct st as [[] e [[[] p]|]]. Qed.

Lemma set_Storage_inv st st' r r' :
  set_Storage st r = set_Storage st' r' -> r' = set_Storage (Storage r') r /\ st = st'.
Proof. destruct r, r'. unfold set_Storage. simpl. intros H. injection H. intros. by subst. Qed.

(** What such a resource is. *)
Lemma like_sentinel (rc o : RedisSentinel) :
  like rc o -> exists v storage status, set_claim_owner [] (Storage (redis (Spec rc))) = set_claim_owner [] storage /\
    o = mkResource (set_ResourceVersion v (meta rc))
          (mkSentinelSpec (set_Storage storage (redis (Spec rc))) (Sentinel (Spec rc))) status.
Proof.
  destruct o as [m [r s] st]. intros [Hm%same_meta_eq Hs]. unfold bare in Hs. cbn [Spec meta] in Hm, Hs.
  pose proof (f_equal redis Hs) as E. cbn in E. apply set_Storage_inv in E as [Er E].
  exists (ResourceVersion m), (Storage r), st. split; [exact E|]. rewrite <- Hm, <- Er. f_equal. f_equal.
  symmetry. exact (f_equal Sentinel Hs).
Qed.

Lemma like_standalone (rs o : RedisStandalone) :
  like rs o -> exists v storage status, set_claim_owner [] (Storage (Spec rs)) = set_claim_owner [] storage /\
    o = mkResource (set_ResourceVersion v (meta rs)) (set_Storage storage (Spec rs)) status.
Proof.
  destruct o as [m r st]. intros [Hm%same_meta_eq Hs]. unfold bare in Hs. cbn in Hm, Hs.
  apply set_Storage_inv in Hs as [Er E].
  exists (ResourceVersion m), (Storage r), st. split; [exact E|]. by rewrite <- Hm, <- Er.
Qed.

(** ** The resource, as the API server keeps it *)

(** Requests that write an object of a kind, or its status. *)
Definition touches (k : kind) (e : Eff) : bool :=
  match e with
  | Create k' _ | Update k' _ | StatusUpdate k' _ | Delete k' _ => bool_decide (k' = k)
  | _ => false
  end.

(** Requests that leave the servers and the objects of other kinds alone. *)
Definition aside (k : kind) (e : Eff) : bool :=
  match e with
  | Create _ _ | Update _ _ | Delete _ _ => false
  | StatusUpdate k' _ => bool_decide (k' = k)
  | e => negb (redis_command e)
  end.

Lemma aside_no_command k e : aside k e = true -> redis_command e = false.
Proof. by destruct e. Qed.

(** The API server has the resource, at a version, and nobody else edits it. It is
    read at that version, whatever its status; its status is taken from an object
    of that version, and the answer is the resource with the status taken, the
    server's own specification and metadata, and another version. Of an object of
    another version nothing is said: the server may answer with a conflict. *)
Class Registered {W S} `{HasRedisSpec S} (env : Env W) (k : kind) (inj : CustomResource S -> object k)
    (proj : object k -> CustomResource S) (rc : CustomResource S) (at_version : string -> W -> Prop) : Prop := {
  registered_get v w : at_version v w -> exists o,
    (env (Get k (Namespace (meta rc)) (Name (meta rc))) w).1 = inr (inj o) /\
    same_resource rc o /\ ResourceVersion (meta o) = v;
  registered_status o w : like rc o -> at_version (ResourceVersion (meta o)) w -> exists stored,
    (env (StatusUpdate k (inj o)) w).1 = inr stored /\
    same_resource rc (proj stored) /\ Status (proj stored) = Status o /\
    at_version (ResourceVersion (meta (proj stored))) (env (StatusUpdate k (inj o)) w).2;
  registered_kept v e w : touches k e = false -> at_version v w -> at_version v (env e w).2
}.

(** ** Statuses that say something *)

Lemma set_condition_told {TF : TimeFormat} clk c s : setClusterCondition clk c s <> emptyStatus.
Proof.
  intros E. apply (f_equal Conditions) in E. unfold setClusterCondition in E.
  destruct (getClusterCondition s (Type_ c)) as [[pos cp]|] eqn:Ec.
  - assert (pos < length (Conditions s))%nat as Hl.
    { apply find_condition_Some in Ec as (i & -> & Hi & _). by apply lookup_lt_Some in Hi. }
    destruct (_ && _)%bool; cbn [Conditions set_Conditions] in E; apply (f_equal length) in E;
      rewrite ?length_alter, ?length_insert in E; simpl in E; lia.
  - cbn [Conditions set_Conditions] in E. by destruct (Conditions s).
Qed.

Lemma sorted_told seed s : s <> emptyStatus -> DescConditionsByTime seed s <> emptyStatus.
Proof.
  intros Hs E. apply Hs. pose proof (Desc_perm seed s) as HP. rewrite E in HP. apply Permutation_nil_l in HP.
  pose proof (f_equal MasterIP E : MasterIP s = "") as E1. pose proof (f_equal SentinelIP E : SentinelIP s = "") as E2.
  destruct s. simpl in *. by subst.
Qed.

(** ** Steady steps of a handler *)

Section steady.
  Context {TF : TimeFormat} {W S : Type} `{HS : HasRedisSpec S} (env : Env W) (I : W -> Prop).
  Context (k : kind) (Hkeep : forall e w, aside k e = true -> I w -> I (env e w).2).
  Context (inj : CustomResource S -> object k) (proj : object k -> CustomResource S).
  Context (rc : CustomResource S) (at_version : string -> W -> Prop).
  Context `{RG : !Registered env k inj proj rc at_version}.
  Context (ops : Operations S) `{SU : !StatusByUpdate ops k inj proj}.
  (** The object that was read, the entry of the cache, and the store at the
      beginning. *)
  Context (l : loc) (m : Meta) (st0 : Store S).

Abbreviation ls := [l; Obj m].

(** The two objects are like the resource; once the status has been announced, the
    one in the cache says so. *)
Definition good (told : Prop) (x : loc) (o : CustomResource S) : Prop :=
  like rc o /\ (told -> x = Obj m -> Status o <> emptyStatus).
Definition holds (told : Prop) (st : Store S) : Prop :=
  forall x, x ∈ ls -> exists o, heap st !! (x : loc) = Some o /\ good told x o.

(** And since [st0] nothing else has changed. *)
Definition holds_resource (told : Prop) (st : Store S) : Prop :=
  holds told st /\ metas st = metas st0 /\ forall x, x ∉ ls -> heap st !! (x : loc) = heap st0 !! x.

(** The object that was read is of the version the server has. *)
Definition fresh (st : Store S) (w : W) : Prop :=
  exists o, heap st !! l = Some o /\ at_version (ResourceVersion (meta o)) w.

Lemma fresh_kept st e w : touches k e = false -> fresh st w -> fresh st (env e w).2.
Proof.
  intros He (o & Ho & Hv). exists o. split; [done|]. by apply (registered_kept (rc := rc) (proj := proj) (inj := inj)).
Qed.

Lemma holds_like rc' told st :
  like rc rc' -> (forall x, x ∈ ls -> exists o, heap st !! (x : loc) = Some o /\ like rc' o /\
    (told -> x = Obj m -> Status o <> emptyStatus)) -> holds told st.
Proof.
  intros Hr Hh x Hx. destruct (Hh x Hx) as (o & Ho & Hl & Hn). exists o. split; [done|]. split; [by etrans|done].
Qed.

(** From a state in [I] the step returns a value in [R], in [I] again, the objects
    are still good, and the one that was read is still fresh. *)
Definition steady {A} (told told' : Prop) (p : M S A) (R : A -> Prop) : Prop :=
  forall st, holds_resource told st ->
    triple env (fun w => I w /\ fresh st w) (p st)
      (fun r w => R r.1 /\ holds_resource told' r.2 /\ I w /\ fresh r.2 w).

Lemma steady_ret {A} told (a : A) (R : A -> Prop) : R a -> steady told told (retM a) R.
Proof. intros Ha st Hst. by apply triple_ret. Qed.

Lemma steady_bind {A B} told t1 told' (p : M S A) (f : A -> M S B) R Q :
  steady told t1 p R -> (forall a, R a -> steady t1 told' (f a) Q) -> steady told told' (bindM p f) Q.
Proof.
  intros Hp Hf st Hst. eapply triple_bind; [by apply Hp|]. intros [a st'] w (Ha & Hst' & Hw).
  by apply (Hf a Ha st' Hst').
Qed.

Lemma steady_lift {A} told (p : prog A) (R : A -> Prop) :
  every (fun e => touches k e = false) p -> triple env I p (fun a w => R a /\ I w) -> steady told told (lift p) R.
Proof.
  intros He Hp st Hst.
  eapply triple_bind; [exact (triple_keeps env (fresh st) _ (fresh_kept st) I p _ He Hp)|].
  intros a. apply triple_ret. by intros w [[Ha Hw] Hf].
Qed.

Lemma steady_act told e (R : resp e -> Prop) :
  aside k e = true -> touches k e = false -> (forall w, R (env e w).1) -> steady told told (lift (act e)) R.
Proof.
  intros He Ht HR. apply steady_lift; [by split|]. apply triple_act. intros w Hw. split; [apply HR|by apply Hkeep].
Qed.

Lemma steady_record told k' mt ty reason msg :
  steady told told (lift (Event.record k' mt ty reason msg)) (fun _ => True).
Proof. by apply (steady_act told (RecordEvent _ _ _ _ _ _)). Qed.

Lemma steady_clock told : steady told told (lift read_clock) (fun _ => True).
Proof.
  apply steady_lift; [by repeat split|]. unfold read_clock.
  do 4 (eapply triple_bind; [apply (triple_act env I Now (fun _ => I)); intros w Hw; by apply Hkeep|];
    intros ?). by apply triple_ret.
Qed.

Lemma steady_deref told x : x ∈ ls -> steady told told (deref x) (good told x).
Proof.
  intros Hx st Hst. destruct (proj1 Hst x Hx) as (o & Ho & Hs). rewrite (deref_at _ _ o) by done.
  apply triple_ret. intros w Hw. by split.
Qed.

(** An object is replaced: by one of the same version, or the one that was read by
    one the server has just sent. *)
Lemma holds_write told told' x o' st :
  x ∈ ls -> holds_resource told st -> good told' x o' -> (told' -> told \/ x = Obj m) ->
  holds_resource told' (write x o' st).
Proof.
  intros Hx (Hst & Hm & Hoth) Hg Ht. split; [|split; [done|]]; intros y Hy; simpl; destruct (decide (y = x)) as [->|Hne].
  - exists o'. split; [|done]. destruct (Hst x Hx) as (o & Ho & _). apply write_at. by eapply lookup_lt_Some.
  - rewrite list_lookup_insert_ne by done. destruct (Hst y Hy) as (o & Ho & Hl & Hn). exists o. split; [done|].
    split; [done|]. intros Ht' ->. destruct (Ht Ht') as [|E]; [by apply Hn|by destruct Hne].
  - done.
  - rewrite list_lookup_insert_ne by done. by apply Hoth.
Qed.

Lemma fresh_write x o o' st w :
  heap st !! x = Some o -> ResourceVersion (meta o') = ResourceVersion (meta o) -> fresh st w -> fresh (write x o' st) w.
Proof.
  intros Hx E (o1 & Ho1 & Hv). destruct (decide (l = x)) as [<-|Hne].
  - exists o'. split; [apply write_at; by eapply lookup_lt_Some|]. rewrite Hx in Ho1. injection Ho1 as <-. by rewrite E.
  - exists o1. simpl. by rewrite list_lookup_insert_ne.
Qed.

Lemma steady_event told x e :
  x ∈ ls -> (forall k m, exists a b c, e k m = Event.record k m a b c) ->
  steady told told (event_on ops x e) (fun _ => True).
Proof.
  intros Hx He. eapply steady_bind; [by apply steady_deref|]. intros o _.
  destruct (He (op_kind ops) (meta o)) as (a & b & c & ->). apply steady_record.
Qed.

(** A condition is set: now the status says something. *)
Lemma steady_condition told set :
  (forall clk s, set clk s <> emptyStatus) -> told \/ l = Obj m ->
  steady told True (set_condition l set) (fun _ => True).
Proof.
  intros Hset Ht. assert (l ∈ ls) as Hl by left. eapply steady_bind; [apply steady_clock|].
  intros clk _ st Hst. destruct (proj1 Hst l Hl) as (o & Ho & Hlike & _). rewrite (bindM_deref _ _ _ o) by done.
  apply triple_ret. intros w [Hw Hf]. split; [done|]. split.
  - eapply (holds_write told); [done|done| |intros _; exact Ht]. split; [|intros _ _; apply Hset].
    by apply (like_same rc o).
  - split; [done|]. by apply (fresh_write l o).
Qed.

(** The API server takes the status, and the object is replaced by its answer. *)
Lemma steady_update told : steady told told (UpdateStatusAt ops l) (fun err => err = None).
Proof.
  assert (l ∈ ls) as Hl by left. intros st Hst.
  destruct (proj1 Hst l Hl) as (o & Ho & Hlike & Hn). unfold UpdateStatusAt. rewrite (bindM_deref _ _ _ o) by done.
  rewrite status_by_update. unfold updateStatus_. intros w [Hw (o1 & Ho1 & Hv)].
  assert (Some o1 = Some o) as [= ->] by by rewrite <- Ho1.
  unfold bindM, lift, act. cbn [bind run].
  pose proof (Hkeep Seed w eq_refl Hw) as Hw1.
  pose proof (registered_kept (rc := rc) (proj := proj) (inj := inj) _ Seed w eq_refl Hv) as Hv1.
  destruct (env Seed w) as [seed w1]. cbn [snd] in Hw1, Hv1. set (o2 := set_Status (DescConditionsByTime seed (Status o)) o).
  pose proof (Hkeep (StatusUpdate k (inj o2)) w1 (bool_decide_eq_true_2 _ eq_refl) Hw1) as Hw2.
  destruct (registered_status (proj := proj) o2 w1 (like_same rc o o2 (status_same _ o) Hlike) Hv1)
    as (stored & Er & Hsame & Hstatus & Hv2).
  destruct (env (StatusUpdate k (inj o2)) w1) as [r w2]. cbn [fst snd] in Er, Hw2, Hv2. subst r.
  eexists _, _, w2. split; [reflexivity|]. split; [done|]. split.
  - eapply (holds_write told); [done|done| |by left]. split; [by apply same_like|].
    intros Ht Hx. rewrite Hstatus. by apply sorted_told, Hn.
  - split; [done|]. exists (proj stored). split; [|done]. apply write_at. by eapply lookup_lt_Some.
Qed.

Ltac recorded := intros ? ?; eexists _, _, _; reflexivity.

(** The announcement of a change, unless the resource is only to be checked. *)
Lemma steady_updateStatus told :
  (State m = StateCheck -> told) -> (State m <> StateCheck -> Obj m = l) ->
  steady told True (Handler.updateStatus ops m) (fun err => err = None).
Proof.
  intros Hcheck Hnew. unfold Handler.updateStatus. case_bool_decide as Hs; simpl negb; cbv iota.
  - specialize (Hcheck Hs). intros st (Hst & Hm & Hoth). apply triple_ret. intros w Hw. split; [done|].
    split; [|done]. split; [|done]. intros x Hx. destruct (Hst x Hx) as (o & Ho & Hl & Hn). exists o. split; [done|].
    split; [done|]. intros _. by apply Hn.
  - specialize (Hnew Hs). rewrite Hnew. eapply (steady_bind _ True _ _ _ (fun _ => True)); [|intros _ _; apply steady_update].
    repeat (match goal with |- steady _ _ (if ?b then _ else _) _ => destruct b end);
      (eapply steady_bind; [apply steady_event; [by left|recorded]|]; intros _ _;
       apply steady_condition; [intros ? ?; apply set_condition_told|by right]).
Qed.

Lemma steady_ready : steady True True (set_ready ops l) (fun r => r = inr tt).
Proof.
  unfold set_ready. eapply steady_bind; [apply steady_event; [by left|recorded]|]. intros _ _.
  eapply steady_bind; [apply steady_condition; [intros ? ?; apply set_condition_told|by left]|]. intros _ _.
  eapply steady_bind; [apply steady_update|]. intros err ->.
  eapply (steady_bind _ True _ _ _ (fun _ => True)); [|intros _ _; by apply steady_ret].
  eapply steady_bind; [apply steady_deref; left|]. intros o _. unfold Metrics.SetClusterOK.
  by apply (steady_act True (SetGauge _ _ _)).
Qed.

(** A step, and what follows it. *)
Lemma steady_then {A B} told told' (p : M S A) (f : A -> M S B) R st Q :
  steady told told' p R -> holds_resource told st ->
  (forall a st', R a -> holds_resource told' st' -> triple env (fun w => I w /\ fresh st' w) (f a st') Q) ->
  triple env (fun w => I w /\ fresh st w) (bindM p f st) Q.
Proof.
  intros Hp Hst Hf. eapply triple_bind; [by apply Hp|]. intros [a st'] w (Ha & Hst' & Hw).
  by apply (Hf a st').
Qed.

(** A step on the object in the cache that leaves its metadata and status alone, as
    [Ensure] does. *)
Lemma ensure_at_triple (J : W -> Prop) labels refs :
  (forall o st, like rc o -> triple env (fun w => I w /\ fresh st w) (op_Ensure ops o labels refs) (fun r w =>
     (like rc r.1 /\ meta r.1 = meta o /\ Status r.1 = Status o /\ r.2 = inr tt) /\ J w /\ fresh st w)) ->
  forall st, holds_resource True st ->
  triple env (fun w => I w /\ fresh st w) (ensure_at ops (Obj m) labels refs st)
    (fun r w => r.1 = inr tt /\ holds_resource True r.2 /\ J w /\ fresh r.2 w).
Proof.
  intros Hp st Hst. assert (Obj m ∈ ls) as Hl by (right; left).
  destruct (proj1 Hst (Obj m) Hl) as (o & Ho & Hlike & Hn). unfold ensure_at.
  rewrite (bindM_deref _ _ _ o) by done. unfold bindM at 1, lift. eapply triple_bind.
  - eapply triple_bind; [exact (Hp o st Hlike)|].
    intros r. apply (triple_ret env _ (r, st) (fun x w => x.2 = st /\
      (like rc x.1.1 /\ meta x.1.1 = meta o /\ Status x.1.1 = Status o /\ x.1.2 = inr tt) /\ J w /\ fresh st w)).
    by intros w Hw.
  - intros [[o' r] st1]. cbn [fst snd]. apply (triple_ret env _ (r, write (Obj m) o' st1)).
    intros w (-> & (Hl' & Em & Es & ->) & Hw & Hf). split; [done|]. split.
    + eapply (holds_write True); [done|done| |by left]. split; [done|]. rewrite Es. by apply Hn.
    + split; [done|]. apply (fresh_write _ o); [done|by rewrite Em|done].
Qed.
End steady.

(** [Ensure] where all that it looks up is there. *)
Section found.
  Context {TF : TimeFormat} {W S : Type} `{HS : HasRedisSpec S} (env : Env W) (I : W -> Prop).
  Context (k : kind) (Hkeep : forall e w, aside k e = true -> I w -> I (env e w).2).
  Context (inj : CustomResource S -> object k) (proj : object k -> CustomResource S).
  Context (rc : CustomResource S) (at_version : string -> W -> Prop).
  Context `{RG : !Registered env k inj proj rc at_version}.
  Context (ops : Operations S) (l : loc) (m : Meta) (st0 : Store S).
  Context (sets : CustomResource S -> StringMap -> list OwnerReference -> string -> StatefulSet -> Prop).
  Context (Hquiet : forall o labels refs, quiet (sets o labels refs) (op_Ensure ops o labels refs) (o, inr tt)).
Abbreviation labels := (getLabels rc).
Abbreviation refs := (createOwnerReferences (op_Kind ops) rc).
  Context (Hfound : forall o w, like rc o ->
    Forall (found_as (sets o labels refs)) (run env (op_Ensure ops o labels refs) w).1.2).

Lemma read_only_harmless (e : event) : read_only e -> aside k (projT1 e) = true /\ touches k (projT1 e) = false.
Proof. destruct e as [[] r]; done. Qed.

Lemma ensure_found :
  forall st, holds_resource rc l m st0 True st ->
  triple env (fun w => I w /\ fresh at_version l st w) (ensure_at ops (Obj m) labels refs st)
    (fun r w => r.1 = inr tt /\ holds_resource rc l m st0 True r.2 /\ I w /\ fresh at_version l r.2 w).
Proof.
  apply ensure_at_triple. intros o st Ho w Hw. specialize (Hfound o w Ho).
  destruct (run env (op_Ensure ops o labels refs) w) as [[r t] w'] eqn:E. simpl in Hfound.
  destruct (run_wp _ _ _ _ _ _ _ (Hquiet o labels refs) E Hfound) as [-> Hr].
  exists (o, inr tt), t, w'. split; [reflexivity|]. split; [done|].
  refine (trace_keeps env (fun w => I w /\ fresh at_version l st w)
    (fun e => aside k e = true /\ touches k e = false) _ _ _ _ _ _ E _ Hw).
  - intros e v [Ha Ht] [Hv Hf]. split; [by apply Hkeep|].
    by apply (fresh_kept env k inj proj rc at_version).
  - eapply Forall_impl; [exact Hr|]. apply read_only_harmless.
Qed.
End found.

(** ** The cache *)

Section cached.
  Context {S : Type} `{HS : HasRedisSpec S} (bootstrap : string).
  Implicit Types (rc o old : CustomResource S) (st : Store S).

(** What the cache has under the name of the resource, if anything, is of the
    same password and, if of the same generation, like it and announced. *)
Definition up_to_date rc st : Prop :=
  forall m old, metas st !! key_of rc = Some m -> heap st !! Obj m = Some old ->
    Password (redisSpec (Spec old)) = Password (redisSpec (Spec rc)) /\
    (Generation (meta old) = Generation (meta rc) -> like rc old /\ Status old <> emptyStatus).

Lemma up_to_date_like rc rc' st : like rc rc' -> up_to_date rc st -> up_to_date rc' st.
Proof.
  intros Hs Hup m old. rewrite <- (like_key _ _ Hs), <- (like_password _ _ Hs). intros Hm Ho.
  destruct (Hup m old Hm Ho) as [Hp Hg]. split; [done|].
  pose proof (same_meta_fields _ _ (proj1 Hs)) as (_ & _ & <-). intros [Hl Hn]%Hg. split; [|done].
  etrans; [symmetry; exact Hs|done].
Qed.

Lemma with_own_password rc : with_password (Password (redisSpec (Spec rc))) rc = rc.
Proof.
  destruct rc as [m s cs]. unfold with_password, set_Spec. simpl. f_equal.
  assert (set_Password (Password (redisSpec s)) (redisSpec s) = redisSpec s) as -> by by destruct (redisSpec s).
  apply set_redisSpec_get.
Qed.

(** What [Do] needs of the entry: it is the object just read, to be announced, or
    one that has been. *)
Definition entered rc l (m : Meta) st : Prop :=
  heap st !! l = Some rc /\ holds rc l m (State m = StateCheck) st /\ (State m <> StateCheck -> Obj m = l).

(** Caching the resource, for the first time or again, in whatever state the
    last reconciliations have left the entry. *)
Lemma Cache_holds rc l st :
  wf st -> up_to_date rc st -> heap st !! l = Some rc ->
  exists m st', Cache bootstrap l st = Some (m, st') /\
    Auth m = mkAuth (Password (redisSpec (Spec rc))) /\ entered rc l m st'.
Proof.
  intros Hwf Hup Hl. assert (like rc rc) as Hself by reflexivity.
  assert (forall m st', heap st' !! l = Some rc -> Obj m = l -> State m <> StateCheck -> entered rc l m st') as Hnew.
  { intros m st' H E Hs. split; [done|]. split; [|done]. intros x Hx. exists rc.
    assert (x = l) as -> by (rewrite E, !elem_of_cons, elem_of_nil in Hx; tauto). by split. }
  destruct (metas st !! key_of rc) as [m|] eqn:Hm.
  - destruct (Hwf _ _ Hm) as (old & Hold & _ & Ha). destruct (Hup _ _ Hm Hold) as [Hp Hs].
    eexists _, _. split; [by apply (Cache_again bootstrap l st rc m old)|].
    unfold updated_meta, updated_heap. destruct (Z.eqb_spec (Generation (meta old)) (Generation (meta rc))) as [Hg|].
    + destruct (Hs Hg) as [Hlike Hn]. rewrite bool_decide_false by done. split; [by rewrite <- Hp|].
      split; [done|]. split; [|done]. intros x [->|Hx]%elem_of_cons; [|apply list_elem_of_singleton in Hx as ->].
      * exists rc. split; [done|]. split; [done|]. cbn [Obj set_State]. intros _ ->.
        assert (Some rc = Some old) as [= ->] by (rewrite <- Hold; symmetry; exact Hl). done.
      * by exists old.
    + rewrite Hp, with_own_password, list_insert_id by done.
      match goal with |- context [describe_change ?a ?b ?c] =>
        pose proof (describe_change_fields a b c) as (Eo & Ea & Es & _) end.
      split; [exact Ea|]. apply Hnew; [exact Hl|exact Eo|by rewrite Es].
  - eexists _, _. split; [by apply (Cache_first bootstrap l st rc)|]. split; [done|]. by apply Hnew.
Qed.

(** With the object just read at the end of the heap. *)
Lemma Cache_read rc st :
  wf st -> up_to_date rc st ->
  let st1 := mkStore (heap st ++ [rc]) (metas st) in
  exists m st', Cache bootstrap (length (heap st)) st1 = Some (m, st') /\
    Auth m = mkAuth (Password (redisSpec (Spec rc))) /\ entered rc (length (heap st)) m st' /\
    wf st' /\ metas st' !! key_of rc = Some m.
Proof.
  intros Hwf Hup st1.
  assert (forall x o, heap st !! x = Some o -> heap st1 !! x = Some o) as Hold
    by (intros x o Ho; by apply lookup_app_l_Some).
  assert (wf st1) as Hwf1.
  { intros k m Hkm. destruct (Hwf k m Hkm) as (o & Ho & Hk). exists o. split; [by apply Hold|done]. }
  assert (heap st1 !! length (heap st) = Some rc) as Hl by (simpl; by rewrite lookup_app_r, Nat.sub_diag).
  destruct (Cache_holds rc (length (heap st)) st1 Hwf1) as (m & st' & Hm & Ha & Hh); [|done|].
  { intros m old Hkm Ho. destruct (Hwf _ m Hkm) as (o & Ho' & _).
    assert (Some old = Some o) as [= ->] by (etrans; [symmetry; exact Ho|by apply Hold]).
    by apply (Hup m). }
  destruct (Cache_footprint bootstrap (length (heap st)) st1 rc Hwf1 Hl) as (m2 & st2 & E & Hwf' & Hk & _).
  rewrite Hm in E. injection E as <- <-. by exists m, st'.
Qed.

(** As long as only the objects of the resource change, and stay like it, the cache
    stays sound; and up to date, if the change has been announced. *)
Lemma holds_sound rc l m st0 st told :
  wf st0 -> metas st0 !! key_of rc = Some m -> holds rc l m told st0 ->
  holds_resource rc l m st0 True st -> wf st /\ up_to_date rc st.
Proof.
  intros Hwf Hm H0 (Hst & Hms & Hoth). split.
  - intros k m1 Hk. rewrite Hms in Hk. destruct (Hwf k m1 Hk) as (o & Ho & Hko & Ha).
    destruct (decide (Obj m1 ∈ [l; Obj m])) as [Hin|Hout]; [|exists o; by rewrite Hoth].
    destruct (H0 _ Hin) as (o0 & Ho0 & Hl0 & _). destruct (Hst _ Hin) as (o1 & Ho1 & Hl1 & _).
    assert (Some o0 = Some o) as [= ->] by (etrans; [symmetry; exact Ho0|exact Ho]).
    exists o1. split; [done|]. by rewrite <- (like_key _ _ Hl1), (like_key _ _ Hl0), <- (like_password _ _ Hl1),
      (like_password _ _ Hl0).
  - intros m1 old Hk Ho. rewrite Hms in Hk. assert (Some m = Some m1) as [= <-] by by rewrite <- Hm.
    destruct (Hst (Obj m) ltac:(right; left)) as (o & Ho' & Hl & Hn).
    assert (Some old = Some o) as [= ->] by (etrans; [symmetry; exact Ho|exact Ho']).
    split; [by rewrite (like_password _ _ Hl)|]. intros _. split; [done|]. by apply Hn.
Qed.
End cached.

(** ** The resource, as the API server serves it *)

(** It has the resource, and all the objects that [Ensure] looks up. *)
Class Served {W S} `{HasRedisSpec S} (env : Env W) (ops : Operations S) (k : kind) (inj : CustomResource S -> object k)
    (proj : object k -> CustomResource S)
    (sets : CustomResource S -> StringMap -> list OwnerReference -> string -> StatefulSet -> Prop)
    (rc : CustomResource S) (at_version : string -> W -> Prop) : Prop := {
  served_registered :: Registered env k inj proj rc at_version;
  served_objects o w : like rc o ->
    Forall (found_as (sets o (getLabels rc) (createOwnerReferences (op_Kind ops) rc)))
      (run env (op_Ensure ops o (getLabels rc) (createOwnerReferences (op_Kind ops) rc)) w).1.2
}.

(** The request for the resource at the start of a reconciliation: it comes at the
    version the server has, with whatever status. *)
Lemma read_resource {W S A} `{HasRedisSpec S} (env : Env W) (I : W -> Prop) k inj proj (rc : CustomResource S) at_version
    `{RG : !Registered env k inj proj rc at_version} (f : result (object k) -> M S A) st Q :
  (forall w, I w -> I (env (Get k (Namespace (meta rc)) (Name (meta rc))) w).2) ->
  (forall v s, triple env (fun w => I w /\ at_version v w) (f (inr (inj (revised v s rc))) st) Q) ->
  triple env (fun w => I w /\ exists v, at_version v w)
    (bindM (lift (act (Get k (Namespace (meta rc)) (Name (meta rc))))) f st) Q.
Proof.
  intros Hget Hf. unfold bindM, lift, act. cbn [bind]. intros w [Hw [v Hv]].
  destruct (registered_get (proj := proj) v w Hv) as (o & Er & Hs & Ev). apply same_revised in Hs. rewrite Ev in Hs.
  pose proof (registered_kept (rc := rc) (proj := proj) (inj := inj) v
    (Get k (Namespace (meta rc)) (Name (meta rc))) w eq_refl Hv) as Hv'. apply Hget in Hw.
  specialize (Hf v (Status o)). rewrite <- Hs in Hf. cbn [run]. destruct (env _ w) as [r w1]. cbn [fst snd] in Er, Hw, Hv'.
  subst r. destruct (Hf w1 (conj Hw Hv')) as (a & t & w' & E & HQ). cbn [bind] in E |- *. rewrite E. by eexists _, _, w'.
Qed.

(** ** [Do] *)

Section do.
  Context {TF : TimeFormat} {W S : Type} `{HS : HasRedisSpec S} (env : Env W) (ops : Operations S) (k : kind).
  Context (inj : CustomResource S -> object k) (proj : object k -> CustomResource S).
  Context (rc : CustomResource S) (at_version : string -> W -> Prop).
  Context `{RG : !Registered env k inj proj rc at_version} `{SU : !StatusByUpdate ops k inj proj}.
  Context (l : loc) (m : Meta) (st0 : Store S).
  (** What [Ensure] needs, what it leaves and [CheckAndHeal] needs, and what that
      leaves. *)
  Context (before between after : W -> Prop).
  Context (before_kept : forall e w, aside k e = true -> before w -> before (env e w).2).
  Context (between_kept : forall e w, aside k e = true -> between w -> between (env e w).2).
  Context (Hensure : forall st, holds_resource rc l m st0 True st ->
    triple env (fun w => before w /\ fresh at_version l st w)
      (ensure_at ops (Obj m) (getLabels rc) (createOwnerReferences (op_Kind ops) rc) st)
      (fun r w => r.1 = inr tt /\ holds_resource rc l m st0 True r.2 /\ between w /\ fresh at_version l r.2 w)).
  (** And how [Do] ends after that. *)
  Context (verdict : result unit).
  Context (Huntouched : forall o, every (fun e => touches k e = false) (op_CheckAndHeal ops o m)).
  Context (Hheal : forall o, like rc o ->
    triple env between (op_CheckAndHeal ops o m) (fun r w => r = verdict /\ after w)).
  Context (Hend : steady env after rc at_version l m st0 True True
    (match verdict with inl err => heal_failed ops l err | inr _ => set_ready ops l end) (fun r => r = verdict)).

Ltac recorded := intros ? ?; eexists _, _, _; reflexivity.

Lemma healing_then o {B} (f : result unit -> M S B) st Q :
  like rc o -> triple env (fun w => after w /\ fresh at_version l st w) (f verdict st) Q ->
  triple env (fun w => between w /\ fresh at_version l st w) (bindM (lift (op_CheckAndHeal ops o m)) f st) Q.
Proof.
  intros Ho Hf. unfold bindM, lift.
  eapply (triple_bind _ _ _ _ (fun r w => r = (verdict, st) /\ after w /\ fresh at_version l st w)).
  - eapply triple_bind.
    + exact (triple_keeps env (fresh at_version l st) _ (fresh_kept env k inj proj rc at_version l st) between _ _
        (Huntouched o) (Hheal o Ho)).
    + intros r. apply triple_ret. by intros w [[-> Hw] Hv].
  - intros r w [-> Hw]. by apply Hf.
Qed.

Lemma Do_steady st o :
  same_resource rc o -> op_Validate ops o = (o, (false, None)) -> heap st !! l = Some o ->
  op_Cache ops l st = Some (m, st0) -> entered o l m st0 ->
  triple env (fun w => before w /\ at_version (ResourceVersion (meta o)) w) (Do ops l st)
    (fun r w => r.1 = verdict /\ holds_resource rc l m st0 True r.2 /\ after w /\ fresh at_version l r.2 w).
Proof.
  intros Hrc Hvalid Ho Hm (Ho0 & Hh & Hnew).
  assert (holds_resource rc l m st0 (State m = StateCheck) st0) as Hst.
  { split; [|done]. eapply holds_like, Hh. by apply same_like. }
  unfold Do. rewrite (bindM_deref l _ st o) by done. rewrite Hvalid. unfold bindM at 1, assign. cbn [bind].
  assert (write l o st = st) as -> by (unfold write; rewrite list_insert_id by done; by destruct st).
  unfold reconcile_valid, bindM at 1. rewrite Hm. cbn [or_panic bind].
  assert (l ∈ [l; Obj m]) as Hl by left. assert (Obj m ∈ [l; Obj m]) as Hl' by (right; left).
  eapply (triple_conseq env (fun w => before w /\ fresh at_version l st0 w)); [|intros r w Hr; exact Hr|].
  { intros w [Hw Hv]. split; [exact Hw|]. by exists o. }
  eapply steady_then; [by apply (steady_updateStatus env before k before_kept inj proj rc at_version ops l m st0
    (State m = StateCheck))|exact Hst|].
  intros err st1 -> Hst1.
  eapply steady_then; [by apply steady_deref|done|]. intros o' st2 [Hs _] Hst2. cbv zeta.
  eapply steady_then; [by apply (steady_event env before k before_kept inj proj rc at_version); [|recorded]|done|].
  intros _ st3 _ Hst3.
  pose proof (like_labels rc o' (op_Kind ops) Hs) as [<- <-].
  eapply triple_bind; [by apply Hensure|]. intros [r st4] w (Hr & Hst4 & Hw). cbn [fst snd] in Hr, Hst4. subst r.
  revert w Hw.
  eapply steady_then; [by apply (steady_event env between k between_kept inj proj rc at_version); [|recorded]|done|].
  intros _ st5 _ Hst5.
  eapply steady_then; [by apply steady_deref|done|]. intros o5 st6 [Hs' _] Hst6.
  apply healing_then; [done|].
  assert (forall p, steady env after rc at_version l m st0 True True p (fun r => r = verdict) ->
    triple env (fun w => after w /\ fresh at_version l st6 w) (p st6)
      (fun r w => r.1 = verdict /\ holds_resource rc l m st0 True r.2 /\ after w /\ fresh at_version l r.2 w)) as Hp.
  { intros p Hp. by apply Hp. }
  destruct verdict; by apply Hp.
Qed.
End do.
