(* ===== verification/Recovery.v ===== *)
(** * Checking and healing converges

    The pieces put together: with obedient redis servers and sentinels, one call
    of [CheckAndHeal] on a cluster without a master, or with one, ends with one
    server that all others follow and all sentinels watch, and with the user's
    settings on every server. What is assumed of the outside is the conjunction of
    the classes of [Convergence], [Settings], [Monitors] and [Rejoin], and that
    the commands of one do not undo what another has done. *)

From S2P Require Import Prelude GoStd Corev1 Api Samples Util Common Names Effects Repair K8s.
From S2P Require Import RedisClient SentinelGen SentinelCheck SentinelHeal Cache Handler SentinelHandler.
From S2P Require Import HealProps Convergence Healthy Cluster Settings Monitors Rejoin.

(** ** The outside *)

(** What the API server says of a sentinel cluster. *)
Record Installation := mkInstallation {
  d_redis : StatefulSet;
  d_redis_labels : StringMap;
  d_redis_pods : list Pod;
  d_sentinel : StatefulSet;
  d_sentinel_labels : StringMap;
  d_sentinel_pods : list Pod
}.

(** What can be seen of the servers. *)
Record Observers (W : Type) := mkObservers {
  o_roles : W -> gmap string role;
  o_conf : W -> Options -> StringMap;
  o_watched : W -> Options -> option string;
  o_clock : W -> Z;
  o_joined : W -> Options -> Z
}.
Arguments o_roles {W}.
Arguments o_conf {W}.
Arguments o_watched {W}.
Arguments o_clock {W}.
Arguments o_joined {W}.

(** What is told of the servers: which can be reached, which settings and
    addresses they take, how they store settings, how fast they are. *)
Record Promises := mkPromises {
  p_redis : Options -> Prop;
  p_sentinel : Options -> Prop;
  p_accepts : string -> string -> Prop;
  p_normal : string -> string -> string;
  p_takes : string -> string -> Prop;
  p_known : string -> Prop;
  p_delay : Z;
  p_latency : Z
}.

Definition slaveof_command (e : Eff) : Prop := exists opt a b, e = StatusCmd opt ["slaveof"; a; b].

(** The redis servers and sentinels of the resource, all there and obedient. *)
Class Obedient {W} (env : Env W) (O : Observers W) (P : Promises) (D : Installation)
    (rc : RedisSentinel) (auth : AuthConfig) : Prop := {
  ob_roles :: Reachable env (o_roles O) auth (Namespace (meta rc)) (Names.Sentinel.GetRedisName rc)
    (d_redis D) (d_redis_labels D) (d_redis_pods D);
  ob_conf :: ConfigServers env (p_redis P) (o_conf O) (p_accepts P) (p_normal P);
  ob_watched :: Sentinels env (p_sentinel P) (o_watched O) (p_known P);
  ob_joined :: Rejoining env (p_sentinel P) (o_clock O) (o_joined O)
    (Size (redis (Spec rc)) - 1) (p_delay P) (p_latency P);
  ob_roles_kept e w : ~ slaveof_command e -> o_roles O (env e w).2 = o_roles O w;
  ob_sentinel_set w : (env (Get KStatefulSet (Namespace (meta rc)) (Names.Sentinel.GetSentinelName rc)) w).1
    = inr (d_sentinel D);
  ob_sentinel_pods w : (env (List KPod (Namespace (meta rc)) (d_sentinel_labels D)) w).1
    = inr (d_sentinel_pods D);
  ob_sentinel_config opt k v w : p_sentinel P opt -> p_takes P k v -> exists s,
    (env (StatusCmd opt ["SENTINEL"; "set"; masterName; k; v]) w).1 = inr s
}.

(** What the operator needs to hold of the deployment and the promises: the
    StatefulSets are complete, all running pods answer, the servers take the
    user's settings, and they are fast enough. *)
Record sufficient (P : Promises) (D : Installation) (rc : RedisSentinel) (auth : AuthConfig) : Prop := {
  s_redis_size : ss_Replicas (d_redis D) = Some (Size (redis (Spec rc)));
  s_redis_ready : ss_ReadyReplicas (d_redis D) = Size (redis (Spec rc));
  s_sentinel_size : ss_Replicas (d_sentinel D) = Some (Replicas (Sentinel (Spec rc)));
  s_sentinel_ready : ss_ReadyReplicas (d_sentinel D) = Replicas (Sentinel (Spec rc));
  s_sentinel_selector : ss_Selector (d_sentinel D) = Some (d_sentinel_labels D);
  s_size : 1 <= Size (redis (Spec rc)) <= 2 ^ 31;
  s_redis_up ip : ip ∈ ips (d_redis_pods D) -> p_redis P (redis_options ip auth);
  s_sentinel_up ip : ip ∈ running_ips (d_sentinel_pods D) -> p_sentinel P (sentinel_options ip);
  s_known ip : ip ∈ ips (d_redis_pods D) -> p_known P ip;
  s_settings k v : config_of (redis (Spec rc)) !! k = Some v -> p_accepts P k v /\ fits k v;
  s_takes config : config ∈ CustomConfig (Sentinel (Spec rc)) ->
    exists k v, getConfigParameters config = inr (k, v) /\ p_takes P k v;
  s_delay : 0 <= p_delay P;
  s_latency : 0 <= p_latency P;
  s_time : p_delay P + checkInterval + 2 * p_latency P <= timeOut
}.

(** Requests that tell no server whom to follow; that also set no redis setting;
    that also leave what the sentinels watch. *)
Definition no_slaveof (e : Eff) : Prop := ~ slaveof_command e.
Definition no_redis_change (e : Eff) : Prop := no_slaveof e /\ no_set e.
Definition no_watch_change (e : Eff) : Prop := no_redis_change e /\ forall opt args, e <> BoolCmd opt args.

Ltac harmless :=
  unfold no_watch_change, no_redis_change, no_slaveof, slaveof_command, no_set;
  repeat match goal with |- _ /\ _ => split end;
  let E := fresh in
  first [intros (? & ? & ? & E) | intros ? ? ? E | intros ? ? E]; discriminate E.

Lemma settings_no_slaveof rc m : every no_slaveof (SentinelHandler.setRedisConfig rc m).
Proof.
  unfold SentinelHandler.setRedisConfig, SentinelCheck.GetRedisesIPs, GetStatefulSetPods, GetStatefulSet,
    get, listSelected, CheckRedisConfig, GetAllRedisConfig, SetRedisCustomConfig, SetCustomRedisConfig,
    range_map, applyRedisConfig, notify, Event.UpdateSentinelStatus, Event.record. every_walk; harmless.
Qed.

Lemma monitors_no_redis_change rc m master sentinels :
  every no_redis_change (heal_monitors rc m master sentinels).
Proof.
  unfold heal_monitors, CheckSentinelMonitor, GetSentinelMonitor, NewSentinelMonitor, MonitorRedis.
  every_walk; harmless.
Qed.

Lemma wait_no_watch_change turns start sip rc auth : every no_watch_change (wait_loop turns start sip rc auth).
Proof.
  induction turns as [|turns IH]; cbn [wait_loop]; [done|].
  unfold CheckSentinelSlavesNumberInMemory, GetNumberSentinelSlavesInMemory. every_walk; try harmless; [|done].
  eapply every_mono, count_asks. intros [] He; try done; harmless.
Qed.

Lemma slaves_no_watch_change fuel rc m sentinels : every no_watch_change (heal_slaves fuel rc m sentinels).
Proof.
  unfold heal_slaves, waitRestoreSentinelSlavesOK, RestoreSentinel, ResetSentinel,
    CheckSentinelSlavesNumberInMemory, GetNumberSentinelSlavesInMemory.
  every_walk; try harmless; [|apply wait_no_watch_change].
  eapply every_mono, count_asks. intros [] He; try done; harmless.
Qed.

Lemma sentinels_no_watch_change rc m sentinels : every no_watch_change (heal_sentinels rc m sentinels).
Proof.
  unfold heal_sentinels, CheckSentinelNumberInMemory, GetNumberSentinelsInMemory, RestoreSentinel,
    ResetSentinel. every_walk; harmless.
Qed.

Lemma config_no_watch_change rc m sentinels : every no_watch_change (setSentinelConfig rc m sentinels).
Proof.
  unfold setSentinelConfig, SetSentinelCustomConfig, SetCustomSentinelConfig, applySentinelConfig.
  every_walk; harmless.
Qed.

(** ** The phases *)

Section phases.
  Context {W : Type} (env : Env W) (O : Observers W) (P : Promises) (D : Installation).
  Context (rc : RedisSentinel) (m : Meta) (fuel : nat).
  Context `{OB : !Obedient env O P D rc (Auth m)} (HS : sufficient P D rc (Auth m)).
  Context (Hfuel : (7 <= fuel)%nat).

Abbreviation redises := (ips (d_redis_pods D)).
Abbreviation sentinels := (running_ips (d_sentinel_pods D)).
Abbreviation anyhow := (fun _ : W => True).

(** What is achieved, one after the other. *)
Definition led (x : string) (w : W) : Prop := led_by (d_redis_pods D) x (o_roles O w).
Definition all_settled (w : W) : Prop :=
  forall ip, ip ∈ redises -> settled (o_conf O) (config_of (redis (Spec rc))) (Auth m) w ip.
Definition all_watching (x : string) (w : W) : Prop :=
  forall ip, ip ∈ sentinels -> watching (o_watched O) x w ip.

Lemma led_kept x e w : no_slaveof e -> led x w -> led x (env e w).2.
Proof. intros He Hl. unfold led. by rewrite ob_roles_kept. Qed.

Lemma settled_kept x e w : no_redis_change e -> led x w /\ all_settled w ->
  led x (env e w).2 /\ all_settled (env e w).2.
Proof.
  intros [He Hn] [Hl Hs]. split; [by apply led_kept|]. intros ip Hip k v Hkv.
  rewrite (config_kept (conf := o_conf O)) by (done || by apply (s_redis_up _ _ _ _ HS)).
  by apply Hs.
Qed.

Definition healed (x : string) (w : W) : Prop := (led x w /\ all_settled w) /\ all_watching x w.

Lemma healed_kept x e w : no_watch_change e -> healed x w -> healed x (env e w).2.
Proof.
  intros [He Hn] [Hw Hs]. split; [by apply settled_kept|]. intros ip Hip. unfold watching.
  rewrite (sentinel_kept (watched := o_watched O)); [by apply Hs|by apply (s_sentinel_up _ _ _ _ HS)|].
  intros [args E]. by apply (Hn _ _ E).
Qed.

(** *** Finding the servers *)

Lemma redises_found (I : W -> Prop) (R : Eff -> Prop) {A} (f : list string -> prog (result A)) Q :
  (forall e w, R e -> I w -> I (env e w).2) -> (forall k ns name, R (Get k ns name)) ->
  (forall k ns labels, R (List k ns labels)) ->
  triple env I (f redises) Q -> triple env I (try (SentinelCheck.GetRedisesIPs rc (Auth m)) f) Q.
Proof.
  intros HI Hg Hl Hf.
  apply (triple_answered env I R HI (Get KStatefulSet (Namespace (meta rc)) (Names.Sentinel.GetRedisName rc)) (inr (d_redis D))); [done|apply (set_found (roles := o_roles O) (auth := Auth m))|].
  cbn [bind]. rewrite (set_selector (env := env) (roles := o_roles O) (auth := Auth m)
    (ns := Namespace (meta rc)) (set := Names.Sentinel.GetRedisName rc) (items := d_redis_pods D)).
  cbn [bind or_panic].
  apply (triple_answered env I R HI (List KPod (Namespace (meta rc)) (d_redis_labels D)) (inr (d_redis_pods D)));
    [done|apply (pods_listed (roles := o_roles O) (auth := Auth m)
      (set := Names.Sentinel.GetRedisName rc) (ss := d_redis D))|].
  unfold ok. cbn [bind].
  by rewrite (ips_running env (o_roles O) (Auth m) rc (d_redis D) (d_redis_labels D)) by apply ob_roles.
Qed.

Lemma sentinels_found (I : W -> Prop) (R : Eff -> Prop) {A} (f : list string -> prog (result A)) Q :
  (forall e w, R e -> I w -> I (env e w).2) -> (forall k ns name, R (Get k ns name)) ->
  (forall k ns labels, R (List k ns labels)) ->
  triple env I (f sentinels) Q -> triple env I (try (GetSentinelsIPs rc) f) Q.
Proof.
  intros HI Hg Hl Hf.
  apply (triple_answered env I R HI (Get KStatefulSet (Namespace (meta rc)) (Names.Sentinel.GetSentinelName rc)) (inr (d_sentinel D))); [done|apply ob_sentinel_set|].
  cbn [bind]. rewrite (s_sentinel_selector _ _ _ _ HS). cbn [bind or_panic].
  by apply (triple_answered env I R HI (List KPod (Namespace (meta rc)) (d_sentinel_labels D)) (inr (d_sentinel_pods D))); [|apply ob_sentinel_pods|].
Qed.

(** *** The steps *)

Lemma settings_phase x {A} (f : prog (result A)) Q :
  triple env (fun w => led x w /\ all_settled w) f Q ->
  triple env (led x) (try (SentinelHandler.setRedisConfig rc m) (fun _ => f)) Q.
Proof.
  intros Hf. eapply (triple_try _ _ _ _ (fun _ w => led x w /\ all_settled w)); [|done].
  assert (triple env anyhow (SentinelHandler.setRedisConfig rc m)
    (fun r w => r = inr tt /\ all_settled w)) as H.
  { apply (redises_found _ (fun _ => True)); [done..|]. intros w _.
    destruct (repair_loop_run env (fun ip => check_of (config_of (redis (Spec rc))) ip (Auth m))
      (fun ip => let* _ := SentinelHandler.notify rc (fun k o =>
         Event.UpdateSentinelStatus k o "set custom config for redis server") in
         set_of (config_of (redis (Spec rc))) ip (Auth m))
      (fun ip => p_redis P (redis_options ip (Auth m)))
      (settled (o_conf O) (config_of (redis (Spec rc))) (Auth m))) with redises w
      as (t & w' & E & Hg & _).
    - intros ip w1 Hip.
      apply (tells_at_once env (fun ip => check_of (config_of (redis (Spec rc))) ip (Auth m))
        (fun ip => p_redis P (redis_options ip (Auth m)))
        (settled (o_conf O) (config_of (redis (Spec rc))) (Auth m))); [done|].
      by apply (check_tells env (p_redis P) (o_conf O) (p_accepts P) (p_normal P)).
    - intros ip w1 Hip. apply (repair_settles env (p_redis P) (o_conf O) (p_accepts P) (p_normal P));
        try done; intros k v Hkv; by apply (s_settings _ _ _ _ HS).
    - apply HS.
    - exists (inr tt), t, w'. split; [exact E|]. by split. }
  eapply triple_conseq, (triple_keeps env (led x) no_slaveof (led_kept x) anyhow _ _
    (settings_no_slaveof rc m) H); [by intros w Hw|]. intros r w [[-> Hs] Hl]. by split.
Qed.

Lemma monitors_phase x {A} (f : prog (result A)) Q :
  x ∈ redises -> triple env (healed x) f Q ->
  triple env (fun w => led x w /\ all_settled w) (try (heal_monitors rc m x sentinels) (fun _ => f)) Q.
Proof.
  intros Hx Hf. eapply (triple_try _ _ _ _ (fun _ => healed x)); [|done].
  assert (triple env anyhow (heal_monitors rc m x sentinels)
    (fun r w => r = inr tt /\ all_watching x w)) as H.
  { intros w _.
    destruct (repair_loop_run env (fun sip => CheckSentinelMonitor sip x (Auth m))
      (fun sip => NewSentinelMonitor sip x rc (Auth m)) (up_ip (p_sentinel P))
      (watching (o_watched O) x)) with sentinels w as (t & w' & E & Hg & _).
    - intros ip w1 Hip.
      apply (tells_at_once env (fun sip => CheckSentinelMonitor sip x (Auth m)) (up_ip (p_sentinel P))
        (watching (o_watched O) x)); [done|].
      by apply (monitor_check_tells env (p_sentinel P) (o_watched O) (p_known P)).
    - intros ip w1 Hip. apply (monitor_repairs env (p_sentinel P) (o_watched O) (p_known P)); [|done].
      by apply (s_known _ _ _ _ HS).
    - apply HS.
    - exists (inr tt), t, w'. split; [exact E|]. by split. }
  eapply triple_conseq, (triple_keeps env (fun w => led x w /\ all_settled w) no_redis_change
    (settled_kept x) anyhow _ _ (monitors_no_redis_change rc m x sentinels) H); [by intros w Hw|].
  intros r w [[-> Hs] Hl]. by split.
Qed.

(** The steps after that succeed and undo nothing. *)
Lemma later_phase x (p : prog (result unit)) {A} (f : prog (result A)) Q :
  every no_watch_change p -> triple env anyhow p (fun r _ => r = inr tt) ->
  triple env (healed x) f Q -> triple env (healed x) (try p (fun _ => f)) Q.
Proof. apply (triple_step env (healed x) no_watch_change (healed_kept x)). Qed.

Lemma slaves_succeed : triple env anyhow (heal_slaves fuel rc m sentinels) (fun r _ => r = inr tt).
Proof.
  intros w _. pose proof (s_size _ _ _ _ HS) as Hsize.
  destruct (repair_loop_run env (fun sip => CheckSentinelSlavesNumberInMemory sip rc (Auth m))
    (fun sip => let? _ := RestoreSentinel sip (Auth m) in waitRestoreSentinelSlavesOK fuel sip rc (Auth m))
    (up_ip (p_sentinel P)) (rejoined (o_clock O) (o_joined O))) with sentinels w as (t & w' & E & _ & _).
  - intros ip w1 Hip.
    destruct (slaves_check_run env (p_sentinel P) (o_clock O) (o_joined O) (Size (redis (Spec rc)) - 1)
      (p_delay P) (p_latency P) rc (Auth m) eq_refl ltac:(lia) ip w1 Hip) as (r & t & w2 & E & L & Hg & Hp & _).
    exists r, t, w2. split_and!; [done..|]. by apply (later_spares (p_sentinel P) (o_clock O) (o_joined O)).
  - intros ip w1 Hip. apply (restore_run env (p_sentinel P) (o_clock O) (o_joined O)
      (Size (redis (Spec rc)) - 1) (p_delay P) (p_latency P) rc (Auth m)); try done; try lia; apply HS.
  - apply HS.
  - exists (inr tt), t, w'. split; [exact E|done].
Qed.

Lemma sentinels_succeed : triple env anyhow (heal_sentinels rc m sentinels) (fun r _ => r = inr tt).
Proof.
  apply for_each_succeeds. intros sip Hsip w _.
  assert (returns (CheckSentinelNumberInMemory sip rc (Auth m))) as Hret.
  { unfold returns, CheckSentinelNumberInMemory, GetNumberSentinelsInMemory. intros [err|info]; [done|].
    simpl. destruct (isSentinelReady info); [done|]. destruct (sentinelNumberRE info); [|done].
    destruct (Atoi _); [done|]. simpl. by destruct (negb _). }
  rewrite run_bind. destruct (run env (CheckSentinelNumberInMemory sip rc (Auth m)) w) as [[o t] w1] eqn:E.
  pose proof (run_wp _ _ _ _ _ _ _ Hret E) as Ho. destruct o as [[err|u]| |]; [|by eexists _, _, _|done..].
  unfold RestoreSentinel, ResetSentinel. unfold try, act. cbn [bind run].
  destruct (rejoin_reset (sentinel_options sip) w1 (s_sentinel_up _ _ _ _ HS _ Hsip)) as [[n Hn] _].
  change (setOptions sip sentinelPort (Auth m)) with (sentinel_options sip).
  destruct (env _ w1) as [r w2]. simpl in Hn. subst r. by eexists _, _, _.
Qed.

Lemma config_succeeds : triple env anyhow (setSentinelConfig rc m sentinels) (fun r _ => r = inr tt).
Proof.
  unfold setSentinelConfig. case_bool_decide; [by apply triple_ret|].
  apply for_each_succeeds. intros sip Hsip. unfold SetSentinelCustomConfig.
  destruct (CustomConfig (Sentinel (Spec rc))) as [|c l] eqn:E; [by apply triple_ret|].
  apply for_each_succeeds. intros config Hc. rewrite <- E in Hc.
  destruct (s_takes _ _ _ _ HS config Hc) as (k & v & -> & Hkv). unfold applySentinelConfig.
  intros w _. destruct (ob_sentinel_config (O := O) (D := D) (rc := rc) (auth := Auth m)
    (sentinel_options sip) k v w (s_sentinel_up _ _ _ _ HS _ Hsip) Hkv) as [s Hs].
  change (setOptions sip sentinelPort (Auth m)) with (sentinel_options sip).
  unfold try, act. cbn [bind run]. destruct (env _ w) as [r w2]. simpl in Hs. subst r. by eexists _, _, _.
Qed.

Lemma ready_phase x : triple env (healed x) (EnsureSentinelReady rc) (fun r w => r = inr tt /\ healed x w).
Proof.
  apply (triple_answered env (healed x) no_watch_change (healed_kept x)
    (Get KStatefulSet (Namespace (meta rc)) (Names.Sentinel.GetSentinelName rc)) (inr (d_sentinel D)));
    [harmless|apply ob_sentinel_set|].
  unfold ok. cbn [bind]. rewrite (s_sentinel_ready _ _ _ _ HS), Z.eqb_refl. by apply triple_ret.
Qed.

(** From the agreement on one master. *)
Lemma replication_heals x R :
  x ∈ redises -> known (d_redis_pods D) R -> masters (d_redis_pods D) R = [x] ->
  triple env (at_roles (o_roles O) R) (heal_replication fuel rc m) (fun r w => r = inr tt /\ healed x w).
Proof.
  intros Hx HR Hm. eapply (triple_try _ _ _ _ (fun a w => a = x /\ led x w)).
  { eapply triple_conseq,
      (agree_on_master_triple env (o_roles O) m rc (d_redis D) (d_redis_labels D) _ x R Hx HR Hm); [done|].
    by intros r w [-> Hl]. }
  intros a w [-> Hl]. revert w Hl.
  apply settings_phase.
  apply (sentinels_found _ no_redis_change); [apply settled_kept|intros; harmless..|].
  apply monitors_phase; [done|].
  apply later_phase; [apply slaves_no_watch_change|apply slaves_succeed|].
  apply later_phase; [apply sentinels_no_watch_change|apply sentinels_succeed|].
  apply later_phase; [apply config_no_watch_change|apply config_succeeds|].
  apply ready_phase.
Qed.

(** The StatefulSets have the sizes of the specification. *)
Lemma numbers_pass R {A} (f : prog (result A)) (onfail : error -> prog (result A)) Q :
  triple env (at_roles (o_roles O) R) f Q ->
  triple env (at_roles (o_roles O) R)
    (let* numbers := CheckRedisNumber rc in match numbers with inl err => onfail err | inr _ => f end) Q.
Proof.
  intros Hf. unfold CheckRedisNumber. unfold try, GetStatefulSet, get.
  apply (triple_answered env _ no_slaveof (fun e w He (H : o_roles O w = R) => eq_trans (ob_roles_kept e w He) H)
    (Get KStatefulSet (Namespace (meta rc)) (Names.Sentinel.GetRedisName rc)) (inr (d_redis D)));
    [harmless|apply (set_found (roles := o_roles O) (auth := Auth m))|].
  unfold ok. cbn [bind]. rewrite (s_redis_size _ _ _ _ HS). cbn [or_panic bind].
  by rewrite (s_redis_ready _ _ _ _ HS), Z.eqb_refl.
Qed.

Lemma sentinel_number_passes R {A} (f : prog (result A)) (onfail : error -> prog (result A)) Q :
  triple env (at_roles (o_roles O) R) f Q ->
  triple env (at_roles (o_roles O) R)
    (let* numbers := CheckSentinelNumber rc in match numbers with inl err => onfail err | inr _ => f end) Q.
Proof.
  intros Hf. unfold CheckSentinelNumber. unfold try, GetStatefulSet, get.
  apply (triple_answered env _ no_slaveof (fun e w He (H : o_roles O w = R) => eq_trans (ob_roles_kept e w He) H)
    (Get KStatefulSet (Namespace (meta rc)) (Names.Sentinel.GetSentinelName rc)) (inr (d_sentinel D)));
    [harmless|apply ob_sentinel_set|].
  unfold ok. cbn [bind]. rewrite (s_sentinel_size _ _ _ _ HS). cbn [or_panic bind].
  by rewrite Z.eqb_refl.
Qed.

(** The whole call. *)
Definition healed_from (R : gmap string role) (w : W) : Prop :=
  exists x, x ∈ redises /\ (forall y, masters (d_redis_pods D) R = [y] -> y = x) /\ healed x w.

Lemma CheckAndHeal_heals R :
  known (d_redis_pods D) R -> (length (masters (d_redis_pods D) R) <= 1)%nat ->
  triple env (at_roles (o_roles O) R) (CheckAndHeal fuel rc m) (fun r w => r = inr tt /\ healed_from R w).
Proof.
  intros HR Hlen. unfold CheckAndHeal. apply numbers_pass, sentinel_number_passes.
  eapply (triple_try _ _ _ _ (fun n w => n = Z.of_nat (length (masters (d_redis_pods D) R)) /\
    at_roles (o_roles O) R w)).
  { eapply triple_conseq, (GetNumberMasters_triple env (o_roles O) (Auth m) rc (d_redis D)
      (d_redis_labels D) _ R HR); [done|]. by intros r w [-> Hw]. }
  intros n w [-> Hw]. revert w Hw.
  eapply (triple_try _ _ _ _ (fun _ w => exists x, x ∈ redises /\
    known (d_redis_pods D) (o_roles O w) /\ masters (d_redis_pods D) (o_roles O w) = [x] /\
    (forall y, masters (d_redis_pods D) R = [y] -> y = x))).
  { eapply triple_conseq, (heal_masters_triple env (o_roles O) m rc (d_redis D) (d_redis_labels D) _ R);
      [done| |done..]. by intros r w [-> Hw]. }
  intros _ w (x & Hx & Hk & Hm & Hy).
  destruct (replication_heals x (o_roles O w) Hx Hk Hm w eq_refl) as (r & t & w' & E & -> & Hh).
  exists (inr tt), t, w'. split; [exact E|]. split; [done|]. by exists x.
Qed.

Lemma healed_from_kept R e w : no_watch_change e -> healed_from R w -> healed_from R (env e w).2.
Proof. intros He (x & Hx & Hy & Hh). exists x. split_and!; [done..|]. by apply healed_kept. Qed.
End phases.

(** C4: One call of [CheckAndHeal] heals the whole cluster. Suppose the
    StatefulSets are complete, the redis servers and sentinels of all running
    pods can be reached and do what they are told, as [Obedient] says, the
    servers take the user's settings and are fast enough for the sentinels to
    find the slaves in thirty seconds; and at most one server says it is a
    master, whatever else the servers and sentinels say or remember. Then the
    call returns nil, and at its end one server is the master and all others
    follow it (a master that was there before stays), every server agrees with
    every setting of the resource, and every sentinel watches that master: what
    a later step does undoes nothing of what an earlier one has done. *)
Theorem CheckAndHeal_converges {W} (env : Env W) (O : Observers W) P D rc m fuel R
    `{!Obedient env O P D rc (Auth m)} :
  sufficient P D rc (Auth m) -> (7 <= fuel)%nat ->
  known (d_redis_pods D) R -> (length (masters (d_redis_pods D) R) <= 1)%nat ->
  triple env (fun w => o_roles O w = R) (CheckAndHeal fuel rc m) (fun r w =>
    r = inr tt /\ exists x,
      x ∈ ips (d_redis_pods D) /\ led_by (d_redis_pods D) x (o_roles O w) /\
      (forall y, masters (d_redis_pods D) R = [y] -> y = x) /\
      (forall ip, ip ∈ ips (d_redis_pods D) ->
         settled (o_conf O) (config_of (redis (Spec rc))) (Auth m) w ip) /\
      (forall ip, ip ∈ running_ips (d_sentinel_pods D) -> watching (o_watched O) x w ip)).
Proof.
  intros HS Hfuel HR Hlen. eapply triple_conseq, (CheckAndHeal_heals env O P D rc m fuel HS Hfuel R HR Hlen);
    [done|].
  intros r w [-> (x & Hx & Hy & [[Hl Hs] Hw])]. split; [done|]. by exists x.
Qed.
