(* ===== verification/Reconciliation.v ===== *)
(** * A reconciliation brings a resource into order

    From the request to reconcile a resource to the answer of the controller:
    with a resource that is valid, objects that are there and obedient servers,
    one [Reconcile] announces the resource, heals it, records that it is healthy
    and asks to be called again after the usual time, whether the resource is new
    to the cache, changed or known. Each write of a status needs the version the
    API server has and gets another; the reconciliations keep up with it. *)

From S2P Require Import Prelude GoStd Corev1 Api Samples Util Common Names Status Validate Effects Repair K8s.
From S2P Require Import RedisClient SentinelGen SentinelCheck SentinelHeal StandaloneService.
From S2P Require Import StandaloneHandler SentinelHandler Cache Handler Controller.
From S2P Require Import RedisProps HealProps EnsureProps FlowProps Convergence Healthy Cluster Settings.
From S2P Require Import Monitors Rejoin Steady Recovery.

(** ** Sentinel clusters *)

Lemma obedient_like {W} (env : Env W) O P D (rc rc' : RedisSentinel) auth :
  like rc rc' -> Obedient env O P D rc auth -> Obedient env O P D rc' auth.
Proof. intros (v & storage & status & _ & ->)%like_sentinel HO. destruct HO. by split. Qed.

Lemma sufficient_like P D (rc rc' : RedisSentinel) auth :
  like rc rc' -> sufficient P D rc auth -> sufficient P D rc' auth.
Proof. intros (v & storage & status & _ & ->)%like_sentinel HO. destruct HO. by split. Qed.

Lemma no_command_harmless e : redis_command e = false -> no_watch_change e.
Proof. destruct e; try done; intros _; harmless. Qed.

(** Healing writes no object. *)
Lemma connected_untouched k auth e : connected auth e -> touches k e = false.
Proof. by destruct e. Qed.

(** The API server serves the resource and has what [Ensure] looks up. *)
Abbreviation ServedSentinel env fuel rc at_version :=
  (Served env (SentinelHandler.operations fuel) KRedisSentinel (fun o => o) (fun o => o) sentinel_sets rc at_version).
Abbreviation ServedStandalone env rs at_version :=
  (Served env StandaloneHandler.operations KRedisStandalone (fun o => o) (fun o => o) standalone_set rs at_version).

Section sentinel.
  Context {W : Type} {TF : TimeFormat} {QO : QuantityOrder} `{QL : !QuantityLaws QO}.
  Context (env : Env W) (O : Observers W) (P : Promises) (D : Installation) (rc : RedisSentinel).
  Context (at_version : string -> W -> Prop) (m : Meta) (fuel : nat) (R : gmap string role).
  Context `{OB : !Obedient env O P D rc (Auth m)} `{SV : !ServedSentinel env fuel rc at_version}.
  Context (HS : sufficient P D rc (Auth m)) (Hfuel : (7 <= fuel)%nat).
  Context (HR : known (d_redis_pods D) R) (Hlen : (length (masters (d_redis_pods D) R) <= 1)%nat).

Abbreviation before := (at_roles (o_roles O) R).
Abbreviation after := (healed_from O D rc m R).

Lemma before_kept e w : aside KRedisSentinel e = true -> before w -> before (env e w).2.
Proof. intros [[He _] _]%aside_no_command%no_command_harmless Hw. unfold at_roles. by rewrite ob_roles_kept. Qed.

Lemma after_kept e w : aside KRedisSentinel e = true -> after w -> after (env e w).2.
Proof. intros He%aside_no_command%no_command_harmless. by apply (healed_from_kept env O P D rc m HS). Qed.

Lemma sentinel_heals (o : RedisSentinel) :
  like rc o -> triple env before (SentinelHandler.CheckAndHeal fuel o m) (fun r w => r = inr tt /\ after w).
Proof.
  intros Ho. pose proof (obedient_like env O P D rc o _ Ho OB) as OB'.
  pose proof (sufficient_like P D rc o _ Ho HS) as HS'.
  eapply triple_conseq, (CheckAndHeal_heals env O P D o m fuel HS' Hfuel R HR Hlen); [done|].
  intros r w [-> (x & Hx & Hy & [[Hl Hs] Hw])]. split; [done|].
  exists x. split; [done|]. split; [done|]. split; [split|]; try done.
  intros ip Hip. specialize (Hs ip Hip). by destruct (like_sentinel _ _ Ho) as (? & ? & ? & _ & ->).
Qed.

(** The end of [Reconcile]. *)
Lemma ready_then l st0 st :
  holds_resource rc l m st0 True st ->
  triple env (fun w => after w /\ fresh at_version l st w) ((do* o := deref l in
    do* ready := lift (CheckSentinelReadyReplicas o) in
    match ready with
    | inl _ => retM (mkResult false (20 * second), None : option error)
    | inr _ => retM (mkResult false (ReconcileTime * second), None)
    end) st)
    (fun r w => r.1 = (mkResult false (ReconcileTime * second), None) /\
       holds_resource rc l m st0 True r.2 /\ after w /\ fresh at_version l r.2 w).
Proof.
  intros Hst. eapply steady_then; [apply steady_deref; left|exact Hst|]. intros o st1 [Ho _] Hst1.
  eapply (steady_then _ _ _ _ _ _ _ True True _ _ (fun r => r = inr tt));
    [|exact Hst1|intros r st2 -> Hst2; apply triple_ret; by split].
  destruct (like_sentinel _ _ Ho) as (? & ? & ? & _ & ->). unfold CheckSentinelReadyReplicas.
  apply (steady_lift env after KRedisSentinel (fun o => o) (fun o => o) rc at_version (RG := served_registered));
    [by every_walk|].
  apply (triple_answered env after (fun e => aside KRedisSentinel e = true) after_kept
    (Get KStatefulSet (Namespace (meta rc)) (Names.Sentinel.GetSentinelName rc)) (inr (d_sentinel D)));
    [done|apply ob_sentinel_set|].
  unfold ok. cbn [bind]. rewrite (s_sentinel_ready _ _ _ _ HS), Z.eqb_refl. by apply triple_ret.
Qed.

Lemma sentinel_untouched o : every (fun e => touches KRedisSentinel e = false) (SentinelHandler.CheckAndHeal fuel o m).
Proof.
  eapply every_mono, (CheckAndHeal_connected fuel o sampleStandalone m). intros e. apply connected_untouched.
Qed.
End sentinel.

(** The cluster is in order under [x]: it leads, all others follow it, all have
    the user's settings, all sentinels watch it. *)
Definition in_order_under {W} (O : Observers W) (D : Installation) (rc : RedisSentinel) (x : string) (w : W) : Prop :=
  x ∈ ips (d_redis_pods D) /\ led_by (d_redis_pods D) x (o_roles O w) /\
  (forall ip, ip ∈ ips (d_redis_pods D) ->
     settled (o_conf O) (config_of (redis (Spec rc))) (mkAuth (Password (redisSpec (Spec rc)))) w ip) /\
  (forall ip, ip ∈ running_ips (d_sentinel_pods D) -> watching (o_watched O) x w ip).

(** What the cache has to know. *)
Definition cached {S} `{HasRedisSpec S} (rc : CustomResource S) (st : Store S) : Prop := wf st /\ up_to_date rc st.

(** One call of [Reconcile], from any state the cache can have the resource in. *)
Lemma cluster_reconciled {W} {TF : TimeFormat} {QO : QuantityOrder} `{QL : !QuantityLaws QO}
    (env : Env W) (O : Observers W) P D (rc : RedisSentinel) at_version fuel R st
    `{!Obedient env O P D rc (mkAuth (Password (redisSpec (Spec rc))))} `{SV : !ServedSentinel env fuel rc at_version} :
  sufficient P D rc (mkAuth (Password (redisSpec (Spec rc)))) -> (7 <= fuel)%nat ->
  known (d_redis_pods D) R -> (length (masters (d_redis_pods D) R) <= 1)%nat ->
  RedisSentinel_Validate rc = (rc, (false, None)) -> cached rc st ->
  triple env (fun w => o_roles O w = R /\ exists v, at_version v w)
    (Reconcile_sentinel fuel (Namespace (meta rc)) (Name (meta rc)) st) (fun r w =>
      r.1 = (mkResult false (ReconcileTime * second), None) /\ cached rc r.2 /\ (exists v, at_version v w) /\
      exists x, in_order_under O D rc x w /\ forall y, masters (d_redis_pods D) R = [y] -> y = x).
Proof.
  intros HS Hfuel HR Hlen Hvalid [Hwf Hup]. unfold Reconcile_sentinel.
  apply (read_resource env (at_roles (o_roles O) R) KRedisSentinel (fun o => o) (fun o => o) rc at_version
    (RG := served_registered)).
  { intros w Hw. unfold at_roles. rewrite ob_roles_kept; [done|]. harmless. }
  intros v s. set (o := revised v s rc).
  assert (same_resource rc o) as Hsame by apply revised_same. pose proof (same_like _ _ Hsame) as Hlike.
  pose proof (Sentinel_valid_status v s rc Hvalid : RedisSentinel_Validate o = _) as Hvalid'.
  destruct (Cache_read SentinelCache.bootstrap o st Hwf) as (m & st' & Hm & Hauth & Hst & Hwf' & Hk);
    [by apply (up_to_date_like rc)|].
  set (auth := mkAuth (Password (redisSpec (Spec rc)))) in *.
  assert (auth = Auth m) as Ha by exact (eq_sym Hauth). clearbody auth. subst auth.
  rewrite <- (like_key _ _ Hlike) in Hk. unfold bindM at 1. cbn [alloc bind]. eapply triple_bind.
  - refine (Do_steady env (SentinelHandler.operations fuel) KRedisSentinel (fun o => o) (fun o => o) rc at_version
      (length (heap st)) m st' _ _ (healed_from O D rc m R) (before_kept env O P D rc m R) (before_kept env O P D rc m R)
      (ensure_found env _ KRedisSentinel (before_kept env O P D rc m R) (fun o => o) (fun o => o) rc at_version
        (SentinelHandler.operations fuel) _ _ _ sentinel_sets
        (fun o labels refs => proj1 (Ensure_settled o sampleStandalone labels refs)) served_objects)
      (inr tt) (sentinel_untouched m fuel) (sentinel_heals env O P D rc m fuel R HS Hfuel HR Hlen)
      (steady_ready env _ KRedisSentinel (after_kept env O P D rc m R HS) (fun o => o) (fun o => o) rc at_version _ _ _ _)
      _ o Hsame Hvalid' _ Hm Hst).
    simpl. by rewrite lookup_app_r, Nat.sub_diag.
  - intros [r st2] w (Hr & Hst2 & Hw'). simpl in Hr, Hst2. subst r.
    destruct (ready_then env O P D rc at_version m fuel R HS (length (heap st)) st' st2 Hst2 w Hw')
      as (r & t & w' & E & Hr & Hst3 & (x & Hx & Hy & [[Hl' Hs] Hsw]) & o3 & _ & Hv3).
    destruct (holds_sound rc _ m st' r.2 _ Hwf' Hk (holds_like rc _ m o _ st' Hlike (proj1 (proj2 Hst))) Hst3)
      as [Hwf3 Hup3].
    exists r, t, w'. split; [exact E|]. split; [exact Hr|]. split; [by split|]. split; [by eexists|].
    exists x. split; [|exact Hy]. split; [exact Hx|]. split; [exact Hl'|]. split; [|exact Hsw].
    intros ip Hip. specialize (Hs ip Hip). rewrite Hauth in Hs. exact Hs.
Qed.

(** C2: One reconciliation brings a cluster into order. Suppose the resource is
    valid and complete, and the cache knows nothing of it, or an older
    generation, or this one since a status was announced, with the same password. The API
    server has the resource, at whatever version and with whatever status, takes a
    status of the version it has, giving it another, and has all the objects that
    [Ensure] looks up, with the StatefulSets complete; and servers and sentinels
    are as [CheckAndHeal_converges] asks. Then [Reconcile] returns no error, so
    that none of its status writes was stale, and asks to be called again after
    the usual time, one redis server leads, all others follow it, all have the
    user's settings, and all sentinels watch it; and cache and API server are left
    so that the same holds of the next reconciliation. *)
Theorem Reconcile_heals {W} {TF : TimeFormat} {QO : QuantityOrder} `{QL : !QuantityLaws QO}
    (env : Env W) (O : Observers W) P D (rc : RedisSentinel) at_version fuel R st
    `{!Obedient env O P D rc (mkAuth (Password (redisSpec (Spec rc))))} `{SV : !ServedSentinel env fuel rc at_version} :
  sufficient P D rc (mkAuth (Password (redisSpec (Spec rc)))) -> (7 <= fuel)%nat ->
  known (d_redis_pods D) R -> (length (masters (d_redis_pods D) R) <= 1)%nat ->
  RedisSentinel_Validate rc = (rc, (false, None)) -> wf st -> up_to_date rc st ->
  triple env (fun w => o_roles O w = R /\ exists v, at_version v w)
    (Reconcile_sentinel fuel (Namespace (meta rc)) (Name (meta rc)) st) (fun r w =>
      r.1 = (mkResult false (ReconcileTime * second), None) /\
      wf r.2 /\ up_to_date rc r.2 /\ (exists v, at_version v w) /\
      exists x, x ∈ ips (d_redis_pods D) /\ led_by (d_redis_pods D) x (o_roles O w) /\
        (forall y, masters (d_redis_pods D) R = [y] -> y = x) /\
        (forall ip, ip ∈ ips (d_redis_pods D) ->
           settled (o_conf O) (config_of (redis (Spec rc))) (mkAuth (Password (redisSpec (Spec rc)))) w ip) /\
        (forall ip, ip ∈ running_ips (d_sentinel_pods D) -> watching (o_watched O) x w ip)).
Proof.
  intros HS Hfuel HR Hlen Hvalid Hwf Hup.
  eapply triple_conseq, (cluster_reconciled env O P D rc at_version fuel R st HS Hfuel HR Hlen Hvalid (conj Hwf Hup)); [done|].
  intros r w (Hr & [? ?] & ? & x & (? & ? & ? & ?) & ?). split_and!; [done..|]. by exists x.
Qed.

(** ** Standalone servers *)

(** The standalone server of the resource, there and obedient. *)
Class ObedientServer {W} (env : Env W) (up : Options -> Prop) (conf : W -> Options -> StringMap)
    (accepts : string -> string -> Prop) (normal : string -> string -> string)
    (ss : StatefulSet) (labels : StringMap) (pods : list Pod) (rs : RedisStandalone) : Prop := {
  server_conf :: ConfigServers env up conf accepts normal;
  server_set w : (env (Get KStatefulSet (Namespace (meta rs)) (Names.Standalone.GetRedisName rs)) w).1 = inr ss;
  server_pods w : (env (List KPod (Namespace (meta rs)) labels) w).1 = inr pods;
  server_selector : ss_Selector ss = Some labels;
  server_size : ss_Replicas ss = Some (Size (Spec rs));
  server_ready : ss_ReadyReplicas ss = Size (Spec rs);
  server_up ip : ip ∈ running_ips pods -> up (redis_options ip (mkAuth (Password (Spec rs))));
  server_settings k v : config_of (Spec rs) !! k = Some v -> accepts k v /\ fits k v
}.

Lemma server_like {W} (env : Env W) up conf accepts normal ss labels pods (rs rs' : RedisStandalone) :
  like rs rs' -> ObedientServer env up conf accepts normal ss labels pods rs ->
  ObedientServer env up conf accepts normal ss labels pods rs'.
Proof.
  intros (v & storage & status & _ & ->)%like_standalone HO. destruct HO. by split.
Qed.

Section standalone.
  Context {W : Type} {TF : TimeFormat} {QO : QuantityOrder} `{QL : !QuantityLaws QO}.
  Context (env : Env W) (up : Options -> Prop) (conf : W -> Options -> StringMap).
  Context (accepts : string -> string -> Prop) (normal : string -> string -> string).
  Context (ss : StatefulSet) (labels : StringMap) (pods : list Pod) (m : Meta).

(** All servers have the settings. *)
Definition servers_settled (rs : RedisStandalone) (w : W) : Prop :=
  forall ip, ip ∈ running_ips pods ->
    settled conf (config_of (Spec rs)) (mkAuth (Password (Spec rs))) w ip.

Lemma servers_kept rs `{!ObedientServer env up conf accepts normal ss labels pods rs} e w :
  aside KRedisStandalone e = true -> servers_settled rs w -> servers_settled rs (env e w).2.
Proof.
  intros [[_ He] _]%aside_no_command%no_command_harmless Hs ip Hip k v Hkv.
  rewrite (config_kept (conf := conf)); [by apply Hs| |done].
  by apply (server_up (rs := rs)).
Qed.

(** The stateless part of a program. *)
Lemma answered {A} e r (k : resp e -> prog A) Q :
  (forall w, (env e w).1 = r) -> triple env (fun _ => True) (k r) Q -> triple env (fun _ => True) (Act e k) Q.
Proof. intros Hr. by apply (triple_answered env (fun _ => True) (fun _ => True) (fun _ _ _ _ => I)). Qed.

Lemma servers_found rs `{!ObedientServer env up conf accepts normal ss labels pods rs} :
  triple env (fun _ => True) (StandaloneService.GetRedisesIPs rs) (fun r _ => r = inr (running_ips pods)).
Proof.
  apply (answered (Get KStatefulSet (Namespace (meta rs)) (Names.Standalone.GetRedisName rs)) (inr ss));
    [apply server_set|]. cbn [bind]. rewrite (server_selector (rs := rs)). cbn [or_panic bind].
  apply (answered (List KPod (Namespace (meta rs)) labels) (inr pods)); [apply server_pods|].
  by apply triple_ret.
Qed.

Lemma standalone_heals rs `{!ObedientServer env up conf accepts normal ss labels pods rs} :
  Auth m = mkAuth (Password (Spec rs)) ->
  triple env (fun _ => True) (StandaloneHandler.CheckAndHeal rs m) (fun r w => r = inr tt /\ servers_settled rs w).
Proof.
  intros Hauth. unfold StandaloneHandler.CheckAndHeal, StandaloneService.CheckRedisNumber, GetStatefulSet, get.
  unfold try at 1. unfold act. cbn [bind].
  apply (answered (Get KStatefulSet (Namespace (meta rs)) (Names.Standalone.GetRedisName rs)) (inr ss));
    [apply server_set|].
  rewrite (server_size (rs := rs)). cbn [or_panic bind].
  rewrite (server_ready (rs := rs)), Z.eqb_refl. cbn [negb bind ok].
  eapply (triple_try _ _ _ _ (fun _ => servers_settled rs)); [|intros _; by apply triple_ret].
  intros w _. destruct (servers_found rs w I) as (r & t & w1 & E & ->).
  destruct (sets_settings_loop env up conf accepts normal (StandaloneService.GetRedisesIPs rs)
    (config_of (Spec rs)) (Auth m)
    (StandaloneHandler.notify rs (fun k o =>
       Event.UpdateSentinelStatus k o "set custom config for redis server"))
    ltac:(done) ltac:(done) (server_settings (rs := rs)) w (running_ips pods) t w1 E) as (t2 & w2 & E2 & Hs & _).
  - intros ip Hip. rewrite Hauth. by apply (server_up (rs := rs)).
  - exists (inr tt), t2, w2. split; [exact E2|]. intros ip Hip. rewrite <- Hauth. by apply Hs.
Qed.
End standalone.

Lemma standalone_untouched m o : every (fun e => touches KRedisStandalone e = false) (StandaloneHandler.CheckAndHeal o m).
Proof.
  eapply every_mono, (CheckAndHeal_connected 0 sampleSentinel o m). intros e. apply connected_untouched.
Qed.

(** One reconciliation brings a standalone server into order, whether the
    cache has it or not, under the same conditions: [Reconcile] returns no error,
    asks to be called again after the usual time, the server has all the user's
    settings, and cache and API server are left so that the same holds of the next
    reconciliation. *)
Theorem Reconcile_heals_standalone {W} {TF : TimeFormat} {QO : QuantityOrder} `{QL : !QuantityLaws QO}
    (env : Env W) up conf accepts normal ss labels pods (rs : RedisStandalone) at_version st
    `{!ObedientServer env up conf accepts normal ss labels pods rs} `{SV : !ServedStandalone env rs at_version} :
  RedisStandalone_Validate rs = (rs, (false, None)) -> wf st -> up_to_date rs st ->
  triple env (fun w => exists v, at_version v w)
    (Reconcile_standalone (Namespace (meta rs)) (Name (meta rs)) st) (fun r w =>
      r.1 = (mkResult false (ReconcileTime * second), None) /\
      wf r.2 /\ up_to_date rs r.2 /\ (exists v, at_version v w) /\
      forall ip, ip ∈ running_ips pods ->
        settled conf (config_of (Spec rs)) (mkAuth (Password (Spec rs))) w ip).
Proof.
  intros Hvalid Hwf Hup. unfold Reconcile_standalone.
  eapply (triple_conseq env (fun w => True /\ exists v, at_version v w)); [by intros w Hv; split|intros r w Hr; exact Hr|].
  apply (read_resource env (fun _ => True) KRedisStandalone (fun o => o) (fun o => o) rs at_version
    (RG := served_registered)); [done|].
  intros v s. set (o := revised v s rs).
  assert (same_resource rs o) as Hsame by apply revised_same. pose proof (same_like _ _ Hsame) as Hlike.
  pose proof (Standalone_valid_status v s rs Hvalid : RedisStandalone_Validate o = _) as Hvalid'.
  destruct (Cache_read StandaloneCache.bootstrap o st Hwf) as (m & st' & Hm & Hauth & Hst & Hwf' & Hk);
    [by apply (up_to_date_like rs)|].
  rewrite <- (like_key _ _ Hlike) in Hk. unfold bindM at 1. cbn [alloc bind]. eapply triple_bind.
  - refine (Do_steady env StandaloneHandler.operations KRedisStandalone (fun o => o) (fun o => o) rs at_version
      (length (heap st)) m st' _ _ (servers_settled conf pods rs) (fun _ _ _ _ => I) (fun _ _ _ _ => I)
      (ensure_found env _ KRedisStandalone (fun _ _ _ _ => I) (fun o => o) (fun o => o) rs at_version
        StandaloneHandler.operations _ _ _ standalone_set
        (fun o labels refs => proj2 (Ensure_settled sampleSentinel o labels refs)) served_objects)
      (inr tt) (standalone_untouched m) _
      (steady_ready env _ KRedisStandalone (servers_kept env up conf accepts normal ss labels pods rs)
        (fun o => o) (fun o => o) rs at_version _ _ _ _)
      _ o Hsame Hvalid' _ Hm Hst).
    + intros o' Ho. pose proof (server_like _ _ _ _ _ _ _ _ _ _ Ho ltac:(eassumption)) as HO.
      eapply triple_conseq, (standalone_heals env up conf accepts normal ss labels pods m o'); [done| |].
      * intros r w [-> Hs]. split; [done|]. unfold servers_settled in *.
        by destruct (like_standalone _ _ Ho) as (? & ? & ? & _ & ->).
      * rewrite Hauth. f_equal. etrans; [symmetry; exact (like_password _ _ Hlike)|exact (like_password _ _ Ho)].
    + simpl. by rewrite lookup_app_r, Nat.sub_diag.
  - intros [r st2]. apply (triple_conseq _ (fun w => r = inr tt /\ (wf st2 /\ up_to_date rs st2) /\
      (exists v, at_version v w) /\ servers_settled conf pods rs w) _ _
      (fun r w => r.1 = (mkResult false (ReconcileTime * second), None) /\ wf r.2 /\ up_to_date rs r.2 /\
         (exists v, at_version v w) /\ servers_settled conf pods rs w)); [|done|].
    + intros w (? & Hst2 & Hs2 & o2 & _ & Hv2). split; [done|]. split; [|by split; [eexists|]].
      exact (holds_sound rs _ m st' st2 _ Hwf' Hk (holds_like rs _ m o _ st' Hlike (proj1 (proj2 Hst))) Hst2).
    + intros w (-> & [? ?] & ? & ?). by eexists _, _, w.
Qed.
