(* ===== verification/Whole.v ===== *)
(** * A whole cluster to run the operator against

    An environment with everything the operator talks to: redis servers with a
    role and settings, sentinels that watch a master and need time to find its
    slaves again, a clock that every request moves, and an API server that gives
    the resource another version with each status it takes, and takes none from
    an object of another version. It satisfies the laws the convergence theorems
    assume, all at once, and the theorems are instantiated on it. *)

From S2P Require Import Prelude GoStd Corev1 Api Samples Util Common Names Status Validate Effects Repair K8s.
From S2P Require Import RedisClient SentinelGen SentinelCheck SentinelHeal Cache SentinelHandler Controller.
From S2P Require Import Handler RedisProps HealProps EnsureProps FlowProps Convergence Healthy Cluster.
From S2P Require Import Settings Monitors Rejoin Steady Recovery Reconciliation.

(** ** The resource and its objects *)

(** Two settings for the redis servers, one for the sentinels, and the defaults. *)
Definition draftSentinel : RedisSentinel :=
  mkResource (meta tunedSentinel)
    (mkSentinelSpec (redis (Spec tunedSentinel))
       (mkSentinel "redis:5" "" [] 3 noResources ["parallel-syncs 2"] [] None None [] ∅ ∅)) emptyStatus.
Definition fullSentinel : RedisSentinel := (RedisSentinel_Validate draftSentinel).1.

Definition fullLabels : StringMap := getLabels fullSentinel.
Definition fullOwner : list OwnerReference := createOwnerReferences RedisSentinelKind fullSentinel.
Definition fullRedisSet : StatefulSet :=
  ready 3 (SentinelGen.generateRedisStatefulSet fullSentinel fullLabels fullOwner).1.
Definition fullSentinelSet : StatefulSet :=
  ready 3 (generateSentinelStatefulSet fullSentinel fullLabels fullOwner).

(** What the API server has, whatever the name asked for. *)
Definition stored_object (k : kind) (name : string) : result (object k) :=
  match k return result (object k) with
  | KService => inr (SentinelGen.generateRedisService fullSentinel fullLabels fullOwner)
  | KConfigMap => inr (SentinelGen.generateRedisShutdownConfigMap fullSentinel fullLabels fullOwner)
  | KStatefulSet =>
      inr (if (name =? Names.Sentinel.GetRedisName fullSentinel)%string then fullRedisSet else fullSentinelSet)
  | KPodDisruptionBudget => inr (generatePodDisruptionBudget name "prod" ∅ fullOwner 2)
  | KRedisSentinel => inr fullSentinel
  | KPod => inr (samplePod name "10.0.0.1" 30)
  | KDeployment => inr (mkDeployment (meta fullSentinel) None)
  | KNamespace => inr (mkNamespace (meta fullSentinel))
  | KRedisStandalone => inr sampleStandalone
  end.

(** The entry of the resource when it is cached first. *)
Definition fullEntry : Meta := newCluster SentinelCache.bootstrap 0%nat fullSentinel.
Definition fullAuth : AuthConfig := mkAuth (Password (redisSpec (Spec fullSentinel))).

(** ** The servers *)

Record Whole := mkWhole {
  h_clock : Z;
  h_roles : gmap string role;
  h_conf : gmap string StringMap;
  h_watched : gmap string string;
  h_joined : gmap string Z;
  (** What changes of the custom resource. *)
  h_version : Z;
  h_status : ClusterStatus
}.

(** A sentinel finds the slaves again after twelve seconds; a request takes one
    second. *)
Definition rejoin_delay : Z := 12 * second.
Definition request_time : Z := second.

Definition pass (d : Z) (w : Whole) : Whole :=
  mkWhole (h_clock w + d) (h_roles w) (h_conf w) (h_watched w) (h_joined w) (h_version w) (h_status w).
Definition joined_at (w : Whole) (opt : Options) : Z := default 0 (h_joined w !! Addr opt).
Definition forget_slaves (opt : Options) (w : Whole) : Whole :=
  if decide (plain opt)
  then mkWhole (h_clock w) (h_roles w) (h_conf w) (h_watched w) (<[Addr opt := h_clock w + rejoin_delay]> (h_joined w))
         (h_version w) (h_status w)
  else w.

(** [SLAVEOF] and [CONFIG SET]. *)
Definition slaveof_roles (opt : Options) (args : list string) (roles : gmap string role) : gmap string role :=
  match args, server_of samplePods opt with
  | [c; a; b], Some ip =>
      if (c =? "slaveof")%string then <[ip := if (b =? "ONE")%string then Master else SlaveOf a]> roles
      else roles
  | _, _ => roles
  end.

Definition told (opt : Options) (args : list string) (w : Whole) : Whole :=
  mkWhole (h_clock w) (slaveof_roles opt args (h_roles w)) (config_set_cmd opt args (h_conf w))
    (h_watched w) (h_joined w) (h_version w) (h_status w).

Definition sentinel_info : string :=
  "master0:name=mymaster,status=ok,address=10.0.0.2:6379,slaves=2,sentinels=3".

Definition slave_entry : value := VArray [VString "slave-priority"; VString "100"].

Definition whole_info (opt : Options) (args : list string) (w : Whole) : result string :=
  if bool_decide (args = ["info"; "sentinel"]) then inr sentinel_info
  else match server_of samplePods opt with
       | Some ip => inr (info_text (h_roles w !! ip))
       | None => inl refused
       end.

Definition whole_slice (opt : Options) (args : list string) (w : Whole) : result (list value) :=
  match args with
  | ["config"; _; _] => inr (config_reply (map_to_list (memory (h_conf w) opt)))
  | [_; "master"; _] =>
      match watch_of (h_watched w) opt with
      | Some m => inr [VString "name"; VString masterName; VString "ip"; VString m]
      | None => inl (errors_New "ERR No such master with that name")
      end
  | _ => inr (if joined_at w opt <=? h_clock w then [slave_entry; slave_entry] else [])
  end.

(** The custom resource as the API server has it; a status is taken from an object
    of that version, which gets another, and refused with a conflict otherwise. *)
Definition current {S} (rc : CustomResource S) (w : Whole) : CustomResource S :=
  revised (FormatInt (h_version w)) (h_status w) rc.
Definition announced (s : ClusterStatus) (w : Whole) : Whole :=
  mkWhole (h_clock w) (h_roles w) (h_conf w) (h_watched w) (h_joined w) (h_version w + 1) s.
Definition conflict : error := errors_New "the object has been modified".
Definition take_status {S} (rc o : CustomResource S) (w : Whole) : result (CustomResource S) * Whole :=
  if (ResourceVersion (meta o) =? FormatInt (h_version w))%string
  then (inr (current rc (announced (Status o) w)), announced (Status o) w)
  else (inl conflict, w).

Definition whole_answer : Env Whole := fun e =>
  match e return Whole -> resp e * Whole with
  | Get k _ name => fun w =>
      (match k return result (object k) with
       | KRedisSentinel => inr (current fullSentinel w)
       | k => stored_object k name
       end, w)
  | Create _ _ => fun w => (inr tt, w)
  | Update _ o => fun w => (inr o, w)
  | StatusUpdate k o => fun w =>
      match k return object k -> result (object k) * Whole with
      | KRedisSentinel => fun o => take_status fullSentinel o w
      | _ => fun o => (inr o, w)
      end o
  | Delete _ _ => fun w => (inr tt, w)
  | List k _ _ => fun w =>
      (match k return result (list (object k)) with KPod => inr samplePods | _ => inr [] end, w)
  | StringCmd opt args => fun w => (whole_info opt args w, w)
  | SliceCmd opt args => fun w => (whole_slice opt args w, w)
  | IntCmd opt _ => fun w => (inr 1, forget_slaves opt w)
  | BoolCmd opt args => fun w =>
      (inr true, forget_slaves opt (mkWhole (h_clock w) (h_roles w) (h_conf w)
                   (watch_cmd opt args (h_watched w)) (h_joined w) (h_version w) (h_status w)))
  | StatusCmd opt args => fun w => (inr "OK", told opt args w)
  | Now => fun w => (h_clock w, w)
  | Sleep d => fun w => (tt, pass (Z.max 0 d) w)
  | Seed => fun w => ([], w)
  | RecordEvent _ _ _ _ _ _ => fun w => (tt, w)
  | SetGauge _ _ _ => fun w => (tt, w)
  | DeleteGauge _ _ => fun w => (tt, w)
  end.

(** Every request takes its time. *)
Definition whole : Env Whole := fun e w => ((whole_answer e w).1, pass request_time (whole_answer e w).2).

Definition whole_observers : Observers Whole :=
  mkObservers Whole h_roles (fun w => memory (h_conf w)) (fun w => watch_of (h_watched w)) h_clock joined_at.

Definition whole_promises : Promises :=
  mkPromises trusted plain (fun _ _ => True) stored (fun _ _ => True) (fun _ => True) rejoin_delay request_time.

Definition whole_installation : Installation :=
  mkInstallation fullRedisSet (default ∅ (ss_Selector fullRedisSet)) samplePods
    fullSentinelSet (default ∅ (ss_Selector fullSentinelSet)) samplePods.

(** ** The laws *)

(** A status changes nothing else. *)
Ltac status_taken :=
  match goal with o : object ?k |- _ => destruct k; try done; simpl; unfold take_status; destruct (_ =? _)%string end.

#[export] Instance whole_conf : ConfigServers whole trusted (fun w => memory (h_conf w)) (fun _ _ => True) stored.
Proof.
  split.
  - intros opt w Hup. by exists (map_to_list (memory (h_conf w) opt)).
  - intros opt k v w Hup _. exists "OK". split; [done|]. simpl. unfold config_set_cmd.
    rewrite decide_True by done. rewrite bool_decide_true by done. unfold memory. by rewrite lookup_insert_eq.
  - intros e w opt Hup He. destruct e; try done; simpl; try by apply config_set_cmd_other.
    1: by status_taken. all: unfold forget_slaves; by destruct (decide _).
  - apply config_server_laws.
  - apply config_server_laws.
Qed.

Lemma forgotten_watched opt w : h_watched (forget_slaves opt w) = h_watched w.
Proof. unfold forget_slaves. by destruct (decide _). Qed.

#[export] Instance whole_watched : Sentinels whole plain (fun w => watch_of (h_watched w)) (fun _ => True).
Proof.
  split.
  - intros opt w _. simpl. destruct (watch_of _ opt); by eexists.
  - intros opt w Hup. simpl. rewrite forgotten_watched. unfold watch_cmd, watch_of.
    rewrite decide_True by done. apply lookup_delete_eq.
  - intros opt m port quorum w Hup _ _. simpl. split; [by eexists|].
    rewrite forgotten_watched. unfold watch_cmd, watch_of. rewrite decide_True by done. apply lookup_insert_eq.
  - intros opt k v w _ _. by eexists.
  - intros e w opt Hup Hne.
    pose proof (sentinel_kept (env := sentinel_server) e (h_watched w) opt Hup Hne) as H.
    destruct e; try done; simpl in *; [by status_taken|by rewrite forgotten_watched..].
Qed.

Lemma forgotten_joined opt w opt' :
  plain opt' -> opt <> opt' -> joined_at (forget_slaves opt w) opt' = joined_at w opt'.
Proof.
  intros [Hp Hd] Hne. unfold forget_slaves. destruct (decide (plain opt)) as [[Hp' Hd']|]; [|done].
  unfold joined_at. cbn [h_joined]. rewrite lookup_insert_ne; [done|]. intros E. apply Hne.
  destruct opt, opt'. simpl in *. congruence.
Qed.

#[export] Instance whole_joined : Rejoining whole plain h_clock joined_at 2 rejoin_delay request_time.
Proof.
  assert (forall opt w, h_clock (forget_slaves opt w) = h_clock w) as Hc
    by (intros opt w; unfold forget_slaves; by destruct (decide _)).
  split.
  - done.
  - intros e w Hs. assert (h_clock (whole e w).2 = h_clock w + request_time) as ->.
    { destruct e; try done; simpl; rewrite ?Hc; try done; [by status_taken|by destruct (Hs d)]. }
    unfold request_time, second. lia.
  - intros d w Hd. simpl. unfold request_time, second. lia.
  - intros opt w _. exists sentinel_info. by vm_compute.
  - intros opt w _. exists (if joined_at w opt <=? h_clock w then [slave_entry; slave_entry] else []).
    split; [done|]. assert (eligible slave_entry) as Hel by (eexists _, "100"; by split_and!).
    destruct (Z.leb_spec (joined_at w opt) (h_clock w)); split_and!; simpl; try lia;
      auto using Forall_cons_2, Forall_nil_2.
  - intros opt w Hup. cbn zeta. split; [by eexists|]. simpl. rewrite Hc.
    unfold forget_slaves. rewrite decide_True by done. unfold joined_at. cbn [h_joined pass].
    rewrite lookup_insert_eq. simpl. unfold rejoin_delay, request_time, second. lia.
  - intros e w opt Hup Hne. destruct e as [| | |k o| | | | |opt' args|opt' args| | | | | | |]; try done;
      [by status_taken|..]; simpl; unfold joined_at at 1; cbn [h_joined pass]; fold (joined_at (forget_slaves opt' w) opt).
    + rewrite forgotten_joined; [done..|]. intros ->. apply Hne. by exists args; left.
    + match goal with |- default 0 (h_joined ?x !! _) = _ => change (joined_at x opt = joined_at w opt) end.
      rewrite forgotten_joined; [done..|]. intros ->. apply Hne. by exists args; right.
Qed.

Lemma forgotten_roles opt w : h_roles (forget_slaves opt w) = h_roles w.
Proof. unfold forget_slaves. by destruct (decide _). Qed.

Lemma server_of_trusted p : p ∈ samplePods ->
  server_of samplePods (redis_options (pod_PodIP p) fullAuth) = Some (pod_PodIP p).
Proof.
  assert (Forall (fun p => server_of samplePods (redis_options (pod_PodIP p) fullAuth)
    = Some (pod_PodIP p)) samplePods) as H by (repeat constructor).
  intros Hp. by eapply Forall_forall in H.
Qed.

Lemma other_command opt args roles :
  (forall a b, args <> ["slaveof"; a; b]) -> slaveof_roles opt args roles = roles.
Proof.
  intros Hne. unfold slaveof_roles. destruct args as [|c [|a [|b [|? ?]]]]; try done.
  destruct (server_of _ opt); [|done]. destruct (String.eqb_spec c "slaveof") as [->|]; [|done].
  by destruct (Hne a b).
Qed.

#[export] Instance whole_reachable :
  Reachable whole h_roles fullAuth (Namespace (meta fullSentinel))
    (Names.Sentinel.GetRedisName fullSentinel) fullRedisSet (default ∅ (ss_Selector fullRedisSet)) samplePods.
Proof.
  split; try apply (sample_reachable).
  - done.
  - done.
  - done.
  - intros e w He. destruct e; try done; simpl; [by status_taken|by rewrite forgotten_roles..].
  - intros p w Hp. eexists _, _. split; [reflexivity|]. simpl. unfold slaveof_roles.
    by rewrite server_of_trusted.
  - intros p q w Hp _. eexists _, _. split; [reflexivity|]. simpl. unfold slaveof_roles.
    by rewrite server_of_trusted.
  - intros p w Hp. eexists (info_text (h_roles w !! pod_PodIP p)), _. split.
    { unfold whole. simpl. unfold whole_info. rewrite bool_decide_false by done.
      by rewrite server_of_trusted. }
    split; [done|]. destruct (h_roles w !! pod_PodIP p) as [[|h]|]; [done|apply info_slave|done].
Qed.

#[export] Instance whole_obedient :
  Obedient whole whole_observers whole_promises whole_installation fullSentinel fullAuth.
Proof.
  split; try apply _.
  - intros e w He. destruct e; try done; simpl; [by status_taken|by rewrite forgotten_roles..|]. apply other_command.
    intros a b ->. apply He. by eexists _, _, _.
  - done.
  - done.
  - by eexists.
Qed.

(** The settings after validation: three are amounts of memory. *)
Ltac amounts_fit config :=
  let l := eval vm_compute in (map_to_list config) in
  change (map_to_list config) with l;
  repeat apply Forall_cons_2; [..|apply Forall_nil_2]; cbv beta; cbn [fst snd];
  let H := fresh in intros H; first [discriminate H|right];
  first [by exists 2, "GB", 1073741824|by exists 536870912, "", 1|by exists 62914560, "", 1].

Lemma fits_listed (config : StringMap) k v :
  Forall (fun kv => fits kv.1 kv.2) (map_to_list config) -> config !! k = Some v -> fits k v.
Proof.
  intros H Hkv%elem_of_map_to_list. by eapply (proj1 (Forall_forall _ _)) in H; [|exact Hkv].
Qed.

Lemma full_fits k v : config_of (redis (Spec fullSentinel)) !! k = Some v -> fits k v.
Proof. apply fits_listed. amounts_fit (config_of (redis (Spec fullSentinel))). Qed.

Lemma whole_sufficient : sufficient whole_promises whole_installation fullSentinel fullAuth.
Proof.
  split; try done.
  - intros k v Hkv. split; [done|by apply full_fits].
  - intros config. intros ->%list_elem_of_singleton.
    by exists "parallel-syncs", "2".
Qed.

Definition current_version (v : string) (w : Whole) : Prop := v = FormatInt (h_version w).

Lemma current_same {S} (rc : CustomResource S) w : same_resource rc (current rc w).
Proof. apply revised_same. Qed.

#[export] Instance whole_registered :
  Registered whole KRedisSentinel (fun o => o) (fun o => o) fullSentinel current_version.
Proof.
  split.
  - intros v w ->. exists (current fullSentinel w). split; [done|]. split; [apply current_same|done].
  - intros o w _ Hv. exists (current fullSentinel (announced (Status o) w)).
    unfold whole. cbn [whole_answer fst snd]. unfold take_status. rewrite Hv, String.eqb_refl. cbn [fst snd].
    split; [done|]. split; [apply current_same|]. by split.
  - intros v e w He. destruct e; try done; simpl in *; try by rewrite bool_decide_eq_false in He.
    all: unfold current_version; simpl; try (unfold forget_slaves; by destruct (decide _)).
    destruct k; try done.
Qed.

#[export] Instance whole_served :
  Served whole (SentinelHandler.operations (QO := sampleOrder) 7) KRedisSentinel
    (fun o => o) (fun o => o) sentinel_sets fullSentinel current_version.
Proof.
  split; [apply _|]. intros o w (v & storage & st & _ & ->)%like_sentinel. apply run_answers. clear.
  intros e w. destruct e as [k ns name| | | | | | | | | | | | | | | |]; try exact I.
  destruct k; try exact I. split; intros ->; (split; [|split]); vm_compute; reflexivity.
Qed.

(** ** Witnesses *)

(** No server is a master; one sentinel watches a server that is gone and does
    not know the slaves yet, one watches nothing. *)
Definition neglected : Whole :=
  mkWhole 0 orphans ∅ {[ "10.0.0.1:26379" := "10.0.0.9"; "10.0.0.2:26379" := "10.0.0.2" ]}
    {[ "10.0.0.2:26379" := 1000 * second ]} 7 emptyStatus.

Lemma CheckAndHeal_converges_witness :
  exists t w, run whole (SentinelHandler.CheckAndHeal 7 fullSentinel fullEntry) neglected = (Returns (inr tt), t, w) /\
    exists x, led_by samplePods x (h_roles w) /\
      (forall ip, ip ∈ ips samplePods ->
         settled (fun w => memory (h_conf w)) (config_of (redis (Spec fullSentinel))) fullAuth w ip) /\
      forall ip, ip ∈ running_ips samplePods -> watching (fun w => watch_of (h_watched w)) x w ip.
Proof.
  destruct (CheckAndHeal_converges whole whole_observers whole_promises whole_installation fullSentinel
    fullEntry 7 orphans whole_sufficient ltac:(lia) orphans_known ltac:(vm_compute; lia)
    neglected eq_refl) as (r & t & w & E & -> & x & _ & Hl & _ & Hs & Hw).
  exists t, w. split; [exact E|]. exists x. split; [exact Hl|]. split; [exact Hs|exact Hw].
Defined.

(** The round, computed: the second pod was created first and becomes the
    master, all sentinels watch it, and the two that had been told anew were
    waited for. *)
Example neglected_healed :
  let w := (run whole (SentinelHandler.CheckAndHeal 7 fullSentinel fullEntry) neglected).2 in
  (h_roles w, h_watched w) =
  (<["10.0.0.1" := SlaveOf "10.0.0.2"]> (<["10.0.0.2" := Master]> {[ "10.0.0.3" := SlaveOf "10.0.0.2" ]}),
   <["10.0.0.1:26379" := "10.0.0.2"]> (<["10.0.0.2:26379" := "10.0.0.2"]> {[ "10.0.0.3:26379" := "10.0.0.2" ]})).
Proof. vm_compute. reflexivity. Qed.

Lemma heal_slaves_converges_witness :
  exists t w, run whole (let? sentinels := GetSentinelsIPs fullSentinel in
      heal_slaves 7 fullSentinel fullEntry sentinels) neglected = (Returns (inr tt), t, w) /\
    rejoined h_clock joined_at w "10.0.0.2".
Proof.
  destruct (heal_slaves_converges whole plain h_clock joined_at 2 rejoin_delay request_time 7 fullSentinel
    fullEntry ltac:(lia) eq_refl ltac:(lia) ltac:(done) ltac:(done) ltac:(done) neglected
    ["10.0.0.1"; "10.0.0.2"; "10.0.0.3"] (run whole (GetSentinelsIPs fullSentinel) neglected).1.2
    (run whole (GetSentinelsIPs fullSentinel) neglected).2) as (t & w & E & Hs & _).
  - vm_compute. reflexivity.
  - intros ip _. by split.
  - exists t, w. split; [exact E|]. apply Hs. right. left.
Defined.

(** The cache has the resource from an earlier reconciliation, with the status
    announced then, at a version that has passed. *)
Definition earlierSentinel : RedisSentinel :=
  revised "5" (SetReadyCondition (TF := sampleFormat) (mkClock 1 1 1 1) "Cluster ok" emptyStatus) fullSentinel.
Definition fullStore : Store RedisSentinelSpec :=
  mkStore [earlierSentinel] {[ key_of fullSentinel := fullEntry ]}.

Lemma fullStore_wf : wf fullStore.
Proof.
  intros k m Hm. unfold fullStore in Hm. cbn [metas] in Hm.
  apply lookup_singleton_Some in Hm as [<- <-]. exists earlierSentinel. by split_and!.
Qed.

Lemma fullStore_up_to_date : up_to_date fullSentinel fullStore.
Proof.
  intros m old Hm Ho. unfold fullStore in Hm. cbn [metas] in Hm.
  apply lookup_singleton_Some in Hm as [_ <-]. injection Ho as <-. split; [reflexivity|].
  intros _. split; [apply same_like, revised_same|]. apply set_condition_told.
Qed.

Lemma Reconcile_heals_witness :
  exists st t w, run whole (Reconcile_sentinel (TF := sampleFormat) 7 "prod" "demo" fullStore) neglected
      = (Returns ((mkResult false (ReconcileTime * second), None), st), t, w) /\
    exists x, led_by samplePods x (h_roles w).
Proof.
  destruct (Reconcile_heals (TF := sampleFormat) (QL := sampleOrder_laws) whole whole_observers whole_promises
    whole_installation fullSentinel current_version 7 orphans fullStore whole_sufficient ltac:(lia) orphans_known
    ltac:(vm_compute; lia) ltac:(vm_compute; reflexivity) fullStore_wf fullStore_up_to_date neglected
    (conj eq_refl (ex_intro _ "7" eq_refl)))
    as ([r st] & t & w & E & Hr & _ & _ & _ & x & _ & Hl & _).
  simpl in Hr. subst r. exists st, t, w. split; [exact E|]. exists x. exact Hl.
Defined.

(** Of the gauges it set one, to 1; the same from the empty cache. *)
Example neglected_reported :
  let gauges st := List.filter (fun e => match projT1 e with SetGauge _ _ _ => true | _ => false end)
    (run whole (Reconcile_sentinel (TF := sampleFormat) 7 "prod" "demo" st) neglected).1.2 in
  gauges fullStore = [ev (SetGauge "prod" "demo" 1) tt] /\
  gauges (mkStore [] ∅) = [ev (SetGauge "prod" "demo" 1) tt].
Proof. vm_compute. done. Qed.

(** The status is written once if it has been announced before and twice from the
    empty cache, each time with the version of the last answer; a version that has
    passed is refused. *)
Example versions_move :
  let version st := h_version
    (run whole (Reconcile_sentinel (TF := sampleFormat) 7 "prod" "demo" st) neglected).2 in
  (h_version neglected, version fullStore, version (mkStore [] ∅)) = (7, 8, 9) /\
  (whole (StatusUpdate KRedisSentinel earlierSentinel) neglected).1 = inl conflict.
Proof. vm_compute. done. Qed.

(** ** A standalone server *)

Definition draftStandalone : RedisStandalone :=
  mkResource (meta sampleStandalone) (set_Size 1 (redis (Spec tunedSentinel))) emptyStatus.
Definition fullStandalone : RedisStandalone := (RedisStandalone_Validate draftStandalone).1.
Definition lonelySet : StatefulSet :=
  ready 1 (StandaloneGen.generateRedisStatefulSet fullStandalone (getLabels fullStandalone)
    (createOwnerReferences RedisStandaloneKind fullStandalone)).1.
Definition lonelyPod : Pod := samplePod "demo-0" "10.0.0.7" 30.

(** The same servers, with the objects of the standalone resource. *)
Definition lonely : Env Whole := fun e =>
  match e return Whole -> resp e * Whole with
  | Get k _ name => fun w =>
      (match k return result (object k) with
       | KStatefulSet => inr lonelySet
       | KRedisStandalone => inr (current fullStandalone w)
       | k => stored_object k name
       end, w)
  | StatusUpdate k o => fun w =>
      match k return object k -> result (object k) * Whole with
      | KRedisStandalone => fun o => take_status fullStandalone o w
      | _ => fun o => (inr o, w)
      end o
  | List k _ _ => fun w =>
      (match k return result (list (object k)) with KPod => inr [lonelyPod] | _ => inr [] end, w)
  | e => whole e
  end.

#[export] Instance lonely_conf : ConfigServers lonely trusted (fun w => memory (h_conf w)) (fun _ _ => True) stored.
Proof.
  destruct whole_conf as [H1 H2 H3 H4 H5]. split; [exact H1|exact H2| |exact H4|exact H5].
  intros e w opt Hup He. destruct e; try done; [by status_taken|by apply H3..].
Qed.

#[export] Instance lonely_obedient :
  ObedientServer lonely trusted (fun w => memory (h_conf w)) (fun _ _ => True) stored
    lonelySet (default ∅ (ss_Selector lonelySet)) [lonelyPod] fullStandalone.
Proof.
  split; try done; [apply _|]. intros k v Hkv. split; [done|]. revert Hkv. apply fits_listed.
  amounts_fit (config_of (Spec fullStandalone)).
Qed.

#[export] Instance lonely_registered :
  Registered lonely KRedisStandalone (fun o => o) (fun o => o) fullStandalone current_version.
Proof.
  split.
  - intros v w ->. exists (current fullStandalone w). split; [done|]. split; [apply current_same|done].
  - intros o w _ Hv. exists (current fullStandalone (announced (Status o) w)).
    unfold lonely, take_status. rewrite Hv, String.eqb_refl. cbn [fst snd].
    split; [done|]. split; [apply current_same|]. by split.
  - intros v e w He. destruct e; try done; simpl in *; try by rewrite bool_decide_eq_false in He.
    all: unfold current_version; simpl; try (unfold forget_slaves; by destruct (decide _)).
    destruct k; try done.
Qed.

#[export] Instance lonely_served :
  Served lonely (StandaloneHandler.operations (QO := sampleOrder)) KRedisStandalone
    (fun o => o) (fun o => o) standalone_set fullStandalone current_version.
Proof.
  split; [apply _|]. intros o w (v & storage & st & _ & ->)%like_standalone. apply run_answers. clear.
  intros e w. destruct e as [k ns name| | | | | | | | | | | | | | | |]; try exact I.
  destruct k; try exact I. (split; [|split]); vm_compute; reflexivity.
Qed.

Lemma Reconcile_heals_standalone_witness :
  exists st t w, run lonely (Reconcile_standalone (TF := sampleFormat) "prod" "demo" (mkStore [] ∅)) neglected
      = (Returns ((mkResult false (ReconcileTime * second), None), st), t, w) /\
    settled (fun w => memory (h_conf w)) (config_of (Spec fullStandalone)) fullAuth w "10.0.0.7".
Proof.
  destruct (Reconcile_heals_standalone (TF := sampleFormat) (QL := sampleOrder_laws) lonely trusted
    (fun w => memory (h_conf w)) (fun _ _ => True) stored lonelySet (default ∅ (ss_Selector lonelySet)) [lonelyPod]
    fullStandalone current_version (mkStore [] ∅) ltac:(vm_compute; reflexivity)) with neglected
    as ([r st] & t & w & E & Hr & _ & _ & _ & Hs).
  - intros k m Hm. simpl in Hm. by rewrite lookup_empty in Hm.
  - intros m old Hm. simpl in Hm. by rewrite lookup_empty in Hm.
  - by exists "7".
  - simpl in Hr. subst r. exists st, t, w. split; [exact E|]. apply Hs. left.
Defined.
