(* ===== verification/Threads.v ===== *)
(** * Handlers as threads

    A handler of [Handler] is a function of the store, and keeps the store in
    hand while it waits for an answer. Here the same handlers are trees of
    atomic steps, so that several can take turns: a request, a load or a store
    of an object, an allocation, or one operation of the [sync.Map] that holds
    the cache. [Threaded] relates the two accounts; its instances are found
    along the structure of the handlers, so nothing is written twice. *)

From S2P Require Import Prelude GoStd Corev1 Api Util Common Status Effects Equiv K8s Cache Handler.
From S2P Require Import SentinelHandler StandaloneHandler Controller SentinelCheck.

Inductive thread (S A : Type) : Type :=
| Finished (a : A)
| Crashed
| CutOff
| Ask (e : Eff) (k : resp e -> thread S A)
| Load (l : loc) (k : CustomResource S -> thread S A)
| Assign (l : loc) (o : CustomResource S) (k : thread S A)
| New (o : CustomResource S) (k : loc -> thread S A)
| LoadEntry (key : string) (k : option Meta -> thread S A)
| StoreEntry (key : string) (m : Meta) (k : thread S A)
| DeleteEntry (key : string) (k : thread S A).
Arguments Finished {S A}.
Arguments Crashed {S A}.
Arguments CutOff {S A}.
Arguments Ask {S A}.
Arguments Load {S A}.
Arguments Assign {S A}.
Arguments New {S A}.
Arguments LoadEntry {S A}.
Arguments StoreEntry {S A}.
Arguments DeleteEntry {S A}.

Definition set_metas {S} (f : gmap string Meta -> gmap string Meta) (st : Store S) : Store S :=
  mkStore (heap st) (f (metas st)).

(** A thread on its own. *)
Fixpoint exec {S A} (t : thread S A) (st : Store S) : prog (A * Store S) :=
  match t with
  | Finished a => Ret (a, st)
  | Crashed => Panic
  | CutOff => OutOfFuel
  | Ask e k => Act e (fun r => exec (k r) st)
  | Load l k => match heap st !! l with Some o => exec (k o) st | None => Panic end
  | Assign l o k => exec k (write l o st)
  | New o k => exec (k (alloc o st).1) (alloc o st).2
  | LoadEntry key k => exec (k (metas st !! key)) st
  | StoreEntry key m k => exec k (set_metas <[key := m]> st)
  | DeleteEntry key k => exec k (set_metas (delete key) st)
  end.

Fixpoint tbind {S A B} (t : thread S A) (f : A -> thread S B) : thread S B :=
  match t with
  | Finished a => f a
  | Crashed => Crashed
  | CutOff => CutOff
  | Ask e k => Ask e (fun r => tbind (k r) f)
  | Load l k => Load l (fun o => tbind (k o) f)
  | Assign l o k => Assign l o (tbind k f)
  | New o k => New o (fun l => tbind (k l) f)
  | LoadEntry key k => LoadEntry key (fun m => tbind (k m) f)
  | StoreEntry key m k => StoreEntry key m (tbind k f)
  | DeleteEntry key k => DeleteEntry key (tbind k f)
  end.

(** A program that leaves the store alone. *)
Fixpoint of_prog {S A} (p : prog A) : thread S A :=
  match p with
  | Ret a => Finished a
  | Panic => Crashed
  | OutOfFuel => CutOff
  | Act e k => Ask e (fun r => of_prog (k r))
  end.

Lemma exec_bind {S A B} (t : thread S A) (f : A -> thread S B) st :
  exec (tbind t f) st ≃ bind (exec t st) (fun '(a, st) => exec (f a) st).
Proof.
  revert st; induction t as [a| | |e k IH|l k IH|l o t IH|o k IH|key k IH|key m t IH|key t IH];
    intros st; simpl; auto; try done.
  - by apply equiv_act.
  - destruct (heap st !! l); auto; done.
Qed.

Lemma exec_of_prog {S A} (p : prog A) (st : Store S) :
  exec (of_prog p) st ≃ bind p (fun a => Ret (a, st)).
Proof. induction p; simpl; try done. by apply equiv_act. Qed.

(** ** The steps of a handler *)

Class Threaded {S A} (m : M S A) := {
  thread_of : thread S A;
  thread_exec st : exec thread_of st ≃ m st
}.
Arguments thread_of {S A} m {_}.

Section threaded.
  Context {S : Type}.

#[export] Instance threaded_ret {A} (a : A) : Threaded (retM (S := S) a).
Proof. by exists (Finished a). Defined.

#[export] Instance threaded_okM : Threaded (okM (S := S)).
Proof. by exists (Finished (inr tt)). Defined.

#[export] Instance threaded_failM err : Threaded (failM (S := S) err).
Proof. by exists (Finished (inl err)). Defined.

#[export] Instance threaded_lift {A} (p : prog A) : Threaded (lift (S := S) p).
Proof. exists (of_prog p). apply exec_of_prog. Defined.

#[export] Instance threaded_deref l : Threaded (deref (S := S) l).
Proof.
  exists (Load l Finished). intros st. unfold deref. simpl. by destruct (heap st !! l).
Defined.

#[export] Instance threaded_assign l (o : CustomResource S) : Threaded (assign l o).
Proof. by exists (Assign l o (Finished tt)). Defined.

#[export] Instance threaded_alloc (o : CustomResource S) : Threaded (fun st => Ret (alloc o st)).
Proof. by exists (New o Finished). Defined.

#[export] Instance threaded_bind {A B} (m : M S A) (f : A -> M S B) :
  Threaded m -> (forall a, Threaded (f a)) -> Threaded (bindM m f).
Proof.
  intros Hm Hf. exists (tbind (thread_of m) (fun a => thread_of (f a))). intros st.
  unfold bindM. rewrite exec_bind. apply bind_proper; [apply thread_exec|].
  intros [a st']. apply thread_exec.
Defined.

(** The cache: the operations of the map and the object in their order. *)
Context `{HS : HasRedisSpec S} (bootstrap : string).

(** [Get]. *)
Definition get_thread (rc : loc) : thread S Meta :=
  Load rc (fun obj => LoadEntry (key_of obj) (fun found =>
    match found with Some m => Finished m | None => Crashed end)).

(** [Add]. *)
Definition add_thread {A} (rc : loc) (k : thread S A) : thread S A :=
  Load rc (fun obj => StoreEntry (key_of obj) (newCluster bootstrap rc obj) k).

(** [Update]: the stored entry is changed in place. *)
Definition update_thread {A} (key : string) (m : Meta) (rc : loc) (k : thread S A) : thread S A :=
  Load (Obj m) (fun old => Load rc (fun new =>
    if Generation (meta old) =? Generation (meta new)
    then StoreEntry key (updated_meta m rc old new) k
    else Assign rc (with_password (Password (redisSpec (Spec old))) new)
           (StoreEntry key (updated_meta m rc old new) k))).

Definition cache_thread (rc : loc) : thread S Meta :=
  Load rc (fun obj => LoadEntry (key_of obj) (fun found =>
    match found with
    | None => add_thread rc (get_thread rc)
    | Some m => update_thread (key_of obj) m rc (get_thread rc)
    end)).

Lemma exec_get rc st : exec (get_thread rc) st ≃
  bind (or_panic (GetMeta rc st)) (fun m => Ret (m, st)).
Proof.
  unfold get_thread, GetMeta. simpl. destruct (heap st !! rc) as [obj|]; [|done]. simpl.
  by destruct (metas st !! key_of obj).
Qed.

Lemma or_panic_bind {A B} (o : option A) (f : A -> option B) :
  or_panic (o ≫= f) = bind (or_panic o) (fun a => or_panic (f a)).
Proof. by destruct o. Qed.

Lemma exec_cache rc st : exec (cache_thread rc) st ≃ or_panic (Cache bootstrap rc st).
Proof.
  unfold cache_thread, Cache. simpl. destruct (heap st !! rc) as [obj|] eqn:Eo; [|done]. simpl.
  assert (forall st', exec (get_thread rc) st' ≃ or_panic (m ← GetMeta rc st'; Some (m, st'))) as Hget.
  { intros st'. rewrite exec_get, or_panic_bind. done. }
  destruct (metas st !! key_of obj) as [m|] eqn:Em.
  - unfold update_thread, UpdateMeta, updated_meta. simpl. destruct (heap st !! Obj m) as [old|]; [|done].
    simpl. rewrite Eo. simpl. destruct (_ =? _); cbn [exec].
    + rewrite Hget. by case_bool_decide.
    + rewrite Hget. done.
  - unfold add_thread, Add. cbn [exec]. rewrite Eo. by rewrite Hget.
Qed.

End threaded.

(** Along the structure of a handler. *)
Ltac threaded_step :=
  intros; cbv beta;
  lazymatch goal with
  | |- Threaded (bindM _ _) => apply threaded_bind
  | |- Threaded (match ?x with _ => _ end) => destruct x
  | |- Threaded _ => apply _
  end.
Ltac threaded := repeat threaded_step.

(** What the threads need of the services: the cache's operation. *)
Class CachedBy {S} `{HS : HasRedisSpec S} (ops : Operations S) (bootstrap : string) : Prop :=
  cached_by : op_Cache ops = Cache bootstrap.

Section handler.
  Context {TF : TimeFormat} {S : Type} `{HS : HasRedisSpec S} (ops : Operations S).
  Context (bootstrap : string) `{CB : !CachedBy ops bootstrap}.

#[export] Instance threaded_event l e : Threaded (event_on ops l e).
Proof. unfold event_on. threaded. Defined.

#[export] Instance threaded_condition l (set : Clock -> ClusterStatus -> ClusterStatus) :
  Threaded (set_condition (S := S) l set).
Proof. unfold set_condition. threaded. Defined.

#[export] Instance threaded_UpdateStatusAt l : Threaded (UpdateStatusAt ops l).
Proof. unfold UpdateStatusAt. threaded. Defined.

#[export] Instance threaded_UpdateSpecAt l : Threaded (UpdateSpecAt ops l).
Proof. unfold UpdateSpecAt. threaded. Defined.

#[export] Instance threaded_updateStatus m : Threaded (Handler.updateStatus ops m).
Proof. unfold Handler.updateStatus. threaded. Defined.

#[export] Instance threaded_report rc err : Threaded (report_failure ops rc err).
Proof. unfold report_failure. threaded. Defined.

#[export] Instance threaded_set_error rc : Threaded (set_error (S := S) rc).
Proof. unfold set_error. threaded. Defined.

#[export] Instance threaded_set_ok rc : Threaded (set_ok (S := S) rc).
Proof. unfold set_ok. threaded. Defined.

#[export] Instance threaded_heal_failed rc err : Threaded (heal_failed ops rc err).
Proof. unfold heal_failed. threaded. Defined.

#[export] Instance threaded_set_ready rc : Threaded (set_ready ops rc).
Proof. unfold set_ready. threaded. Defined.

#[export] Instance threaded_ensure l labels refs : Threaded (ensure_at ops l labels refs).
Proof. unfold ensure_at. threaded. Defined.

#[export] Instance threaded_cached rc : Threaded (fun st => or_panic (op_Cache ops rc st)).
Proof.
  exists (cache_thread bootstrap rc). intros st. rewrite cached_by. apply exec_cache.
Defined.

#[export] Instance threaded_reconcile rc : Threaded (reconcile_valid ops rc).
Proof. unfold reconcile_valid. threaded. Defined.

#[export] Instance threaded_Do rc : Threaded (Handler.Do ops rc).
Proof. unfold Handler.Do. threaded. Defined.

(** The handling of a deleted resource: a fresh object names the entry. *)
#[export] Instance threaded_forget ns name : Threaded (forget ops ns name).
Proof.
  set (o := mkResource (newMeta name ns ∅ []) (op_zero ops) emptyStatus).
  exists (New o (fun l => Load l (fun obj => DeleteEntry (key_of obj) (Finished (noRequeue, None))))).
  intros st. unfold forget, Del. subst o. simpl. case_match; done.
Defined.
End handler.

#[export] Instance sentinel_cached fuel {TF : TimeFormat} {QO : QuantityOrder} :
  CachedBy (SentinelHandler.operations fuel) SentinelCache.bootstrap.
Proof. done. Qed.

#[export] Instance standalone_cached {TF : TimeFormat} {QO : QuantityOrder} :
  CachedBy StandaloneHandler.operations StandaloneCache.bootstrap.
Proof. done. Qed.

Section controllers.
  Context {TF : TimeFormat} {QO : QuantityOrder} (fuel : nat).

#[export] Instance threaded_sentinel ns name : Threaded (Reconcile_sentinel fuel ns name).
Proof. unfold Reconcile_sentinel, SentinelHandler.Do. threaded. Defined.

#[export] Instance threaded_standalone ns name : Threaded (Reconcile_standalone ns name).
Proof. unfold Reconcile_standalone, StandaloneHandler.Do. threaded. Defined.
End controllers.
