(* ===== verification/Locality.v ===== *)
(** * A reconciliation stays with its resource

    Every step of a reconciliation touches only the cache entry of its resource
    and objects that bear the resource's name, and it allocates one object,
    before its first use of the store. This holds step by step, whatever the
    store holds, so it holds among other threads. *)

From S2P Require Import Prelude GoStd Corev1 Api Samples Util Common Names Status Validate.
From S2P Require Import Effects K8s SentinelGen SentinelCheck SentinelHeal SentinelClient.
From S2P Require Import StandaloneGen StandaloneService Cache Handler SentinelHandler.
From S2P Require Import StandaloneHandler Controller FlowProps System Threads.

(** ** Answers that bear the right names *)

Definition custom (k : kind) : bool :=
  match k with KRedisSentinel | KRedisStandalone => true | _ => false end.

Definition object_key (k : kind) (o : object k) : string :=
  getNamespacedName (Namespace (object_meta k o)) (Name (object_meta k o)).

(** The API server answers with the custom resource it was asked for, and an
    update with the object it was sent, as far as their names go. *)
Definition faithful (e : event) : Prop :=
  match e with
  | existT e r =>
      match e return resp e -> Prop with
      | Get k ns name => fun r => forall o, r = inr o ->
          custom k = true -> object_key k o = getNamespacedName ns name
      | Update k o => fun r => forall o', r = inr o' ->
          custom k = true -> object_key k o' = object_key k o
      | StatusUpdate k o => fun r => forall o', r = inr o' ->
          custom k = true -> object_key k o' = object_key k o
      | _ => fun _ => True
      end r
  end.

(** ** What a thread touches *)

Section local.
  Context {S : Type} (K : string).

(** From here on the thread touches only the entry [K], the objects at [L],
    and what it will allocate; every object it stores bears the name [K].
    [fresh] says that it has not touched the store yet and may allocate. *)
Fixpoint local {A} (fresh : bool) (L : list loc) (t : thread S A)
    (Q : bool -> list loc -> A -> Prop) : Prop :=
  match t with
  | Finished a => Q fresh L a
  | Crashed => True
  | CutOff => True
  | Ask e k => forall r, faithful (ev e r) -> local fresh L (k r) Q
  | Load l k => fresh = false /\ l ∈ L /\ forall o, key_of o = K -> local fresh L (k o) Q
  | Assign l o k => fresh = false /\ l ∈ L /\ key_of o = K /\ local fresh L k Q
  | New o k => fresh = true /\ key_of o = K /\ forall l, local false (l :: L) (k l) Q
  | LoadEntry key k => fresh = false /\ key = K /\ local fresh L (k None) Q /\
      forall m, local fresh (Obj m :: L) (k (Some m)) Q
  | StoreEntry key m k => fresh = false /\ key = K /\ Obj m ∈ L /\ local fresh L k Q
  | DeleteEntry key k => fresh = false /\ key = K /\ local fresh L k Q
  end.

Lemma local_mono {A} b L (t : thread S A) (Q Q' : bool -> list loc -> A -> Prop) :
  (forall b L a, Q b L a -> Q' b L a) -> local b L t Q -> local b L t Q'.
Proof.
  intros HQ. revert b L; induction t; intros b L; simpl; intuition eauto.
Qed.

Lemma local_bind {A B} b L (t : thread S A) (f : A -> thread S B) Q :
  local b L t (fun b' L' a => local b' L' (f a) Q) -> local b L (tbind t f) Q.
Proof. revert b L; induction t; intros b L; simpl; intuition eauto. Qed.

Lemma local_of_prog {A} b L (p : prog A) (R : A -> Prop) Q :
  wp p (fun t o => Forall faithful t -> forall a, o = Returns a -> R a) ->
  (forall a, R a -> Q b L a) -> local b L (of_prog p) Q.
Proof.
  intros Hp HQ. induction p as [a| | |e k IH]; simpl; [by apply HQ, Hp|done|done|].
  intros r Hr. apply IH. eapply wp_mono with (Q := fun t o => faithful (ev e r) ->
    Forall faithful t -> forall a, o = Returns a -> R a); [|].
  - intros t o H Ht. by apply H.
  - eapply wp_mono, (Hp r). intros t o H Hr' Ht. apply H. by constructor.
Qed.

(** Rules on the handler's text. *)
Lemma local_bindM {A B} b L (m : M S A) (f : A -> M S B) (Hm : Threaded m)
    (Hf : forall a, Threaded (f a)) Q :
  local b L (thread_of m) (fun b' L' a => local b' L' (thread_of (f a)) Q) ->
  local b L (thread_of (bindM m f) (Threaded := threaded_bind m f Hm Hf)) Q.
Proof. apply local_bind. Qed.

(** A part of a handler that works on the objects in hand. *)
Definition inplace {A} (L : list loc) (m : M S A) `{!Threaded m} (R : A -> Prop) : Prop :=
  local false L (thread_of m) (fun b L' a => b = false /\ L' = L /\ R a).

Lemma inplace_bind {A B} L (m : M S A) (f : A -> M S B) (Hm : Threaded m)
    (Hf : forall a, Threaded (f a)) R R' :
  inplace L m R -> (forall a, R a -> inplace L (f a) R') -> inplace L (bindM m f) R'.
Proof.
  intros H1 H2. apply local_bindM. eapply local_mono, H1. intros b L' a (-> & -> & Ha). by apply H2.
Qed.

Lemma inplace_mono {A} L (m : M S A) (Hm : Threaded m) (R R' : A -> Prop) :
  (forall a, R a -> R' a) -> inplace L m R -> inplace L m R'.
Proof. intros HR. apply local_mono. intros b L' a (-> & -> & Ha). auto. Qed.

Lemma inplace_ret {A} L (a : A) (R : A -> Prop) : R a -> inplace L (retM a) R.
Proof. done. Qed.

Lemma inplace_lift {A} L (p : prog A) (R : A -> Prop) :
  wp p (fun t o => Forall faithful t -> forall a, o = Returns a -> R a) -> inplace L (lift p) R.
Proof. intros Hp. by apply (local_of_prog _ _ _ R). Qed.

Lemma inplace_lift_any {A} L (p : prog A) : inplace L (lift p) (fun _ => True).
Proof. apply inplace_lift. eapply wp_mono, wp_true. done. Qed.

Lemma inplace_deref L l : l ∈ L -> inplace L (deref l) (fun o => key_of o = K).
Proof. done. Qed.

Lemma inplace_assign L l o : l ∈ L -> key_of o = K -> inplace L (assign l o) (fun _ => True).
Proof. done. Qed.

(** The rest of a handler, after a part that works in place. *)
Lemma local_after {A B} L (m : M S A) (f : A -> M S B) (Hm : Threaded m)
    (Hf : forall a, Threaded (f a)) R Q :
  inplace L m R -> (forall a, R a -> local false L (thread_of (f a)) Q) ->
  local false L (thread_of (bindM m f)) Q.
Proof.
  intros H1 H2. apply local_bindM. eapply local_mono, H1. intros b L' a (-> & -> & Ha). by apply H2.
Qed.
End local.

(** What locality asks of the services: they leave the name of the object they
    are given as it is, as long as the API server's answers bear it. *)
Definition keeps_name {S A} (o : CustomResource S) (p : prog (CustomResource S * A)) : Prop :=
  wp p (fun t r => Forall faithful t -> forall a, r = Returns a -> key_of a.1 = key_of o).

Class NamedOperations {S} (ops : Operations S) : Prop := {
  named_UpdateSpec ns o : keeps_name o (op_UpdateSpec ops ns o);
  named_UpdateStatus ns o : keeps_name o (op_UpdateStatus ops ns o);
  named_Ensure o labels refs : keeps_name o (op_Ensure ops o labels refs);
  named_Validate o : key_of (op_Validate ops o).1 = key_of o
}.

Section handler.
  Context {TF : TimeFormat} {S : Type} `{HS : HasRedisSpec S} (ops : Operations S).
  Context (bootstrap : string) `{CB : !CachedBy ops bootstrap} `{NO : !NamedOperations ops}.
  Context (K : string).

Lemma local_event L l e : l ∈ L -> inplace K L (event_on ops l e) (fun _ => True).
Proof.
  intros Hl. eapply inplace_bind; [by apply inplace_deref|]. intros o _. apply inplace_lift_any.
Qed.

Lemma local_condition L l (set : Clock -> ClusterStatus -> ClusterStatus) :
  l ∈ L -> inplace K L (set_condition (S := S) l set) (fun _ => True).
Proof.
  intros Hl. eapply inplace_bind; [apply inplace_lift_any|]. intros clk _.
  eapply inplace_bind; [by apply inplace_deref|]. intros o Ho. by apply inplace_assign.
Qed.

(** A service that replaces an object by one of the same name. *)
Lemma inplace_service {A} L (o : CustomResource S) (p : prog (CustomResource S * A)) :
  key_of o = K -> keeps_name o p -> inplace K L (lift (S := S) p) (fun a => key_of a.1 = K).
Proof.
  intros Ho Hp. apply inplace_lift. eapply wp_mono, Hp. intros t r H Ht a Hr. rewrite <- Ho. eauto.
Qed.

Lemma local_UpdateStatusAt L l : l ∈ L -> inplace K L (UpdateStatusAt ops l) (fun _ => True).
Proof.
  intros Hl. eapply inplace_bind; [by apply inplace_deref|]. intros o Ho.
  eapply inplace_bind; [eapply inplace_service, named_UpdateStatus; exact Ho|]. intros [o' err] Ho'.
  eapply inplace_bind; [by apply inplace_assign|]. done.
Qed.

Lemma local_UpdateSpecAt L l : l ∈ L -> inplace K L (UpdateSpecAt ops l) (fun _ => True).
Proof.
  intros Hl. eapply inplace_bind; [by apply inplace_deref|]. intros o Ho.
  eapply inplace_bind; [eapply inplace_service, named_UpdateSpec; exact Ho|]. intros [o' err] Ho'.
  eapply inplace_bind; [by apply inplace_assign|]. done.
Qed.

Lemma local_ensure L l labels refs : l ∈ L -> inplace K L (ensure_at ops l labels refs) (fun _ => True).
Proof.
  intros Hl. eapply inplace_bind; [by apply inplace_deref|]. intros o Ho.
  eapply inplace_bind; [eapply inplace_service, named_Ensure; exact Ho|]. intros [o' r] Ho'.
  eapply inplace_bind; [by apply inplace_assign|]. done.
Qed.

Ltac local_step :=
  match goal with
  | |- inplace _ _ (event_on _ _ _) _ => apply local_event
  | |- inplace _ _ (set_condition _ _) _ => apply local_condition
  | |- inplace _ _ (UpdateStatusAt _ _) _ => apply local_UpdateStatusAt
  | |- inplace _ _ (UpdateSpecAt _ _) _ => apply local_UpdateSpecAt
  | |- inplace _ _ (ensure_at _ _ _ _) _ => apply local_ensure
  | |- inplace _ _ (bindM _ _) _ => eapply inplace_bind; [|intros ? ?; cbv beta]
  | |- inplace _ _ (deref _) _ => apply inplace_deref
  | |- inplace _ _ (lift _) _ => apply inplace_lift_any
  | |- inplace _ _ (retM _) _ => by apply inplace_ret
  | |- inplace _ _ (failM _) _ => done
  | |- inplace _ _ okM _ => done
  | |- inplace _ _ (match ?x with _ => _ end) _ => destruct x
  | |- _ ∈ _ => done
  end.
Ltac local_walk := repeat local_step.

Lemma local_updateStatus L m : Obj m ∈ L -> inplace K L (Handler.updateStatus ops m) (fun _ => True).
Proof.
  intros Hm. unfold Handler.updateStatus, threaded_updateStatus. local_walk.
Qed.

Lemma local_report L rc err : rc ∈ L -> inplace K L (report_failure ops rc err) (fun _ => True).
Proof. intros Hrc. unfold report_failure, threaded_report. local_walk. Qed.

Lemma local_set_error L rc : rc ∈ L -> inplace K L (set_error (S := S) rc) (fun _ => True).
Proof. intros Hrc. unfold set_error, threaded_set_error. local_walk. Qed.

Lemma local_heal_failed L rc err : rc ∈ L -> inplace K L (heal_failed ops rc err) (fun _ => True).
Proof.
  intros Hrc. unfold heal_failed, threaded_heal_failed.
  eapply inplace_bind; [by apply local_set_error|]. intros u _. destruct (negb _).
  - eapply inplace_bind; [by apply local_report|]. intros [e|] _; done.
  - local_walk.
Qed.

Lemma local_set_ready L rc : rc ∈ L -> inplace K L (set_ready ops rc) (fun _ => True).
Proof.
  intros Hrc. unfold set_ready, threaded_set_ready. local_walk.
  unfold set_ok, threaded_set_ok. local_walk.
Qed.

Lemma local_get L rc Q :
  rc ∈ L -> (forall m, Q false (Obj m :: L) m) -> local K false L (get_thread (S := S) rc) Q.
Proof. intros Hrc HQ. simpl. split_and!; [done..|]. intros o Ho. split_and!; auto. Qed.

(** Caching takes the object of the entry in hand. *)
Lemma local_cache L rc Q :
  rc ∈ L -> (forall L' m, L ⊆ L' -> Obj m ∈ L' -> Q false L' m) ->
  local K false L (cache_thread bootstrap rc) Q.
Proof.
  intros Hrc HQ. cbn [local cache_thread]. split_and!; [done..|]. intros o Ho.
  split_and!; [done|done| |].
  - cbn [local add_thread]. split_and!; [done..|]. intros o' Ho'. split_and!; [done..|].
    apply local_get; [done|]. intros m. apply HQ; set_solver.
  - intros m. cbn [local update_thread]. split_and!; [done|set_solver|]. intros old Hold.
    split_and!; [done|set_solver|]. intros new Hnew.
    assert (local K false (Obj m :: L) (StoreEntry (key_of o) (updated_meta m rc old new)
      (get_thread (S := S) rc)) Q) as Hrest.
    { destruct (updated_meta_fields m rc old new) as (_ & _ & HO). split_and!; [done|done| |].
      - destruct HO as [-> | ->]; set_solver.
      - apply local_get; [set_solver|]. intros m'. apply HQ; set_solver. }
    destruct (_ =? _); [exact Hrest|]. split_and!; [done|set_solver| |exact Hrest].
    by rewrite with_password_key.
Qed.

(** At the end of a handler the object it was given is still in hand. *)
Definition still_holding {A} (rc : loc) (b : bool) (L : list loc) (_ : A) : Prop := b = false /\ rc ∈ L.

Lemma inplace_holding {A} L (m : M S A) (Hm : Threaded m) R rc :
  rc ∈ L -> inplace K L m R -> local K false L (thread_of m) (still_holding rc).
Proof. intros Hrc. apply local_mono. intros b L' a (-> & -> & _). done. Qed.

Lemma local_reconcile L rc :
  rc ∈ L -> local K false L (thread_of (reconcile_valid ops rc)) (still_holding rc).
Proof.
  intros Hrc. unfold reconcile_valid, threaded_reconcile. apply local_bindM.
  apply local_cache; [done|]. intros L' m HL Hm. assert (rc ∈ L') as Hrc' by set_solver.
  apply (inplace_holding _ _ _ (fun _ => True)); [done|]. cbv beta.
  eapply inplace_bind; [by apply local_updateStatus|]. intros [err|] _; [done|].
  eapply inplace_bind; [by apply inplace_deref|]. intros o Ho. cbv zeta beta.
  eapply inplace_bind; [by apply local_event|]. intros u _.
  eapply inplace_bind; [by apply local_ensure|]. intros [err|u'] _.
  - eapply inplace_bind; [by apply local_report|]. intros [e|] _; [done|].
    eapply inplace_bind; [by apply local_set_error|]. done.
  - eapply inplace_bind; [by apply local_event|]. intros u2 _.
    eapply inplace_bind; [by apply inplace_deref|]. intros o2 Ho2. cbv beta.
    eapply inplace_bind; [by apply inplace_lift_any|]. intros [err|u3] _;
      [by apply local_heal_failed|by apply local_set_ready].
Qed.

Lemma local_Do L rc :
  rc ∈ L -> local K false L (thread_of (Handler.Do ops rc)) (still_holding rc).
Proof.
  intros Hrc. unfold Handler.Do, threaded_Do.
  eapply local_after; [by apply inplace_deref|]. cbv beta. intros o Ho.
  pose proof (named_Validate (ops := ops) o) as Hv.
  destruct (op_Validate ops o) as [o' [modified err]]. simpl in Hv.
  eapply local_after; [apply inplace_assign; [done|congruence]|]. intros u _. cbv beta.
  destruct err as [err|]; [|destruct modified].
  - apply (inplace_holding _ _ _ (fun _ => True)); [done|]. eapply inplace_bind; [by apply local_set_error|]. done.
  - apply (inplace_holding _ _ _ (fun _ => True)); [done|]. eapply inplace_bind; [by apply local_UpdateSpecAt|].
    intros [e|] _; done.
  - by apply local_reconcile.
Qed.

Lemma local_forget ns name :
  K = getNamespacedName ns name ->
  local K true [] (thread_of (forget ops ns name)) (fun b _ _ => b = false).
Proof.
  intros ->. simpl. split_and!; [done|done|]. intros l. split_and!; [done|set_solver|]. done.
Qed.
End handler.

(** ** The two controllers *)

Lemma wp_returned {A} (p : prog A) (R : A -> Prop) :
  wlp p (fun _ a => R a) ->
  wp p (fun t o => Forall faithful t -> forall a, o = Returns a -> R a).
Proof. apply wp_mono. by intros t [a'| |] H _ a [= ->]. Qed.

Section custom_resources.
  Context {S : Type} (k : kind) (inj : CustomResource S -> object k) (proj : object k -> CustomResource S).
  Context (Hcustom : custom k = true) (Hinj : forall o, object_key k (inj o) = key_of o).
  Context (Hproj : forall o, key_of (proj o) = object_key k o).

Lemma updateSpec_named ns o : keeps_name o (updateSpec_ k inj proj ns o).
Proof.
  intros [err|o'] Hf a [= <-]; [done|]. apply Forall_cons in Hf as [Hf _]. simpl in *.
  rewrite Hproj, (Hf o' eq_refl Hcustom). apply Hinj.
Qed.

Lemma updateStatus_named ns o : keeps_name o (updateStatus_ k inj proj ns o).
Proof.
  intros seed [err|o'] Hf a [= <-]; [done|].
  apply Forall_cons in Hf as [_ [Hf _]%Forall_cons]. simpl in *.
  by rewrite Hproj, (Hf o' eq_refl Hcustom), Hinj.
Qed.
End custom_resources.

(** A property of the value alone, along a program. *)
Definition yields {A} (p : prog A) (R : A -> Prop) : Prop := wlp p (fun _ a => R a).

Lemma yields_bind {A B} (m : prog A) (f : A -> prog B) R :
  (forall a, yields (f a) R) -> yields (bind m f) R.
Proof.
  intros Hf. apply wlp_bind. eapply wp_mono, wp_true. intros t [a| |] _; [|done..].
  eapply wlp_mono, Hf. done.
Qed.

Lemma yields_then {A B} (m : prog A) (f : A -> prog B) R R' :
  yields m R -> (forall a, R a -> yields (f a) R') -> yields (bind m f) R'.
Proof.
  intros Hm Hf. apply wlp_bind. eapply wlp_mono, Hm. intros t a Ha. eapply wlp_mono, Hf, Ha. done.
Qed.

Ltac yields_step :=
  lazymatch goal with
  | |- yields (Ret _) _ => done
  | |- yields (bind _ _) _ => apply yields_bind; intros ?; cbv beta
  | |- yields (match ?x with _ => _ end) _ => destruct x
  end.
Ltac yields_walk := repeat yields_step.

Section ensure.
  Context {QO : QuantityOrder}.

(** [Ensure] returns the resource with its owner references in the claims. *)
Lemma sentinel_set_named rc labels refs :
  yields (SentinelClient.EnsureRedisStatefulset rc labels refs) (fun a => key_of a.1 = key_of rc).
Proof.
  unfold SentinelClient.EnsureRedisStatefulset.
  assert (key_of (SentinelGen.generateRedisStatefulSet rc labels refs).2 = key_of rc) as Hgen by done.
  destruct (SentinelGen.generateRedisStatefulSet rc labels refs) as [ss rc']. simpl in Hgen. yields_walk.
Qed.

Lemma standalone_set_named rc labels refs :
  yields (StandaloneService.EnsureRedisStatefulset rc labels refs) (fun a => key_of a.1 = key_of rc).
Proof.
  unfold StandaloneService.EnsureRedisStatefulset.
  assert (key_of (StandaloneGen.generateRedisStatefulSet rc labels refs).2 = key_of rc) as Hgen by done.
  destruct (StandaloneGen.generateRedisStatefulSet rc labels refs) as [ss rc']. simpl in Hgen. yields_walk.
Qed.

Lemma sentinel_Ensure_named rc labels refs : keeps_name rc (SentinelHandler.Ensure rc labels refs).
Proof.
  apply wp_returned. apply yields_bind. intros [err|u]; [done|].
  eapply yields_then; [apply sentinel_set_named|]. intros [rc' [err|u']] Hk; [done|].
  apply yields_bind. done.
Qed.

Lemma standalone_Ensure_named rc labels refs : keeps_name rc (StandaloneHandler.Ensure rc labels refs).
Proof.
  apply wp_returned. apply yields_bind. intros [err|u]; [done|]. apply standalone_set_named.
Qed.
End ensure.

Section controllers.
  Context {TF : TimeFormat} {QO : QuantityOrder}.

#[export] Instance sentinel_named fuel : NamedOperations (SentinelHandler.operations fuel).
Proof.
  split; simpl; intros.
  - by apply updateSpec_named.
  - by apply updateStatus_named.
  - apply sentinel_Ensure_named.
  - unfold key_of. by rewrite RedisSentinel_Validate_meta.
Qed.

#[export] Instance standalone_named : NamedOperations StandaloneHandler.operations.
Proof.
  split; simpl; intros.
  - by apply updateSpec_named.
  - by apply updateStatus_named.
  - apply standalone_Ensure_named.
  - unfold key_of. by rewrite RedisStandalone_Validate_meta.
Qed.

(** What comes after the handler: reading the object, and a last check. *)
Definition any_end {A} (b : bool) (L : list loc) (_ : A) : Prop := True.

Lemma local_sentinel fuel ns name :
  local (getNamespacedName ns name) true [] (thread_of (Reconcile_sentinel fuel ns name)) any_end.
Proof.
  unfold Reconcile_sentinel, threaded_sentinel. apply local_bindM. intros [err|o] Hr; cbn [of_prog local].
  - destruct (IsNotFound err); [|done]. eapply (local_mono _ _ _ _ (fun b _ _ => b = false)), local_forget; first [done|apply _].
  - assert (key_of o = getNamespacedName ns name) as Ho by by apply (Hr o).
    apply local_bindM. split_and!; [done..|]. intros rc. apply local_bindM.
    eapply local_mono, (local_Do _ SentinelCache.bootstrap); [|left]. intros b L [err|u] [-> Hrc]; [done|].
    eapply (local_after _ _ _ _ _ _ _ any_end); [by apply inplace_deref|]. intros o' _. cbv beta.
    eapply (local_after _ _ _ _ _ _ _ any_end); [apply inplace_lift_any|]. by intros [err|u'] _.
Qed.

Lemma local_standalone ns name :
  local (getNamespacedName ns name) true [] (thread_of (Reconcile_standalone ns name)) any_end.
Proof.
  unfold Reconcile_standalone, threaded_standalone. apply local_bindM.
  intros [err|o] Hr; cbn [of_prog local].
  - destruct (IsNotFound err); [|done]. eapply (local_mono _ _ _ _ (fun b _ _ => b = false)), local_forget; first [done|apply _].
  - assert (key_of o = getNamespacedName ns name) as Ho by by apply (Hr o).
    apply local_bindM. split_and!; [done..|]. intros rc. apply local_bindM.
    eapply local_mono, (local_Do _ StandaloneCache.bootstrap); [|left].
    by intros b L [err|u] [-> Hrc].
Qed.
End controllers.
