(* ===== verification/Workers.v ===== *)
(** * The workers of a controller

    A controller reconciles several resources at a time, never one resource
    twice at a time. Its workers take turns at the atomic steps of [Threads],
    in any order, and share the cache and the heap. Here are the machine they
    make up and what the steps of different resources have to do with each
    other; [Serial] draws the conclusion. *)

From S2P Require Import Prelude GoStd Corev1 Api Samples Util Common Status Effects Equiv K8s.
From S2P Require Import SentinelGen ApiServer Cache Handler SentinelHandler StandaloneHandler Controller System.
From S2P Require Import Threads Locality.

(** ** Runs of programs *)

Inductive runs {A} : prog A -> list event -> outcome A -> Prop :=
| runs_ret a : runs (Ret a) [] (Returns a)
| runs_panic : runs Panic [] Panics
| runs_cut : runs OutOfFuel [] Stuck
| runs_act e k r t o : runs (k r) t o -> runs (Act e k) (ev e r :: t) o.

Lemma runs_equiv {A} (p q : prog A) t o : p ≃ q -> runs p t o -> runs q t o.
Proof.
  intros H Hr. revert q H. induction Hr as [a| | |e k r t o Hr IH]; intros [b| | |e' k'] H; try done.
  - change (a = b) in H. subst b. constructor.
  - constructor.
  - constructor.
  - destruct H as [Heq H]. destruct Heq. simpl in H. constructor. apply IH, H.
Qed.

Lemma run_runs {W A} (env : Env W) (p : prog A) w o t w' :
  run env p w = (o, t, w') -> runs p t o.
Proof.
  revert w o t w'; induction p as [a| | |e k IH]; intros w o t w'; simpl.
  1-3: intros [= <- <- <-]; constructor.
  destruct (env e w) as [r w1]. destruct (run env (k r) w1) as [[o2 t2] w2] eqn:E.
  intros [= <- <- <-]. constructor. by eapply IH.
Qed.

(** ** The steps of threads *)

(** What a step does to the store. *)
Inductive effect (S : Type) :=
| ENone
| EWrite (l : loc) (o : CustomResource S)
| EAlloc (o : CustomResource S)
| EEntry (key : string) (m : option Meta).
Arguments ENone {S}.
Arguments EWrite {S}.
Arguments EAlloc {S}.
Arguments EEntry {S}.

Definition apply_effect {S} (eff : effect S) (st : Store S) : Store S :=
  match eff with
  | ENone => st
  | EWrite l o => write l o st
  | EAlloc o => (alloc o st).2
  | EEntry key (Some m) => set_metas <[key := m]> st
  | EEntry key None => set_metas (delete key) st
  end.

(** A step of a thread that finds the store [st]; the answers of the API server
    bear the right names. *)
Inductive tstep {S A} (st : Store S) : thread S A -> list event -> effect S -> thread S A -> Prop :=
| step_ask e k r : faithful (ev e r) -> tstep st (Ask e k) [ev e r] ENone (k r)
| step_load l o k : heap st !! l = Some o -> tstep st (Load l k) [] ENone (k o)
| step_assign l o k : tstep st (Assign l o k) [] (EWrite l o) k
| step_new o k : tstep st (New o k) [] (EAlloc o) (k (length (heap st)))
| step_load_entry key k : tstep st (LoadEntry key k) [] ENone (k (metas st !! key))
| step_store_entry key m k : tstep st (StoreEntry key m k) [] (EEntry key (Some m)) k
| step_delete_entry key k : tstep st (DeleteEntry key k) [] (EEntry key None) k.

(** A thread on its own, for some steps. *)
Inductive trun {S A} (t0 : thread S A) (st0 : Store S) : list event -> thread S A -> Store S -> Prop :=
| trun_refl : trun t0 st0 [] t0 st0
| trun_step tr t st tr' eff t' : trun t0 st0 tr t st -> tstep st t tr' eff t' ->
    trun t0 st0 (tr ++ tr') t' (apply_effect eff st).

Lemma trun_runs {S A} (t0 : thread S A) st0 tr t st t2 o :
  trun t0 st0 tr t st -> runs (exec t st) t2 o -> runs (exec t0 st0) (tr ++ t2) o.
Proof.
  intros Ht. revert t2. induction Ht as [|tr t st tr' eff t' Ht IH Hs]; intros t2 Hr; [done|].
  rewrite <- app_assoc. apply IH. destruct Hs; simpl in *; try done.
  - by constructor.
  - by rewrite H.
Qed.

Lemma trun_threaded {S A} (m : M S A) `{!Threaded m} st tr a st' :
  trun (thread_of m) st tr (Finished a) st' -> runs (m st) tr (Returns (a, st')).
Proof.
  intros Ht. eapply runs_equiv; [apply thread_exec|]. rewrite <- (app_nil_r tr).
  eapply trun_runs; [exact Ht|]. constructor.
Qed.

(** ** The workers *)

Record Task (S A : Type) := mkTask {
  t_ns : string;
  t_name : string;
  t_thread : thread S A;
  t_trace : list event
}.
Arguments mkTask {S A}.
Arguments t_ns {S A}.
Arguments t_name {S A}.
Arguments t_thread {S A}.
Arguments t_trace {S A}.

Definition task_key {S A} (t : Task S A) : string := getNamespacedName (t_ns t) (t_name t).
Definition idle {S A} (t : Task S A) : Prop := exists a, t_thread t = Finished a.
Definition advance {S A} (t : Task S A) (tr : list event) (th : thread S A) : Task S A :=
  mkTask (t_ns t) (t_name t) th (t_trace t ++ tr).

(** A worker takes up a resource that no other has in hand, or one worker makes
    a step. The tasks, finished or not, are listed in the order they were taken
    up. *)
Inductive wstep {S A} (start : string -> string -> thread S A) :
    Store S * list (Task S A) -> Store S * list (Task S A) -> Prop :=
| work_start st ts ns name :
    (forall t, t ∈ ts -> task_key t = getNamespacedName ns name -> idle t) ->
    wstep start (st, ts) (st, ts ++ [mkTask ns name (start ns name) []])
| work_step st ts i t tr eff th :
    ts !! i = Some t -> tstep st (t_thread t) tr eff th ->
    wstep start (st, ts) (apply_effect eff st, <[i := advance t tr th]> ts).

(** ** What the steps of different resources have to do with each other *)

Section steps.
  Context {S : Type}.
  Implicit Types (st s u : Store S) (L : list loc) (K : string) (eff : effect S).

(** The objects at [L] exist and bear the name [K]. *)
Definition holds K L st : Prop := forall l, l ∈ L -> exists o, heap st !! l = Some o /\ key_of o = K.

(** Every entry of the cache points to an object of its own name. *)
Definition named st : Prop :=
  forall k m, metas st !! k = Some m -> exists o, heap st !! Obj m = Some o /\ key_of o = k.

(** Objects stay where they are and keep their names. *)
Definition names_kept st st' : Prop :=
  forall (l : loc) o, heap st !! l = Some o -> exists o', heap st' !! l = Some o' /\ key_of o' = key_of o.

Lemma holds_kept K L st st' : names_kept st st' -> holds K L st -> holds K L st'.
Proof. intros Hk H l Hl. destruct (H l Hl) as (o & Ho & <-). by apply Hk. Qed.

(** An effect confined to the resource [K] and the objects [L]. *)
Definition owned K (fresh : bool) L eff : Prop :=
  match eff with
  | ENone => True
  | EWrite l o => fresh = false /\ l ∈ L /\ key_of o = K
  | EAlloc o => fresh = true /\ key_of o = K
  | EEntry key m => fresh = false /\ key = K /\ forall m', m = Some m' -> Obj m' ∈ L
  end.

Lemma owned_names K b L eff st : owned K b L eff -> holds K L st -> names_kept st (apply_effect eff st).
Proof.
  intros He HL l o Ho. destruct eff as [|l' o'|o'|key [m|]]; simpl in *; try by exists o.
  - destruct He as (_ & Hl' & Hk). destruct (decide (l = l')) as [->|Hne].
    + rewrite list_lookup_insert_eq by (by eapply lookup_lt_Some). exists o'. split; [done|].
      destruct (HL l' Hl') as (o2 & Ho2 & <-). congruence.
    + rewrite list_lookup_insert_ne by done. by exists o.
  - exists o. split; [|done]. by apply lookup_app_l_Some.
Qed.

Lemma owned_named K b L eff st :
  owned K b L eff -> holds K L st -> named st -> named (apply_effect eff st).
Proof.
  intros He HL Hn. pose proof (owned_names K b L eff st He HL) as Hk.
  assert (forall k m, metas st !! k = Some m ->
    exists o, heap (apply_effect eff st) !! Obj m = Some o /\ key_of o = k) as Hold.
  { intros k m Hm. destruct (Hn k m Hm) as (o & Ho & <-). by apply Hk. }
  destruct eff as [|l o|o|key [m|]]; intros k m' Hm'; simpl in *; try by apply Hold.
  - destruct He as (_ & -> & He). destruct (decide (k = K)) as [->|Hne].
    + rewrite lookup_insert_eq in Hm'. injection Hm' as <-. apply HL. by apply He.
    + rewrite lookup_insert_ne in Hm' by done. by apply Hold.
  - apply lookup_delete_Some in Hm' as [_ Hm']. by apply Hold.
Qed.

(** What another resource's thread can see is unchanged. *)
Definition agree K L st st' : Prop :=
  (forall l, l ∈ L -> heap st' !! l = heap st !! l) /\ metas st' !! K = metas st !! K.

Lemma owned_agree K K' b L L' eff st :
  K <> K' -> owned K b L eff -> holds K L st -> holds K' L' st -> agree K' L' st (apply_effect eff st).
Proof.
  intros HK He HL HL'. destruct eff as [|l o|o|key m]; simpl; [done|..].
  - destruct He as (_ & Hl & _). split; [|done]. intros l' Hl'. apply list_lookup_insert_ne.
    intros <-. destruct (HL l Hl) as (o1 & Ho1 & Hk1), (HL' l Hl') as (o2 & Ho2 & Hk2). congruence.
  - split; [|done]. intros l Hl. apply lookup_app_l. destruct (HL' l Hl) as (o1 & Ho1 & _).
    by eapply lookup_lt_Some.
  - destruct He as (_ & -> & _). destruct m; (split; [done|]); simpl;
      [by apply lookup_insert_ne|by apply lookup_delete_ne].
Qed.

Lemma agree_sym K L st st' : agree K L st st' -> agree K L st' st.
Proof. intros [H H']. split; [|done]. intros l Hl. symmetry. by apply H. Qed.

(** Effects of different resources commute, but for two allocations. *)
Lemma effects_commute K K' b L L' eff eff' st :
  K <> K' -> owned K b L eff -> owned K' false L' eff' -> holds K L st -> holds K' L' st ->
  apply_effect eff' (apply_effect eff st) = apply_effect eff (apply_effect eff' st).
Proof.
  intros HK He He' HL HL'.
  destruct eff as [|l o|o|key m], eff' as [|l' o'|o'|key' m']; simpl in *; try done;
    try (by destruct m as [m|]); try (by destruct m' as [m'|]); try (by destruct He').
  - unfold write. simpl. f_equal. apply list_insert_insert_ne. intros ->.
    destruct He as (_ & Hl & _), He' as (_ & Hl' & _).
    destruct (HL l Hl) as (o1 & Ho1 & Hk1), (HL' l Hl') as (o2 & Ho2 & Hk2). congruence.
  - destruct He' as (_ & Hl' & _). destruct (HL' l' Hl') as (o2 & Ho2 & _).
    unfold write. simpl. f_equal. apply insert_app_l. by eapply lookup_lt_Some.
  - destruct He as (_ & -> & _), He' as (_ & -> & _). destruct m as [m|], m' as [m'|]; unfold set_metas;
      simpl; f_equal.
    + by apply insert_insert_ne.
    + by apply delete_insert_ne.
    + by rewrite delete_insert_ne.
    + apply delete_delete.
Qed.
End steps.

Section local_steps.
  Context {S A : Type}.
  Implicit Types (st s u : Store S) (L : list loc) (K : string) (eff : effect S) (t : thread S A).

(** A local thread makes steps of its own resource, and stays local. *)
Lemma local_step K b L t Q st tr eff t' :
  local K b L t Q -> holds K L st -> named st -> tstep st t tr eff t' ->
  owned K b L eff /\
  exists b' L', local K b' L' t' Q /\ holds K L' (apply_effect eff st) /\ (b = false -> b' = false).
Proof.
  intros Ht HL Hn Hs.
  assert (owned K b L eff) as He.
  { destruct Hs; simpl in *; try done; naive_solver. }
  split; [done|].
  assert (holds K L (apply_effect eff st)) as HL'.
  { eapply holds_kept, HL. by eapply owned_names. }
  destruct Hs as [e k r Hr|l o k Ho|l o k|o k|key k|key m k|key k]; simpl in Ht.
  - exists b, L. auto.
  - destruct Ht as (-> & Hl & Ht). exists false, L. split_and!; try done. apply Ht.
    destruct (HL l Hl) as (o' & Ho' & <-). congruence.
  - destruct Ht as (-> & _ & _ & Ht). by exists false, L.
  - destruct Ht as (-> & Hk & Ht). exists false, (length (heap st) :: L). split_and!; try done.
    intros l [->|Hl]%elem_of_cons; [|by apply HL']. exists o. simpl.
    by rewrite lookup_app_r, Nat.sub_diag by done.
  - destruct Ht as (-> & -> & Hnone & Hsome). destruct (metas st !! K) as [m|] eqn:Em; [|by exists false, L].
    exists false, (Obj m :: L). split_and!; try done.
    intros l [->|Hl]%elem_of_cons; [|by apply HL']. destruct (Hn K m Em) as (o & Ho & Hk). by exists o.
  - destruct Ht as (-> & _ & _ & Ht). by exists false, L.
  - destruct Ht as (-> & _ & Ht). by exists false, L.
Qed.

Lemma tstep_agree K b L t Q st st2 tr eff t' :
  local K b L t Q -> agree K L st st2 -> (b = true -> length (heap st2) = length (heap st)) ->
  tstep st t tr eff t' -> tstep st2 t tr eff t'.
Proof.
  intros Ht [Hh Hm] Hlen Hs.
  destruct Hs as [e k r Hr|l o k Ho|l o k|o k|key k|key m k|key k]; simpl in Ht; try by constructor.
  - constructor. destruct Ht as (_ & Hl & _). by rewrite Hh.
  - destruct Ht as (Hb & _). rewrite <- Hlen by done. constructor.
  - destruct Ht as (_ & -> & _). rewrite <- Hm. constructor.
Qed.

(** A run of a local thread leads to a local thread. *)
Lemma local_run K b L t Q st tr t' st' :
  local K b L t Q -> holds K L st -> named st -> trun t st tr t' st' ->
  named st' /\ names_kept st st' /\
  exists b' L', local K b' L' t' Q /\ holds K L' st' /\ (b = false -> b' = false).
Proof.
  intros Ht HL Hn Hr. induction Hr as [|tr t1 st1 tr' eff t2 Hr IH Hs].
  { split_and!; [done| |by exists b, L]. intros l o Ho. by exists o. }
  destruct IH as (Hn1 & Hk1 & b1 & L1 & Ht1 & HL1 & Hb1).
  destruct (local_step _ _ _ _ _ _ _ _ _ Ht1 HL1 Hn1 Hs) as (He & b2 & L2 & Ht2 & HL2 & Hb2).
  split_and!.
  - by eapply owned_named.
  - intros l o Ho. destruct (Hk1 l o Ho) as (o1 & Ho1 & <-).
    by apply (owned_names _ _ _ _ _ He HL1).
  - exists b2, L2. auto.
Qed.

(** A step of one resource that follows a run of another can be made before it,
    to the same effect. *)
Lemma step_before_run K K' b L L' t t0 Q Q' s tr' t0' u tr eff t' :
  K <> K' -> named s ->
  local K b L t0 Q -> holds K L s -> trun t0 s tr' t0' u ->
  local K' false L' t Q' -> holds K' L' s -> tstep u t tr eff t' ->
  tstep s t tr eff t' /\ trun t0 (apply_effect eff s) tr' t0' (apply_effect eff u).
Proof.
  intros HK Hn Ht0 HL Hr Ht HL'. revert tr eff t'.
  induction Hr as [|tr' t1 u tr1 eff1 t1' Hr IH Hs1]; intros tr eff t' Hs; [split; [done|constructor]|].
  destruct (local_run _ _ _ _ _ _ _ _ _ Ht0 HL Hn Hr) as (Hnu & Hku & b1 & L1 & Ht1 & HL1 & _).
  destruct (local_step _ _ _ _ _ _ _ _ _ Ht1 HL1 Hnu Hs1) as (He1 & _).
  assert (holds K' L' u) as HLu by by eapply holds_kept.
  assert (tstep u t tr eff t') as Hsu.
  { apply (tstep_agree K' false L' t Q' (apply_effect eff1 u)); [done| |done|done].
    apply agree_sym. by apply (owned_agree K K' b1 L1 L'). }
  destruct (local_step _ _ _ _ _ _ _ _ _ Ht HLu Hnu Hsu) as (He & _).
  destruct (IH _ _ _ Hsu) as [H1 H2]. split; [done|].
  rewrite (effects_commute K K' b1 L1 L' eff1 eff u) by done.
  apply (trun_step _ _ _ t1); [done|].
  apply (tstep_agree K b1 L1 t1 Q u); [done| | |done].
  - apply (owned_agree K' K false L' L1); auto.
  - intros _. destruct eff as [|l o|o|key [m|]]; simpl in *; [done| |by destruct He|done|done].
    by rewrite length_insert.
Qed.
End local_steps.
