(* ===== verification/Serial.v ===== *)
(** * The workers of a controller, one after the other

    Tasks that took turns can be put in an order in which each makes all its
    steps in one go: the order in which they allocate their objects. A step of a
    task is moved before the steps of the tasks that follow it in the order,
    because they work on other resources ([Workers.step_before_run]). *)

From S2P Require Import Prelude GoStd Corev1 Api Samples Util Common Status Effects Equiv K8s.
From S2P Require Import SentinelGen ApiServer Cache Handler SentinelHandler StandaloneHandler Controller System.
From S2P Require Import Validate Cluster Threads Locality Workers.

(** ** Putting the tasks in an order *)

Section workers.
  Context {S A : Type} (start : string -> string -> thread S A).
  Context (start_local : forall ns name,
    local (getNamespacedName ns name) true [] (start ns name) any_end).
  Context (start_busy : forall ns name a, start ns name <> Finished a).
  Implicit Types (st s u : Store S) (t : Task S A) (ts : list (Task S A)) (order placed : list nat).

(** The task is done, or has its objects in hand. *)
Definition in_hand t st : Prop :=
  idle t \/ exists L, local (task_key t) false L (t_thread t) any_end /\ holds (task_key t) L st.

(** The tasks listed, one after the other, each as far as it has come. *)
Fixpoint chain ts order st st' : Prop :=
  match order with
  | [] => st' = st
  | i :: order => exists t st1, ts !! i = Some t /\
      trun (start (t_ns t) (t_name t)) st (t_trace t) (t_thread t) st1 /\ in_hand t st1 /\
      chain ts order st1 st'
  end.

(** A task that has only asked so far. *)
Definition asking t : Prop :=
  ~ idle t /\ local (task_key t) true [] (t_thread t) any_end /\
  forall s, trun (start (t_ns t) (t_name t)) s (t_trace t) (t_thread t) s.

Lemma chain_app ts o1 o2 s u :
  chain ts (o1 ++ o2) s u <-> exists v, chain ts o1 s v /\ chain ts o2 v u.
Proof.
  revert s; induction o1 as [|i o1 IH]; intros s; simpl; [naive_solver|].
  setoid_rewrite IH. naive_solver.
Qed.

Lemma chain_ext ts ts' order s u :
  (forall i, i ∈ order -> ts' !! i = ts !! i) -> chain ts order s u -> chain ts' order s u.
Proof.
  revert s; induction order as [|i order IH]; intros s Hext; simpl; [done|].
  intros (t & s1 & Ht & Hr & Hh & Hc). exists t, s1. rewrite Hext by left. split_and!; [done..|].
  apply IH; [|done]. intros j Hj. apply Hext. by right.
Qed.

Lemma start_run ns name s tr th u :
  named s -> trun (start ns name) s tr th u -> named u /\ names_kept s u.
Proof.
  intros Hn Hr. destruct (local_run (getNamespacedName ns name) true [] (start ns name) any_end s tr th u)
    as (H1 & H2 & _); [done| |done..]. by intros l ?%elem_of_nil.
Qed.

Lemma chain_named ts order s u : named s -> chain ts order s u -> named u /\ names_kept s u.
Proof.
  revert s; induction order as [|i order IH]; intros s Hn; simpl.
  { intros ->. split; [done|]. intros l o Ho. by exists o. }
  intros (t & s1 & _ & Hr & _ & Hc). destruct (start_run _ _ _ _ _ _ Hn Hr) as [Hn1 Hk].
  destruct (IH _ Hn1 Hc) as [Hn2 Hk2]. split; [done|]. intros l o Ho.
  destruct (Hk l o Ho) as (o2 & Ho2 & <-). by apply Hk2.
Qed.

(** A step can be made before all the tasks of other resources that follow. *)
Lemma step_before_chain ts order K L (th : thread S A) s u tr eff th' :
  named s -> chain ts order s u ->
  (forall i t, i ∈ order -> ts !! i = Some t -> task_key t <> K) ->
  local K false L th any_end -> holds K L s -> tstep u th tr eff th' ->
  tstep s th tr eff th' /\ chain ts order (apply_effect eff s) (apply_effect eff u).
Proof.
  intros Hn Hc Hne Hth. revert s Hn Hc; induction order as [|i order IH]; intros s Hn; simpl.
  { by intros ->. }
  intros (t & s1 & Ht & Hr & Hh & Hc) HL Hs.
  assert (task_key t <> K) as HK by (eapply Hne; [left|done]).
  destruct (start_run _ _ _ _ _ _ Hn Hr) as [Hn1 Hk1].
  assert (holds K L s1) as HL1 by by eapply holds_kept.
  destruct (IH ltac:(intros j t' Hj; apply Hne; by right) s1 Hn1 Hc HL1 Hs) as [Hs1 Hc1].
  destruct (step_before_run (task_key t) K true [] L th (start (t_ns t) (t_name t)) any_end any_end
    s (t_trace t) (t_thread t) s1 tr eff th') as [Hs0 Hr0]; [done|done|apply start_local| |done..|].
  { by intros l ?%elem_of_nil. }
  split; [done|]. exists t, (apply_effect eff s1). split_and!; [done..| |done].
  destruct Hh as [Hi|(L1 & Hl1 & HL1')]; [by left|]. right. exists L1. split; [done|].
  destruct (local_step _ _ _ _ _ _ _ _ _ Hth HL1 Hn1 Hs1) as [He _].
  eapply holds_kept, HL1'. by eapply owned_names.
Qed.

(** Of two tasks in the order that took up the same resource, the first is the
    one that was taken up first. *)
Definition key_at ts (i : nat) : option string := task_key <$> ts !! i.
Definition in_turn ts (i j : nat) : Prop := key_at ts i = key_at ts j -> (i < j)%nat.

Record ordered st0 ts st placed : Prop := {
  placed_nodup : NoDup placed;
  placed_lt i : i ∈ placed -> (i < length ts)%nat;
  placed_chain : chain ts placed st0 st;
  placed_asking i t : ts !! i = Some t -> i ∉ placed -> asking t;
  placed_turn : StronglySorted (in_turn ts) placed;
  placed_last i j t t' : ts !! i = Some t -> ts !! j = Some t' -> (i < j)%nat ->
    task_key t = task_key t' -> idle t
}.

Lemma key_at_insert ts i t tr th :
  ts !! i = Some t -> forall j, key_at (<[i := advance t tr th]> ts) j = key_at ts j.
Proof.
  intros Ht j. unfold key_at. destruct (decide (j = i)) as [->|Hne].
  - rewrite list_lookup_insert_eq by (by eapply lookup_lt_Some). by rewrite Ht.
  - by rewrite list_lookup_insert_ne.
Qed.

Lemma turn_ext ts ts' placed :
  (forall i, i ∈ placed -> key_at ts' i = key_at ts i) ->
  StronglySorted (in_turn ts) placed -> StronglySorted (in_turn ts') placed.
Proof.
  intros Hk. induction 1 as [|i l HS IH HF]; constructor.
  - apply IH. intros j Hj. apply Hk. by right.
  - rewrite Forall_forall in *. intros j Hj. unfold in_turn. rewrite !Hk by (by left || by right).
    by apply HF.
Qed.

(** *** Each step keeps the tasks in order *)

Lemma not_idle st t tr eff th : tstep st (t_thread t) tr eff th -> ~ idle t.
Proof. intros Hs [a Ha]. rewrite Ha in Hs. inversion Hs. Qed.

Definition lasting ts : Prop := forall i j t t',
  ts !! i = Some t -> ts !! j = Some t' -> (i < j)%nat -> task_key t = task_key t' -> idle t.

Lemma lasting_insert ts i t tr th :
  lasting ts -> ts !! i = Some t -> ~ idle t -> lasting (<[i := advance t tr th]> ts).
Proof.
  intros Hl Ht Hb j k tj tk Hj Hk Hlt Heq.
  assert (exists tk0, ts !! k = Some tk0 /\ task_key tk0 = task_key tk) as (tk0 & Hk0 & Ek).
  { apply list_lookup_insert_Some in Hk as [(-> & <- & _)|[_ Hk]]; [by exists t|by exists tk]. }
  apply list_lookup_insert_Some in Hj as [(-> & <- & _)|[_ Hj]].
  - destruct Hb. apply (Hl j k t tk0); [done..|]. by rewrite Ek.
  - apply (Hl j k tj tk0); [done..|]. congruence.
Qed.

Lemma ordered_start st0 ts st placed ns name :
  ordered st0 ts st placed ->
  (forall t, t ∈ ts -> task_key t = getNamespacedName ns name -> idle t) ->
  ordered st0 (ts ++ [mkTask ns name (start ns name) []]) st placed.
Proof.
  intros [HN Hlt Hc Ha Ht Hl] Hfree. set (new := mkTask ns name (start ns name) []).
  assert (forall i, i ∈ placed -> (ts ++ [new]) !! i = ts !! i) as Hext
    by (intros i Hi; by apply lookup_app_l, Hlt).
  split.
  - done.
  - intros i Hi. rewrite length_app. specialize (Hlt i Hi). lia.
  - by eapply chain_ext.
  - intros i t Hi Hni. apply lookup_app_Some in Hi as [Hi|[_ Hi]]; [by eapply Ha|].
    apply list_lookup_singleton_Some in Hi as [_ <-]. split_and!.
    + intros [a E]. exact (start_busy ns name a E).
    + apply start_local.
    + intros s. constructor.
  - eapply turn_ext, Ht. intros i Hi. unfold key_at. by rewrite Hext.
  - intros i j t t' Hi Hj Hij Hk.
    apply lookup_app_Some in Hj as [Hj|[Hge Hj]].
    + rewrite lookup_app_l in Hi by (apply lookup_lt_Some in Hj; lia). by eapply Hl.
    + apply list_lookup_singleton_Some in Hj as [Hj <-]. rewrite lookup_app_l in Hi by lia.
      apply Hfree; [by eapply list_elem_of_lookup_2|done].
Qed.

(** A task that asks goes on without a place. *)
Lemma ordered_ask st0 ts st placed i t tr th :
  ordered st0 ts st placed -> ts !! i = Some t -> i ∉ placed -> asking (advance t tr th) ->
  ordered st0 (<[i := advance t tr th]> ts) st placed.
Proof.
  intros [HN Hlt Hc Ha Ht Hl] Hi Hni Hask. split.
  - done.
  - intros j Hj. rewrite length_insert. by apply Hlt.
  - eapply chain_ext, Hc. intros j Hj. apply list_lookup_insert_ne. by intros ->.
  - intros j tj Hj Hnj. apply list_lookup_insert_Some in Hj as [(-> & <- & _)|[_ Hj]]; [done|by eapply Ha].
  - eapply turn_ext, Ht. intros j _. by apply key_at_insert.
  - apply lasting_insert; [done..|]. by destruct (Ha i t Hi Hni).
Qed.

(** A task that allocates or ends takes its place. *)
Lemma ordered_place st0 ts st placed i t tr th st' :
  ordered st0 ts st placed -> ts !! i = Some t -> i ∉ placed ->
  trun (start (t_ns t) (t_name t)) st (t_trace t ++ tr) th st' -> in_hand (advance t tr th) st' ->
  ordered st0 (<[i := advance t tr th]> ts) st' (placed ++ [i]).
Proof.
  intros [HN Hlt Hc Ha Ht Hl] Hi Hni Hr Hh. pose proof (lookup_lt_Some _ _ _ Hi) as Hlen.
  destruct (Ha i t Hi Hni) as [Hb _]. split.
  - apply NoDup_app. split_and!; [done| |apply NoDup_singleton].
    intros j Hj Hji. apply list_elem_of_singleton in Hji as ->. done.
  - intros j. rewrite length_insert, elem_of_app, list_elem_of_singleton. intros [Hj|Hj]; [by apply Hlt|by subst].
  - apply chain_app. exists st. split.
    + eapply chain_ext, Hc. intros j Hj. apply list_lookup_insert_ne. by intros ->.
    + exists (advance t tr th), st'. rewrite list_lookup_insert_eq by done. done.
  - intros j tj Hj Hnj. apply not_elem_of_app in Hnj as [Hnj Hji].
    rewrite list_lookup_insert_ne in Hj by (intros ->; apply Hji; by left). by eapply Ha.
  - apply StronglySorted_snoc.
    + eapply turn_ext, Ht. intros j _. by apply key_at_insert.
    + apply Forall_forall. intros j Hj. unfold in_turn. rewrite !(key_at_insert ts i t) by done.
      unfold key_at. rewrite Hi. destruct (lookup_lt_is_Some_2 ts j (Hlt j Hj)) as [tj Etj].
      rewrite Etj. intros [= Hk]. destruct (decide (j = i)) as [->|Hne]; [done|].
      destruct (decide (j < i)%nat); [done|]. destruct Hb. apply (Hl i j t tj); [done|done|lia|done].
  - by apply lasting_insert.
Qed.

(** A task that has its place makes its step there. *)
Lemma ordered_move st0 ts st placed i t tr eff th :
  named st0 -> ordered st0 ts st placed -> ts !! i = Some t -> i ∈ placed ->
  tstep st (t_thread t) tr eff th ->
  ordered st0 (<[i := advance t tr th]> ts) (apply_effect eff st) placed.
Proof.
  intros Hn0 [HN Hlt Hc Ha Ht Hl] Hi Hpi Hs. pose proof (lookup_lt_Some _ _ _ Hi) as Hlen.
  pose proof (not_idle _ _ _ _ _ Hs) as Hb.
  apply list_elem_of_split in Hpi as (p1 & p2 & ->).
  apply chain_app in Hc as (s & Hc1 & (t0 & s1 & Ht0 & Hr & Hh & Hc2)).
  assert (t0 = t) as -> by congruence.
  destruct (chain_named _ _ _ _ Hn0 Hc1) as [Hn _]. destruct (start_run _ _ _ _ _ _ Hn Hr) as [Hn1 _].
  destruct Hh as [|(L & HL & HhL)]; [done|].
  assert ((i ∉ p1) /\ (i ∉ p2)) as [Hi1 Hi2].
  { apply NoDup_app in HN as (_ & H1 & H2%NoDup_cons). split; [|by destruct H2].
    intros H. apply (H1 i H). by left. }
  destruct (step_before_chain ts p2 (task_key t) L (t_thread t) s1 st tr eff th) as [Hs1 Hc2']; try done.
  { intros j tj Hj Htj Hk. apply Hb. apply (Hl i j t tj); [done..| |done].
    assert (StronglySorted (in_turn ts) (i :: p2)) as [_ HF]%StronglySorted_inv.
    { clear -Ht. induction p1 as [|k p1 IH]; [done|]. apply IH. by apply StronglySorted_inv in Ht as [Ht _]. }
    rewrite List.Forall_forall in HF. apply HF; [by apply list_elem_of_In|].
    unfold key_at. rewrite Hi, Htj. simpl. by f_equal. }
  destruct (local_step _ _ _ _ _ _ _ _ _ HL HhL Hn1 Hs1) as (_ & b & L' & HL' & HhL' & Hb').
  rewrite (Hb' eq_refl) in HL'. split.
  - done.
  - intros j Hj. rewrite length_insert. by apply Hlt.
  - apply chain_app. exists s. split; [eapply chain_ext, Hc1; intros j Hj; apply list_lookup_insert_ne; by intros ->|].
    exists (advance t tr th), (apply_effect eff s1). rewrite list_lookup_insert_eq by done.
    split_and!; [done|by eapply trun_step|by right; exists L'|].
    eapply chain_ext, Hc2'. intros j Hj. apply list_lookup_insert_ne. by intros ->.
  - intros j tj Hj Hnj. rewrite list_lookup_insert_ne in Hj by (intros ->; set_solver). by eapply Ha.
  - eapply turn_ext, Ht. intros j _. by apply key_at_insert.
  - by apply lasting_insert.
Qed.

Lemma finished_dec (th : thread S A) : {exists a, th = Finished a} + {~ exists a, th = Finished a}.
Proof. destruct th; try (right; by intros [a Ha]). left. by eexists. Qed.

Lemma ordered_step st0 ts st placed ts' st' :
  named st0 -> ordered st0 ts st placed -> wstep start (st, ts) (st', ts') ->
  exists placed', ordered st0 ts' st' placed'.
Proof.
  intros Hn Ho Hw. remember (st, ts) as c eqn:Ec. remember (st', ts') as c' eqn:Ec'.
  destruct Hw as [st1 ts1 ns name Hfree|st1 ts1 i t tr eff th Hi Hs]; injection Ec as -> ->;
    injection Ec' as <- <-.
  { exists placed. by apply ordered_start. }
  destruct (decide (i ∈ placed)) as [Hp|Hp]; [exists placed; by apply ordered_move|].
  destruct (placed_asking _ _ _ _ Ho i t Hi Hp) as (Hb & HL & Hrun).
  pose proof (trun_step _ _ _ _ _ _ _ _ (Hrun st) Hs) as Hrun'.
  destruct t as [ns name t0 trace]. cbn [t_thread t_ns t_name t_trace task_key] in *.
  destruct Hs as [e k r Hr|l o k Ho'|l o k|o k|key k|key m k|key k]; simpl in HL; try by destruct HL.
  - destruct (finished_dec (k r)) as [Hf|Hf].
    + exists (placed ++ [i]). apply (ordered_place st0 ts st); try done. by left.
    + exists placed. apply ordered_ask; [done..|]. split_and!; [done|by apply HL|].
      intros s. apply (trun_step _ _ _ _ s _ ENone _ (Hrun s)). by constructor.
  - exists (placed ++ [i]). apply (ordered_place st0 ts st); try done. right.
    destruct HL as (_ & Hk & HL). exists [length (heap st)]. split; [apply HL|].
    intros l Hl. apply list_elem_of_singleton in Hl as ->. exists o. simpl.
    by rewrite lookup_app_r, Nat.sub_diag by done.
Qed.

Lemma workers_ordered st0 st ts :
  named st0 -> rtc (wstep start) (st0, []) (st, ts) -> exists placed, ordered st0 ts st placed.
Proof.
  intros Hn Hrtc.
  assert (forall c, rtc (wstep start) (st0, []) c -> exists placed, ordered st0 c.2 c.1 placed) as H.
  { apply (rtc_ind_r (fun c => exists placed, ordered st0 c.2 c.1 placed)).
    - exists []. split; simpl; try done; [constructor|by intros i ?%elem_of_nil|constructor].
    - intros [st1 ts1] [st2 ts2] _ Hw [placed Ho]. by eapply ordered_step. }
  by apply (H (st, ts)).
Qed.

(** *** What the order is good for *)

Lemma chain_hand ts order s u i t :
  named s -> chain ts order s u -> i ∈ order -> ts !! i = Some t -> in_hand t u.
Proof.
  revert s; induction order as [|j order IH]; intros s Hn; simpl; [by intros _ ?%elem_of_nil|].
  intros (tj & s1 & Hj & Hr & Hh & Hc) Hi Ht. destruct (start_run _ _ _ _ _ _ Hn Hr) as [Hn1 _].
  apply elem_of_cons in Hi as [->|Hi]; [|by eapply IH]. assert (tj = t) as -> by congruence.
  destruct Hh as [Hh|(L & HL & HhL)]; [by left|]. right. exists L. split; [done|].
  eapply holds_kept, HhL. by eapply chain_named.
Qed.

(** No worker waits for another or trips over its work. *)
Definition can_go_on st t : Prop :=
  idle t \/ t_thread t = Crashed \/ t_thread t = CutOff \/
  exists tr eff th, tstep st (t_thread t) tr eff th.

Lemma some_answer e : exists r, faithful (ev e r).
Proof.
  destruct e; simpl; try (by exists (inl (errors_New ""))); try (by exists tt); try (by exists 0);
    try (by exists []); eexists (inl (errors_New "")); by intros.
Qed.

Lemma local_goes_on st t b L :
  local (task_key t) b L (t_thread t) any_end -> holds (task_key t) L st -> can_go_on st t.
Proof.
  intros HL Hh. unfold can_go_on, idle. destruct (t_thread t) as [a| | |e k|l k|l o k|o k|key k|key m k|key k] eqn:E;
    [left; by eexists|by right; left|by do 2 right; left|..]; do 3 right; try (by do 3 eexists; constructor).
  - destruct (some_answer e) as [r Hr]. do 3 eexists. by apply (step_ask _ _ _ r).
  - destruct HL as (_ & Hl & _). destruct (Hh l Hl) as (o & Ho & _). do 3 eexists. by constructor.
Qed.

Lemma ordered_goes_on st0 ts st placed :
  named st0 -> ordered st0 ts st placed -> Forall (can_go_on st) ts.
Proof.
  intros Hn Ho. apply Forall_lookup. intros i t Hi. destruct (decide (i ∈ placed)) as [Hp|Hp].
  - destruct (chain_hand _ _ _ _ _ _ Hn (placed_chain _ _ _ _ Ho) Hp Hi) as [Hid|(L & HL & Hh)];
      [by left|by eapply local_goes_on].
  - destruct (placed_asking _ _ _ _ Ho i t Hi Hp) as (_ & HL & _). eapply local_goes_on; [exact HL|].
    by intros l ?%elem_of_nil.
Qed.
End workers.

(** ** One after the other *)

(** The reconciliations of the tasks listed, in that order and each in one go,
    with the answers and results they had. *)
Fixpoint one_by_one {S A} (reconcile : string -> string -> M S A) (ts : list (Task S A))
    (order : list nat) (st st' : Store S) : Prop :=
  match order with
  | [] => st' = st
  | i :: order => exists t a st1, ts !! i = Some t /\ t_thread t = Finished a /\
      runs (reconcile (t_ns t) (t_name t) st) (t_trace t) (Returns (a, st1)) /\
      one_by_one reconcile ts order st1 st'
  end.

(** What the workers of a controller achieve together. *)
Definition serializable {S A} (reconcile : string -> string -> M S A)
    `{!forall ns name, Threaded (reconcile ns name)} : Prop :=
  forall st0 st ts, named st0 ->
    rtc (wstep (fun ns name => thread_of (reconcile ns name))) (st0, []) (st, ts) ->
    Forall (can_go_on st) ts /\ named st /\
    (Forall idle ts -> exists order, order ≡ₚ seq 0 (length ts) /\
       StronglySorted (in_turn ts) order /\ one_by_one reconcile ts order st0 st).

Lemma local_serializable {S A} (reconcile : string -> string -> M S A)
    `{!forall ns name, Threaded (reconcile ns name)} :
  (forall ns name, local (getNamespacedName ns name) true [] (thread_of (reconcile ns name)) any_end) ->
  (forall ns name a, thread_of (reconcile ns name) <> Finished a) ->
  serializable reconcile.
Proof.
  intros Hl Hb st0 st ts Hn Hw.
  destruct (workers_ordered _ Hl Hb _ _ _ Hn Hw) as [placed Ho].
  split; [by apply (ordered_goes_on _ Hl st0 ts st placed)|]. pose proof (placed_chain _ _ _ _ _ Ho) as Hc.
  split; [by eapply (chain_named _ Hl)|]. intros Hidle. exists placed. split_and!.
  - apply NoDup_Permutation; [apply Ho|apply NoDup_seq|]. intros i. rewrite elem_of_seq.
    split; [intros Hi; pose proof (placed_lt _ _ _ _ _ Ho i Hi); lia|]. intros Hi.
    destruct (lookup_lt_is_Some_2 ts i ltac:(lia)) as [t Ht].
    destruct (decide (i ∈ placed)) as [|Hp]; [done|].
    destruct (placed_asking _ _ _ _ _ Ho i t Ht Hp) as [Hni _]. destruct Hni.
    by eapply Forall_lookup in Hidle.
  - apply Ho.
  - clear Ho Hn Hw. revert st0 Hc.
    induction placed as [|i placed IH]; intros s; simpl; [done|].
    intros (t & s1 & Ht & Hr & _ & Hc).
    destruct (proj1 (Forall_lookup _ _) Hidle i t Ht) as [a Ha]. rewrite Ha in Hr.
    exists t, a, s1. split_and!; [done..|by apply (trun_threaded (reconcile (t_ns t) (t_name t)))|by apply IH].
Qed.

Section controllers.
  Context {TF : TimeFormat} {QO : QuantityOrder}.

(** C3: The workers of a controller do not disturb each other. However many of
    them take turns, step by step, at reconciling different resources of one
    cache, with an API server whose answers bear the right names: every worker
    can always go on unless it has crashed by itself, and when all are done,
    what they did, answers, results, cache and objects, is what reconciling the
    resources one after the other would have done, those of one resource in the
    order they were taken up. At all times every entry of the cache points to an
    object of its own name. *)
Theorem workers_serializable fuel :
  serializable (Reconcile_sentinel fuel) /\ serializable Reconcile_standalone.
Proof.
  split; apply local_serializable; try done; intros ns name;
    [apply local_sentinel|apply local_standalone].
Qed.
End controllers.

(** ** Witness: two workers that take turns *)

(** A step of a thread, with the answers given. *)
Definition next {S A} (answer : forall e, resp e) (st : Store S) (t : thread S A)
    : option (list event * effect S * thread S A) :=
  match t with
  | Finished _ | Crashed | CutOff => None
  | Ask e k => Some ([ev e (answer e)], ENone, k (answer e))
  | Load l k => o ← heap st !! l; Some ([], ENone, k o)
  | Assign l o k => Some ([], EWrite l o, k)
  | New o k => Some ([], EAlloc o, k (length (heap st)))
  | LoadEntry key k => Some ([], ENone, k (metas st !! key))
  | StoreEntry key m k => Some ([], EEntry key (Some m), k)
  | DeleteEntry key k => Some ([], EEntry key None, k)
  end.

Definition turn {S A} (answer : forall e, resp e) (c : Store S * list (Task S A)) (i : nat)
    : Store S * list (Task S A) :=
  match c.2 !! i with
  | Some t =>
      match next answer c.1 (t_thread t) with
      | Some (tr, eff, th) => (apply_effect eff c.1, <[i := advance t tr th]> c.2)
      | None => c
      end
  | None => c
  end.

Lemma turn_step {S A} (start : string -> string -> thread S A) answer c i :
  (forall e, faithful (ev e (answer e))) -> rtc (wstep start) c (turn answer c i).
Proof.
  intros Hf. unfold turn. destruct (c.2 !! i) as [t|] eqn:Ht; [|done].
  destruct (next answer c.1 (t_thread t)) as [[[tr eff] th]|] eqn:En; [|done].
  destruct c as [st ts]. simpl in *. apply rtc_once. apply work_step with (t := t); [done|].
  destruct (t_thread t) as [a| | |e k|l k|l o k|o k|key k|key m k|key k]; simpl in En; try done;
    try (injection En as <- <- <-; constructor; by try apply Hf).
  destruct (heap st !! l) eqn:El; [|done]. injection En as <- <- <-. by constructor.
Qed.

Lemma turns_steps {S A} (start : string -> string -> thread S A) answer l c :
  (forall e, faithful (ev e (answer e))) -> rtc (wstep start) c (fold_left (turn answer) l c).
Proof.
  intros Hf. revert c; induction l as [|i l IH]; intros c; [done|]. simpl.
  etrans; [by apply turn_step|apply IH].
Qed.

(** A server that has every sentinel resource asked for, and accepts all else. *)
Definition answer_all (e : Eff) : resp e :=
  match e with
  | Get k ns name =>
      match k return result (object k) with
      | KRedisSentinel => inr (mkResource (newMeta name ns ∅ []) (Spec (RedisSentinel_Validate sampleSentinel).1) emptyStatus)
      | _ => inl notFound
      end
  | Create _ _ => inr tt
  | Update _ o => inr o
  | StatusUpdate _ o => inr o
  | Delete _ _ => inr tt
  | List _ _ _ => inr []
  | StringCmd _ _ => inr ""
  | SliceCmd _ _ => inr []
  | IntCmd _ _ => inr 0
  | BoolCmd _ _ => inr true
  | StatusCmd _ _ => inr "OK"
  | Now => 0
  | Sleep _ => tt
  | Seed => []
  | RecordEvent _ _ _ _ _ _ => tt
  | SetGauge _ _ _ => tt
  | DeleteGauge _ _ => tt
  end.

Lemma answer_all_faithful e : faithful (ev e (answer_all e)).
Proof.
  destruct e; simpl; try done.
  - destruct k; try done; by intros o [= <-].
  - by intros o' [= <-].
  - by intros o' [= <-].
Qed.

Abbreviation demo_thread := (fun ns name => thread_of (Reconcile_sentinel (TF := sampleFormat) 7 ns name)).

(** Two resources of one namespace, a step of each in turn. *)
Definition both_started : Store RedisSentinelSpec * list (Task RedisSentinelSpec reconciled) :=
  (mkStore [] ∅, [mkTask "prod" "demo" (demo_thread "prod" "demo") [];
                  mkTask "prod" "other" (demo_thread "prod" "other") []]).

Definition in_turns : list nat := concat (repeat [0; 1]%nat 100).
Definition both_done := fold_left (turn answer_all) in_turns both_started.

Lemma both_steps : rtc (wstep demo_thread) (mkStore [] ∅, []) (both_done.1, both_done.2).
Proof.
  rewrite <- (surjective_pairing both_done).
  eapply rtc_l; [apply (work_start demo_thread _ [] "prod" "demo"); by intros t ?%elem_of_nil|].
  eapply rtc_l; [apply (work_start demo_thread _ [_] "prod" "other")|].
  - intros t Ht Hk. apply list_elem_of_singleton in Ht as ->. discriminate Hk.
  - apply turns_steps, answer_all_faithful.
Qed.

Definition finished {S A} (t : Task S A) : bool :=
  match t_thread t with Finished _ => true | _ => false end.

Lemma finished_idle {S A} (ts : list (Task S A)) : forallb finished ts = true -> Forall idle ts.
Proof.
  rewrite forallb_forall, List.Forall_forall. intros H t Ht. specialize (H t Ht).
  unfold finished in H. unfold idle. destruct (t_thread t); try done. by eexists.
Qed.

Example both_objects : length (heap both_done.1) = 2%nat /\ size (metas both_done.1) = 2%nat.
Proof. vm_compute. done. Qed.

Lemma workers_serializable_witness :
  exists order, order ≡ₚ [0; 1]%nat /\
    one_by_one (Reconcile_sentinel (TF := sampleFormat) 7) both_done.2 order (mkStore [] ∅) both_done.1.
Proof.
  destruct (proj1 (workers_serializable (TF := sampleFormat) 7) (mkStore [] ∅) both_done.1 both_done.2)
    as (_ & _ & H).
  - intros k m Hm. simpl in Hm. by rewrite lookup_empty in Hm.
  - exact both_steps.
  - destruct H as (order & Hp & _ & Hone); [apply finished_idle; vm_compute; reflexivity|].
    exists order. split; [|exact Hone]. rewrite Hp.
    assert (length both_done.2 = 2%nat) as -> by (vm_compute; reflexivity). reflexivity.
Defined.
