(* ===== verification/Startup.v ===== *)
(** * The first reconciliation of a resource whose objects are not there yet

    With an API server that keeps what it is given, reconciling a new resource
    creates every object it wants, or replaces what is stale, and, while the
    pods are not up, asks to be called again after twenty seconds. Both kinds of
    resource do so for the same reasons, which the class [Wanting] names. When
    the pods are up, [Reconciliation] takes over. [Booting] has the
    witnesses, on a server that starts with nothing but the resource. *)

From S2P Require Import Prelude GoStd Corev1 Api Samples Util Common Names Status Validate Effects Equiv Repair K8s.
From S2P Require Import SentinelGen StandaloneGen SentinelCheck SentinelClient StandaloneService.
From S2P Require Import StandaloneHandler SentinelHandler Controller.
From S2P Require Import Cache Handler EnsureProps FlowProps Desired ApiServer Steady Locality Reconciliation.

(** ** The outside *)

(** The custom resource is in the store, at a version, with some status. *)
Definition stored_at {S} (k : kind) (inj : CustomResource S -> object k) (rc : CustomResource S) (v : string)
    (m : Objects) : Prop :=
  exists o, m k !! (Namespace (meta rc), Name (meta rc)) = Some (inj o) /\ same_resource rc o /\
    ResourceVersion (meta o) = v.
Definition there {S} (k : kind) (inj : CustomResource S -> object k) (rc : CustomResource S) (m : Objects) : Prop :=
  exists v, stored_at k inj rc v m.

(** The store of an API server that has the resource: it takes a status from an
    object of the version in the store, which then has that status and another
    version, and answers with what it has stored; only a write changes the other
    objects, and nobody else edits the resource. *)
Class Hosted {W S} `{HasRedisSpec S} (env : Env W) (objs : W -> Objects) (admits : Admission) (k : kind)
    (inj : CustomResource S -> object k) (proj : object k -> CustomResource S) (rc : CustomResource S) : Prop := {
  hosted_api :: ApiServer env objs admits;
  hosted_status o w : like rc o -> stored_at k inj rc (ResourceVersion (meta o)) (objs w) -> exists stored,
    (env (StatusUpdate k (inj o)) w).1 = inr stored /\
    same_resource rc (proj stored) /\ Status (proj stored) = Status o /\
    stored_at k inj rc (ResourceVersion (meta (proj stored))) (objs (env (StatusUpdate k (inj o)) w).2);
  hosted_kept e w k' key : aside k e = true -> k' <> k ->
    objs (env e w).2 k' !! key = objs w k' !! key;
  hosted_unedited v e w : touches k e = false -> stored_at k inj rc v (objs w) ->
    stored_at k inj rc v (objs (env e w).2)
}.

#[export] Instance hosted_registered {W S} `{HasRedisSpec S} (env : Env W) objs admits k inj proj
    (rc : CustomResource S) `{HH : !Hosted env objs admits k inj proj rc} :
  Registered env k inj proj rc (fun v w => stored_at k inj rc v (objs w)).
Proof.
  split; [|apply HH|apply HH]. intros v w (o & Ho & Hs & Hv). exists o. split; [|done].
  destruct (server_get (objs := objs) k (Namespace (meta rc)) (Name (meta rc)) w) as [_ Hg]. by rewrite Ho in Hg.
Qed.

(** The pods of a StatefulSet are not up: not all of them are ready. *)
Definition pods_down {S} `{HasRedisSpec S} (name : string) (rc : CustomResource S) (m : Objects) : Prop :=
  forall ss, m KStatefulSet !! (Namespace (meta rc), name) = Some ss ->
    ss_ReadyReplicas ss <> Size (redisSpec (Spec rc)).

(** The same objects, resources apart. *)
Definition same_objects (k : kind) (m m' : Objects) : Prop :=
  forall k' key, k' <> k -> m' k' !! key = m k' !! key.

Definition want_kind (w : want) : kind := match w with Make k _ _ _ => k | Need k _ => k end.

Lemma workable_same admits k ns m m' w :
  want_kind w <> k -> same_objects k m m' -> workable admits ns m w -> workable admits ns m' w.
Proof. destruct w as [k' name gen stale|k' name]; simpl; intros Hk Hs; by rewrite Hs. Qed.

Lemma met_same k ns m m1 m' m1' w :
  want_kind w <> k -> same_objects k m m1 -> same_objects k m' m1' -> met ns m1 m' w -> met ns m m1' w.
Proof. destruct w as [k' name gen stale|k' name]; simpl; intros Hk H1 H2; rewrite ?H1, H2 by done; done. Qed.

(** What has been met stays met, also by what is made of it next. *)
Lemma met_workable admits ns m m' w :
  generates ns w -> workable admits ns m w -> met ns m m' w -> workable admits ns m' w.
Proof.
  intros Hg Hw Hm. pose proof (met_settled admits ns m m' w Hg Hw Hm) as Hs. destruct w as [k name gen stale|k name]; [|done].
  destruct Hs as (o & Ho & Es). cbn [workable]. rewrite Ho. by exists false.
Qed.

Lemma met_trans admits ns m m1 m2 w :
  generates ns w -> workable admits ns m w -> met ns m m1 w -> met ns m1 m2 w -> met ns m m2 w.
Proof.
  intros Hg Hw Hm1 Hm2. pose proof (met_settled admits ns m m1 w Hg Hw Hm1) as Hs.
  destruct w as [k name gen stale|k name]; [|done]. destruct Hs as (o & Ho & Es). cbn [met] in *. rewrite Ho, Es in Hm2.
  destruct Hm2 as (o' & Ho' & ->), Hm1 as (o1 & Ho1 & Hm). exists o. split; [done|].
  by assert (o = o1) as -> by congruence.
Qed.

(** ** What an operator wants of the cluster *)

(** [Ensure] amounts to a list of wants, the same for all objects like the
    resource, and changes of the resource no more than the owners of the claim. *)
Class Wanting {S} `{HasRedisSpec S} (ops : Operations S) (k : kind) (rc : CustomResource S)
    (labels : StringMap) (refs : list OwnerReference) (wants : list want) : Prop := {
  wanting_ensure o : like rc o -> outcome_of (op_Ensure ops o labels refs) ≃ ensure_all (Namespace (meta rc)) wants;
  wanting_names : NoDup (made wants);
  wanting_generates : Forall (generates (Namespace (meta rc))) wants;
  wanting_kinds : Forall (fun w => want_kind w <> k) wants;
  wanting_like o : like rc o ->
    yields (op_Ensure ops o labels refs) (fun a => like rc a.1 /\ meta a.1 = meta o /\ Status a.1 = Status o)
}.

Lemma ensure_all_touches k ns ws :
  Forall (generates ns) ws -> Forall (fun w => want_kind w <> k) ws ->
  every (fun e => touches k e = false) (ensure_all ns ws).
Proof.
  intros Hg Hk. rewrite Forall_forall in Hg, Hk. apply every_for_each. intros w Hw.
  specialize (Hg w Hw). specialize (Hk w Hw). destruct w as [k' name gen stale|k' name]; cbn [ensure_want].
  - cbn [want_kind] in Hk. apply every_bind; [|intros o; cbn [every]; split; [done|]].
    + eapply every_mono, (proj1 Hg). by intros e ->.
    + intros [err|old]; cbn [bind]; [destruct (IsNotFound err)|destruct (stale old) as [[]|]]; try done;
        (split; [by apply bool_decide_eq_false|by intros []]).
  - split; [done|]. by intros [].
Qed.

Section start.
  Context {TF : TimeFormat} {W S : Type} `{HS : HasRedisSpec S} (env : Env W) (objs : W -> Objects) (admits : Admission).
  Context (k : kind) (inj : CustomResource S -> object k) (proj : object k -> CustomResource S).
  Context (rc : CustomResource S) `{HH : !Hosted env objs admits k inj proj rc}.
  Context (ops : Operations S) `{SU : !StatusByUpdate ops k inj proj} (name : string) (wants : list want).

Abbreviation ns := (Namespace (meta rc)).
Abbreviation labels := (getLabels rc).
Abbreviation refs := (createOwnerReferences (op_Kind ops) rc).
Abbreviation at_version := (fun v w => stored_at k inj rc v (objs w)).

  Context `{WW : !Wanting ops k rc labels refs wants}.
  Context (l : loc) (m : Meta) (st0 : Store S).
  Context (m0 : Objects) (Hwork : Forall (workable admits ns m0) wants).
  Context (Hdown : forall e w, pods_down name rc (objs w) -> pods_down name rc (objs (env e w).2)).

(** Nothing has been made yet; and everything is there. *)
Definition before (w : W) : Prop := same_objects k m0 (objs w) /\ pods_down name rc (objs w).
Definition after (w : W) : Prop := Forall (met ns m0 (objs w)) wants /\ pods_down name rc (objs w).

Lemma unstarted_kept e w : aside k e = true -> before w -> before (env e w).2.
Proof.
  intros He [Hw Hd]. split; [|by apply Hdown].
  intros k' key Hk. rewrite (hosted_kept (k := k) (rc := rc)) by done. by apply Hw.
Qed.

Lemma established_kept e w : aside k e = true -> after w -> after (env e w).2.
Proof.
  intros He [Hw Hd]. split; [|by apply Hdown].
  pose proof wanting_kinds as Hk. rewrite Forall_forall in Hw, Hk |- *. intros x Hx.
  eapply (met_same k), Hw, Hx; [by apply Hk|done|].
  intros k' key Hne. by rewrite (hosted_kept (k := k) (rc := rc)).
Qed.

(** [Ensure] makes everything, and leaves the resource alone. *)
Lemma Ensure_starts o (st : Store S) :
  like rc o ->
  triple env (fun w => before w /\ fresh at_version l st w) (op_Ensure ops o labels refs)
    (fun a w => (like rc a.1 /\ meta a.1 = meta o /\ Status a.1 = Status o /\ a.2 = inr tt) /\
       after w /\ fresh at_version l st w).
Proof.
  intros Ho w [[Hw Hd] Hf]. pose proof wanting_kinds as Hk. pose proof wanting_generates as Hg.
  destruct (ensure_all_establishes env objs admits ns wants (outcome_of (op_Ensure ops o labels refs)))
    with w as (t & w' & E & (Hmet & _) & _); [by apply wanting_ensure|apply wanting_names|done| |].
  - rewrite Forall_forall in Hwork, Hk |- *. intros x Hx. eapply (workable_same admits k), Hwork, Hx; [by apply Hk|done].
  - assert (pods_down name rc (objs w') /\ fresh at_version l st w') as [Hd' Hf'].
    { rewrite (wanting_ensure o Ho) in E.
      refine (trace_keeps env (fun w => pods_down name rc (objs w) /\ fresh at_version l st w)
        (fun e => touches k e = false) _ _ _ _ _ _ E _ (conj Hd Hf)).
      - intros e v He [Hv Hfv]. split; [by apply Hdown|]. by apply (fresh_kept env k inj proj rc at_version).
      - exact (run_wp _ _ _ _ _ _ _ (every_trace _ _ (ensure_all_touches k ns _ Hg Hk)) E). }
    unfold outcome_of in E. rewrite run_bind in E.
    destruct (run env (op_Ensure ops o labels refs) w) as [[[[o' r]| |] t1] w1] eqn:E1; [|done..].
    pose proof (run_wp _ _ _ _ _ _ _ (wanting_like o Ho) E1) as Hs. simpl in E, Hs. injection E as -> _ ->.
    exists (o', inr tt), t1, w'. split; [reflexivity|]. split; [by destruct Hs as (? & ? & ?)|]. split; [|done].
    split; [|done]. rewrite Forall_forall in Hmet, Hk |- *. intros x Hx.
    apply (met_same k ns m0 (objs w) (objs w') (objs w') x);
      [exact (Hk x Hx)|exact Hw|intros k' key _; reflexivity|exact (Hmet x Hx)].
Qed.

(** Another round can start from where this one ended, and what it establishes
    adds up. *)
Lemma after_again w :
  after w -> Forall (workable admits ns (objs w)) wants /\
  forall w', Forall (met ns (objs w) (objs w')) wants -> Forall (met ns m0 (objs w')) wants.
Proof.
  intros [Hmet _]. pose proof wanting_generates as Hg.
  rewrite Forall_forall in Hg, Hwork, Hmet. split.
  - apply Forall_forall. intros x Hx. eapply met_workable; [by apply Hg|by apply Hwork|by apply Hmet].
  - intros w' Hmet'. rewrite Forall_forall in Hmet' |- *. intros x Hx.
    eapply met_trans; [by apply Hg|by apply Hwork|by apply Hmet|by apply Hmet'].
Qed.

Ltac recorded := intros ? ?; eexists _, _, _; reflexivity.

(** The handling of the error: the gauge, and an announcement if the cluster
    was healthy before. *)
Lemma failed_waits :
  steady env after rc at_version l m st0 True True (heal_failed ops l ErrNeedRequeue) (fun r => r = inl ErrNeedRequeue).
Proof.
  assert (l ∈ [l; Obj m]) as Hl by left. unfold heal_failed.
  eapply (steady_bind _ _ _ _ _ _ _ _ True _ _ _ (fun _ => True)).
  { eapply steady_bind; [by apply steady_deref|]. intros o _. unfold Metrics.SetClusterError.
    by apply (steady_act env after k established_kept inj proj rc at_version l m st0 True (SetGauge _ _ _)). }
  intros _ _. change (Error ErrNeedRequeue) with NeedRequeueMsg. rewrite String.eqb_refl. cbn [negb].
  eapply steady_bind; [by apply steady_deref|]. intros o _.
  destruct (Conditions (Status o)) as [|c cs]; [by apply steady_ret|].
  destruct (_ =? _)%string; [|by apply steady_ret].
  eapply steady_bind; [by apply (steady_event env after k established_kept inj proj rc at_version); [|recorded]|].
  intros _ _.
  eapply steady_bind; [apply (steady_condition env after k established_kept inj proj rc at_version);
    [intros ? ?; apply set_condition_told|by left]|]. intros _ _.
  eapply steady_bind; [by apply (steady_update env after k established_kept inj proj rc at_version)|].
  intros err ->. by apply steady_ret.
Qed.
End start.

(** ** The whole reconciliation, for either kind *)

Section waits.
  Context {TF : TimeFormat} {W S : Type} `{HS : HasRedisSpec S} (env : Env W) (objs : W -> Objects) (admits : Admission).
  Context (k : kind) (inj : CustomResource S -> object k) (proj : object k -> CustomResource S).
  Context (rc : CustomResource S) `{HH : !Hosted env objs admits k inj proj rc}.
  Context (ops : Operations S) `{SU : !StatusByUpdate ops k inj proj} (name : string) (wants : list want).
Abbreviation labels := (getLabels rc).
Abbreviation refs := (createOwnerReferences (op_Kind ops) rc).
Abbreviation at_version := (fun v w => stored_at k inj rc v (objs w)).
  Context `{WW : !Wanting ops k rc labels refs wants}.
  Context (m0 : Objects) (Hwork : Forall (workable admits (Namespace (meta rc)) m0) wants).
  Context (Hdown : forall e w, pods_down name rc (objs w) -> pods_down name rc (objs (env e w).2)).
Abbreviation before := (before objs k rc name m0).
Abbreviation after := (after objs rc name wants m0).
  (** What healing does in the meantime. *)
  Context (Huntouched : forall m o, every (fun e => touches k e = false) (op_CheckAndHeal ops o m)).
  Context (Hwait : forall m o, like rc o ->
    triple env after (op_CheckAndHeal ops o m) (fun r w => r = inl ErrNeedRequeue /\ after w)).
  Context (Hvalid : forall v s, op_Validate ops (revised v s rc) = (revised v s rc, (false, None))).
  Context (bootstrap : string) (Hcache : op_Cache ops = Cache bootstrap).
  (** The controller's code around the handler. *)
  Context (f : result (object k) -> M S reconciled) (g : loc -> result unit -> M S reconciled) (res : reconciled).
  Context (Hf : forall o st, f (inr (inj o)) st =
    (do* l := (fun st => Ret (alloc o st)) in do* done := Do ops l in g l done) st).
  Context (Hg : forall l, g l (inl ErrNeedRequeue) = retM res).

Lemma Reconcile_waits st :
  wf st -> up_to_date rc st ->
  triple env (fun w => before w /\ exists v, at_version v w)
    (bindM (lift (act (Get k (Namespace (meta rc)) (Name (meta rc))))) f st)
    (fun r w => r.1 = res /\ wf r.2 /\ up_to_date rc r.2 /\ after w /\ exists v, at_version v w).
Proof.
  intros Hwf Hup. apply (read_resource env before k inj proj rc at_version).
  { intros w Hw. by apply (unstarted_kept env objs admits k inj proj rc). }
  intros v s. set (o := revised v s rc).
  assert (same_resource rc o) as Hsame by apply revised_same. pose proof (same_like _ _ Hsame) as Hlike.
  destruct (Cache_read bootstrap o st Hwf) as (m & st0 & Hm & _ & Hh & Hwf0 & Hk);
    [by apply (up_to_date_like rc)|].
  rewrite <- (like_key _ _ Hlike) in Hk. rewrite Hf. unfold bindM at 1. cbn [alloc bind].
  eapply triple_bind.
  - refine (Do_steady env ops k inj proj rc at_version (length (heap st)) m st0 before after after
      (unstarted_kept env objs admits k inj proj rc name m0 Hdown)
      (established_kept env objs admits k inj proj rc ops name wants m0 Hdown)
      (ensure_at_triple env before rc at_version ops _ m st0 after _ _
        (Ensure_starts env objs admits k inj proj rc ops name wants _ m0 Hwork Hdown))
      (inl ErrNeedRequeue) (Huntouched m) (Hwait m)
      (failed_waits env objs admits k inj proj rc ops name wants _ m st0 m0 Hdown)
      _ o Hsame (Hvalid v s) _ _ Hh); [|by rewrite Hcache].
    simpl. by rewrite lookup_app_r, Nat.sub_diag.
  - intros [r st2] w (Hr & Hst2 & Hw & o2 & _ & Hv2). cbn [fst snd] in Hr, Hst2. subst r. rewrite Hg.
    destruct (holds_sound rc _ m st0 st2 _ Hwf0 Hk (holds_like rc _ m o _ st0 Hlike (proj1 (proj2 Hh))) Hst2)
      as [Hwf2 Hup2].
    exists (res, st2), [], w. split; [done|]. split; [done|]. split; [done|]. split; [done|]. split; [exact Hw|].
    by eexists.
Qed.
End waits.

(** ** The two kinds of resource *)

Section kinds.
  Context {TF : TimeFormat} {QO : QuantityOrder} `{QL : !QuantityLaws QO}.

Lemma sentinel_set_like rc o labels refs :
  like rc o -> yields (SentinelClient.EnsureRedisStatefulset o labels refs)
    (fun a => like rc a.1 /\ meta a.1 = meta o /\ Status a.1 = Status o).
Proof.
  intros Ho. unfold SentinelClient.EnsureRedisStatefulset.
  assert (forall o' : RedisSentinel, o' = (SentinelGen.generateRedisStatefulSet o labels refs).2 ->
    like rc o' /\ meta o' = meta o /\ Status o' = Status o) as Hgen.
  { intros o' ->. destruct (like_sentinel rc o Ho) as (v & storage & st & E & ->). split; [|done]. split; [done|].
    unfold bare. cbn. by rewrite claim_owner_twice, E. }
  destruct (SentinelGen.generateRedisStatefulSet o labels refs) as [ss o']. specialize (Hgen o' eq_refl).
  assert (like rc o /\ meta o = meta o /\ Status o = Status o) as Hown by done. yields_walk.
Qed.

Lemma standalone_set_like rs o labels refs :
  like rs o -> yields (StandaloneService.EnsureRedisStatefulset o labels refs)
    (fun a => like rs a.1 /\ meta a.1 = meta o /\ Status a.1 = Status o).
Proof.
  intros Ho. unfold StandaloneService.EnsureRedisStatefulset.
  assert (forall o' : RedisStandalone, o' = (StandaloneGen.generateRedisStatefulSet o labels refs).2 ->
    like rs o' /\ meta o' = meta o /\ Status o' = Status o) as Hgen.
  { intros o' ->. destruct (like_standalone rs o Ho) as (v & storage & st & E & ->). split; [|done]. split; [done|].
    unfold bare. cbn. by rewrite claim_owner_twice, E. }
  destruct (StandaloneGen.generateRedisStatefulSet o labels refs) as [ss o']. specialize (Hgen o' eq_refl).
  assert (like rs o /\ meta o = meta o /\ Status o = Status o) as Hown by done. yields_walk.
Qed.

(** Nothing generated depends on the version, the status or the owners of the
    volume claim. *)
Ltac same_claims E :=
  cbn -[SentinelGen.set_claim_owner] in E;
  match type of E with SentinelGen.set_claim_owner _ ?s = SentinelGen.set_claim_owner _ ?s' =>
    destruct s as [[] ? [[[] ?]|]], s' as [[] ? [[[] ?]|]] end;
  unfold SentinelGen.set_claim_owner, set_OwnerReferences in E; cbn in E; try discriminate E; injection E; intros; by subst.

Lemma sentinel_wants_like rc o labels refs :
  like rc o -> sentinel_wants o labels refs = sentinel_wants rc labels refs.
Proof. intros (v & storage & st & E & ->)%like_sentinel. destruct rc as [m [[] s] st']. same_claims E. Qed.

Lemma standalone_wants_like rs o labels refs :
  like rs o -> standalone_wants o labels refs = standalone_wants rs labels refs.
Proof. intros (v & storage & st & E & ->)%like_standalone. destruct rs as [m [] st']. same_claims E. Qed.

Lemma sentinel_kinds o labels refs :
  Forall (fun w => want_kind w <> KRedisSentinel) (sentinel_wants o labels refs).
Proof.
  unfold sentinel_wants, sentinel_first. repeat apply Forall_app_2; repeat apply Forall_cons_2; try apply Forall_nil_2;
    try done; by destruct (_ : bool); repeat apply Forall_cons_2.
Qed.

Lemma standalone_kinds o labels refs :
  Forall (fun w => want_kind w <> KRedisStandalone) (standalone_wants o labels refs).
Proof.
  unfold standalone_wants, standalone_first. repeat apply Forall_app_2; repeat apply Forall_cons_2;
    try apply Forall_nil_2; try done; [by destruct (_ =? _)%string|]. destruct (Enabled _); repeat constructor; done.
Qed.

#[export] Instance sentinel_wanting fuel (rc : RedisSentinel) labels refs :
  Wanting (SentinelHandler.operations fuel) KRedisSentinel rc labels refs (sentinel_wants rc labels refs).
Proof.
  split.
  - intros o Ho. rewrite <- (sentinel_wants_like rc o) by done.
    pose proof (same_meta_fields _ _ (proj1 Ho)) as (_ & -> & _). apply sentinel_Ensure_wants.
  - apply sentinel_names.
  - apply sentinel_generates.
  - apply sentinel_kinds.
  - intros o Ho. apply yields_bind. intros [err|u]; [done|].
    eapply yields_then; [by apply sentinel_set_like|]. intros [o' [err|u']] Hk; [done|]. by apply yields_bind.
Qed.

#[export] Instance standalone_wanting (rs : RedisStandalone) labels refs :
  Wanting StandaloneHandler.operations KRedisStandalone rs labels refs (standalone_wants rs labels refs).
Proof.
  split.
  - intros o Ho. rewrite <- (standalone_wants_like rs o) by done.
    pose proof (same_meta_fields _ _ (proj1 Ho)) as (_ & -> & _). apply standalone_Ensure_wants.
  - apply standalone_names.
  - apply standalone_generates.
  - apply standalone_kinds.
  - intros o Ho. apply yields_bind. intros [err|u]; [done|]. by apply standalone_set_like.
Qed.

(** The StatefulSet of the redis servers is there and has a replica count. *)
Lemma set_there admits ns name (G : StatefulSet) (stale : StatefulSet -> option bool) m m' :
  let w := Make KStatefulSet name (Ret G) stale in
  (forall ss, ss_Replicas ss = None -> stale ss = None) ->
  generates ns w -> workable admits ns m w -> met ns m m' w ->
  exists ss n, m' KStatefulSet !! (ns, name) = Some ss /\ ss_Replicas ss = Some n.
Proof.
  intros w Hs Hg Hw Hm. destruct (met_settled admits ns m m' w Hg Hw Hm) as (ss & Hss & E).
  exists ss. destruct (ss_Replicas ss) as [n|] eqn:En; [by exists n|]. by rewrite Hs in E.
Qed.

Lemma no_replicas {A} (c : option A) (n : option Z) (f : A -> Z -> bool) :
  n = None -> (c ← c; n ← n; Some (f c n)) = None.
Proof. intros ->. by destruct c. Qed.

(** Both checks of the number of redis servers. *)
Definition check_number (ns name : string) (size : Z) : prog (result unit) :=
  let? ss := GetStatefulSet ns name in
  let* replicas := or_panic (ss_Replicas ss) in
  if negb (size =? replicas) then fail (errors_New "number of redis pods differ from specification")
  else if negb (size =? ss_ReadyReplicas ss) then fail (errors_New "waiting all of redis pods become ready")
  else ok tt.

Section waiting.
  Context {W : Type} (env : Env W) (objs : W -> Objects) (admits : Admission) (I : W -> Prop) (k : kind).
  Context (Hk : forall e w, aside k e = true -> I w -> I (env e w).2).

Lemma check_fails ns name size (K : result unit -> prog (result unit)) Q `{!ApiServer env objs admits} :
  (forall w, I w -> exists ss n, objs w KStatefulSet !! (ns, name) = Some ss /\ ss_Replicas ss = Some n /\
     ss_ReadyReplicas ss <> size) ->
  (forall err, triple env I (K (inl err)) Q) ->
  triple env I (bind (check_number ns name size) K) Q.
Proof.
  intros Hset HK w Hw. destruct (Hset w Hw) as (ss & n & Hss & Hn & Hr).
  destruct (server_get (objs := objs) KStatefulSet ns name w) as [_ Hg].
  assert ((env (Get KStatefulSet ns name) w).1 = inr ss) as Er.
  { revert Hg. cbv beta. match goal with |- context [match ?x with _ => _ end] =>
      assert (x = Some ss) as -> by exact Hss end. done. }
  pose proof (Hk (Get KStatefulSet ns name) w eq_refl Hw) as Hw'.
  unfold check_number, GetStatefulSet, get, try, act. cbn [bind run].
  destruct (env _ w) as [r w1]. cbn [fst snd] in Er, Hw'. subst r. cbn [bind]. rewrite Hn. cbn [or_panic bind].
  assert (exists err, (if negb (size =? n) then fail (errors_New "number of redis pods differ from specification")
    else if negb (size =? ss_ReadyReplicas ss) then fail (errors_New "waiting all of redis pods become ready")
    else ok tt) = fail (A := unit) err) as [err ->].
  { rewrite (proj2 (Z.eqb_neq size (ss_ReadyReplicas ss)) (not_eq_sym Hr)). destruct (negb _); by eexists. }
  destruct (HK err w1 Hw') as (a & t & w2 & E & HQ). cbn [bind fail] in E |- *. unfold fail. cbn [bind].
  rewrite E. by eexists _, _, w2.
Qed.

Lemma announced k' mt ty reason msg :
  triple env I (let* _ := Event.record k' mt ty reason msg in fail (A := unit) ErrNeedRequeue)
    (fun r w => r = inl ErrNeedRequeue /\ I w).
Proof.
  eapply (triple_bind _ _ _ _ (fun _ => I)); [|intros _; by apply triple_ret].
  apply (triple_act env I (RecordEvent _ _ _ _ _ _) (fun _ => I)). intros w Hw. by apply Hk.
Qed.
End waiting.

Section after.
  Context {W S : Type} `{HS : HasRedisSpec S} (objs : W -> Objects) (admits : Admission) (rc : CustomResource S).
  Context (wants : list want) (m0 : Objects) (name : string) (G : StatefulSet) (stale : StatefulSet -> option bool).
  Context (Hin : Make KStatefulSet name (Ret G) stale ∈ wants).
  Context (Hstale : forall ss, ss_Replicas ss = None -> stale ss = None).
  Context (Hgen : Forall (generates (Namespace (meta rc))) wants).
  Context (Hwork : Forall (workable admits (Namespace (meta rc)) m0) wants).

(** While the pods are down, the StatefulSet is there and not ready. *)
Lemma set_not_ready w :
  after objs rc name wants m0 w ->
  exists ss n, objs w KStatefulSet !! (Namespace (meta rc), name) = Some ss /\ ss_Replicas ss = Some n /\
    ss_ReadyReplicas ss <> Size (redisSpec (Spec rc)).
Proof.
  intros (Hmet & Hdown). rewrite Forall_forall in Hgen, Hwork, Hmet.
  destruct (set_there admits _ name G stale m0 (objs w) Hstale (Hgen _ Hin) (Hwork _ Hin) (Hmet _ Hin))
    as (ss & n & Hss & Hn).
  exists ss, n. split; [done|]. split; [done|]. by apply Hdown.
Qed.
End after.

(** Neither handler goes past the number of redis servers. *)
Section handlers.
  Context {W : Type} (env : Env W) (objs : W -> Objects) (admits : Admission) `{!ApiServer env objs admits} (m0 : Objects).

Lemma sentinel_waits (rc : RedisSentinel) fuel m o :
  let wants := sentinel_wants rc (getLabels rc) (createOwnerReferences RedisSentinelKind rc) in
  let after := after objs rc (Names.Sentinel.GetRedisName rc) wants m0 in
  Forall (workable admits (Namespace (meta rc)) m0) wants ->
  (forall e w, aside KRedisSentinel e = true -> after w -> after (env e w).2) -> like rc o ->
  triple env after (SentinelHandler.CheckAndHeal fuel o m) (fun r w => r = inl ErrNeedRequeue /\ after w).
Proof.
  intros wants after Hwork Hk (v & storage & st & _ & ->)%like_sentinel. unfold SentinelHandler.CheckAndHeal.
  match goal with |- context [SentinelCheck.CheckRedisNumber ?o] => change (SentinelCheck.CheckRedisNumber o) with
    (check_number (Namespace (meta rc)) (Names.Sentinel.GetRedisName rc) (Size (redisSpec (Spec rc)))) end.
  refine (check_fails env objs admits after _ Hk _ _ _ _ _ _ (fun err => announced env after _ Hk _ _ _ _ _)).
  intros w. eapply set_not_ready; [| |apply sentinel_generates|exact Hwork].
  - unfold wants, sentinel_wants. rewrite !elem_of_app. right. left. right. left.
  - intros ss Hr. unfold redis_stale. by apply no_replicas.
Qed.

Lemma standalone_waits (rs : RedisStandalone) m o :
  let wants := standalone_wants rs (getLabels rs) (createOwnerReferences RedisStandaloneKind rs) in
  let after := after objs rs (Names.Standalone.GetRedisName rs) wants m0 in
  Forall (workable admits (Namespace (meta rs)) m0) wants ->
  (forall e w, aside KRedisStandalone e = true -> after w -> after (env e w).2) -> like rs o ->
  triple env after (StandaloneHandler.CheckAndHeal o m) (fun r w => r = inl ErrNeedRequeue /\ after w).
Proof.
  intros wants after Hwork Hk (v & storage & st & _ & ->)%like_standalone. unfold StandaloneHandler.CheckAndHeal.
  match goal with |- context [StandaloneService.CheckRedisNumber ?o] => change (StandaloneService.CheckRedisNumber o)
    with (check_number (Namespace (meta rs)) (Names.Standalone.GetRedisName rs) (Size (redisSpec (Spec rs)))) end.
  refine (check_fails env objs admits after _ Hk _ _ _ _ _ _ (fun err => announced env after _ Hk _ _ _ _ _)).
  intros w. eapply set_not_ready; [| |apply standalone_generates|exact Hwork].
  - unfold wants, standalone_wants. rewrite !elem_of_app. right. left.
  - intros ss Hr. unfold standalone_stale. by apply no_replicas.
Qed.
End handlers.
End kinds.

(** ** Both controllers *)

(** What is wanted of the cluster on behalf of a resource. *)
Definition sentinel_objects {QO : QuantityOrder} (rc : RedisSentinel) : list want :=
  sentinel_wants rc (getLabels rc) (createOwnerReferences RedisSentinelKind rc).
Definition standalone_objects {QO : QuantityOrder} (rs : RedisStandalone) : list want :=
  standalone_wants rs (getLabels rs) (createOwnerReferences RedisStandaloneKind rs).

Abbreviation HostedSentinel env objs admits rc :=
  (Hosted env objs admits KRedisSentinel (fun o => o) (fun o => o) rc).
Abbreviation HostedStandalone env objs admits rs :=
  (Hosted env objs admits KRedisStandalone (fun o => o) (fun o => o) rs).

(** Everything wanted is there, made from [m] on, the resource too, and the pods
    are not up. *)
Definition sentinel_waiting {QO : QuantityOrder} (rc : RedisSentinel) (m m' : Objects) : Prop :=
  Forall (met (Namespace (meta rc)) m m') (sentinel_objects rc) /\
  there KRedisSentinel (fun o => o) rc m' /\ pods_down (Names.Sentinel.GetRedisName rc) rc m'.
Definition standalone_waiting {QO : QuantityOrder} (rs : RedisStandalone) (m m' : Objects) : Prop :=
  Forall (met (Namespace (meta rs)) m m') (standalone_objects rs) /\
  there KRedisStandalone (fun o => o) rs m' /\ pods_down (Names.Standalone.GetRedisName rs) rs m'.

(** The pods of a resource do not come up by themselves while it is reconciled. *)
Definition stays_down {W S} `{HasRedisSpec S} (env : Env W) (objs : W -> Objects) (name : string)
    (rc : CustomResource S) : Prop :=
  forall e w, pods_down name rc (objs w) -> pods_down name rc (objs (env e w).2).

Definition sentinel_again : reconciled := (mkResult false (20 * second), None).
Definition standalone_again : reconciled := (mkResult false (ReconcileTime * second), None).

Section rounds.
  Context {TF : TimeFormat} {QO : QuantityOrder} `{QL : !QuantityLaws QO}.
  Context {W : Type} (env : Env W) (objs : W -> Objects) (admits : Admission).

Lemma sentinel_round (rc : RedisSentinel) fuel m0 st `{HH : !HostedSentinel env objs admits rc} :
  Forall (workable admits (Namespace (meta rc)) m0) (sentinel_objects rc) ->
  stays_down env objs (Names.Sentinel.GetRedisName rc) rc ->
  RedisSentinel_Validate rc = (rc, (false, None)) -> wf st -> up_to_date rc st ->
  triple env (fun w => before objs KRedisSentinel rc (Names.Sentinel.GetRedisName rc) m0 w /\
      there KRedisSentinel (fun o => o) rc (objs w))
    (Reconcile_sentinel fuel (Namespace (meta rc)) (Name (meta rc)) st)
    (fun r w => r.1 = sentinel_again /\ wf r.2 /\ up_to_date rc r.2 /\ sentinel_waiting rc m0 (objs w)).
Proof.
  intros Hwork Hdown Hvalid Hwf Hup. unfold Reconcile_sentinel.
  eapply triple_conseq; [| |eapply (Reconcile_waits env objs admits KRedisSentinel (fun o => o) (fun o => o) rc
    (SentinelHandler.operations fuel) _ (sentinel_objects rc) m0 Hwork Hdown (fun m => sentinel_untouched m fuel)
    (fun m o => sentinel_waits env objs admits m0 rc fuel m o Hwork
       (established_kept env objs admits KRedisSentinel (fun o => o) (fun o => o) rc (SentinelHandler.operations fuel)
          _ (sentinel_objects rc) m0 Hdown))
    (fun v s => Sentinel_valid_status v s rc Hvalid)); [reflexivity|reflexivity|reflexivity|exact Hwf|exact Hup]]; [by intros w Hw|].
  intros r w (? & ? & ? & [? ?] & ?). by split_and!.
Qed.

Lemma standalone_round (rs : RedisStandalone) m0 st `{HH : !HostedStandalone env objs admits rs} :
  Forall (workable admits (Namespace (meta rs)) m0) (standalone_objects rs) ->
  stays_down env objs (Names.Standalone.GetRedisName rs) rs ->
  RedisStandalone_Validate rs = (rs, (false, None)) -> wf st -> up_to_date rs st ->
  triple env (fun w => before objs KRedisStandalone rs (Names.Standalone.GetRedisName rs) m0 w /\
      there KRedisStandalone (fun o => o) rs (objs w))
    (Reconcile_standalone (Namespace (meta rs)) (Name (meta rs)) st)
    (fun r w => r.1 = standalone_again /\ wf r.2 /\ up_to_date rs r.2 /\ standalone_waiting rs m0 (objs w)).
Proof.
  intros Hwork Hdown Hvalid Hwf Hup. unfold Reconcile_standalone.
  eapply triple_conseq; [| |eapply (Reconcile_waits env objs admits KRedisStandalone (fun o => o) (fun o => o) rs
    StandaloneHandler.operations _ (standalone_objects rs) m0 Hwork Hdown standalone_untouched
    (fun m o => standalone_waits env objs admits m0 rs m o Hwork
       (established_kept env objs admits KRedisStandalone (fun o => o) (fun o => o) rs StandaloneHandler.operations
          _ (standalone_objects rs) m0 Hdown))
    (fun v s => Standalone_valid_status v s rs Hvalid)); [reflexivity|reflexivity|reflexivity|exact Hwf|exact Hup]]; [by intros w Hw|].
  intros r w (? & ? & ? & [? ?] & ?). by split_and!.
Qed.
End rounds.

