(* ===== verification/Lifecycle.v ===== *)
(** * From a new resource to a healthy cluster, call by call

    The controller calls [Reconcile] of a resource, waits for as long as the
    answer says, and calls again. The environment goes through two phases: in the
    first the pods are not up, the API server keeps what it is given, and only
    time helps; in the second the servers answer. [Startup] and [Reconciliation]
    say what one call does in each; here they are chained, over any number of
    calls. *)

From S2P Require Import Prelude GoStd Corev1 Api Samples Util Common Names Status Validate Effects Repair K8s.
From S2P Require Import RedisClient SentinelGen SentinelCheck SentinelHeal StandaloneService.
From S2P Require Import StandaloneHandler SentinelHandler Cache Handler Controller.
From S2P Require Import HealProps EnsureProps FlowProps Desired ApiServer Convergence Healthy Cluster Settings.
From S2P Require Import Monitors Rejoin Steady Recovery Reconciliation Startup.

(** ** Calls *)

Section loop.
  Context {S V : Type} (reconcile : M S reconciled) (env : Env V).
  (** What happens to the world until the next call. *)
  Context (rest : Result -> V -> V).

Definition round (st : Store S) (v : V) : option (Result * Store S * V) :=
  match run env (reconcile st) v with
  | (Returns ((r, None), st'), _, v') => Some (r, st', v')
  | _ => None
  end.

(** The answers to [n] calls and the world after each of them, if no call
    returned an error or panicked. *)
Fixpoint calls (n : nat) (st : Store S) (v : V) : option (list (Result * V)) :=
  match n with
  | O => Some []
  | Datatypes.S n =>
      match round st v with
      | Some (r, st', v') => l ← calls n st' (rest r v'); Some ((r, v') :: l)
      | None => None
      end
  end.

Lemma round_run (st : Store S) v r st' t v' :
  run env (reconcile st) v = (Returns ((r, None), st'), t, v') -> round st v = Some (r, st', v').
Proof. unfold round. by intros ->. Qed.

(** Two phases: [down] for [n] more calls, then [up] for ever. *)
Context (down : nat -> Store S -> V -> Prop) (up : Store S -> V -> Prop).
Context (waits healthy : Result -> V -> Prop).
Context (Hdown : forall n st v, down n st v -> exists r st' v', round st v = Some (r, st', v') /\ waits r v' /\
  match n with O => up st' (rest r v') | Datatypes.S n => down n st' (rest r v') end).
Context (Hup : forall st v, up st v -> exists r st' v', round st v = Some (r, st', v') /\ healthy r v' /\
  up st' (rest r v')).

Lemma calls_up m st v :
  up st v -> exists l, calls m st v = Some l /\ length l = m /\ Forall (fun x => healthy x.1 x.2) l.
Proof.
  revert st v; induction m as [|m IH]; intros st v Hv; [by exists []|].
  destruct (Hup st v Hv) as (r & st' & v' & E & Hr & Hv'). destruct (IH _ _ Hv') as (l & El & Hl & HF).
  exists ((r, v') :: l). cbn [calls]. rewrite E, El. split; [done|]. split; [simpl; lia|by constructor].
Qed.

Lemma calls_settle n m st v :
  down n st v ->
  exists l1 l2, calls (Datatypes.S n + m) st v = Some (l1 ++ l2) /\ length l1 = Datatypes.S n /\ length l2 = m /\
    Forall (fun x => waits x.1 x.2) l1 /\ Forall (fun x => healthy x.1 x.2) l2.
Proof.
  revert st v; induction n as [|n IH]; intros st v Hv;
    destruct (Hdown _ st v Hv) as (r & st' & v' & E & Hr & Hv').
  - destruct (calls_up m _ _ Hv') as (l & El & Hl & HF). exists [(r, v')], l. cbn [calls Nat.add]. rewrite E, El.
    split; [done|]. split; [done|]. split; [done|]. split; [by repeat constructor|done].
  - destruct (IH _ _ Hv') as (l1 & l2 & El & Hl1 & Hl2 & H1 & H2).
    exists ((r, v') :: l1), l2. change (Datatypes.S (Datatypes.S n) + m)%nat with (Datatypes.S (Datatypes.S n + m)).
    cbn [calls]. rewrite E, El. split; [done|]. split; [simpl; lia|]. split; [done|]. split; [by constructor|done].
Qed.
End loop.

(** ** Phases of an environment *)

(** The worlds [inj w] behave as [env'] says. *)
Class Embeds {W V} (env' : Env W) (env : Env V) (inj : W -> V) : Prop :=
  embeds e w : env e (inj w) = ((env' e w).1, inj (env' e w).2).

Lemma run_embeds {W V A} (env' : Env W) (env : Env V) inj `{!Embeds env' env inj} (p : prog A) w :
  run env p (inj w) = let '(o, t, w') := run env' p w in (o, t, inj w').
Proof.
  revert w; induction p as [a| | |e k IH]; intros w; try done. cbn [run]. rewrite embeds.
  destruct (env' e w) as [r w1]. cbn [fst snd]. rewrite IH. by destruct (run env' (k r) w1) as [[o t] w2].
Qed.

Lemma round_embeds {S W V} (reconcile : M S reconciled) (env' : Env W) (env : Env V) inj `{!Embeds env' env inj}
    (P : W -> Prop) st (Q : reconciled * Store S -> W -> Prop) res w :
  triple env' P (reconcile st) (fun r w => r.1 = (res, None) /\ Q r w) -> P w ->
  exists st' w', round reconcile env st (inj w) = Some (res, st', inj w') /\ Q ((res, None), st') w'.
Proof.
  intros H Hw. destruct (H w Hw) as ([a st'] & t & w' & E & Ha & HQ). cbn [fst] in Ha. subst a.
  exists st', w'. split; [|done]. eapply round_run. rewrite (run_embeds env' env inj), E. done.
Qed.

(** How many waits it takes until the pods are up; what is wanted stays there
    in between. *)
Record Growing {W U V} (starting : Env W) (inW : W -> V) (inU : U -> V) (rest : Result -> V -> V)
    (left : W -> nat) (waiting : W -> Prop) (fit : U -> Prop) : Prop := {
  left_kept e w : left (starting e w).2 = left w;
  rest_waits r w n : left w = S (S n) -> waiting w ->
    exists w', rest r (inW w) = inW w' /\ left w' = S n /\ waiting w';
  rest_ends r w : left w = 1%nat -> waiting w -> exists u, rest r (inW w) = inU u /\ fit u;
  rest_stays r u : fit u -> exists u', rest r (inU u) = inU u' /\ fit u'
}.

Lemma every_any {A} (p : prog A) : every (fun _ => True) p.
Proof. by induction p. Qed.

(** ** What the calls do, from what each of them does *)

Section phases.
  Context {S V W U : Type} (reconcile : M S reconciled) (env : Env V) (rest : Result -> V -> V).
  Context (starting : Env W) (inW : W -> V) `{!Embeds starting env inW}.
  Context (running : Env U) (inU : U -> V) `{!Embeds running env inU}.
  Context (left : W -> nat) (cached : Store S -> Prop) (pending waiting : W -> Prop) (fit in_order : U -> Prop).
  Context (again later : Result).
  Context (HG : Growing starting inW inU rest left waiting fit).
  Context (Hwaiting : forall w, waiting w -> pending w) (Hfit : forall u, in_order u -> fit u).
  Context (Hstart : forall st w, cached st -> pending w ->
    triple starting (eq w) (reconcile st) (fun r w => r.1 = (again, None) /\ cached r.2 /\ waiting w)).
  Context (Hheal : forall st u, cached st -> fit u ->
    triple running (eq u) (reconcile st) (fun r u => r.1 = (later, None) /\ cached r.2 /\ in_order u)).

Definition down (n : nat) (st : Store S) (v : V) : Prop :=
  cached st /\ exists w, v = inW w /\ left w = Datatypes.S n /\ pending w.
Definition up (st : Store S) (v : V) : Prop := cached st /\ exists u, v = inU u /\ fit u.

(** The answer while the pods are down, and when they are up. *)
Definition waits (r : Result) (v : V) : Prop := r = again /\ exists w, v = inW w /\ waiting w.
Definition healthy (r : Result) (v : V) : Prop := r = later /\ exists u, v = inU u /\ in_order u.

Lemma waiting_phase n st v :
  down n st v -> exists r st' v', round reconcile env st v = Some (r, st', v') /\ waits r v' /\
    match n with O => up st' (rest r v') | Datatypes.S n => down n st' (rest r v') end.
Proof.
  intros (Hc & w & -> & Hn & Hw).
  assert (forall e w, True -> left w = Datatypes.S n -> left (starting e w).2 = Datatypes.S n) as Hleft
    by (intros e w' _; by rewrite (left_kept _ _ _ _ _ _ _ HG)).
  destruct (round_embeds reconcile starting env inW (fun w' => w = w' /\ left w' = Datatypes.S n) st
    (fun r w => (cached r.2 /\ waiting w) /\ left w = Datatypes.S n) again w)
    as (st' & w' & E & [Hc' Hw'] & Hn'); [|done|].
  - eapply triple_conseq, (triple_keeps starting (fun w => left w = Datatypes.S n) (fun _ => True) Hleft _ _ _
      (every_any _) (Hstart st w Hc Hw)); [done|]. by intros r w' ((E & ?) & ?).
  - exists again, st', (inW w'). split; [exact E|]. split; [by split; [|exists w']|]. destruct n as [|n].
    + destruct (rest_ends _ _ _ _ _ _ _ HG again w' Hn' Hw') as (u & -> & Hu). split; [done|by exists u].
    + destruct (rest_waits _ _ _ _ _ _ _ HG again w' n Hn' Hw') as (w2 & -> & Hn2 & Hw2).
      split; [done|]. exists w2. auto.
Qed.

Lemma healthy_phase st v :
  up st v -> exists r st' v', round reconcile env st v = Some (r, st', v') /\ healthy r v' /\ up st' (rest r v').
Proof.
  intros (Hc & u & -> & Hu).
  destruct (round_embeds reconcile running env inU (eq u) st (fun r u => cached r.2 /\ in_order u) later u
    (Hheal st u Hc Hu) eq_refl) as (st' & u' & E & Hc' & Ho).
  exists later, st', (inU u'). split; [exact E|]. split; [by split; [|exists u']|].
  destruct (rest_stays _ _ _ _ _ _ _ HG later u' (Hfit u' Ho)) as (u2 & -> & Hu2). split; [done|by exists u2].
Qed.

Lemma comes_up n m st w :
  cached st -> pending w -> left w = Datatypes.S n ->
  exists l1 l2, calls reconcile env rest (Datatypes.S n + m) st (inW w) = Some (l1 ++ l2) /\
    length l1 = Datatypes.S n /\ length l2 = m /\
    Forall (fun x => waits x.1 x.2) l1 /\ Forall (fun x => healthy x.1 x.2) l2.
Proof.
  intros Hc Hw Hn. eapply (calls_settle _ _ _ down up waits healthy waiting_phase healthy_phase).
  split; [done|]. by exists w.
Qed.
End phases.

(** ** Sentinel clusters *)

(** At most one server is a master, and none is without a role; and the API server
    has the resource. *)
Definition fit {U} (O : Observers U) (D : Installation) (at_version : string -> U -> Prop) (u : U) : Prop :=
  known (d_redis_pods D) (o_roles O u) /\ (length (masters (d_redis_pods D) (o_roles O u)) <= 1)%nat /\
  exists v, at_version v u.

Definition in_order {U} (O : Observers U) (D : Installation) (rc : RedisSentinel) (u : U) : Prop :=
  exists x, in_order_under O D rc x u.

(** The resource has been created, whatever there is of its objects. *)
Definition sentinel_new {QO : QuantityOrder} (admits : Admission) (rc : RedisSentinel) (m : Objects) : Prop :=
  there KRedisSentinel (fun o => o) rc m /\ pods_down (Names.Sentinel.GetRedisName rc) rc m /\
  Forall (workable admits (Namespace (meta rc)) m) (sentinel_objects rc).

Section sentinel.
  Context {TF : TimeFormat} {QO : QuantityOrder} `{QL : !QuantityLaws QO} {W : Type}.
  Context (starting : Env W) (objs : W -> Objects) (admits : Admission) (rc : RedisSentinel).
  Context `{HH : !HostedSentinel starting objs admits rc}.
  Context (Hstays : stays_down starting objs (Names.Sentinel.GetRedisName rc) rc).
  Context (m0 : Objects) (Hnew : sentinel_new admits rc m0).
  Context (Hvalid : RedisSentinel_Validate rc = (rc, (false, None))).

(** A call while the pods are down, the first or another one. *)
Lemma sentinel_call fuel st w :
  cached rc st -> objs w = m0 \/ sentinel_waiting rc m0 (objs w) ->
  triple starting (eq w) (Reconcile_sentinel fuel (Namespace (meta rc)) (Name (meta rc)) st)
    (fun r w => r.1 = sentinel_again /\ cached rc r.2 /\ sentinel_waiting rc m0 (objs w)).
Proof.
  intros [Hwf Hup] Hw. destruct Hnew as (Ht & Hd & Hwork).
  assert (there KRedisSentinel (fun o => o) rc (objs w) /\ pods_down (Names.Sentinel.GetRedisName rc) rc (objs w) /\
    Forall (workable admits (Namespace (meta rc)) (objs w)) (sentinel_objects rc) /\
    forall w', sentinel_waiting rc (objs w) (objs w') -> sentinel_waiting rc m0 (objs w')) as (Ht1 & Hd1 & Hw1 & Hadd).
  { destruct Hw as [E|(Hm & Ht1 & Hd1)]; [rewrite <- E in Ht, Hd, Hwork |- *; by split_and!|].
    destruct (after_again objs admits KRedisSentinel rc (SentinelHandler.operations fuel)
      (Names.Sentinel.GetRedisName rc) (sentinel_objects rc) m0 Hwork w (conj Hm Hd1)) as [H1 H2].
    split; [exact Ht1|]. split; [exact Hd1|]. split; [exact H1|].
    intros w' (Hm' & Ht' & Hd'). split; [by apply H2|by split]. }
  eapply triple_conseq, (sentinel_round starting objs admits rc fuel (objs w) st Hw1 Hstays Hvalid Hwf Hup).
  - by intros w' <-.
  - intros r w' (E & ? & ? & ?). split; [done|]. split; [done|]. by apply Hadd.
Qed.
End sentinel.


(** ** Standalone servers *)

Definition standalone_new {QO : QuantityOrder} (admits : Admission) (rs : RedisStandalone) (m : Objects) : Prop :=
  there KRedisStandalone (fun o => o) rs m /\ pods_down (Names.Standalone.GetRedisName rs) rs m /\
  Forall (workable admits (Namespace (meta rs)) m) (standalone_objects rs).

Section standalone.
  Context {TF : TimeFormat} {QO : QuantityOrder} `{QL : !QuantityLaws QO} {W : Type}.
  Context (starting : Env W) (objs : W -> Objects) (admits : Admission) (rs : RedisStandalone).
  Context `{HH : !HostedStandalone starting objs admits rs}.
  Context (Hstays : stays_down starting objs (Names.Standalone.GetRedisName rs) rs).
  Context (m0 : Objects) (Hnew : standalone_new admits rs m0).
  Context (Hvalid : RedisStandalone_Validate rs = (rs, (false, None))).

Lemma standalone_call st w :
  cached rs st -> objs w = m0 \/ standalone_waiting rs m0 (objs w) ->
  triple starting (eq w) (Reconcile_standalone (Namespace (meta rs)) (Name (meta rs)) st)
    (fun r w => r.1 = standalone_again /\ cached rs r.2 /\ standalone_waiting rs m0 (objs w)).
Proof.
  intros [Hwf Hup] Hw. destruct Hnew as (Ht & Hd & Hwork).
  assert (there KRedisStandalone (fun o => o) rs (objs w) /\ pods_down (Names.Standalone.GetRedisName rs) rs (objs w) /\
    Forall (workable admits (Namespace (meta rs)) (objs w)) (standalone_objects rs) /\
    forall w', standalone_waiting rs (objs w) (objs w') -> standalone_waiting rs m0 (objs w'))
    as (Ht1 & Hd1 & Hw1 & Hadd).
  { destruct Hw as [E|(Hm & Ht1 & Hd1)]; [rewrite <- E in Ht, Hd, Hwork |- *; by split_and!|].
    destruct (after_again objs admits KRedisStandalone rs StandaloneHandler.operations
      (Names.Standalone.GetRedisName rs) (standalone_objects rs) m0 Hwork w (conj Hm Hd1)) as [H1 H2].
    split; [exact Ht1|]. split; [exact Hd1|]. split; [exact H1|].
    intros w' (Hm' & Ht' & Hd'). split; [by apply H2|by split]. }
  eapply triple_conseq, (standalone_round starting objs admits rs (objs w) st Hw1 Hstays Hvalid Hwf Hup).
  - by intros w' <-.
  - intros r w' (E & ? & ? & ?). split; [done|]. split; [done|]. by apply Hadd.
Qed.
End standalone.

(** C6: A new standalone server comes up and stays in order, under the same
    conditions: the first [n + 1] calls create and wait, with the usual time
    between them; after each of the following ones the server has all the user's
    settings; and no call returns an error. *)
Theorem server_comes_up {TF : TimeFormat} {QO : QuantityOrder} `{QL : !QuantityLaws QO} {V W U}
    (env : Env V) (rest : Result -> V -> V) (rs : RedisStandalone)
    (starting : Env W) (inW : W -> V) (objs : W -> Objects) admits (running : Env U) (inU : U -> V)
    up conf accepts normal ss labels pods at_version (left : W -> nat)
    `{!Embeds starting env inW} `{!Embeds running env inU} `{HH : !HostedStandalone starting objs admits rs}
    `{!ObedientServer running up conf accepts normal ss labels pods rs}
    `{SV : !ServedStandalone running rs at_version} :
  RedisStandalone_Validate rs = (rs, (false, None)) ->
  stays_down starting objs (Names.Standalone.GetRedisName rs) rs ->
  forall n m st w, cached rs st -> standalone_new admits rs (objs w) -> left w = S n ->
  Growing starting inW inU rest left (fun w' => standalone_waiting rs (objs w) (objs w'))
    (fun u => exists v, at_version v u) ->
  exists l1 l2,
    calls (Reconcile_standalone (Namespace (meta rs)) (Name (meta rs))) env rest (S n + m) st (inW w)
      = Some (l1 ++ l2) /\ length l1 = S n /\ length l2 = m /\
    Forall (fun x => x.1 = mkResult false (ReconcileTime * second) /\
      exists w', x.2 = inW w' /\ standalone_waiting rs (objs w) (objs w')) l1 /\
    Forall (fun x => x.1 = mkResult false (ReconcileTime * second) /\
      exists u, x.2 = inU u /\ servers_settled conf pods rs u) l2.
Proof.
  intros Hvalid Hstays n m st w Hc Hnew Hn HG.
  destruct (comes_up (Reconcile_standalone (Namespace (meta rs)) (Name (meta rs))) env rest starting inW running inU
    left (cached rs) (fun w' => objs w' = objs w \/ standalone_waiting rs (objs w) (objs w')) _
    (fun u => exists v, at_version v u)
    (fun u => servers_settled conf pods rs u /\ exists v, at_version v u) (mkResult false (ReconcileTime * second))
    (mkResult false (ReconcileTime * second)) HG) with n m st w as (l1 & l2 & E & H1 & H2 & F1 & F2);
    [by right|by intros u [_ Hv]| | |exact Hc|by left|exact Hn|].
  - intros st' w' Hc' Hw'. by apply (standalone_call starting objs admits).
  - intros st' u [Hwf Hup] Hv.
    eapply triple_conseq, (Reconcile_heals_standalone running up conf accepts normal ss labels pods rs at_version st');
      try done.
    + by intros u' <-.
    + intros r u' (Hr & ? & ? & ? & ?). by split_and!.
  - exists l1, l2. split; [exact E|]. split; [exact H1|]. split; [exact H2|]. split; [exact F1|].
    eapply Forall_impl; [exact F2|]. intros x (? & u & ? & ? & _). split; [done|]. by exists u.
Qed.
