(* ===== verification/Booting.v ===== *)
(** * A cluster that starts from nothing

    An API server whose StatefulSets have no ready pods for some waits, after
    which the world becomes the one of [Whole]. The theorems of [Startup] and
    [Lifecycle] are instantiated on it, and the calls computed. *)

From S2P Require Import Prelude GoStd Corev1 Api Samples Util Common Names Status Validate Effects K8s.
From S2P Require Import RedisClient SentinelGen SentinelCheck StandaloneHandler SentinelHandler Cache Handler Controller.
From S2P Require Import EnsureProps FlowProps.
From S2P Require Import Desired ApiServer Convergence Healthy Cluster Settings Steady Recovery Reconciliation.
From S2P Require Import Whole Startup Lifecycle.

(** ** The API server *)

(** The server does not take the status of a StatefulSet from whoever writes it,
    and no pod comes up. *)
Definition no_pods (ss : StatefulSet) : StatefulSet :=
  mkStatefulSet (ss_meta ss) (ss_ServiceName ss) (ss_Replicas ss) (ss_UpdateStrategy ss) (ss_Selector ss)
    (ss_Template ss) (ss_VolumeClaimTemplates ss) 0.

Definition stored_as (k : kind) : object k -> object k :=
  match k with KStatefulSet => no_pods | _ => fun o => o end.

(** Of a custom resource it takes the status, if it is written from the version in
    the store; that makes another version. *)
Definition newer (v : string) : string := v ^^ "+".
Definition put_status {S} (k : kind) (inj : CustomResource S -> object k) (proj : object k -> CustomResource S)
    (o : CustomResource S) (m : Objects) : result (object k) * Objects :=
  match m k !! (Namespace (meta o), Name (meta o)) with
  | Some old =>
      let v := ResourceVersion (meta (proj old)) in
      if (ResourceVersion (meta o) =? v)%string
      then let new := inj (revised (newer v) (Status o) (proj old)) in (inr new, put_object new m)
      else (inl conflict, m)
  | None => (inl missing, m)
  end.

Definition booting : Env Objects := fun e =>
  match e return Objects -> resp e * Objects with
  | Create k o => server (Create k (stored_as k o))
  | Update k o => server (Update k (stored_as k o))
  | StatusUpdate k o => fun m =>
      match k return object k -> result (object k) * Objects with
      | KRedisSentinel => fun o => put_status KRedisSentinel (fun o => o) (fun o => o) o m
      | KRedisStandalone => fun o => put_status KRedisStandalone (fun o => o) (fun o => o) o m
      | _ => fun o => (inr o, m)
      end o
  | e => server e
  end.

(** With the number of waits until the pods are up. *)
Definition Boot : Type := Objects * nat.
Definition boot : Env Boot := fun e w => ((booting e w.1).1, ((booting e w.1).2, w.2)).

Lemma stored_key k (o : object k) : key_in (stored_as k o) = key_in o.
Proof. by destruct k. Qed.

Lemma stored_kept k (o : object k) : kept k o (stored_as k o).
Proof. by destruct k. Qed.

Lemma stored_admits k old (o : object k) : server_admits k old (stored_as k o) = server_admits k old o.
Proof. by destruct k. Qed.

#[export] Instance boot_api : ApiServer boot fst server_admits.
Proof.
  split.
  - intros k ns name [m n]. exact (server_get (ApiServer := server_keeps) k ns name m).
  - intros k o [m n] E. cbn [fst] in E. rewrite <- stored_key in E. unfold boot.
    cbn [fst snd booting server]. rewrite E.
    rewrite stored_admits. destruct (server_admits k None o); [|split; [done|by eexists]].
    split; [done|]. exists (stored_as k o). split; [apply stored_kept|]. split; [apply stored_key|apply put_object_put].
  - intros k old o [m n] E. cbn [fst] in E. rewrite <- stored_key in E. unfold boot.
    cbn [fst snd booting server]. rewrite E.
    rewrite stored_admits. destruct (server_admits k (Some old) o); [|split; [done|by eexists]].
    exists (stored_as k o). split; [done|]. split; [apply stored_kept|]. split; [apply stored_key|apply put_object_put].
  - done.
Qed.

Lemma put_object_other {k} (o : object k) k' m key : k <> k' -> put_object o m k' !! key = m k' !! key.
Proof. intros Hk. unfold put_object. by destruct (decide (k = k')). Qed.

Lemma put_object_same {k} (o : object k) m : put_object o m k !! key_in o = Some o.
Proof. apply put_object_put. Qed.

(** Objects of a kind nobody writes stay as they are. *)
Lemma put_status_other {S} k inj proj (o : CustomResource S) k' m key :
  k <> k' -> (put_status k inj proj o m).2 k' !! key = m k' !! key.
Proof.
  intros Hk. unfold put_status. destruct (m k !! _) as [old|]; [|done]. cbv zeta.
  destruct (_ =? _)%string; [|done]. by apply put_object_other.
Qed.

Lemma booting_other k e m key : touches k e = false -> (booting e m).2 k !! key = m k !! key.
Proof.
  destruct e as [|k' o|k' o|k' o| | | | | | | | | | | | |]; try done; simpl; intros Hk%bool_decide_eq_false.
  - destruct (m k' !! _); [done|]. destruct (server_admits _ _ _); [|done]. by apply put_object_other.
  - destruct (m k' !! _); [|done]. destruct (server_admits _ _ _); [|done]. by apply put_object_other.
  - destruct k'; try done; by apply put_status_other.
Qed.

Lemma booting_stored {S} k (inj : CustomResource S -> object k) rc v e w :
  touches k e = false -> stored_at k inj rc v w.1 -> stored_at k inj rc v (boot e w).2.1.
Proof. intros He (o & Ho & Hs). exists o. unfold boot. cbn [fst snd]. by rewrite booting_other. Qed.

(** The status that was written is in the store, at the new version. *)
Lemma put_status_stored {S} `{HasRedisSpec S} k (inj : CustomResource S -> object k) proj (rc o : CustomResource S) m :
  (forall x, proj (inj x) = x) -> (forall x, key_in (inj x) = (Namespace (meta x), Name (meta x))) ->
  like rc o -> stored_at k inj rc (ResourceVersion (meta o)) m -> exists stored,
    (put_status k inj proj o m).1 = inr stored /\ same_resource rc (proj stored) /\ Status (proj stored) = Status o /\
    stored_at k inj rc (ResourceVersion (meta (proj stored))) (put_status k inj proj o m).2.
Proof.
  intros Hpi Hkey Hlike (old & Hold & Hs & Hv). unfold put_status.
  pose proof (same_meta_fields _ _ (proj1 Hlike)) as (<- & <- & _). rewrite Hold, Hpi, Hv, String.eqb_refl. cbv zeta.
  set (new := revised _ _ old).
  assert (same_resource rc new) as Hn by (etrans; [exact Hs|apply revised_same]).
  exists (inj new). cbn [fst snd]. split; [done|]. rewrite Hpi. split; [exact Hn|]. split; [done|].
  exists new. split; [|done]. pose proof (same_meta_fields _ _ (proj1 Hn)) as (-> & -> & _).
  rewrite <- Hkey. apply put_object_same.
Qed.

#[export] Instance boot_sentinel rc : HostedSentinel boot fst server_admits rc.
Proof.
  split; [apply _| | |intros v e w; apply booting_stored].
  - intros o [m n] Ho Hv. by apply (put_status_stored KRedisSentinel (fun o => o) (fun o => o) rc o m).
  - intros e w k key He Hk. apply booting_other. destruct e; try done.
    apply bool_decide_eq_true in He as ->. by apply bool_decide_eq_false_2.
Qed.

#[export] Instance boot_standalone rs : HostedStandalone boot fst server_admits rs.
Proof.
  split; [apply _| | |intros v e w; apply booting_stored].
  - intros o [m n] Ho Hv. by apply (put_status_stored KRedisStandalone (fun o => o) (fun o => o) rs o m).
  - intros e w k key He Hk. apply booting_other. destruct e; try done.
    apply bool_decide_eq_true in He as ->. by apply bool_decide_eq_false_2.
Qed.

Lemma put_down {S} `{HasRedisSpec S} name (rc : CustomResource S) k (o : object k) m :
  Size (redisSpec (Spec rc)) <> 0 -> pods_down name rc m -> pods_down name rc (put_object (stored_as k o) m).
Proof.
  intros Hsize Hd ss. unfold put_object. destruct (decide (k = KStatefulSet)) as [->|]; [|apply Hd].
  simpl. rewrite lookup_insert_Some. intros [[_ <-]|[_ Hss]]; [simpl; congruence|by apply Hd].
Qed.

Lemma boot_down {S} `{HasRedisSpec S} name (rc : CustomResource S) :
  Size (redisSpec (Spec rc)) <> 0 -> stays_down boot fst name rc.
Proof.
  intros Hsize e [m n] Hd. unfold boot. cbn [fst snd] in *.
  destruct e as [|k o|k o|k o| | | | | | | | | | | | |]; try exact Hd.
  - simpl. destruct (m k !! _); [exact Hd|]. destruct (server_admits _ _ _); [by apply put_down|exact Hd].
  - simpl. destruct (m k !! _); [|exact Hd]. destruct (server_admits _ _ _); [by apply put_down|exact Hd].
  - destruct k; try exact Hd; intros ss; rewrite (booting_other KStatefulSet) by reflexivity; apply Hd.
Qed.

(** ** Nothing but the resources *)

Definition requested : Objects :=
  put_object (k := KRedisSentinel) fullSentinel (put_object (k := KRedisStandalone) fullStandalone nothing).

(** What is wanted is missing, and the server will admit it. *)
Ltac all_admitted :=
  repeat apply Forall_cons_2; try apply Forall_nil_2; (apply absent_workable; [reflexivity|]); intros o Ho;
  first [reflexivity | rewrite Ho; reflexivity].

Lemma requested_sentinel : sentinel_new server_admits fullSentinel requested.
Proof.
  split; [by eexists _, fullSentinel|]. split.
  - intros ss H. exfalso. revert H. done.
  - unfold sentinel_objects, sentinel_wants, sentinel_first. cbn -[server_admits]. all_admitted.
Qed.

Lemma requested_standalone : standalone_new server_admits fullStandalone requested.
Proof.
  split; [by eexists _, fullStandalone|]. split.
  - intros ss H. exfalso. revert H. done.
  - unfold standalone_objects, standalone_wants, standalone_first. cbn -[server_admits]. all_admitted.
Qed.

Lemma empty_cached {S} `{HasRedisSpec S} (rc : CustomResource S) : cached rc (mkStore [] ∅).
Proof. split; [intros k m Hm|intros m old Hm]; simpl in Hm; by rewrite lookup_empty in Hm. Qed.

(** ** The two phases *)

Definition living (up : Env Whole) : Env (Boot + Whole) := fun e v =>
  match v with
  | inl w => ((boot e w).1, inl (boot e w).2)
  | inr u => ((up e u).1, inr (up e u).2)
  end.

(** One wait less; after the last one the pods are up, without a master. *)
Definition let_live (r : Result) (v : Boot + Whole) : Boot + Whole :=
  match v with
  | inl (m, S (S n)) => inl (m, S n)
  | inl _ => inr neglected
  | inr u => inr (pass (RequeueAfter r) u)
  end.

#[export] Instance living_boot up : Embeds boot (living up) inl.
Proof. by intros e w. Qed.
#[export] Instance living_whole up : Embeds up (living up) inr.
Proof. by intros e u. Qed.

Lemma living_grows (waiting : Objects -> Prop) (fit : Whole -> Prop) :
  fit neglected -> (forall d u, fit u -> fit (pass d u)) ->
  Growing boot inl inr let_live snd (fun w => waiting w.1) fit.
Proof.
  intros Hfit Hpass. split.
  - done.
  - intros r [m k] n Hn Hw. simpl in Hn. subst k. by exists (m, S n).
  - intros r [m k] Hn _. simpl in Hn. subst k. by exists neglected.
  - intros r u Hu. exists (pass (RequeueAfter r) u). auto.
Qed.

(** ** Witnesses *)



Lemma server_comes_up_witness :
  exists l, calls (Reconcile_standalone (TF := sampleFormat) "prod" "demo") (living lonely) let_live 3 (mkStore [] ∅)
      (inl (requested, 1%nat)) = Some l /\ length l = 3%nat.
Proof.
  destruct (server_comes_up (TF := sampleFormat) (QL := sampleOrder_laws) (living lonely) let_live fullStandalone
    boot inl fst server_admits lonely inr trusted (fun w => memory (h_conf w)) (fun _ _ => True) stored lonelySet
    (default ∅ (ss_Selector lonelySet)) [lonelyPod] current_version snd
    ltac:(vm_compute; reflexivity) ltac:(by apply boot_down) 0 2 (mkStore [] ∅) (requested, 1%nat)
    (empty_cached fullStandalone) requested_standalone eq_refl)
    as (l1 & l2 & E & Hl1 & Hl2 & _).
  { apply (living_grows (standalone_waiting fullStandalone requested)); [by eexists|done]. }
  exists (l1 ++ l2). split; [exact E|]. rewrite length_app. lia.
Defined.

(** Computed: five calls, of which the first three find the pods down, and
    everything is made by the first of them; and the versions of the resource. *)
Definition sets_made (v : Boot + Whole) : nat :=
  match v with inl (m, _) => size (m KStatefulSet) | inr _ => 0 end.
Definition version_of (v : Boot + Whole) : string :=
  match v with
  | inl (m, _) =>
      match m KRedisSentinel !! ("prod", "demo") with
      | Some o => ResourceVersion (meta (o : RedisSentinel))
      | None => ""
      end
  | inr u => FormatInt (h_version u)
  end.

Example five_calls :
  option_map (List.map (fun x => (RequeueAfter x.1 / second, sets_made x.2, version_of x.2)))
    (calls (Reconcile_sentinel (TF := sampleFormat) 7 "prod" "demo") (living whole) let_live 5 (mkStore [] ∅)
      (inl (requested, 3%nat)))
  = Some [(20, 2%nat, "7+"); (20, 2%nat, "7+"); (20, 2%nat, "7+"); (10, 0%nat, "8"); (10, 0%nat, "9")].
Proof. vm_compute. done. Qed.
