(* ===== verification/UnitTests.v ===== *)
(** * The repository's unit tests, run on the model

    The cases of [pkg/util/utils_test.go], [pkg/client/redis/client_test.go],
    [controllers/redissentinel/cache/cahce_test.go] and
    [pkg/client/k8s/*_test.go], by their names, with the results the tests expect.
    All but the first file are commented out in the repository; the fields they
    set have moved since. *)

From S2P Require Import Prelude GoStd Corev1 Api Samples Util Common Names Status Effects K8s.
From S2P Require Import RedisClient Cache ApiServer.

(** ** [TestParseRedisMemConf] *)

Definition mem_conf (p : string) : option string :=
  match ParseRedisMemConf p with inl _ => None | inr v => Some v end.

Example TestParseRedisMemConf :
  List.map mem_conf ["12b"; "1202"; "12B"; "12k"; "12kk"; "12kb"; "12Kb"; "12m"; "12mb"; "12g"; "12gb"] =
  [Some "12"; Some "1202"; Some "12"; Some "12000"; None; Some "12288"; Some "12288"; Some "12000000";
   Some "12582912"; Some "12000000000"; Some "12884901888"].
Proof. vm_compute. reflexivity. Qed.

(** ** [Test_slaveInfoFieldByName] *)

Definition blob (l : list string) : value := VArray (List.map VString l).

Definition slaveInfoBlobA := blob ["name"; "[xxxxA]:6379"; "ip"; "xxxxA"; "port"; "6379"; "runid";
  "6f792839ab551e8dbec58e0eb3b3838d14f19a37"; "flags"; "slave"; "link-pending-commands"; "1"; "link-refcount"; "1";
  "last-ping-sent"; "0"; "last-ok-ping-reply"; "1055"; "last-ping-reply"; "1055"; "down-after-milliseconds"; "5000";
  "info-refresh"; "2074"; "role-reported"; "slave"; "role-reported-time"; "2983115"; "master-link-down-time"; "0";
  "master-link-status"; "ok"; "master-host"; "xxxxA"; "master-port"; "6379"; "slave-priority"; "1";
  "slave-repl-offset"; "124614695"].
Definition slaveInfoBlobB := blob ["name"; "[xxxxB]:6371"; "ip"; "xxxxB"; "port"; "6371"; "runid";
  "fake_slave_8bb90711-8f37-44e8-b3b2-589af"; "flags"; "slave"; "link-pending-commands"; "1"; "link-refcount"; "1";
  "last-ping-sent"; "0"; "last-ok-ping-reply"; "1055"; "last-ping-reply"; "1055"; "down-after-milliseconds"; "5000";
  "info-refresh"; "2075"; "role-reported"; "slave"; "role-reported-time"; "2983114"; "master-link-down-time"; "0";
  "master-link-status"; "ok"; "master-host"; "xxxxB"; "master-port"; "6379"; "slave-priority"; "0";
  "slave-repl-offset"; "124614695"].
Definition slaveInfoBlobC := blob ["name"; "[xxxxB]:6371"; "ip"; "slave-priority"; "slave-priority"; "100"].
Definition slaveInfoBlobD := blob ["name"; "[xxxxB]:6371"; "ip"; "xxxxB"; "slave-priority"].

Example Test_slaveInfoFieldByName :
  List.map (slaveInfoFieldByName "slave-priority") [slaveInfoBlobA; slaveInfoBlobB; slaveInfoBlobC; slaveInfoBlobD] =
  [Ret "1"; Ret "0"; Ret "100"; Ret ""].
Proof. reflexivity. Qed.

(** ** [TestCache], [TestCachePasswd] *)

Definition tested (generation size : Z) (password : string) (status : ClusterStatus) : RedisSentinel :=
  mkResource (mkObjectMeta "test1" "prj-shu" "" "" generation 0 ∅ ∅ [])
    (mkSentinelSpec (set_Password password (set_Size size emptySpec)) emptySettings) status.

(** The objects are cached one after the other: the entry after each, and the
    password in the object it points to. *)
Fixpoint cache_all (objs : list RedisSentinel) (st : Store RedisSentinelSpec)
    : option (list (StateType * string * string * option string)) :=
  match objs with
  | [] => Some []
  | o :: objs =>
      let '(l, st) := alloc o st in
      '(m, st) ← SentinelCache.Cache l st;
      rest ← cache_all objs st;
      Some ((State m, m_Status m, auth_Password (Auth m),
             (fun o => Password (redis (Spec o))) <$> heap st !! l) :: rest)
  end.

Definition summary (r : StateType * string * string * option string) : StateType * string := r.1.1.
Definition passwords (r : StateType * string * string * option string) : string * option string := (r.1.2, r.2).

(** With a status, as the resource has one after the first round. *)
Definition someStatus : ClusterStatus := mkStatus [] "10.0.0.1" "".

Example TestCache :
  option_map (List.map summary) (cache_all [tested 1 3 "" emptyStatus; tested 2 4 "" someStatus;
    tested 2 4 "" someStatus] (mkStore [] ∅)) =
  Some [(StateCreate, ClusterConditionCreating); (StateUpdate, ClusterConditionScaling);
        (StateCheck, ClusterConditionScaling)].
Proof. vm_compute. reflexivity. Qed.

(** As the test has it, without a status, the third object is taken for a new one. *)
Example TestCache_no_status :
  option_map (List.map summary) (cache_all [tested 1 3 "" emptyStatus; tested 2 4 "" emptyStatus;
    tested 2 4 "" emptyStatus] (mkStore [] ∅)) =
  Some [(StateCreate, ClusterConditionCreating); (StateUpdate, ClusterConditionScaling);
        (StateCreate, ClusterConditionScaling)].
Proof. vm_compute. reflexivity. Qed.

Example TestCachePasswd :
  option_map (List.map passwords) (cache_all [tested 1 3 "test" emptyStatus; tested 2 4 "test1" emptyStatus;
    tested 3 4 "test2" emptyStatus] (mkStore [] ∅)) =
  Some [("test", Some "test"); ("test", Some "test"); ("test", Some "test")].
Proof. vm_compute. reflexivity. Qed.

(** ** [Test...ServiceGetCreateOrUpdate] *)

(** The API server of a case: what [Get] and [Create] answer. *)
Definition scripted {k} (got : result (object k)) (created : result unit) : Env unit := fun e w =>
  (match e return resp e with
   | Get k' _ _ =>
       match decide (k = k') with
       | left H => eq_rect k (fun k => result (object k)) got k' H
       | right _ => inl (errors_New "another kind")
       end
   | Create _ _ => created
   | Update _ o => inr o
   | StatusUpdate _ o => inr o
   | Delete _ _ => inr tt
   | List _ _ _ => inr []
   | StringCmd _ _ => inr ""
   | SliceCmd _ _ => inr []
   | IntCmd _ _ => inr 0
   | BoolCmd _ _ => inr true
   | StatusCmd _ _ => inr ""
   | Now => 0
   | Sleep _ => tt
   | Seed => []
   | RecordEvent _ _ _ _ _ _ => tt
   | SetGauge _ _ _ => tt
   | DeleteGauge _ _ => tt
   end, w).

(** The requests of a run, and whether it ended with an error. *)
Definition actions {k} (p : prog (result unit)) (got : result (object k)) (created : result unit)
    : list Eff * bool :=
  match run (scripted got created) p tt with
  | (Returns (inr _), t, _) => (List.map (@projT1 _ _) t, false)
  | (_, t, _) => (List.map (@projT1 _ _) t, true)
  end.

Definition testMeta (name : string) : ObjectMeta := mkObjectMeta name "testns" "" "10" 0 0 ∅ ∅ [].
Definition notFound : error := mkError "not found" true.
Definition wanted_error : error := errors_New "wanted error".

(** A new object is created, whether the creation succeeds or fails; an existing
    one is updated. *)
Definition creates_or_updates (k : kind) (createOrUpdate : string -> object k -> prog (result unit))
    (o : object k) : Prop :=
  let name := Name (object_meta k o) in
  actions (createOrUpdate "testns" o) (k := k) (inl notFound) (inr tt)
    = ([Get k "testns" name; Create k o], false) /\
  actions (createOrUpdate "testns" o) (k := k) (inl notFound) (inl wanted_error)
    = ([Get k "testns" name; Create k o], true) /\
  actions (createOrUpdate "testns" o) (k := k) (inr o) (inr tt)
    = ([Get k "testns" name; Update k o], false).

Definition testConfigMap : ConfigMap := mkConfigMap (testMeta "testconfigmap1") ∅.
Definition testService : Service := mkService (testMeta "testservice1") "" "" [] ∅.
Definition testPod : Pod := mkPod (testMeta "testpod1") "" "" None.
Definition testDeployment : Deployment := mkDeployment (testMeta "testdeployment1") None.
Definition testPodDisruptionBudget : PodDisruptionBudget := mkPDB (testMeta "testpodDisruptionBudget1") None ∅.
Definition testStatefulSet : StatefulSet :=
  mkStatefulSet (testMeta "teststatefulSet1") "" None "" None
    (mkPodTemplate ∅ ∅ (mkPodSpec None [] ∅ None [] [] [] [])) [] 0.

Example TestConfigMapServiceGetCreateOrUpdate : creates_or_updates KConfigMap CreateOrUpdateConfigMap testConfigMap.
Proof. by split_and!. Qed.
Example TestServiceServiceGetCreateOrUpdate : creates_or_updates KService CreateOrUpdateService testService.
Proof. by split_and!. Qed.
Example TestPodServiceGetCreateOrUpdate : creates_or_updates KPod CreateOrUpdatePod testPod.
Proof. by split_and!. Qed.
Example TestDeploymentServiceGetCreateOrUpdate :
  creates_or_updates KDeployment CreateOrUpdateDeployment testDeployment.
Proof. by split_and!. Qed.
Example TestPodDisruptionBudgetServiceGetCreateOrUpdate :
  creates_or_updates KPodDisruptionBudget CreateOrUpdatePodDisruptionBudget testPodDisruptionBudget.
Proof. by split_and!. Qed.
Example TestStatefulSetServiceGetCreateOrUpdate :
  creates_or_updates KStatefulSet CreateOrUpdateStatefulSet testStatefulSet.
Proof. by split_and!. Qed.
